(* ===== verification/_CoqProject ===== *)
-Q . S2P
Prelude.v
GoStrings.v
GoConv.v
GoNet.v
GoQuote.v
GoJson.v
ErrorText.v
PortRange.v
Names.v
Match.v
MatchParser.v
GoScan.v
Action.v
Codegen.v
ActionParser.v
ActionSplit.v
Flow.v
Normal.v
Stats.v
Client.v
Shell.v
Pipes.v
OpenFlow.v
Mirror.v
VSwitch.v
Sharing.v
Kernel.v
Ovsnl.v
Layout.v
Ntlk.v
Ovsdb.v
Lifecycle.v
EchoStats.v
RpcSpec.v
Wire.v
TestConn.v
SendLock.v
TestServer.v
CArray.v
L2fwd.v
L2arp.v
L2args.v
L2main.v
Basicfwd.v
CodingSwitch.v
Topology.v
