(* ===== verification/Prelude.v ===== *)
(** * Verification of MininetCodingSwitch

    The program.  The repository holds experiments with coding switches: switches on
    DPDK in C ([src/l2fwd_daniel], a learning switch with answers to ARP, and
    [src/skeleton1]), a controller for OpenFlow switches in Python ([src/pox]) and the
    networks it is tried in ([src/mininet]).  Its Go part, under
    [src/ntlink/go/go-openvswitch], is a client library for Open vSwitch.  Package [ovs] builds and reads the text of [ovs-ofctl] and
    [ovs-vsctl]: a [Flow] is a priority, a protocol, matches and actions; flows are
    marshaled to text, sent by commands the [Client] runs, and read back from the
    dumps the commands print.  Package [ovsdb] speaks JSON-RPC with the database,
    package [ovsnl] generic netlink with the kernel.

    ** Files and what they model

    - [Prelude]: errors ([error]), results of Go functions ([go]: a value, a returned
      error or a run-time panic), machine integers, shared lemmas and tactics.
    - [GoStrings], [GoConv], [GoNet], [GoScan], [GoQuote], [GoJson]: the parts of Go's standard library
      that the package uses, on strings of bytes: [strings] and [bytes]
      (UTF-8 decoding included, since [TrimSpace], [Fields] and the action reader
      work on runes), [strconv] and the verbs of [fmt], [net.ParseIP],
      [net.ParseCIDR] and [net.ParseMAC] with their [String] methods, and
      [fmt.Sscanf] as a monad of scanners, with the few shapes of regular
      expression the parser uses; [strconv.Quote]; and [encoding/json], as a type of
      JSON values with its text, its parser, and the decoders of Go's types.
    - [ErrorText] (ovs/flow.go, ovs/matchflow.go, ovs/ovs.go, ovs/client.go): the texts
      of errors.
    - [PortRange] (ovs/portrange.go): [BitwiseMatch] and its helpers, on [uint16]
      arithmetic with its wrap-around.
    - [Names]: the constants and sentinel errors.
    - [Match] (ovs/match.go): the inductive type [Match] has a constructor per Go
      type, each with its [MarshalText]; [Match_MarshalText] is the interface's
      dispatch.
    - [MatchParser] (ovs/matchparser.go): [parseMatch] and the parsers of values.
    - [Action] (ovs/action.go), [ActionParser] (ovs/actionparser.go): likewise for
      actions; the reading loop keeps its text and the height of its stack.
    - [ActionSplit] (ovs/actionparser.go): a reference for the parser of actions, which
      cuts the text at the commas outside parentheses.
    - [Codegen] (ovs/codegen.go, ovs/match.go, ovs/action.go): the [GoString] methods,
      and a reader of the Go expressions they print, which evaluates them with the
      constructors.
    - [Flow] (ovs/flow.go, ovs/matchflow.go): [Flow], [MatchFlow], their texts, and
      the unmarshaling of flows.
    - [Normal] (ovs/flow.go, ovs/matchparser.go, ovs/actionparser.go): what becomes of
      the texts that the parsers accept and the printers would not write.
    - [Stats] (ovs/table.go, ovs/portstats.go, ovs/flowstats.go): the parsers of
      statistics; the nested maps of port counters are [gmap]s.
    - [Client] (ovs/client.go, ovs/ovs.go): options, [exec] and [pipe].  A command is
      a function on a state of the system, [cmd W A]; the functions that run
      processes are fields of the client as in the code, and [recorder] is an
      instance of [W] that records the command lines.
    - [Shell] (ovs/client.go): [shellExec] and [shellPipe] on the operations of
      [os/exec]; [Pipes] (ovs/client.go): [shellPipe] beside the process it runs, as a
      step relation on the two processes and the three pipes between them.
    - [OpenFlow] (ovs/openflow.go): transactions and bundles, the commands of the
      service, and the scanners of dumps.
    - [Mirror]: the dump of the flows of one bridge and their addition to another.
    - [VSwitch] (ovs/vswitch.go): the commands on bridges, ports and interfaces, and the
      JSON that [Get.Bridge] reads.
    - [Sharing] (ovs/client.go): callers that share a client; the backing array of
      the flags slice, the steps of [append] and their interleavings.
    - [Kernel] (ovsnl/internal/ovsh/const.go): families, flags, and an inductive type
      with its numbers per enumeration of commands and attributes.
    - [Ovsnl] (ovsnl/client.go, ovsnl/datapath.go): setting up and closing a client from the
      kernel's families, and the bytes of headers, statistics and messages; [Layout]
      (ovsnl/internal/ovsh/struct.go): the offsets Go gives the fields of structures, on
      platforms of 32 and 64 bits, and the casts between structures and bytes.
    - [Ntlk] (src/ntlink/go/ntlk.go): the program that lists the kernel's datapaths, with
      what it prints, its nil client and its deferred closing.
    - [Ovsdb] (ovsdb/client.go, and parts of rpc.go, result.go and
      internal/jsonrpc/conn.go): the client as a transition system.  The state holds
      the request counter, the callback table, the response channels, the contexts
      that are done, and where each goroutine is: the calls of [rpc], [listen],
      [echoLoop] and [echoTicker].  A step is an [action]; [next] runs one and [run] a
      list of them, so that a theorem about every [run] is about every interleaving.
    - [Lifecycle] (ovsdb/client.go, ovsdb/internal/jsonrpc/conn.go): options, [New] and
      [Dial], the connection and its logging wrapper, and a system of the client with
      the calls of [Close], the wait group and the closing of the connection.
    - [EchoStats] (ovsdb/client.go): the history of the echoes of a run, and the counters.
    - [RpcSpec]: the abstract machine of remote calls that [Ovsdb] implements.
    - [Wire] (ovsdb/rpc.go, ovsdb/result.go, ovsdb/transact.go,
      ovsdb/internal/jsonrpc/conn.go): requests and responses as texts, and the calls
      [ListDatabases], [Echo] and [Transact].  It gives [Ovsdb] the decoding of results
      that is an argument there.
    - [TestConn] (ovsdb/internal/jsonrpc/testconn.go): the server of the connection, on
      the texts it reads and writes.
    - [SendLock] (ovsdb/internal/jsonrpc/conn.go): goroutines that send on one connection,
      with the lock on the encoder and writes that the system cuts.
    - [TestServer] (ovsdb/internal/jsonrpc/testconn.go): the two goroutines of the server,
      their lock, channel, wait groups and deferred calls, and the closure that cleans up.
    - [CArray]: arrays of C, where an access outside is [None].
    - [L2fwd] (src/l2fwd_daniel/main.c): the table of addresses with
      [l2fwd_learning_forward], and [learn] and [route], the switch it stands for; the pairs
      of ports, the ports of each core, the rounds of [l2fwd_main_loop], and the steps of
      several cores on one table.  [L2arp]: [l2fwd_arp_reply] with its table.  [L2args]: the
      arguments, with [strtoul] and [strtol], the start of the ports, and the check of
      their links.  [L2main]: [main], which composes them.
    - [Basicfwd] (src/skeleton1/basicfwd.c): bursts, the block for the encoder, the start.
    - [CodingSwitch] (src/pox/pox/misc/coding_switch.py): the table and the messages of a
      controller.  [Topology] (src/mininet/custom): the links of the networks, and the
      copies of a frame in a network with a controller behind every switch.

    Interfaces.  [TextUnmarshaler] (in [Prelude]) is the interface of that name with what
    a type promises with it, that its texts are read back up to the equivalence of the
    type; [Flow], [Table] and [PortStats] implement it, and the theorems on dumps and
    bundles are proved against it.  Flows are equivalent when only the spelling of their
    matches differs; what they print respects it.  [Enumeration] and [Limited] (in
    [Kernel]) are what an [enum] of C promises, [Platform] (in [Layout]) is what the casts
    know of the machine.

    Effects are as in the code: a method that fills its receiver takes the old value
    and returns the new one, [Flow_UnmarshalText f s]; a loop over a slice is a
    [Fixpoint] on the list; a Go run-time panic is the value [Panic].

    ** What the theorems show

    - Round trips: [Match_roundtrip], [parseAction_roundtrip], [Parse_roundtrip],
      [Flow_roundtrip], then through the commands [AddFlowBundle_input] and
      [DumpFlows_roundtrip]: what is written for well-formed values is read back, and
      [dumped_flows_add_again]: what a dump returned can be added to another bridge.
      [Match_GoString_evaluates] and [Action_GoString_evaluates]: the Go code that is
      printed evaluates to the value.  [Transact_request_reads]: likewise for requests.
    - Normal forms, for every text that is accepted and not only for those that are
      written: [parseAction_normal], [parseMatch_normal], [Flow_normal].
    - Equivalence: [Parse_equivalent], the parser of actions and its reference;
      [casts_read_fields], the offsets written in the code and those of the fields.
    - Bounds: [parseMatch_bounds], the integers each key of a match accepts, and what
      becomes of them.
    - Port ranges: the masked matches of a range select its ports, each once
      ([BitwiseMatch_partition]), they are as few as possible
      ([BitwiseMatch_optimal]), in order and aligned ([BitwiseMatch_shape]), and
      the texts sent mean the same ([MaskedPorts_end_to_end]).
    - Safety: no panic and fields in the range of their Go types
      ([parseMatch_safe], [parseAction_safe], [Parse_safe],
      [Flow_UnmarshalText_safe], [Stats_no_panic]), and the inputs that do panic
      ([Parse_unmatched_panics], [Table_panics]).
    - Errors: [Flow_MarshalText_errors], [Flow_UnmarshalText_one_actions],
      [PortToBridge_not_exist].
    - Transactions: all or nothing ([AddFlowBundle_atomic]), whatever the caller
      does ([AddFlowBundle_guarded]), with the life cycle of a transaction as an
      invariant over its methods ([FlowTransaction_lifecycle]).
    - Dumps and statistics: [parseEach_records], [DumpTables_used],
      [DumpPort_single], [PortStats_parse], [Table_roundtrip], [FlowStats_parse].
    - Commands: [MatchFlow_MarshalText_fields], [Set_Interface_columns],
      [ListPorts_names], [Get_Bridge_protocols].
    - Concurrency: [exec_isolated] and [exec_finishes], over every interleaving of
      callers of one [Client]; [shellPipe_order], and [shellPipe_returns], over every
      interleaving of [shellPipe] with a command: when it returns, and when it hangs.
    - The OVSDB client, over every interleaving of its goroutines: responses reach the
      call they are for ([rpc_response_matches]), [doCallback] neither blocks nor misuses
      a channel ([rpc_safe]), callbacks do not leak ([callbacks_no_leak]), and the whole refines
      an abstract machine of calls ([Client_refines]).  [Close] returns, by a count of
      the steps that are left ([Close_returns]), and leaves nothing running
      ([Close_joined]), except after a lasting decoding error ([Close_hangs]); before
      it, the listener and the echo loop can wait for each other
      ([listen_echo_deadlock]).  They rest on one invariant, [Inv], kept by every step.
      [echo_statistics]: the counters of [Stats] count the echoes, and which.
    - The wire: a stream is cut into its messages ([Receives_stream]), results and
      errors are told apart ([unmarshal_result_cases]), client and server understand each
      other ([TestConn_exchange]), and from end to end a transaction returns the rows
      that were answered for it ([Transact_end_to_end]).  Concurrent sends are never mixed
      ([sends_intact]), and all of them can return ([sends_return]).  The goroutines of
      the server write the responses and the notifications, merged ([server_delivers]),
      its clean-up returns ([done_returns]), but a panic of it can stay unseen ([panic_waits]).
    - Netlink: [parseDatapaths_messages], [parsePackets_messages], [newClient_services]; [struct_roundtrip] and
      [layout_sound], on structures in memory; [limited_numbers], on enumerations; what
      the demonstration prints ([main_outcomes]) and that it leaves no connection open
      ([main_closes]).
    - The learning switch: it refines a switch with an unbounded map until its table is
      full ([forward_all_learns]), also through the loop of a core ([main_loop_forwards]);
      its ARP table is right and never overrun ([arp_all_right]), and what is answered
      ([arp_answers]); the numbers it takes ([arguments_bounds]); the check of the links
      ends ([link_check_ends]); and what [main] sets up or how it fails ([main_starts]),
      which rests on [ports_polled_and_drained].  A core that is not disturbed does to the
      shared table what the switch does ([core_alone]); two that are at it at once can lose
      a station or mix two of them ([station_lost], [entry_torn]).
    - The skeleton: [forward_burst_cases], [fill_block_eight], [main_even].
    - The controller: what it sends for a frame ([controller_sends]); in the butterfly a
      frame to a station that never sent is never gone ([butterfly_storm]).

    ** Bounds and fuel

    [BitwiseMatch] recurses on halves of the range: [BitwiseMatch_terminates] shows
    that depth 30 is enough for every pair of 16-bit ports, and that the loop of
    [fitRange] ends.  [Parse] has one unit of fuel per byte and one more; every call
    of the method but the last consumes a byte, and [Parse_safe] shows the fuel is
    never used up.  The parser of JSON has one unit per byte and one more, and each of
    its calls on an element or a member consumes a byte; [parse_Marshal] shows it is
    enough for every text that is written.  All other recursions are structural.  Lines
    of 65536 bytes and more stop the scanner of a dump, as in [bufio.Scanner].  Runs of
    the OVSDB client are bounded by 2^63 actions, so that its [int64] counter does not
    wrap.  The search for a core, [next_lcore], has one unit per core that is left;
    [search_lcore] is the loop of the code with its counter of 32 bits, [search_finds] shows
    that both find the same core, and [search_endless] that where there is none the loop
    never ends: [NoLcore].  The
    check of the links has one unit more than its ninety rounds, and [link_check_ends]
    shows that the last is enough; [find_port] has as many as the code's own bound.

    ** What is not modelled

    What the standard library does with the system, the processes of [os/exec] and the
    connections of [net], is an argument of the definitions that use it; in [Pipes] a
    command keeps its outputs open until it exits.  Debug logging of package [ovs]
    changes no result and is left out.  Which runes are printable is a parameter of
    [strconv.Quote], with the ASCII ones as an instance.  JSON numbers keep their
    literal, and the [%#v] text of a JSON-RPC error is an argument.  In [TestServer] what
    listening, dialing and accepting return is an argument.  The netlink packages that
    [Ovsnl] calls are third-party code and arguments of its definitions, and so is
    [os.IsNotExist] in [Ntlk], which looks into the errors they pass on.
    [ovsh/types.go] only names the C types the structures were generated from and is
    not built.  DPDK is an argument of the models of the switches, with its sending and
    freeing recorded; the loop that encodes and decodes a block with Kodo, of
    [basicfwd.c], calls a library and changes nothing that is modelled, and the dumps it
    writes are left out.  [l2_vlan.py] and the netlink tests in C and Python are a few
    calls of libraries in a row.  Topologies only: the shell commands of [multicastTest]
    run in Mininet's hosts.  A nil [*Flow] given to a
    method is not modelled; a nil [*MatchFlow] of [DelFlows] is, since the code
    tests it. *)

From Stdlib Require Export ZArith Lia Bool.
From Stdlib Require Export Sorting.Sorted.
From stdpp Require Export base tactics list strings sorting sets.

#[global] Open Scope Z_scope.
#[global] Open Scope list_scope.

(** ** Errors

    Go's [error] values as the sources build them.  A sentinel made by
    [errors.New] is an [ErrorString]; a value of [fmt.Errorf] is kept as its
    format and its operands ([Errorf]), so that no text is lost and no
    rendering has to be chosen; the standard library's structured errors and
    the packages' own error types have a constructor each. *)
Inductive num_error := ErrSyntax | ErrRange.

Inductive error :=
| ErrorString (s : string)
| Errorf (fmt : string) (args : list (string + Z))
| ErrorfErr (fmt : string) (e : error)
| NumError (func num : string) (e : num_error)
| AddrError (err addr : string)
| ParseError (typ text : string)
| io_EOF
| io_ErrUnexpectedEOF
| FlowError (str : string) (err : error)
| MatchFlowError (str : string) (err : error)
| OvsError (out : option string) (err : error)
| PipeError (out : option string) (err : error).

(** ** Results of Go functions: a value, a returned error, or a run-time panic. *)
Inductive go (A : Type) :=
| Ok (a : A)
| Err (e : error)
| Panic (what : string).
Arguments Ok {A} a.
Arguments Err {A} e.
Arguments Panic {A} what.

#[export] Instance go_ret : MRet go := fun A a => Ok a.
#[export] Instance go_bind : MBind go := fun A B f m =>
  match m with
  | Ok a => f a
  | Err e => Err e
  | Panic w => Panic w
  end.

#[export] Instance go_fmap : FMap go := fun A B f m =>
  match m with
  | Ok a => Ok (f a)
  | Err e => Err e
  | Panic w => Panic w
  end.

(** [encoding.TextUnmarshaler], and what a type promises with it: [text_of a s] says
    that [s] is a text of [a]; it is read back, up to the equivalence of the type. *)
Class TextUnmarshaler (A : Type) `{Equiv A} := {
  UnmarshalText : string -> go A;
  text_of : A -> string -> Prop;
  text_reads a s : text_of a s -> exists b, UnmarshalText s = Ok b /\ a ≡ b
}.

Definition is_Ok {A} (m : go A) : bool :=
  match m with Ok _ => true | _ => false end.

Definition is_Panic {A} (m : go A) : bool :=
  match m with Panic _ => true | _ => false end.

(** An error of the first call is replaced, as in [if err != nil { return e }]. *)
Definition or_err {A} (m : go A) (e : error) : go A :=
  match m with
  | Err _ => Err e
  | m => m
  end.

Definition from_option_err {A} (o : option A) (e : error) : go A :=
  match o with Some a => Ok a | None => Err e end.

Lemma bind_Ok {A B} (f : A -> go B) a : (Ok a ≫= f) = f a.
Proof. reflexivity. Qed.

Lemma bind_Err {A B} (f : A -> go B) e : (Err e ≫= f) = Err e.
Proof. reflexivity. Qed.

Lemma bind_Ok_inv {A B} (m : go A) (f : A -> go B) b :
  m ≫= f = Ok b -> exists a, m = Ok a /\ f a = Ok b.
Proof. destruct m; cbn; [eauto | discriminate..]. Qed.

(** [mapM] runs a fallible function over a slice, left to right, and stops at
    the first failure. *)
Lemma mapM_Ok_Forall2 {A B} (f : A -> go B) l k :
  mapM f l = Ok k <-> Forall2 (fun x y => f x = Ok y) l k.
Proof.
  split.
  - revert k. induction l as [|x l IH]; intros k H; cbn in H.
    + injection H as <-. constructor.
    + destruct (f x) as [y| |] eqn:Hx; try discriminate. cbn in H.
      destruct (mapM f l) as [ys| |] eqn:Hl; try discriminate.
      injection H as <-. constructor; auto.
  - induction 1 as [|x y l k Hx _ IH]; [reflexivity|].
    cbn. rewrite Hx. cbn. rewrite IH. reflexivity.
Qed.

Lemma mapM_Ok_length {A B} (f : A -> go B) l k :
  mapM f l = Ok k -> length k = length l.
Proof. intros H%mapM_Ok_Forall2. symmetry. eapply Forall2_length, H. Qed.

(** A function succeeds on all elements; or the first failure is the error [e]. *)
Definition all_succeed {A B} (f : A -> go B) (l : list A) : Prop := forall a, a ∈ l -> exists b, f a = Ok b.
Definition first_failure {A B} (f : A -> go B) (l : list A) (e : error) : Prop :=
  exists before a after, l = before ++ a :: after /\ all_succeed f before /\ f a = Err e.

Lemma mapM_Err {A B} (f : A -> go B) l e : mapM f l = Err e <-> first_failure f l e.
Proof.
  split.
  - induction l as [|x l IH]; cbn; [done|]. destruct (f x) as [y|e'|w] eqn:Hx; cbn; [|intros [= <-]|done].
    + intros H. destruct IH as (before & a & after & -> & Hb & Ha); [by destruct (mapM f l)|].
      exists (x :: before), a, after. split_and!; [done| |done].
      intros b [->|Hin]%elem_of_cons; [by exists y|by apply Hb].
    + exists [], x, l. split_and!; [done| |done]. by intros b ?%elem_of_nil.
  - intros (before & a & after & -> & Hb & Ha). induction before as [|b before IH]; cbn; [by rewrite Ha|].
    destruct (Hb b) as [t Ht]; [by left|]. rewrite Ht. cbn. rewrite IH; [done|]. intros x Hx. apply Hb. by right.
Qed.

Lemma mapM_all_Ok {A B} (f : A -> go B) l : (exists k, mapM f l = Ok k) <-> all_succeed f l.
Proof.
  split.
  - intros [k H%mapM_Ok_Forall2] a (i & Hi)%list_elem_of_lookup. destruct (Forall2_lookup_l _ _ _ _ _ H Hi) as (t & _ & Ht).
    by exists t.
  - induction l as [|x l IH]; intros H; [by exists []|]. destruct (H x) as [y Hy]; [by left|].
    destruct IH as [k Hk]; [intros a Ha; apply H; by right|]. exists (y :: k). cbn. rewrite Hy. cbn. by rewrite Hk.
Qed.

Lemma mapM_no_panic {A B} (f : A -> go B) l :
  (forall x, x ∈ l -> is_Panic (f x) = false) -> is_Panic (mapM f l) = false.
Proof.
  induction l as [|x l IH]; intros H; [reflexivity|]. cbn.
  assert (Hl : is_Panic (mapM f l) = false) by (apply IH; intros; apply H; by right).
  specialize (H x (list_elem_of_here _ _)).
  destruct (f x); cbn in *; [|done..].
  by destruct (mapM f l).
Qed.

(** ** Machine integers: an [n]-bit unsigned value is a [Z] in range; a
    conversion such as [uint16(x)] wraps. *)
Definition uint (n : Z) (x : Z) : Z := x mod 2 ^ n.
Definition u8 : Z -> Z := uint 8.
Definition u16 : Z -> Z := uint 16.
Definition u32 : Z -> Z := uint 32.
Definition u64 : Z -> Z := uint 64.

Definition in_u (n : Z) (x : Z) : Prop := 0 <= x < 2 ^ n.

(** The two's complement reading, as in [int(x)] for a [uint64]. *)
Definition int64 (x : Z) : Z := (x + 2 ^ 63) mod 2 ^ 64 - 2 ^ 63.
Definition in_i64 (x : Z) : Prop := - 2 ^ 63 <= x < 2 ^ 63.

#[export] Instance in_u_dec n x : Decision (in_u n x).
Proof. unfold in_u. apply _. Defined.
#[export] Instance in_i64_dec x : Decision (in_i64 x).
Proof. unfold in_i64. apply _. Defined.

Lemma uint_range n x : 0 <= n -> in_u n (uint n x).
Proof. intros Hn. apply Z.mod_pos_bound. lia. Qed.

Lemma uint_small n x : in_u n x -> uint n x = x.
Proof. intros H. by apply Z.mod_small. Qed.

Lemma int64_range x : in_i64 (int64 x).
Proof.
  unfold in_i64, int64. pose proof (Z.mod_pos_bound (x + 2 ^ 63) (2 ^ 64)). lia.
Qed.

Lemma int64_small x : in_i64 x -> int64 x = x.
Proof. unfold in_i64, int64. intros H. rewrite Z.mod_small; lia. Qed.

Lemma in_u_mono n m x : n <= m -> in_u n x -> in_u m x.
Proof.
  intros Hnm [H1 H2]. split; [done|].
  eapply Z.lt_le_trans; [exact H2|]. apply Z.pow_le_mono_r; lia.
Qed.

(** A boolean fact about every integer below a literal bound, by computation. *)
Lemma forall_below (n : nat) (f : Z -> bool) :
  forallb f (List.map Z.of_nat (List.seq 0 n)) = true ->
  forall d, 0 <= d < Z.of_nat n -> f d = true.
Proof.
  intros Hall d Hd. rewrite forallb_forall in Hall. apply Hall, in_map_iff.
  exists (Z.to_nat d). rewrite Z2Nat.id, in_seq; lia.
Qed.

Create HintDb go discriminated.
#[export] Hint Resolve uint_range int64_range : go.
Create Rewrite HintDb go_rw.
#[export] Hint Rewrite @bind_Ok @bind_Err : go_rw.

(** ** Tactics *)

(** Break the scrutinee of the first [match] or [if] in the goal. *)
Ltac break :=
  match goal with
  | |- context [match ?x with _ => _ end] =>
      lazymatch x with
      | context [match _ with _ => _ end] => fail
      | _ => destruct x eqn:?
      end
  end.

Ltac break_in H :=
  match type of H with
  | context [match ?x with _ => _ end] =>
      lazymatch x with
      | context [match _ with _ => _ end] => fail
      | _ => destruct x eqn:?
      end
  end.

(** Peel [m ≫= f = Ok b] hypotheses. *)
Ltac inv_bind :=
  repeat match goal with
  | H : _ ≫= _ = Ok _ |- _ =>
      let x := fresh "x" in let Hx := fresh "Hx" in
      apply bind_Ok_inv in H as (x & Hx & H)
  | H : Ok _ = Ok _ |- _ => injection H as H; subst
  | H : Err _ = Ok _ |- _ => discriminate H
  | H : Panic _ = Ok _ |- _ => discriminate H
  end.

(** Turn boolean comparisons in the context into propositions. *)
Ltac bools :=
  repeat match goal with
  | H : (_ && _) = true |- _ => apply andb_true_iff in H as [? ?]
  | H : (_ || _) = false |- _ => apply orb_false_iff in H as [? ?]
  | H : negb _ = true |- _ => apply negb_true_iff in H
  | H : negb _ = false |- _ => apply negb_false_iff in H
  | H : (_ =? _) = true |- _ => apply Z.eqb_eq in H
  | H : (_ =? _) = false |- _ => apply Z.eqb_neq in H
  | H : (_ <=? _) = true |- _ => apply Z.leb_le in H
  | H : (_ <=? _) = false |- _ => apply Z.leb_gt in H
  | H : (_ <? _) = true |- _ => apply Z.ltb_lt in H
  | H : (_ <? _) = false |- _ => apply Z.ltb_ge in H
  end.

(** No panic: the bind of two computations that do not panic. *)
Lemma bind_no_panic {A B} (m : go A) (f : A -> go B) :
  is_Panic m = false -> (forall a, m = Ok a -> is_Panic (f a) = false) -> is_Panic (m ≫= f) = false.
Proof. destruct m; cbn; auto. Qed.
