(* ===== verification/GoStrings.v ===== *)
(** * Go strings

    The part of packages [strings], [bytes] and [unicode/utf8] that the client
    uses, on Go strings as byte strings ([string] is a list of 8-bit
    characters).  Iteration over runes, [TrimSpace] and [Fields] decode UTF-8
    and use the Unicode white space, as Go does. *)

From Stdlib Require Export Ascii.
From S2P Require Import Prelude.

(** ** Bytes *)

Definition code (c : ascii) : Z := Z.of_N (N_of_ascii c).
Definition chr (z : Z) : ascii := ascii_of_N (Z.to_N z).

Abbreviation sing c := (String c EmptyString).

Fixpoint all_chars (f : ascii -> bool) (s : string) : bool :=
  match s with
  | EmptyString => true
  | String c s => f c && all_chars f s
  end.

Fixpoint stake (n : nat) (s : string) : string :=
  match n, s with
  | S n, String c s => String c (stake n s)
  | _, _ => ""
  end.

Fixpoint sdrop (n : nat) (s : string) : string :=
  match n, s with
  | O, s => s
  | S n, String _ s => sdrop n s
  | S _, EmptyString => ""
  end.

Fixpoint srepeat (c : ascii) (n : nat) : string :=
  match n with
  | O => ""
  | S n => String c (srepeat c n)
  end.

(** ** Package [strings] *)

Definition HasPrefix (s prefix : string) : bool := String.prefix prefix s.

Definition HasSuffix (s suffix : string) : bool :=
  (String.length suffix <=? String.length s)%nat &&
  (sdrop (String.length s - String.length suffix) s =? suffix)%string.

Definition TrimPrefix (s prefix : string) : string :=
  if HasPrefix s prefix then sdrop (String.length prefix) s else s.

Definition TrimSuffix (s suffix : string) : string :=
  if HasSuffix s suffix then stake (String.length s - String.length suffix) s else s.

(** [Split] for a non-empty separator: the text is cut at every occurrence,
    left to right, occurrences not overlapping. *)
Definition cons_hd (c : ascii) (l : list string) : list string :=
  match l with
  | [] => [sing c]
  | h :: t => String c h :: t
  end.

Fixpoint split_go (sep : string) (skip : nat) (s : string) : list string :=
  match s with
  | EmptyString => [""]
  | String c s' =>
      match skip with
      | S k => split_go sep k s'
      | O => if String.prefix sep s
             then "" :: split_go sep (String.length sep - 1) s'
             else cons_hd c (split_go sep 0 s')
      end
  end.

Definition Split (s sep : string) : list string := split_go sep 0 s.

(** [SplitN s sep 2]: cut at the first occurrence only. *)
Fixpoint SplitN2 (s sep : string) : list string :=
  match s with
  | EmptyString => [""]
  | String c s' =>
      if String.prefix sep s then [""; sdrop (String.length sep) s]
      else cons_hd c (SplitN2 s' sep)
  end.

Fixpoint Join (l : list string) (sep : string) : string :=
  match l with
  | [] => ""
  | [s] => s
  | s :: l => s +:+ sep +:+ Join l sep
  end.

Fixpoint Index (s substr : string) : option nat :=
  if String.prefix substr s then Some O
  else match s with
       | EmptyString => None
       | String _ s => S <$> Index s substr
       end.

Definition Contains (s substr : string) : bool :=
  match Index s substr with Some _ => true | None => false end.

(** ** UTF-8 *)

Definition RuneError : Z := 0xFFFD.

Definition cont_in (lo hi : Z) (c : ascii) : bool := (lo <=? code c) && (code c <=? hi).
Definition low6 (c : ascii) : Z := Z.land (code c) 0x3F.

(** [utf8.DecodeRuneInString]: the rune and its width in bytes. *)
Definition DecodeRune (s : string) : Z * nat :=
  match s with
  | EmptyString => (RuneError, O)
  | String c0 s1 =>
      let b0 := code c0 in
      if b0 <? 0x80 then (b0, 1%nat)
      else if b0 <? 0xC2 then (RuneError, 1%nat)
      else if b0 <? 0xE0 then
        match s1 with
        | String c1 _ =>
            if cont_in 0x80 0xBF c1
            then (Z.shiftl (Z.land b0 0x1F) 6 + low6 c1, 2%nat)
            else (RuneError, 1%nat)
        | _ => (RuneError, 1%nat)
        end
      else if b0 <? 0xF0 then
        match s1 with
        | String c1 (String c2 _) =>
            if cont_in (if b0 =? 0xE0 then 0xA0 else 0x80) (if b0 =? 0xED then 0x9F else 0xBF) c1
               && cont_in 0x80 0xBF c2
            then (Z.shiftl (Z.land b0 0x0F) 12 + Z.shiftl (low6 c1) 6 + low6 c2, 3%nat)
            else (RuneError, 1%nat)
        | _ => (RuneError, 1%nat)
        end
      else if b0 <? 0xF5 then
        match s1 with
        | String c1 (String c2 (String c3 _)) =>
            if cont_in (if b0 =? 0xF0 then 0x90 else 0x80) (if b0 =? 0xF4 then 0x8F else 0xBF) c1
               && cont_in 0x80 0xBF c2 && cont_in 0x80 0xBF c3
            then (Z.shiftl (Z.land b0 0x07) 18 + Z.shiftl (low6 c1) 12
                  + Z.shiftl (low6 c2) 6 + low6 c3, 4%nat)
            else (RuneError, 1%nat)
        | _ => (RuneError, 1%nat)
        end
      else (RuneError, 1%nat)
  end.

(** [utf8.EncodeRune], what [Buffer.WriteRune] writes. *)
Definition EncodeRune (r : Z) : string :=
  let cont k := chr (0x80 + Z.land (Z.shiftr r k) 0x3F) in
  if (0 <=? r) && (r <=? 0x7F) then sing (chr r)
  else if (0 <=? r) && (r <=? 0x7FF) then
    String (chr (0xC0 + Z.shiftr r 6)) (sing (cont 0))
  else if (r <? 0) || (0x10FFFF <? r) || ((0xD800 <=? r) && (r <=? 0xDFFF)) then
    String (chr 0xEF) (String (chr 0xBF) (sing (chr 0xBD)))
  else if r <=? 0xFFFF then
    String (chr (0xE0 + Z.shiftr r 12)) (String (cont 6) (sing (cont 0)))
  else
    String (chr (0xF0 + Z.shiftr r 18)) (String (cont 12) (String (cont 6) (sing (cont 0)))).

(** [for i, r := range s]: byte offsets and runes. *)
Fixpoint runes_go (skip off : nat) (s : string) : list (nat * Z) :=
  match s with
  | EmptyString => []
  | String _ s' =>
      match skip with
      | S k => runes_go k (S off) s'
      | O => let (r, n) := DecodeRune s in (off, r) :: runes_go (n - 1) (S off) s'
      end
  end.

Definition runes (s : string) : list (nat * Z) := runes_go 0 0 s.

(** [unicode.IsSpace]. *)
Definition IsSpace (r : Z) : bool :=
  ((0x09 <=? r) && (r <=? 0x0D)) || (r =? 0x20) || (r =? 0x85) || (r =? 0xA0)
  || (r =? 0x1680) || ((0x2000 <=? r) && (r <=? 0x200A))
  || (r =? 0x2028) || (r =? 0x2029) || (r =? 0x202F) || (r =? 0x205F) || (r =? 0x3000).

(** Width of the white space rune at the head of [s], 0 if there is none. *)
Definition space_len (s : string) : nat :=
  let (r, n) := DecodeRune s in if IsSpace r then n else O.

Fixpoint trim_left_go (skip : nat) (s : string) : string :=
  match s with
  | EmptyString => ""
  | String _ s' =>
      match skip with
      | S k => trim_left_go k s'
      | O => match space_len s with
             | O => s
             | S n => trim_left_go n s'
             end
      end
  end.

(** Width of the white space rune at the end of the string whose reverse is
    [t]. *)
Definition rev_space_len (t : string) : nat :=
  let ends n :=
    let (r, m) := DecodeRune (String.rev (stake n t)) in
    (m =? n)%nat && (n <=? String.length t)%nat && IsSpace r in
  if ends 1%nat then 1%nat else if ends 2%nat then 2%nat else if ends 3%nat then 3%nat else O.

Fixpoint trim_rev_go (skip : nat) (t : string) : string :=
  match t with
  | EmptyString => ""
  | String _ t' =>
      match skip with
      | S k => trim_rev_go k t'
      | O => match rev_space_len t with
             | O => t
             | S n => trim_rev_go n t'
             end
      end
  end.

Definition TrimSpace (s : string) : string :=
  String.rev (trim_rev_go 0 (String.rev (trim_left_go 0 s))).

(** [Fields]: the maximal runs of bytes between white space runes.  No white
    space encoding starts inside the encoding of another rune, so scanning by
    bytes finds the same separators as scanning by runes. *)
Definition flush (cur : string) : list string :=
  match cur with EmptyString => [] | _ => [cur] end.

Fixpoint fields_go (skip : nat) (cur s : string) : list string :=
  match s with
  | EmptyString => flush cur
  | String c s' =>
      match skip with
      | S k => fields_go k cur s'
      | O => match space_len s with
             | O => fields_go 0 (cur +:+ sing c) s'
             | S n => flush cur ++ fields_go n "" s'
             end
      end
  end.

Definition Fields (s : string) : list string := fields_go 0 "" s.

(** [ToLower], exact on what maps into ASCII: the ASCII letters and the two
    other runes whose lower case is ASCII (U+0130 and U+212A).  The remaining
    runes have a lower case outside ASCII; they are kept, which no comparison
    with an ASCII constant can tell. *)
Definition lower_rune (r : Z) : Z :=
  if (65 <=? r) && (r <=? 90) then r + 32
  else if r =? 0x130 then 0x69
  else if r =? 0x212A then 0x6B
  else r.

Definition ToLower (s : string) : string :=
  String.concat "" (map (fun ir => EncodeRune (lower_rune (snd ir))) (runes s)).

(** [bytes.Trim b ","]: drop the leading and trailing bytes equal to [c]. *)
Fixpoint trim_left_char (c : ascii) (s : string) : string :=
  match s with
  | String d s' => if Ascii.eqb c d then trim_left_char c s' else s
  | EmptyString => ""
  end.

Definition TrimChar (s : string) (c : ascii) : string :=
  String.rev (trim_left_char c (String.rev (trim_left_char c s))).

Example Split_ex : Split "a=b=c" "=" = ["a"; "b"; "c"].
Proof. reflexivity. Qed.
Example Split_ex2 : Split "priority=1,actions=drop" "actions=" = ["priority=1,"; "drop"].
Proof. reflexivity. Qed.
Example SplitN2_ex : SplitN2 "a/b/c" "/" = ["a"; "b/c"].
Proof. reflexivity. Qed.
Example Fields_ex : Fields " a  bc	d " = ["a"; "bc"; "d"].
Proof. vm_compute. reflexivity. Qed.
Example TrimSpace_ex : TrimSpace " a b  " = "a b".
Proof. vm_compute. reflexivity. Qed.
Example ToLower_ex : ToLower "DrOp" = "drop".
Proof. vm_compute. reflexivity. Qed.

(** ** Lemmas: concatenation *)

Lemma app_cons c (s t : string) : String c s +:+ t = String c (s +:+ t).
Proof. reflexivity. Qed.

Lemma app_nil_l' (t : string) : "" +:+ t = t.
Proof. reflexivity. Qed.

Lemma app_nil_r' (s : string) : s +:+ "" = s.
Proof. induction s; [done|]. rewrite app_cons. by f_equal. Qed.

Lemma app_assoc' (s t u : string) : (s +:+ t) +:+ u = s +:+ t +:+ u.
Proof. induction s; [done|]. rewrite !app_cons. by f_equal. Qed.

Lemma concat_cons s l : String.concat "" (s :: l) = s +:+ String.concat "" l.
Proof. destruct l; [cbn; by rewrite app_nil_r'|]. cbn. by rewrite app_nil_l'. Qed.

Lemma string_concat_app l1 l2 : String.concat "" (l1 ++ l2) = String.concat "" l1 +:+ String.concat "" l2.
Proof. induction l1 as [|s l1 IH]; [by rewrite app_nil_l'|]. cbn [app]. by rewrite !concat_cons, IH, app_assoc'. Qed.

Create Rewrite HintDb str.
#[export] Hint Rewrite app_cons app_nil_l' app_nil_r' app_assoc' : str.

Lemma app_length' s t : String.length (s +:+ t) = (String.length s + String.length t)%nat.
Proof. induction s; [done|]. rewrite app_cons. cbn. by f_equal. Qed.

Lemma app_nonempty_r s t : t <> "" -> s +:+ t <> "".
Proof. by destruct s, t. Qed.

Lemma all_chars_app f s t : all_chars f (s +:+ t) = all_chars f s && all_chars f t.
Proof. induction s; [done|]. rewrite app_cons. cbn. rewrite IHs. by rewrite andb_assoc. Qed.

Lemma all_chars_impl (f g : ascii -> bool) s :
  (forall c, f c = true -> g c = true) -> all_chars f s = true -> all_chars g s = true.
Proof.
  intros H. induction s as [|c s IH]; [done|]. cbn.
  intros [Hc Hs]%andb_true_iff. by rewrite H, IH.
Qed.

Lemma stake_sdrop k s : stake k s +:+ sdrop k s = s.
Proof.
  revert k. induction s as [|c s IH]; intros [|k]; try done. cbn [stake sdrop]. by rewrite app_cons, IH.
Qed.

Lemma stake_app s t : stake (String.length s) (s +:+ t) = s.
Proof. induction s; [by destruct t|]. cbn. by f_equal. Qed.

Lemma sdrop_app s t : sdrop (String.length s) (s +:+ t) = t.
Proof. by induction s. Qed.

Lemma rev_app_spec s t : String.rev_app s t = String.rev s +:+ t.
Proof.
  unfold String.rev. revert t. induction s as [|c s IH]; intros t; [done|].
  cbn. rewrite IH, (IH (sing c)), app_assoc'. done.
Qed.

Lemma rev_cons c s : String.rev (String c s) = String.rev s +:+ sing c.
Proof. unfold String.rev at 1. cbn. apply rev_app_spec. Qed.

Lemma rev_app' s t : String.rev (s +:+ t) = String.rev t +:+ String.rev s.
Proof.
  induction s as [|c s IH]; [by rewrite app_nil_r'|].
  rewrite app_cons, !rev_cons, IH. by rewrite app_assoc'.
Qed.

Lemma rev_rev s : String.rev (String.rev s) = s.
Proof. induction s as [|c s IH]; [done|]. by rewrite rev_cons, rev_app', IH. Qed.

(** ** Lemmas: prefixes *)

Lemma prefix_app p s : String.prefix p (p +:+ s) = true.
Proof. induction p as [|c p IH]; [by destruct s|]. rewrite app_cons. cbn. by destruct (ascii_dec c c). Qed.

Lemma prefix_spec p s : String.prefix p s = true <-> exists r, s = p +:+ r.
Proof.
  split; [|intros [r ->]; apply prefix_app].
  revert s. induction p as [|c p IH]; intros s H; [by exists s|].
  destruct s as [|d s]; [done|]. cbn in H. destruct (ascii_dec c d) as [->|]; [|done].
  apply IH in H as [r ->]. by exists r.
Qed.

Lemma TrimPrefix_app p s : TrimPrefix (p +:+ s) p = s.
Proof. unfold TrimPrefix, HasPrefix. by rewrite prefix_app, sdrop_app. Qed.

Lemma HasSuffix_app s p : HasSuffix (s +:+ p) p = true.
Proof.
  unfold HasSuffix. rewrite app_length', Nat.add_sub, sdrop_app, String.eqb_refl, andb_true_r.
  apply Nat.leb_le. lia.
Qed.

Lemma TrimSuffix_app s p : TrimSuffix (s +:+ p) p = s.
Proof. unfold TrimSuffix. by rewrite HasSuffix_app, app_length', Nat.add_sub, stake_app. Qed.

(** A prefix longer than [s] reaches into what follows; otherwise not. *)
Lemma prefix_app_irrel p s t :
  (String.length p <= String.length s)%nat -> String.prefix p (s +:+ t) = String.prefix p s.
Proof.
  revert s. induction p as [|c p IH]; intros s Hs; [by destruct s, t|].
  destruct s as [|d s]; [cbn in Hs; lia|]. rewrite app_cons. cbn in *.
  destruct (ascii_dec c d); [apply IH; lia|done].
Qed.

(** ** Lemmas: [Split] *)

(** No occurrence of [sep] starts inside [s], in [s +:+ sep +:+ _]. *)
Fixpoint clear_of (sep s : string) : bool :=
  match s with
  | EmptyString => true
  | String _ s' => negb (String.prefix sep (s +:+ sep)) && clear_of sep s'
  end.

Lemma split_go_skip sep k s t :
  String.length s = k -> split_go sep k (s +:+ t) = split_go sep 0 t.
Proof.
  intros <-. induction s as [|c s IH]; [done|]. rewrite app_cons. cbn. apply IH.
Qed.

Lemma Split_sep sep s :
  sep <> "" -> Split (sep +:+ s) sep = "" :: Split s sep.
Proof.
  intros Hne. unfold Split. pose proof (prefix_app sep s) as Hp.
  destruct sep as [|c sep]; [done|]. rewrite app_cons in *.
  cbn [split_go]. rewrite Hp. cbn [String.length]. rewrite Nat.sub_succ, Nat.sub_0_r.
  by rewrite split_go_skip.
Qed.

Lemma Split_first sep a b :
  sep <> "" -> clear_of sep a = true -> Split (a +:+ sep +:+ b) sep = a :: Split b sep.
Proof.
  intros Hne. induction a as [|c a IH]; intros Ha; [by rewrite app_nil_l', Split_sep|].
  apply andb_true_iff in Ha as [Hp Ha]. apply negb_true_iff in Hp.
  assert (Hq : String.prefix sep (String c a +:+ sep +:+ b) = false).
  { rewrite <- app_assoc', prefix_app_irrel; [done|]. rewrite app_length'. lia. }
  rewrite app_cons in *. unfold Split in *. cbn [split_go].
  rewrite Hq, IH by done. done.
Qed.

Lemma Split_none sep a : Contains a sep = false -> Split a sep = [a].
Proof.
  unfold Contains, Split. induction a as [|c a IH]; intros H; [done|].
  cbn [split_go Index] in *. destruct (String.prefix sep (String c a)); [done|].
  destruct (Index a sep); [done|]. by rewrite IH.
Qed.

Definition other_than (c d : ascii) : bool := negb (Ascii.eqb c d).

Lemma prefix_cons c p d s :
  String.prefix (String c p) (String d s) = Ascii.eqb c d && String.prefix p s.
Proof.
  cbn [String.prefix]. destruct (ascii_dec c d) as [->|H].
  - by rewrite Ascii.eqb_refl.
  - by apply Ascii.eqb_neq in H as ->.
Qed.

Lemma prefix_sing c d s : String.prefix (sing c) (String d s) = Ascii.eqb c d.
Proof.
  cbn. destruct (ascii_dec c d) as [->|H].
  - rewrite Ascii.eqb_refl. by destruct s.
  - symmetry. by apply Ascii.eqb_neq.
Qed.

Lemma clear_of_char c a : all_chars (other_than c) a = true -> clear_of (sing c) a = true.
Proof.
  induction a as [|d a IH]; [done|]. intros [Hd Ha]%andb_true_iff.
  cbn [clear_of]. rewrite app_cons, prefix_sing, IH by done. by rewrite andb_true_r.
Qed.

Lemma Contains_char c a : Contains a (sing c) = negb (all_chars (other_than c) a).
Proof.
  unfold Contains. induction a as [|d a IH]; [done|].
  cbn [Index all_chars]. rewrite prefix_sing. unfold other_than at 1.
  destruct (Ascii.eqb c d); [done|]. cbn [negb andb]. rewrite <- IH.
  by destruct (Index a (sing c)).
Qed.

Lemma Split_char c a b :
  all_chars (other_than c) a = true ->
  Split (a +:+ String c b) (sing c) = a :: Split b (sing c).
Proof.
  intros Ha. change (String c b) with (sing c +:+ b).
  by apply Split_first, clear_of_char.
Qed.

Lemma Split_char_none c a : all_chars (other_than c) a = true -> Split a (sing c) = [a].
Proof. intros Ha. apply Split_none. by rewrite Contains_char, Ha. Qed.

Lemma Join_cons s l sep : l <> [] -> Join (s :: l) sep = s +:+ sep +:+ Join l sep.
Proof. by destruct l. Qed.

Lemma Split_Join c l :
  l <> [] -> Forall (fun s => all_chars (other_than c) s = true) l ->
  Split (Join l (sing c)) (sing c) = l.
Proof.
  intros Hne Hl. induction Hl as [|s l Hs Hl IH]; [done|].
  destruct l as [|s' l]; [by apply Split_char_none|].
  rewrite Join_cons, app_cons, app_nil_l', Split_char, IH by done. done.
Qed.

Lemma Split_length_pos s sep : (0 < length (Split s sep))%nat.
Proof.
  assert (H : forall k, (0 < length (split_go sep k s))%nat); [|apply H].
  induction s as [|c s IH]; intros k; [cbn; lia|].
  cbn [split_go]. destruct k; [|apply IH]. destruct (String.prefix sep _); [cbn; lia|].
  specialize (IH O). destruct (split_go sep 0 s); cbn in *; lia.
Qed.

(** [Join] is a left inverse of [Split]. *)
Lemma Join_cons_hd c l sep : l <> [] -> Join (cons_hd c l) sep = String c (Join l sep).
Proof. destruct l as [|h [|h' t]]; [done|done|]. intros _. cbn [cons_hd Join]. by rewrite !app_cons. Qed.

(** ** Lemmas: characters and white space *)

Definition ascii_char (c : ascii) : bool := code c <? 0x80.
Definition graphic (c : ascii) : bool := (0x21 <=? code c) && (code c <=? 0x7E).

Lemma code_range c : 0 <= code c < 256.
Proof. unfold code. pose proof (N_ascii_bounded c). lia. Qed.

Lemma code_chr z : 0 <= z < 256 -> code (chr z) = z.
Proof. intros H. unfold code, chr. rewrite N_ascii_embedding; lia. Qed.

Lemma chr_code c : chr (code c) = c.
Proof. unfold code, chr. by rewrite N2Z.id, ascii_N_embedding. Qed.

Lemma code_inj c d : code c = code d -> c = d.
Proof. intros H. by rewrite <- (chr_code c), H, chr_code. Qed.

Lemma graphic_ascii c : graphic c = true -> ascii_char c = true.
Proof. unfold graphic, ascii_char. intros H. bools. apply Z.ltb_lt. lia. Qed.

Lemma DecodeRune_ascii c s : ascii_char c = true -> DecodeRune (String c s) = (code c, 1%nat).
Proof. intros H. cbn. unfold ascii_char in H. by rewrite H. Qed.

Lemma graphic_not_space c : graphic c = true -> IsSpace (code c) = false.
Proof.
  unfold graphic, IsSpace. intros H. bools.
  repeat (apply orb_false_iff; split); try (apply Z.eqb_neq; lia);
    apply andb_false_iff; first [left; apply Z.leb_gt; lia | right; apply Z.leb_gt; lia].
Qed.

Lemma space_len_graphic c s : graphic c = true -> space_len (String c s) = O.
Proof.
  intros H. unfold space_len. rewrite DecodeRune_ascii by (by apply graphic_ascii).
  by rewrite graphic_not_space.
Qed.

(** A multi-byte rune does not end in an ASCII byte. *)
Lemma DecodeRune_snd_ascii c0 s c r (m : nat) :
  ascii_char c = true -> DecodeRune (String c0 (s +:+ sing c)) = (r, m) ->
  m <> S (S (String.length s)).
Proof.
  unfold ascii_char. intros Hc%Z.ltb_lt.
  assert (Hn : forall lo hi, 0x80 <= lo -> cont_in lo hi c = false).
  { intros lo hi Hlo. unfold cont_in. apply andb_false_iff. left. apply Z.leb_gt. lia. }
  destruct s as [|c1 [|c2 [|c3 s]]]; rewrite ?app_cons, ?app_nil_l'; cbn -[cont_in Z.land Z.shiftl];
    repeat (case_match; [|]); intros [= <- <-]; try done; cbn; try lia;
    repeat match goal with
    | H : _ && _ = true |- _ => apply andb_true_iff in H as [? ?]
    | H : cont_in ?lo ?hi c = true |- _ => rewrite Hn in H; [done|try case_match; lia]
    end.
Qed.

Lemma rev_space_len_graphic c t : graphic c = true -> rev_space_len (String c t) = O.
Proof.
  intros Hg. pose proof (graphic_ascii c Hg) as Ha.
  assert (Hends : forall n (r : Z) (m : nat), DecodeRune (String.rev (stake n (String c t))) = (r, m) ->
    (1 <= n <= String.length (String c t))%nat -> m = n -> n = 1%nat).
  { intros n r m Hd Hn ->. destruct n as [|n]; [lia|]. cbn [stake] in Hd. rewrite rev_cons in Hd.
    destruct (String.rev (stake n t)) as [|c0 s] eqn:E.
    - apply (f_equal String.length) in E. destruct n; [done|].
      destruct t; cbn in Hn; [lia|]. cbn [stake] in E. rewrite rev_cons, app_length' in E.
      cbn in E. lia.
    - rewrite app_cons in Hd. apply DecodeRune_snd_ascii in Hd; [|done].
      exfalso. apply Hd. apply (f_equal String.length) in E. cbn in E.
      assert (Hlen : forall u, String.length (String.rev u) = String.length u).
      { induction u as [|d u IH]; [done|]. rewrite rev_cons, app_length', IH. cbn. lia. }
      rewrite Hlen in E. assert (Hst : forall k u, (k <= String.length u)%nat -> String.length (stake k u) = k).
      { induction k; intros [|d u] Hk; cbn in *; try lia. rewrite IHk; lia. }
      rewrite Hst in E by (cbn in Hn; lia). lia. }
  unfold rev_space_len.
  assert (H1 : DecodeRune (String.rev (stake 1 (String c t))) = (code c, 1%nat)).
  { cbn [stake]. replace (stake 0 t) with "" by (by destruct t). by apply DecodeRune_ascii. }
  rewrite H1, graphic_not_space, andb_false_r by done.
  destruct (DecodeRune (String.rev (stake 2 _))) as [r2 m2] eqn:E2.
  destruct (DecodeRune (String.rev (stake 3 _))) as [r3 m3] eqn:E3.
  destruct (Nat.eqb_spec m2 2) as [Hm2|]; cbn [andb].
  - destruct (Nat.leb_spec 2 (String.length (String c t))); cbn [andb].
    + by specialize (Hends 2%nat r2 m2 E2 ltac:(lia) Hm2).
    + destruct (Nat.leb_spec 3 (String.length (String c t))); [lia|].
      by rewrite andb_false_r.
  - destruct (Nat.eqb_spec m3 3) as [Hm3|]; [|done].
    destruct (Nat.leb_spec 3 (String.length (String c t))); [|done].
    by specialize (Hends 3%nat r3 m3 E3 ltac:(lia) Hm3).
Qed.

(** [tidy s]: [s] is empty, or starts and ends with graphic ASCII characters. *)
Definition tidy (s : string) : Prop :=
  s = "" \/ exists c m d n, graphic c = true /\ graphic d = true /\
                            s = String c m /\ s = n +:+ sing d.

Lemma TrimSpace_tidy s : tidy s -> TrimSpace s = s.
Proof.
  intros [->|(c & m & d & n & Hc & Hd & Hs & Hs')]; [done|].
  unfold TrimSpace.
  assert (H1 : trim_left_go 0 s = s) by (rewrite Hs; cbn [trim_left_go]; by rewrite space_len_graphic).
  rewrite H1, Hs', rev_app'. change (String.rev (sing d)) with (sing d).
  rewrite app_cons, app_nil_l'. cbn [trim_rev_go]. rewrite rev_space_len_graphic by done.
  by rewrite rev_cons, rev_rev.
Qed.

(** ** Lemmas: [SplitN] and [Join] *)

Lemma SplitN2_none c a : all_chars (other_than c) a = true -> SplitN2 a (sing c) = [a].
Proof.
  induction a as [|d a IH]; [done|]. cbn [all_chars SplitN2]. intros [Hd Ha]%andb_true_iff.
  rewrite prefix_sing. apply negb_true_iff in Hd. by rewrite Hd, IH.
Qed.

Lemma SplitN2_first c a b :
  all_chars (other_than c) a = true -> SplitN2 (a +:+ String c b) (sing c) = [a; b].
Proof.
  induction a as [|d a IH].
  - intros _. rewrite app_nil_l'. cbn [SplitN2]. by rewrite prefix_sing, Ascii.eqb_refl.
  - cbn [all_chars]. intros [Hd Ha]%andb_true_iff. rewrite app_cons. cbn [SplitN2].
    rewrite prefix_sing. apply negb_true_iff in Hd. by rewrite Hd, IH.
Qed.

(** What [SplitN] cuts, the separator glues back. *)
Lemma SplitN2_inv s c :
  (SplitN2 s (sing c) = [s] /\ all_chars (other_than c) s = true) \/
  exists a b, SplitN2 s (sing c) = [a; b] /\ s = a +:+ String c b.
Proof.
  induction s as [|d s IH]; [by left|]. cbn [SplitN2 all_chars]. rewrite prefix_sing.
  unfold other_than at 1. destruct (Ascii.eqb_spec c d) as [->|Hne]; cbn [negb andb].
  - right. by exists "", s.
  - destruct IH as [[-> Hs]|(a & b & -> & ->)]; [by left|].
    right. exists (String d a), b. by rewrite app_cons.
Qed.

Lemma all_chars_Join f l sep :
  all_chars f sep = true -> Forall (fun s => all_chars f s = true) l ->
  all_chars f (Join l sep) = true.
Proof.
  intros Hsep. induction 1 as [|s l Hs Hl IH]; [done|]. destruct l as [|s' l]; [done|].
  rewrite Join_cons, !all_chars_app by done. by rewrite Hs, Hsep, IH.
Qed.

(** ** Lemmas: occurrences across a separating character *)

Lemma prefix_stops p a c q :
  all_chars (other_than c) p = true -> String.prefix p (a +:+ String c q) = String.prefix p a.
Proof.
  revert a. induction p as [|d p IH]; intros a Hp; [by destruct a|].
  cbn [all_chars] in Hp. apply andb_true_iff in Hp as [Hd Hp].
  destruct a as [|e a].
  - rewrite app_nil_l', prefix_cons. unfold other_than in Hd. rewrite negb_true_iff in Hd.
    rewrite Ascii.eqb_sym in Hd. by rewrite Hd.
  - rewrite app_cons, !prefix_cons. by rewrite IH.
Qed.

(** A text without [c] occurs in [p c q] iff it occurs in [p] or in [q]. *)
Lemma Contains_mid sep c p q :
  sep <> "" -> all_chars (other_than c) sep = true ->
  Contains (p +:+ String c q) sep = Contains p sep || Contains q sep.
Proof.
  intros Hne Hc. unfold Contains. induction p as [|d p IH].
  - rewrite app_nil_l'. pose proof (prefix_stops sep "" c q Hc) as Hp. rewrite app_nil_l' in Hp.
    assert (Hz : String.prefix sep "" = false) by (by destruct sep).
    cbn [Index]. rewrite Hp, Hz. by destruct (Index q sep).
  - rewrite app_cons. cbn [Index]. rewrite <- app_cons, prefix_stops by done.
    destruct (String.prefix sep (String d p)); [done|].
    destruct (Index (p +:+ String c q) sep), (Index p sep), (Index q sep); try done.
Qed.

(** A prefix that ends with a character outside [sep] is clear of it. *)
Lemma clear_of_end sep c a :
  all_chars (other_than c) sep = true -> Contains (a +:+ sing c) sep = false ->
  clear_of sep (a +:+ sing c) = true.
Proof.
  intros Hc. unfold Contains. induction a as [|d a IH]; intros H.
  - rewrite app_nil_l' in *. cbn [clear_of]. rewrite andb_true_r, app_cons, app_nil_l'.
    pose proof (prefix_stops sep "" c sep Hc) as Hp. rewrite app_nil_l' in Hp. rewrite Hp.
    destruct sep; [done|done].
  - rewrite app_cons in *. cbn [Index] in H. cbn [clear_of].
    destruct (String.prefix sep (String d (a +:+ sing c))) eqn:Hp; [done|].
    rewrite IH by (by destruct (Index (a +:+ sing c) sep)).
    rewrite andb_true_r. rewrite <- app_cons, app_assoc'.
    change (sing c +:+ sep) with (String c sep). rewrite prefix_stops by done.
    rewrite <- app_cons, prefix_stops in Hp by done. by rewrite Hp.
Qed.

(** Graphic texts are tidy. *)
Lemma snoc_inv s : s = "" \/ exists t c, s = t +:+ sing c.
Proof.
  induction s as [|c s IH]; [by left|]. right. destruct IH as [->|(t & d & ->)].
  - by exists "", c.
  - exists (String c t), d. by rewrite app_cons.
Qed.

Lemma graphic_tidy s : all_chars graphic s = true -> tidy s.
Proof.
  intros Hs. destruct s as [|c s]; [by left|]. right.
  destruct (snoc_inv (String c s)) as [|(n & d & Hd)]; [done|].
  exists c, s, d, n. split_and!; try done.
  - cbn in Hs. by apply andb_true_iff in Hs as [? _].
  - rewrite Hd, all_chars_app in Hs. apply andb_true_iff in Hs as [_ Hs]. cbn in Hs.
    by rewrite andb_true_r in Hs.
Qed.

Lemma TrimSpace_graphic s : all_chars graphic s = true -> TrimSpace s = s.
Proof. intros H. by apply TrimSpace_tidy, graphic_tidy. Qed.

(** ** Lemmas: words and suffixes *)

Lemma HasSuffix_other s c : all_chars (other_than c) s = true -> HasSuffix s (sing c) = false.
Proof.
  intros Hs. destruct (HasSuffix s (sing c)) eqn:H; [|done]. exfalso.
  unfold HasSuffix in H. apply andb_true_iff in H as [_ H%String.eqb_eq].
  revert H. change (String.length (sing c)) with 1%nat. generalize (String.length s - 1)%nat as n.
  induction s as [|d s IH]; intros n H; [by destruct n|].
  cbn [all_chars] in Hs. apply andb_true_iff in Hs as [Hd Hs]. destruct n as [|n]; [|by apply (IH Hs n)].
  cbn in H. injection H as -> ->. unfold other_than in Hd. by rewrite Ascii.eqb_refl in Hd.
Qed.

Lemma TrimSuffix_other s c : all_chars (other_than c) s = true -> TrimSuffix s (sing c) = s.
Proof. intros Hs. unfold TrimSuffix. by rewrite HasSuffix_other. Qed.

(** ** Prefixes *)

Definition strip (p s : string) : option string :=
  if HasPrefix s p then Some (sdrop (String.length p) s) else None.

Lemma strip_app p r : strip p (p +:+ r) = Some r.
Proof. unfold strip, HasPrefix. by rewrite prefix_app, sdrop_app. Qed.

(** The maximal prefix of characters satisfying [f], and the rest. *)
Fixpoint span (f : ascii -> bool) (s : string) : string * string :=
  match s with
  | String c r => if f c then let (p, t) := span f r in (String c p, t) else ("", s)
  | EmptyString => ("", "")
  end.

(** The character that follows a run of the class [f], if any, does not continue it. *)
Definition stops (f : ascii -> bool) (s : string) : Prop :=
  match s with EmptyString => True | String c _ => f c = false end.

Lemma span_app f s t : all_chars f s = true -> stops f t -> span f (s +:+ t) = (s, t).
Proof.
  induction s as [|c s IH]; intros Hs Ht.
  - rewrite app_nil_l'. destruct t as [|d t]; [done|]. cbn in *. by rewrite Ht.
  - cbn [all_chars] in Hs. apply andb_true_iff in Hs as [Hc Hs].
    rewrite app_cons. cbn [span]. by rewrite Hc, IH.
Qed.

Lemma span_all f s : all_chars f s = true -> span f s = (s, "").
Proof. intros Hs. rewrite <- (app_nil_r' s) at 1. by apply span_app. Qed.
