(* ===== verification/GoConv.v ===== *)
(** * Numbers as text

    Package [strconv] ([ParseUint], [ParseInt], [Atoi], [FormatInt]) and the
    integer verbs of package [fmt] ([%d], [%x], [%#x], [%04x], [%#016x]) as
    the client uses them, with the round trips between the two.  [int] is 64
    bits wide: the sources compare an [int] with [0xfffffeff]. *)

From S2P Require Import Prelude GoStrings.

(** ** [strconv] *)

Definition digit_of (c : ascii) : option Z :=
  let b := code c in
  if (48 <=? b) && (b <=? 57) then Some (b - 48)
  else if (97 <=? b) && (b <=? 122) then Some (b - 97 + 10)
  else if (65 <=? b) && (b <=? 90) then Some (b - 65 + 10)
  else None.

(** The digit loop of [ParseUint]; [n * base + d > maxVal] covers both of its
    overflow checks. *)
Fixpoint parse_digits (base maxVal n : Z) (s : string) : num_error + Z :=
  match s with
  | EmptyString => inr n
  | String c s =>
      match digit_of c with
      | None => inl ErrSyntax
      | Some d =>
          if base <=? d then inl ErrSyntax
          else if maxVal <? n * base + d then inl ErrRange
          else parse_digits base maxVal (n * base + d) s
      end
  end.

(** Base 0 takes the base from the prefix ([0x], [0X], [0]). *)
Definition base_prefix (s : string) : option (Z * string) :=
  match s with
  | String "0" (String c r) =>
      if (code c =? 120) || (code c =? 88)
      then match r with EmptyString => None | _ => Some (16, r) end
      else Some (8, String c r)
  | String "0" EmptyString => Some (8, "")
  | _ => Some (10, s)
  end.

Definition maxUint (bitSize : Z) : Z := 2 ^ (if bitSize =? 0 then 64 else bitSize) - 1.

Definition parse_uint (s : string) (base bitSize : Z) : num_error + Z :=
  match s with
  | EmptyString => inl ErrSyntax
  | _ =>
      match (if base =? 0 then base_prefix s else Some (base, s)) with
      | None => inl ErrSyntax
      | Some (base, s) => parse_digits base (maxUint bitSize) 0 s
      end
  end.

Definition ParseUint (s : string) (base bitSize : Z) : go Z :=
  match parse_uint s base bitSize with
  | inr n => Ok n
  | inl e => Err (NumError "ParseUint" s e)
  end.

(** [ParseInt], also [Atoi] (base 10, 64 bits) with its own name in errors. *)
Definition parse_int (fn s : string) (base bitSize : Z) : go Z :=
  match s with
  | EmptyString => Err (NumError fn s ErrSyntax)
  | String c r =>
      let neg := Ascii.eqb c "-" in
      let s1 := if neg || Ascii.eqb c "+" then r else s in
      let cutoff := 2 ^ ((if bitSize =? 0 then 64 else bitSize) - 1) in
      match parse_uint s1 base bitSize with
      | inl ErrSyntax => Err (NumError fn s ErrSyntax)
      | inl ErrRange => Err (NumError fn s ErrRange)
      | inr un =>
          if negb neg && (cutoff <=? un) then Err (NumError fn s ErrRange)
          else if neg && (cutoff <? un) then Err (NumError fn s ErrRange)
          else Ok (if neg then - un else un)
      end
  end.

Definition ParseInt (s : string) (base bitSize : Z) : go Z := parse_int "ParseInt" s base bitSize.
Definition Atoi (s : string) : go Z := parse_int "Atoi" s 10 0.

(** ** Formatting *)

Definition hexdigit (d : Z) : ascii := chr (if d <? 10 then 48 + d else 87 + d).

(** Digits of [n], most significant first; 64 digits are enough for 64 bits in
    any base. *)
Fixpoint format_go (fuel : nat) (base n : Z) (acc : string) : string :=
  match fuel with
  | O => acc
  | S fuel =>
      let acc := String (hexdigit (n mod base)) acc in
      if n / base =? 0 then acc else format_go fuel base (n / base) acc
  end.

Definition FormatUint (n base : Z) : string := format_go 64 base n "".

Definition FormatInt (n base : Z) : string :=
  if n <? 0 then "-" +:+ FormatUint (- n) base else FormatUint n base.

Definition Itoa (n : Z) : string := FormatInt n 10.

(** [%d] and [%v]; [%0wx]; [%#x]; [%#0wx], where [w] counts digits. *)
Definition fmt_d (n : Z) : string := FormatInt n 10.
Definition zero_pad (w : nat) (s : string) : string := srepeat "0" (w - String.length s) +:+ s.
Definition fmt_0x (w : nat) (n : Z) : string := zero_pad w (FormatUint n 16).
Definition fmt_sharp_x (n : Z) : string := "0x" +:+ FormatUint n 16.
Definition fmt_sharp_0x (w : nat) (n : Z) : string := "0x" +:+ fmt_0x w n.

Example Itoa_ex : Itoa (-120) = "-120". Proof. reflexivity. Qed.
Example fmt_0x_ex : fmt_0x 4 0xab = "00ab". Proof. reflexivity. Qed.
Example cookie_ex : fmt_sharp_0x 16 10 = "0x000000000000000a". Proof. reflexivity. Qed.
Example parse_ex : ParseUint "0xff00000000000000" 0 64 = Ok 0xff00000000000000.
Proof. reflexivity. Qed.
Example parse_ex2 : ParseInt "-9223372036854775808" 10 0 = Ok (- 2 ^ 63). Proof. reflexivity. Qed.
Example parse_ex3 : Atoi "9223372036854775808" = Err (NumError "Atoi" "9223372036854775808" ErrRange).
Proof. reflexivity. Qed.

(** ** Lemmas *)

Lemma digit_of_hexdigit d : 0 <= d < 16 -> digit_of (hexdigit d) = Some d.
Proof.
  intros Hd.
  pose proof (forall_below 16 (fun d => bool_decide (digit_of (hexdigit d) = Some d)) eq_refl d Hd) as H.
  cbn beta in *. by apply bool_decide_eq_true in H.
Qed.

Lemma parse_digits_cons base m n d s :
  0 <= d < base -> base <= 16 -> n * base + d <= m ->
  parse_digits base m n (String (hexdigit d) s) = parse_digits base m (n * base + d) s.
Proof.
  intros Hd Hb Hm. cbn. rewrite digit_of_hexdigit by lia.
  destruct (Z.leb_spec base d); [lia|].
  destruct (Z.ltb_spec m (n * base + d)); [lia|done].
Qed.

(** Parsing undoes formatting, whatever text follows. *)
Lemma parse_format_go fuel base m n acc :
  2 <= base <= 16 -> 0 <= n <= m -> n < base ^ Z.of_nat fuel -> (0 < fuel)%nat ->
  parse_digits base m 0 (format_go fuel base n acc) = parse_digits base m n acc.
Proof.
  intros Hb. revert n acc. induction fuel as [|fuel IH]; intros n acc Hn Hf Hpos; [lia|].
  cbn [format_go]. pose proof (Z.mod_pos_bound n base ltac:(lia)).
  pose proof (Z_div_mod_eq_full n base) as Hdm.
  destruct (Z.eqb_spec (n / base) 0) as [H0|H0].
  - rewrite parse_digits_cons by lia. f_equal. lia.
  - assert (0 <= n / base) by (apply Z.div_pos; lia).
    rewrite Nat2Z.inj_succ, Z.pow_succ_r in Hf by lia.
    assert (n / base < base ^ Z.of_nat fuel) by (apply Z.div_lt_upper_bound; lia).
    assert (n / base <= n) by (apply Z.div_le_upper_bound; nia).
    destruct fuel as [|fuel]; [cbn in *; lia|].
    rewrite IH by lia. rewrite parse_digits_cons by nia. f_equal. nia.
Qed.

Lemma parse_format base m n acc :
  2 <= base <= 16 -> 0 <= n <= m -> n < 2 ^ 64 ->
  parse_digits base m 0 (format_go 64 base n acc) = parse_digits base m n acc.
Proof.
  intros Hb Hn H64. apply parse_format_go; [done|done| |lia].
  pose proof (Z.pow_le_mono_l 2 base 64). lia.
Qed.

(** A number above the maximum is out of range. *)
Lemma parse_format_go_over fuel base m n acc :
  2 <= base <= 16 -> 0 <= m < n -> n < base ^ Z.of_nat fuel ->
  parse_digits base m 0 (format_go fuel base n acc) = inl ErrRange.
Proof.
  intros Hb. revert n acc. induction fuel as [|fuel IH]; intros n acc Hn Hf; [cbn in Hf; lia|].
  rewrite Nat2Z.inj_succ, Z.pow_succ_r in Hf by lia.
  cbn [format_go]. pose proof (Z.mod_pos_bound n base ltac:(lia)) as Hmod. pose proof (Z_div_mod_eq_full n base) as Hdm.
  assert (Hlast : forall q, q * base + n mod base = n ->
    parse_digits base m q (String (hexdigit (n mod base)) acc) = inl ErrRange).
  { intros q Hq. cbn. rewrite digit_of_hexdigit by lia. destruct (Z.leb_spec base (n mod base)); [lia|].
    rewrite Hq. by destruct (Z.ltb_spec m n); [|lia]. }
  destruct (Z.eqb_spec (n / base) 0) as [H0|H0]; [apply Hlast; lia|].
  assert (0 <= n / base) by (apply Z.div_pos; lia).
  assert (n / base < base ^ Z.of_nat fuel) by (apply Z.div_lt_upper_bound; lia).
  destruct (Z.leb_spec (n / base) m) as [Hq|Hq]; [|apply IH; [lia|done]].
  rewrite parse_format_go; [|done|lia|done|destruct fuel; [cbn in *; lia|lia]]. apply Hlast. lia.
Qed.

Lemma parse_digits_zeros base m k s :
  2 <= base -> 0 <= m -> parse_digits base m 0 (srepeat "0" k +:+ s) = parse_digits base m 0 s.
Proof.
  intros Hb Hm. induction k as [|k IH]; [done|]. cbn [srepeat]. rewrite app_cons. cbn [parse_digits].
  replace (digit_of "0") with (Some 0) by reflexivity. replace (0 * base + 0) with 0 by lia.
  destruct (Z.leb_spec base 0); [lia|]. destruct (Z.ltb_spec m 0); [lia|]. exact IH.
Qed.

(** ** Shape of formatted numbers *)

(** Decimal and hexadecimal digits as [FormatUint] writes them. *)
Definition is_digit (c : ascii) : bool := (48 <=? code c) && (code c <=? 57).
Definition is_xdigit (c : ascii) : bool := is_digit c || ((97 <=? code c) && (code c <=? 102)).

Lemma hexdigit_code d : 0 <= d < 16 -> code (hexdigit d) = if d <? 10 then 48 + d else 87 + d.
Proof. intros Hd. unfold hexdigit. rewrite code_chr; [done|]. destruct (Z.ltb_spec d 10); lia. Qed.

Lemma format_go_chars (f : ascii -> bool) fuel base n acc :
  2 <= base <= 16 -> 0 <= n ->
  (forall d, 0 <= d < base -> f (hexdigit d) = true) ->
  all_chars f acc = true -> all_chars f (format_go fuel base n acc) = true.
Proof.
  intros Hb Hn Hf. revert n Hn acc. induction fuel as [|fuel IH]; intros n Hn acc Hacc; [done|].
  cbn [format_go]. assert (Hd : f (hexdigit (n mod base)) = true) by (apply Hf, Z.mod_pos_bound; lia).
  destruct (n / base =? 0); [cbn; by rewrite Hd, Hacc|].
  apply IH; [apply Z.div_pos; lia|cbn; by rewrite Hd, Hacc].
Qed.

Lemma hexdigit_is_digit d : 0 <= d < 10 -> is_digit (hexdigit d) = true.
Proof.
  intros Hd. unfold is_digit. rewrite hexdigit_code by lia.
  destruct (Z.ltb_spec d 10); [|lia]. apply andb_true_iff. split; apply Z.leb_le; lia.
Qed.

Lemma hexdigit_is_xdigit d : 0 <= d < 16 -> is_xdigit (hexdigit d) = true.
Proof.
  intros Hd. unfold is_xdigit, is_digit. rewrite hexdigit_code by lia. apply orb_true_iff.
  destruct (Z.ltb_spec d 10); [left|right]; apply andb_true_iff; split; apply Z.leb_le; lia.
Qed.

Lemma FormatUint_digits n : 0 <= n -> all_chars is_digit (FormatUint n 10) = true.
Proof. intros Hn. apply format_go_chars; [lia|done|apply hexdigit_is_digit|done]. Qed.

Lemma FormatUint_xdigits n : 0 <= n -> all_chars is_xdigit (FormatUint n 16) = true.
Proof. intros Hn. apply format_go_chars; [lia|done|apply hexdigit_is_xdigit|done]. Qed.

Lemma format_go_nonempty fuel base n acc : (0 < fuel)%nat -> format_go fuel base n acc <> "".
Proof.
  revert n acc. induction fuel as [|fuel IH]; intros n acc Hf; [lia|]. cbn [format_go].
  destruct (n / base =? 0); [done|]. destruct fuel; [done|]. apply IH. lia.
Qed.

Lemma FormatUint_nonempty n base : FormatUint n base <> "".
Proof. apply format_go_nonempty. lia. Qed.

Lemma FormatUint_head n base : exists c s, FormatUint n base = String c s.
Proof. destruct (FormatUint n base) eqn:E; [by apply FormatUint_nonempty in E|eauto]. Qed.

(** ** Round trips of whole numbers *)

Lemma parse_uint_ne s base bits :
  s <> "" -> base <> 0 -> parse_uint s base bits = parse_digits base (maxUint bits) 0 s.
Proof. intros Hs Hb. unfold parse_uint. destruct s; [done|]. by destruct (Z.eqb_spec base 0). Qed.

Lemma zero_pad_nonempty w n base : zero_pad w (FormatUint n base) <> "".
Proof. apply app_nonempty_r, FormatUint_nonempty. Qed.

Lemma maxUint_bounds bits : 0 <= bits <= 64 -> 0 <= maxUint bits < 2 ^ 64.
Proof.
  intros H. unfold maxUint. destruct (Z.eqb_spec bits 0); [lia|].
  pose proof (Z.pow_le_mono_r 2 bits 64). pose proof (Z.pow_pos_nonneg 2 bits). lia.
Qed.

Lemma parse_uint_format w base bits n :
  2 <= base <= 16 -> 0 <= bits <= 64 -> 0 <= n <= maxUint bits ->
  parse_uint (zero_pad w (FormatUint n base)) base bits = inr n.
Proof.
  intros Hb Hbits Hn. pose proof (maxUint_bounds bits Hbits).
  rewrite parse_uint_ne by (apply zero_pad_nonempty || lia).
  unfold zero_pad. rewrite parse_digits_zeros by lia.
  unfold FormatUint. by rewrite parse_format by lia.
Qed.

Lemma zero_pad_0 s : zero_pad 0 s = s.
Proof. done. Qed.

Lemma ParseUint_format w base bits n :
  2 <= base <= 16 -> 0 <= bits <= 64 -> 0 <= n <= maxUint bits ->
  ParseUint (zero_pad w (FormatUint n base)) base bits = Ok n.
Proof. intros. unfold ParseUint. by rewrite parse_uint_format. Qed.

(** Digits enough for every number with at most 64 of them. *)
Lemma parse_uint_over w base bits n :
  2 <= base <= 16 -> 0 <= bits <= 64 -> maxUint bits < n < base ^ 64 ->
  parse_uint (zero_pad w (FormatUint n base)) base bits = inl ErrRange.
Proof.
  intros Hb Hbits Hn. pose proof (maxUint_bounds bits Hbits).
  rewrite parse_uint_ne by (apply zero_pad_nonempty || lia).
  unfold zero_pad. rewrite parse_digits_zeros by lia. apply parse_format_go_over; [lia|lia|apply Hn].
Qed.

Lemma ParseUint_over w base bits n :
  2 <= base <= 16 -> 0 <= bits <= 64 -> maxUint bits < n < base ^ 64 ->
  ParseUint (zero_pad w (FormatUint n base)) base bits =
    Err (NumError "ParseUint" (zero_pad w (FormatUint n base)) ErrRange).
Proof. intros. unfold ParseUint. by rewrite parse_uint_over. Qed.

Lemma is_digit_not_sign c : is_digit c = true -> Ascii.eqb c "-" = false /\ Ascii.eqb c "+" = false.
Proof. intros H. split; apply Ascii.eqb_neq; by intros ->. Qed.

Lemma parse_int_format fn bits n :
  (bits = 0 \/ bits = 64) -> in_i64 n -> parse_int fn (FormatInt n 10) 10 bits = Ok n.
Proof.
  intros Hbits Hn. unfold in_i64 in Hn.
  assert (Hmax : maxUint bits = 2 ^ 64 - 1) by (by destruct Hbits as [-> | ->]).
  assert (Hw : (if bits =? 0 then 64 else bits) = 64) by (by destruct Hbits as [-> | ->]).
  assert (Hp : forall m, 0 <= m <= 2 ^ 63 -> parse_uint (FormatUint m 10) 10 bits = inr m).
  { intros m Hm. rewrite <- (zero_pad_0 (FormatUint m 10)).
    apply parse_uint_format; [lia|destruct Hbits; lia|lia]. }
  unfold FormatInt, parse_int. destruct (Z.ltb_spec n 0).
  - rewrite app_cons, app_nil_l'. cbn [Ascii.eqb Bool.eqb orb negb andb].
    rewrite Hp, Hw by lia. destruct (Z.ltb_spec (2 ^ (64 - 1)) (- n)); [lia|].
    by rewrite Z.opp_involutive.
  - destruct (FormatUint_head n 10) as (c & s & E).
    pose proof (FormatUint_digits n ltac:(lia)) as Hd. rewrite E in Hd |- *.
    cbn [all_chars] in Hd. apply andb_true_iff in Hd as [Hd _].
    apply is_digit_not_sign in Hd as [-> ->]. cbn [orb negb andb]. rewrite <- E, Hp, Hw by lia.
    by destruct (Z.leb_spec (2 ^ (64 - 1)) n); [lia|].
Qed.

Lemma Atoi_fmt_d n : in_i64 n -> Atoi (fmt_d n) = Ok n.
Proof. intros Hn. apply parse_int_format; [by left|done]. Qed.

Lemma Atoi_over n : ~ in_i64 n -> Z.abs n < 10 ^ 64 -> Atoi (fmt_d n) = Err (NumError "Atoi" (fmt_d n) ErrRange).
Proof.
  intros Hn Habs. unfold in_i64 in Hn. assert (Hmax : maxUint 0 = 2 ^ 64 - 1) by reflexivity.
  assert (Hw : (if 0 =? 0 then 64 else 0) = 64) by reflexivity.
  assert (Hp : forall m, 2 ^ 63 <= m < 10 ^ 64 ->
    parse_uint (FormatUint m 10) 10 0 = if m <? 2 ^ 64 then inr m else inl ErrRange).
  { intros m Hm. rewrite <- (zero_pad_0 (FormatUint m 10)). destruct (Z.ltb_spec m (2 ^ 64)).
    - apply parse_uint_format; rewrite ?Hmax; lia.
    - apply parse_uint_over; rewrite ?Hmax; lia. }
  unfold Atoi, fmt_d, FormatInt, parse_int. destruct (Z.ltb_spec n 0).
  - rewrite app_cons, app_nil_l'. cbn [Ascii.eqb Bool.eqb orb negb andb]. rewrite Hp, Hw by lia.
    destruct (Z.ltb_spec (- n) (2 ^ 64)); [|done]. by destruct (Z.ltb_spec (2 ^ (64 - 1)) (- n)); [|lia].
  - destruct (FormatUint_head n 10) as (c & s & E).
    pose proof (FormatUint_digits n ltac:(lia)) as Hd. rewrite E in Hd |- *.
    cbn [all_chars] in Hd. apply andb_true_iff in Hd as [Hd _].
    apply is_digit_not_sign in Hd as [-> ->]. cbn [orb negb andb]. rewrite <- E, Hp, Hw by lia.
    destruct (Z.ltb_spec n (2 ^ 64)); [|done]. by destruct (Z.leb_spec (2 ^ (64 - 1)) n); [|lia].
Qed.

Lemma ParseInt_FormatInt n : in_i64 n -> ParseInt (FormatInt n 10) 10 0 = Ok n.
Proof. intros Hn. apply parse_int_format; [by left|done]. Qed.

(** [ParseUint s 0 64] of a padded hexadecimal number. *)
Lemma ParseUint_sharp_0x w n : in_u 64 n -> ParseUint (fmt_sharp_0x w n) 0 64 = Ok n.
Proof.
  intros Hn. unfold in_u in Hn. unfold ParseUint, fmt_sharp_0x, fmt_0x.
  pose proof (parse_uint_format w 16 64 n ltac:(lia) ltac:(lia)) as H.
  rewrite parse_uint_ne in H by (apply zero_pad_nonempty || lia).
  pose proof (zero_pad_nonempty w n 16) as Hne.
  destruct (zero_pad w (FormatUint n 16)) as [|c s]; [done|].
  rewrite !app_cons, app_nil_l'. unfold parse_uint. cbn [base_prefix Z.eqb].
  change ((code "x" =? 120) || (code "x" =? 88)) with true. cbn iota.
  rewrite H; [done|]. unfold maxUint. cbn. lia.
Qed.

(** Characters of the numbers the client writes. *)
Definition num_char (c : ascii) : bool :=
  is_xdigit c || Ascii.eqb c "x" || Ascii.eqb c "-".

Lemma is_xdigit_num c : is_xdigit c = true -> num_char c = true.
Proof. unfold num_char. by intros ->. Qed.

Lemma is_digit_num c : is_digit c = true -> num_char c = true.
Proof. unfold num_char, is_xdigit. by intros ->. Qed.

Lemma srepeat_chars f c n : f c = true -> all_chars f (srepeat c n) = true.
Proof. intros Hc. induction n; [done|]. cbn. by rewrite Hc. Qed.

Lemma fmt_d_num n : all_chars num_char (fmt_d n) = true.
Proof.
  unfold fmt_d, FormatInt. destruct (Z.ltb_spec n 0).
  - rewrite app_cons, app_nil_l'. cbn [all_chars]. change (num_char "-") with true.
    eapply all_chars_impl; [apply is_digit_num|apply FormatUint_digits; lia].
  - eapply all_chars_impl; [apply is_digit_num|apply FormatUint_digits; lia].
Qed.

Lemma fmt_0x_xdigits w n : 0 <= n -> all_chars is_xdigit (fmt_0x w n) = true.
Proof.
  intros Hn. unfold fmt_0x, zero_pad. rewrite all_chars_app, srepeat_chars by done.
  by apply FormatUint_xdigits.
Qed.

Lemma sharp_num s : all_chars is_xdigit s = true -> all_chars num_char ("0x" +:+ s) = true.
Proof.
  intros Hs. rewrite all_chars_app. change (all_chars num_char "0x") with true.
  eapply all_chars_impl; [apply is_xdigit_num|done].
Qed.

Lemma num_char_other c d : num_char d = false -> num_char c = true -> other_than d c = true.
Proof.
  intros Hd Hc. unfold other_than. apply negb_true_iff, Ascii.eqb_neq. intros ->. congruence.
Qed.

(** ** Ranges of parsed numbers; no conversion panics *)

Lemma digit_of_nonneg c d : digit_of c = Some d -> 0 <= d.
Proof.
  unfold digit_of. repeat case_match; intros [= <-]; bools; lia.
Qed.

Lemma parse_digits_range base m n s k :
  0 <= base -> 0 <= n <= m -> parse_digits base m n s = inr k -> 0 <= k <= m.
Proof.
  intros Hb. revert n. induction s as [|c s IH]; intros n Hn H; cbn in H; [by injection H as <-|].
  destruct (digit_of c) as [d|] eqn:Hd; [|done]. apply digit_of_nonneg in Hd.
  destruct (base <=? d); [done|]. destruct (Z.ltb_spec m (n * base + d)); [done|].
  assert (0 <= n * base) by (apply Z.mul_nonneg_nonneg; lia). apply (IH (n * base + d)); [lia|done].
Qed.

Lemma base_prefix_pos s b r : base_prefix s = Some (b, r) -> 0 <= b.
Proof. unfold base_prefix. intros H. repeat case_match; simplify_eq; lia. Qed.

Lemma parse_uint_range s base bits k :
  0 <= base -> 0 <= bits <= 64 -> parse_uint s base bits = inr k -> 0 <= k <= maxUint bits.
Proof.
  intros Hb Hbits. pose proof (maxUint_bounds bits Hbits) as Hm.
  unfold parse_uint. destruct s as [|c s]; [done|].
  destruct (base =? 0).
  - destruct (base_prefix _) as [[b r]|] eqn:Hp; [|done]. apply base_prefix_pos in Hp.
    by apply parse_digits_range; [|lia].
  - apply parse_digits_range; lia.
Qed.

Lemma ParseUint_range s base bits k :
  0 <= base -> 0 < bits <= 64 -> ParseUint s base bits = Ok k -> in_u bits k.
Proof.
  intros Hb Hbits. unfold ParseUint. destruct (parse_uint s base bits) as [|n] eqn:H; [done|].
  intros [= <-]. apply parse_uint_range in H; [|lia|lia]. unfold maxUint in H.
  destruct (Z.eqb_spec bits 0); [lia|]. unfold in_u. lia.
Qed.

Lemma Atoi_range s k : Atoi s = Ok k -> in_i64 k.
Proof.
  unfold Atoi, parse_int. destruct s as [|c r]; [done|].
  destruct (parse_uint _ 10 0) as [[]|n] eqn:H; [done..|].
  apply parse_uint_range in H; [|lia|lia].
  change (2 ^ ((if 0 =? 0 then 64 else 0) - 1)) with (2 ^ 63).
  destruct (Ascii.eqb c "-"); cbn [negb andb].
  - destruct (Z.ltb_spec (2 ^ 63) n); [done|]. intros [= <-]. unfold in_i64. lia.
  - destruct (Z.leb_spec (2 ^ 63) n); [done|]. intros [= <-]. unfold in_i64. lia.
Qed.

Lemma ParseUint_no_panic s base bits : is_Panic (ParseUint s base bits) = false.
Proof. unfold ParseUint. by destruct (parse_uint _ _ _). Qed.

Lemma Atoi_no_panic s : is_Panic (Atoi s) = false.
Proof. unfold Atoi, parse_int. by repeat case_match. Qed.

Lemma ParseInt_no_panic s base bits : is_Panic (ParseInt s base bits) = false.
Proof. unfold ParseInt, parse_int. by repeat case_match. Qed.
