(* ===== verification/GoNet.v ===== *)
(** * Package [net]: hardware and IP addresses as text

    [ParseMAC], [HardwareAddr.String], [ParseIP], [ParseCIDR], [IP.To4],
    [IP.To16] and [IP.String], on addresses as lists of bytes, as in the Go
    releases contemporary with the sources. *)

From S2P Require Import Prelude GoStrings GoConv.

(** A byte slice: [None] is nil. *)
Definition is_byte (b : Z) : Prop := 0 <= b < 256.

(** ** Numbers inside addresses *)

Definition big : Z := 0xFFFFFF.

(** [dtoi]: the leading decimal digits, their value and the rest; fails on no
    digit or on a value that reaches [big]. *)
Fixpoint dtoi_go (n : Z) (s : string) : option (Z * string) :=
  match s with
  | String c r =>
      if is_digit c then
        let n := n * 10 + (code c - 48) in
        if big <=? n then None else dtoi_go n r
      else Some (n, s)
  | EmptyString => Some (n, s)
  end.

Definition dtoi (s : string) : option (Z * string) :=
  match s with
  | String c _ => if is_digit c then dtoi_go 0 s else None
  | EmptyString => None
  end.

Definition xvalue (c : ascii) : option Z :=
  let b := code c in
  if (48 <=? b) && (b <=? 57) then Some (b - 48)
  else if (97 <=? b) && (b <=? 102) then Some (b - 97 + 10)
  else if (65 <=? b) && (b <=? 70) then Some (b - 65 + 10)
  else None.

(** [xtoi]: the same in hexadecimal. *)
Fixpoint xtoi_go (n : Z) (s : string) : option (Z * string) :=
  match s with
  | String c r =>
      match xvalue c with
      | Some d => let n := n * 16 + d in if big <=? n then None else xtoi_go n r
      | None => Some (n, s)
      end
  | EmptyString => Some (n, s)
  end.

Definition xtoi (s : string) : option (Z * string) :=
  match s with
  | String c _ => match xvalue c with Some _ => xtoi_go 0 s | None => None end
  | EmptyString => None
  end.

(** ** Hardware addresses *)

Definition HardwareAddr := list Z.

(** [xtoi2]: two hexadecimal digits, followed by [e] if anything follows. *)
Definition xtoi2 (s : string) (e : ascii) : option Z :=
  match s with
  | String a (String b r) =>
      match r with
      | String c _ => if Ascii.eqb c e then
                        match xvalue a, xvalue b with
                        | Some x, Some y => Some (x * 16 + y)
                        | _, _ => None
                        end
                      else None
      | EmptyString => match xvalue a, xvalue b with
                       | Some x, Some y => Some (x * 16 + y)
                       | _, _ => None
                       end
      end
  | _ => None
  end.

Fixpoint mac_bytes (n : nat) (s : string) (e : ascii) : option HardwareAddr :=
  match n with
  | O => Some []
  | S n => b ← xtoi2 s e; bs ← mac_bytes n (sdrop 3 s) e; Some (b :: bs)
  end.

Fixpoint mac_words (n : nat) (s : string) : option HardwareAddr :=
  match n with
  | O => Some []
  | S n => b ← xtoi2 (stake 2 s) "000"; c ← xtoi2 (sdrop 2 s) ".";
           bs ← mac_words n (sdrop 5 s); Some (b :: c :: bs)
  end.

Definition mac_len (n : nat) : bool := (n =? 6)%nat || (n =? 8)%nat || (n =? 20)%nat.

Definition ParseMAC (s : string) : go HardwareAddr :=
  let fail := Err (AddrError "invalid MAC address" s) in
  let len := String.length s in
  if (len <? 14)%nat then fail
  else
    match String.get 2 s, String.get 4 s with
    | Some c2, Some c4 =>
        if Ascii.eqb c2 ":" || Ascii.eqb c2 "-" then
          let n := ((len + 1) / 3)%nat in
          if negb ((len + 1) mod 3 =? 0)%nat || negb (mac_len n) then fail
          else from_option_err (mac_bytes n s c2) (AddrError "invalid MAC address" s)
        else if Ascii.eqb c4 "." then
          let n := (2 * (len + 1) / 5)%nat in
          if negb ((len + 1) mod 5 =? 0)%nat || negb (mac_len n) then fail
          else from_option_err (mac_words (n / 2) s) (AddrError "invalid MAC address" s)
        else fail
    | _, _ => fail
    end.

Definition HardwareAddr_String (a : HardwareAddr) : string := Join (map (fmt_0x 2) a) ":".

(** ** IP addresses *)

Definition IP := list Z.

Definition IPv4 (a b c d : Z) : IP := [0;0;0;0;0;0;0;0;0;0;0xFF;0xFF;a;b;c;d].

Definition all_zero (l : list Z) : bool := forallb (fun b => b =? 0) l.

(** [To4] and [To16]; [None] is a nil [IP]. *)
Definition To4 (ip : IP) : option IP :=
  if (length ip =? 4)%nat then Some ip
  else if (length ip =? 16)%nat && all_zero (take 10 ip)
          && forallb (fun b => b =? 0xFF) (take 2 (drop 10 ip))
       then Some (drop 12 ip)
       else None.

Definition To16 (ip : IP) : option IP :=
  match ip with
  | [a; b; c; d] => Some (IPv4 a b c d)
  | _ => if (length ip =? 16)%nat then Some ip else None
  end.

Fixpoint ipv4_octets (k : nat) (first : bool) (s : string) : option (list Z * string) :=
  match k with
  | O => Some ([], s)
  | S k =>
      match s with
      | EmptyString => None
      | String c r =>
          s ← (if first then Some s else if Ascii.eqb c "." then Some r else None);
          '(n, s) ← dtoi s;
          if 0xFF <? n then None
          else '(ns, s) ← ipv4_octets k false s; Some (n :: ns, s)
      end
  end.

Definition parseIPv4 (s : string) : option IP :=
  match ipv4_octets 4 true s with
  | Some ([a; b; c; d], EmptyString) => Some (IPv4 a b c d)
  | _ => None
  end.

(** The loop of [parseIPv6]: [bs] are the bytes parsed so far, [ell] the
    position of the ellipsis.  The result is the bytes and the position. *)
Definition head_is (c : ascii) (s : string) : bool :=
  match s with String d _ => Ascii.eqb d c | EmptyString => false end.

Fixpoint ipv6_go (fuel : nat) (bs : list Z) (ell : option nat) (s : string)
    : option (list Z * option nat * string) :=
  match fuel with
  | O => Some (bs, ell, s)
  | S fuel =>
      let i := length bs in
      if (16 <=? i)%nat then Some (bs, ell, s)
      else
        '(n, r) ← xtoi s;
        if 0xFFFF <? n then None
        else if head_is "." r then
          if (match ell with None => true | _ => false end) && negb (i =? 12)%nat then None
          else if (16 <? i + 4)%nat then None
          else ip4 ← parseIPv4 s; Some (bs ++ drop 12 ip4, ell, "")
        else
          let bs := bs ++ [Z.shiftr n 8; Z.land n 0xFF] in
          match r with
          | EmptyString => Some (bs, ell, "")
          | String c r =>
              if negb (Ascii.eqb c ":") || (String.length r =? 0)%nat then None
              else if head_is ":" r then
                match ell with
                | Some _ => None
                | None =>
                    let r := sdrop 1 r in
                    if (String.length r =? 0)%nat then Some (bs, Some (length bs), "")
                    else ipv6_go fuel bs (Some (length bs)) r
                end
              else ipv6_go fuel bs ell r
          end
  end.

Definition parseIPv6 (s : string) : option IP :=
  let ellipsis := HasPrefix s "::" in
  let s := if ellipsis then sdrop 2 s else s in
  if ellipsis && (String.length s =? 0)%nat then Some (replicate 16 0)
  else
    '(bs, ell, r) ← ipv6_go 8 [] (if ellipsis then Some O else None) s;
    if negb (String.length r =? 0)%nat then None
    else if (length bs <? 16)%nat then
      match ell with
      | None => None
      | Some e => Some (take e bs ++ replicate (16 - length bs) 0 ++ drop e bs)
      end
    else match ell with Some _ => None | None => Some bs end.

(** The first of ['.'] and [':'] decides the syntax. *)
Fixpoint first_sep (s : string) : option ascii :=
  match s with
  | EmptyString => None
  | String c s => if Ascii.eqb c "." || Ascii.eqb c ":" then Some c else first_sep s
  end.

Definition ParseIP (s : string) : option IP :=
  match first_sep s with
  | Some c => if Ascii.eqb c "." then parseIPv4 s else parseIPv6 s
  | None => None
  end.

(** The address of [ParseCIDR]; the network it also returns is unused by the
    sources. *)
Definition ParseCIDR (s : string) : option IP :=
  match SplitN2 s "/" with
  | [addr; mask] =>
      let v4 := parseIPv4 addr in
      let iplen := match v4 with Some _ => 4 | None => 16 end in
      ip ← (match v4 with Some ip => Some ip | None => parseIPv6 addr end);
      match dtoi mask with
      | Some (n, EmptyString) => if (n <? 0) || (8 * iplen <? n) then None else Some ip
      | _ => None
      end
  | _ => None
  end.

(** ** [IP.String] *)

Fixpoint groups (ip : list Z) : list Z :=
  match ip with
  | a :: b :: r => a * 256 + b :: groups r
  | _ => []
  end.

(** Length of the run of zero groups at the head. *)
Fixpoint zero_run (gs : list Z) : nat :=
  match gs with
  | g :: gs => if g =? 0 then S (zero_run gs) else O
  | [] => O
  end.

(** The longest run, the first of them: position and length, in groups. After a
    run that improves, the scan resumes two groups after its end, as the Go
    loop does. *)
Fixpoint longest_run (skip i : nat) (gs : list Z) (e0 len : nat) : nat * nat :=
  match gs with
  | [] => (e0, len)
  | _ :: gs' =>
      match skip with
      | S k => longest_run k (S i) gs' e0 len
      | O =>
          let j := zero_run gs in
          if (len <? j)%nat then longest_run j (S i) gs' i j
          else longest_run 0 (S i) gs' e0 len
      end
  end.

Definition hex_groups (gs : list Z) : string := Join (map (fun g => FormatUint g 16) gs) ":".

Definition IP_String (ip : IP) : string :=
  match ip with
  | [] => "<nil>"
  | _ =>
      match To4 ip with
      | Some p4 => Join (map fmt_d p4) "."
      | None =>
          if (length ip =? 16)%nat then
            let gs := groups ip in
            let (e0, len) := longest_run 0 0 gs 0 0 in
            if (1 <? len)%nat
            then hex_groups (take e0 gs) +:+ "::" +:+ hex_groups (drop (e0 + len) gs)
            else hex_groups gs
          else "?" +:+ String.concat "" (map (fmt_0x 2) ip)
      end
  end.

Definition ip_text (s : string) : option string := IP_String <$> ParseIP s.

Example mac1 : HardwareAddr_String <$> ParseMAC "DE-AD-BE-EF-DE-AD" = Ok "de:ad:be:ef:de:ad".
Proof. vm_compute. reflexivity. Qed.
Example mac2 : HardwareAddr_String <$> ParseMAC "dead.beef.dead" = Ok "de:ad:be:ef:de:ad".
Proof. vm_compute. reflexivity. Qed.
Example ip1 : ip_text "192.168.1.1" = Some "192.168.1.1". Proof. vm_compute. reflexivity. Qed.
Example ip2 : ip_text "2001:DB8:0:0:1:0:0:1" = Some "2001:db8::1:0:0:1". Proof. vm_compute. reflexivity. Qed.
Example ip3 : ip_text "::" = Some "::". Proof. vm_compute. reflexivity. Qed.
Example ip4 : ip_text "1::" = Some "1::". Proof. vm_compute. reflexivity. Qed.
Example ip5 : ip_text "::ffff:1.2.3.4" = Some "1.2.3.4". Proof. vm_compute. reflexivity. Qed.
Example ip6 : ip_text "1:2:3:4:5:6:7" = None. Proof. vm_compute. reflexivity. Qed.
Example ip7 : ip_text "1:2:3:4:5:6:7:8" = Some "1:2:3:4:5:6:7:8". Proof. vm_compute. reflexivity. Qed.
Example cidr1 : ParseCIDR "10.0.0.0/33" = None. Proof. vm_compute. reflexivity. Qed.
Example cidr2 : ParseCIDR "10.0.0.1/24" = Some (IPv4 10 0 0 1). Proof. vm_compute. reflexivity. Qed.

(** ** Round trip of hardware addresses *)

Lemma fmt_0x2 b :
  is_byte b -> fmt_0x 2 b = String (hexdigit (b / 16)) (sing (hexdigit (b mod 16))).
Proof.
  intros Hb.
  pose proof (forall_below 256 (fun b => String.eqb (fmt_0x 2 b)
    (String (hexdigit (b / 16)) (sing (hexdigit (b mod 16))))) ltac:(vm_compute; reflexivity) b Hb) as H.
  by apply String.eqb_eq in H.
Qed.

Lemma xvalue_hexdigit d : 0 <= d < 16 -> xvalue (hexdigit d) = Some d.
Proof.
  intros Hd. pose proof (forall_below 16 (fun d => bool_decide (xvalue (hexdigit d) = Some d))
    eq_refl d Hd) as H.
  cbn beta in H. by apply bool_decide_eq_true in H.
Qed.

Lemma xtoi2_byte b e r :
  is_byte b -> (forall c t, r = String c t -> c = e) -> xtoi2 (fmt_0x 2 b +:+ r) e = Some b.
Proof.
  intros Hb Hr. rewrite fmt_0x2, !app_cons, app_nil_l' by done. cbn [xtoi2].
  unfold is_byte in Hb. pose proof (Z_div_mod_eq_full b 16).
  rewrite !xvalue_hexdigit by
    (first [apply Z.mod_pos_bound; lia | split; [apply Z.div_pos|apply Z.div_lt_upper_bound]; lia]).
  assert (Hv : b / 16 * 16 + b mod 16 = b) by lia. rewrite Hv.
  destruct r as [|c t]; [done|]. rewrite (Hr c t eq_refl), Ascii.eqb_refl. done.
Qed.

Lemma HardwareAddr_String_cons b a :
  a <> [] -> HardwareAddr_String (b :: a) = fmt_0x 2 b +:+ ":" +:+ HardwareAddr_String a.
Proof. by destruct a. Qed.

Lemma fmt_0x2_length b : is_byte b -> String.length (fmt_0x 2 b) = 2%nat.
Proof. intros Hb. by rewrite fmt_0x2. Qed.

Lemma HardwareAddr_String_length a :
  Forall is_byte a -> a <> [] ->
  (String.length (HardwareAddr_String a) + 1 = 3 * length a)%nat.
Proof.
  induction 1 as [|b a Hb Ha IH]; [done|]. intros _. destruct a as [|b' a].
  - cbn. by rewrite fmt_0x2_length.
  - rewrite HardwareAddr_String_cons, !app_length', fmt_0x2_length by done.
    specialize (IH ltac:(done)). cbn [String.length length] in *. lia.
Qed.

Lemma sdrop_byte b t : is_byte b -> sdrop 3 (fmt_0x 2 b +:+ ":" +:+ t) = t.
Proof. intros Hb. by rewrite fmt_0x2, !app_cons, app_nil_l'. Qed.

Lemma mac_bytes_String a :
  Forall is_byte a -> mac_bytes (length a) (HardwareAddr_String a) ":" = Some a.
Proof.
  induction 1 as [|b a Hb Ha IH]; [done|]. cbn [length mac_bytes].
  destruct a as [|b' a].
  - unfold HardwareAddr_String. cbn [map Join]. rewrite <- (app_nil_r' (fmt_0x 2 b)).
    rewrite xtoi2_byte by done. done.
  - rewrite HardwareAddr_String_cons by done.
    rewrite xtoi2_byte by (try done; intros c t [= <- _]; done).
    rewrite sdrop_byte by done. cbn [mbind option_bind]. by rewrite IH.
Qed.

Lemma ParseMAC_String a :
  Forall is_byte a -> mac_len (length a) = true -> ParseMAC (HardwareAddr_String a) = Ok a.
Proof.
  intros Ha Hl. assert (Hlen : (6 <= length a)%nat).
  { unfold mac_len in Hl. repeat (apply orb_true_iff in Hl as [Hl|Hl]);
      apply Nat.eqb_eq in Hl; lia. }
  pose proof (HardwareAddr_String_length a Ha ltac:(destruct a; [cbn in Hlen; lia|done])) as Hs.
  pose proof (mac_bytes_String a Ha) as Hm.
  assert (H24 : String.get 2 (HardwareAddr_String a) = Some ":"%char /\
                exists c, String.get 4 (HardwareAddr_String a) = Some c).
  { destruct a as [|b0 [|b1 a]]; [cbn in Hlen; lia..|].
    inversion_clear Ha as [|? ? Hb0 Ha']. inversion_clear Ha' as [|? ? Hb1 _].
    rewrite HardwareAddr_String_cons, fmt_0x2 by done. split; [done|].
    destruct a as [|b2 a]; [cbn in Hlen; lia|].
    rewrite HardwareAddr_String_cons, (fmt_0x2 b1) by done.
    exists (hexdigit (b1 mod 16)). done. }
  destruct H24 as [H2 [c4 H4]]. unfold ParseMAC.
  destruct (Nat.ltb_spec (String.length (HardwareAddr_String a)) 14); [lia|].
  rewrite H2, H4, Hs. rewrite Ascii.eqb_refl. cbn [orb].
  replace (3 * length a)%nat with (length a * 3)%nat by lia.
  rewrite Nat.Div0.mod_mul, Nat.div_mul, Hl, Hm by lia. done.
Qed.

(** What [ParseMAC] returns is a list of bytes of one of its three lengths. *)
Lemma xvalue_range c d : xvalue c = Some d -> 0 <= d < 16.
Proof. unfold xvalue. intros H. repeat break_in H; bools; try done; injection H as <-; lia. Qed.

Lemma xtoi2_range s e b : xtoi2 s e = Some b -> is_byte b.
Proof.
  unfold is_byte. destruct s as [|a [|c r]]; [done..|]. cbn [xtoi2].
  assert (Hgoal : match xvalue a, xvalue c with Some x, Some y => Some (x * 16 + y) | _, _ => None end
                  = Some b -> 0 <= b < 256).
  { destruct (xvalue a) as [x|] eqn:Hx; [|done]. destruct (xvalue c) as [y|] eqn:Hy; [|done].
    apply xvalue_range in Hx, Hy. intros [= <-]. lia. }
  destruct r as [|d r]; [exact Hgoal|]. destruct (Ascii.eqb d e); [exact Hgoal|done].
Qed.

Lemma mac_bytes_spec n s e a : mac_bytes n s e = Some a -> Forall is_byte a /\ length a = n.
Proof.
  revert s a. induction n as [|n IH]; intros s a H; cbn [mac_bytes] in H; [by injection H as <-|].
  apply bind_Some in H as (b & Hb%xtoi2_range & H).
  apply bind_Some in H as (bs & [? <-]%IH & [= <-]). split; [by constructor|done].
Qed.

Lemma mac_words_spec n s a : mac_words n s = Some a -> Forall is_byte a /\ length a = (2 * n)%nat.
Proof.
  revert s a. induction n as [|n IH]; intros s a H; cbn [mac_words] in H; [by injection H as <-|].
  apply bind_Some in H as (b & Hb%xtoi2_range & H).
  apply bind_Some in H as (c & Hc%xtoi2_range & H).
  apply bind_Some in H as (bs & [? ?]%IH & [= <-]).
  split; [by do 2 (constructor; [done|])|cbn; lia].
Qed.

Lemma ParseMAC_spec s a : ParseMAC s = Ok a -> Forall is_byte a /\ mac_len (length a) = true.
Proof.
  unfold ParseMAC. destruct (_ <? _)%nat; [done|].
  destruct (String.get 2 s) as [c2|]; [|done]. destruct (String.get 4 s) as [c4|]; [|done].
  destruct (_ || _).
  - destruct (_ || _) eqn:E; [done|]. apply orb_false_iff in E as [_ E%negb_false_iff].
    destruct (mac_bytes _ s c2) as [bs|] eqn:Hbs; [|done]. intros [= <-].
    apply mac_bytes_spec in Hbs as [? ->]. done.
  - destruct (Ascii.eqb c4 "."); [|done].
    destruct (_ || _) eqn:E; [done|]. apply orb_false_iff in E as [_ E%negb_false_iff].
    destruct (mac_words _ s) as [bs|] eqn:Hbs; [|done]. intros [= <-].
    apply mac_words_spec in Hbs as [? ->]. split; [done|].
    assert (Heven : forall n, mac_len n = true -> (2 * (n / 2) = n)%nat).
    { intros n Hn. unfold mac_len in Hn. repeat (apply orb_true_iff in Hn as [Hn|Hn]);
        apply Nat.eqb_eq in Hn as ->; reflexivity. }
    by rewrite Heven.
Qed.

(** ** Round trip of IPv4 addresses *)

Lemma dtoi_go_stop n s : stops is_digit s -> dtoi_go n s = Some (n, s).
Proof. destruct s as [|c s]; [done|]. cbn. by intros ->. Qed.

Lemma dtoi_go_format fuel n acc :
  0 <= n < big -> n < 10 ^ Z.of_nat fuel -> (0 < fuel)%nat ->
  dtoi_go 0 (format_go fuel 10 n acc) = dtoi_go n acc.
Proof.
  revert n acc. induction fuel as [|fuel IH]; intros n acc Hn Hf Hpos; [lia|].
  cbn [format_go]. pose proof (Z.mod_pos_bound n 10 ltac:(lia)).
  pose proof (Z_div_mod_eq_full n 10).
  assert (Hstep : forall m, 0 <= m * 10 + n mod 10 < big ->
    dtoi_go m (String (hexdigit (n mod 10)) acc) = dtoi_go (m * 10 + n mod 10) acc).
  { intros m Hm. cbn [dtoi_go]. rewrite hexdigit_is_digit by lia.
    rewrite hexdigit_code by lia. destruct (Z.ltb_spec (n mod 10) 10); [|lia].
    replace (m * 10 + (48 + n mod 10 - 48)) with (m * 10 + n mod 10) by lia.
    destruct (Z.leb_spec big (m * 10 + n mod 10)); [lia|done]. }
  destruct (Z.eqb_spec (n / 10) 0) as [H1|H1].
  - rewrite Hstep by lia. f_equal. lia.
  - assert (0 <= n / 10) by (apply Z.div_pos; lia).
    rewrite Nat2Z.inj_succ, Z.pow_succ_r in Hf by lia.
    destruct fuel as [|fuel]; [cbn in Hf; lia|].
    rewrite IH by lia. rewrite Hstep by lia. f_equal. lia.
Qed.

Lemma format_go_app fuel base n acc : format_go fuel base n acc = format_go fuel base n "" +:+ acc.
Proof.
  revert n acc. induction fuel as [|fuel IH]; intros n acc; [done|]. cbn [format_go].
  destruct (n / base =? 0); [done|]. rewrite IH, (IH _ (sing _)), app_assoc'. done.
Qed.

Lemma dtoi_format n r :
  0 <= n < big -> stops is_digit r -> dtoi (FormatUint n 10 +:+ r) = Some (n, r).
Proof.
  intros Hn Hr. destruct (FormatUint_head n 10) as (c & s & Hc).
  pose proof (FormatUint_digits n ltac:(lia)) as Hd. rewrite Hc in Hd. cbn in Hd. bools.
  assert (Hcases : dtoi (FormatUint n 10 +:+ r) = dtoi_go 0 (FormatUint n 10 +:+ r)).
  { rewrite Hc, app_cons. cbn [dtoi]. by rewrite H. }
  rewrite Hcases. unfold FormatUint. rewrite <- format_go_app, dtoi_go_format; [by apply dtoi_go_stop|done| |lia].
  unfold big in Hn. cbn. lia.
Qed.

Lemma fmt_d_nonneg n : 0 <= n -> fmt_d n = FormatUint n 10.
Proof. intros Hn. unfold fmt_d, FormatInt. by destruct (Z.ltb_spec n 0); [lia|]. Qed.

Lemma parseIPv4_format a b c d :
  is_byte a -> is_byte b -> is_byte c -> is_byte d ->
  parseIPv4 (Join (map fmt_d [a; b; c; d]) ".") = Some (IPv4 a b c d).
Proof.
  unfold is_byte. intros Ha Hb Hc Hd. cbn [map Join].
  rewrite !fmt_d_nonneg by lia. unfold parseIPv4.
  assert (Hstep : forall k first n r, 0 <= n < 256 -> stops is_digit r ->
    ipv4_octets (S k) first ((if first then "" else ".") +:+ FormatUint n 10 +:+ r) =
    '(ns, s) ← ipv4_octets k false r; Some (n :: ns, s)).
  { intros k first n r Hn Hr.
    assert (Hmain : ('(m, s) ← dtoi (FormatUint n 10 +:+ r);
      if 0xFF <? m then None else '(ns, s) ← ipv4_octets k false s; Some (m :: ns, s)) =
      ('(ns, s) ← ipv4_octets k false r; Some (n :: ns, s))).
    { rewrite dtoi_format by (done || (unfold big; lia)). cbn.
      by destruct (Z.ltb_spec 255 n); [lia|]. }
    destruct first.
    - rewrite app_nil_l'. destruct (FormatUint_head n 10) as (x & t & Hx).
      rewrite <- Hmain. rewrite Hx, app_cons. reflexivity.
    - rewrite <- Hmain. rewrite app_cons, app_nil_l'. reflexivity. }
  pose proof (Hstep 3%nat true a ("." +:+ FormatUint b 10 +:+ "." +:+ FormatUint c 10 +:+ "." +:+ FormatUint d 10 +:+ "")) as H1.
  rewrite app_nil_l' in H1. rewrite !app_nil_r' in H1.
  rewrite H1 by done.
  pose proof (Hstep 2%nat false b ("." +:+ FormatUint c 10 +:+ "." +:+ FormatUint d 10)) as H2. cbn iota in H2.
  rewrite H2 by done.
  pose proof (Hstep 1%nat false c ("." +:+ FormatUint d 10)) as H3. cbn iota in H3. rewrite H3 by done.
  pose proof (Hstep 0%nat false d "") as H4. cbn iota in H4. rewrite app_nil_r' in H4. rewrite H4 by done.
  done.
Qed.

(** ** Round trip of IPv6 addresses *)

Definition is_hex (c : ascii) : bool := match xvalue c with Some _ => true | None => false end.

Lemma xtoi_go_stop n s : stops is_hex s -> xtoi_go n s = Some (n, s).
Proof. destruct s as [|c s]; [done|]. cbn. unfold is_hex. by destruct (xvalue c). Qed.

Lemma xtoi_go_format fuel n acc :
  0 <= n < big -> n < 16 ^ Z.of_nat fuel -> (0 < fuel)%nat ->
  xtoi_go 0 (format_go fuel 16 n acc) = xtoi_go n acc.
Proof.
  revert n acc. induction fuel as [|fuel IH]; intros n acc Hn Hf Hpos; [lia|].
  cbn [format_go]. pose proof (Z.mod_pos_bound n 16 ltac:(lia)).
  pose proof (Z_div_mod_eq_full n 16).
  assert (Hstep : forall m, 0 <= m * 16 + n mod 16 < big ->
    xtoi_go m (String (hexdigit (n mod 16)) acc) = xtoi_go (m * 16 + n mod 16) acc).
  { intros m Hm. cbn [xtoi_go]. rewrite xvalue_hexdigit by lia.
    destruct (Z.leb_spec big (m * 16 + n mod 16)); [lia|done]. }
  destruct (Z.eqb_spec (n / 16) 0) as [H1|H1].
  - rewrite Hstep by lia. f_equal. lia.
  - assert (0 <= n / 16) by (apply Z.div_pos; lia).
    rewrite Nat2Z.inj_succ, Z.pow_succ_r in Hf by lia.
    destruct fuel as [|fuel]; [cbn in Hf; lia|].
    rewrite IH by lia. rewrite Hstep by lia. f_equal. lia.
Qed.

Definition is_group (g : Z) : Prop := 0 <= g < 65536.

Lemma FormatUint16_head g :
  is_group g -> exists d t, 0 <= d < 16 /\ FormatUint g 16 = String (hexdigit d) t.
Proof.
  intros Hg. unfold is_group in Hg. unfold FormatUint.
  assert (Hgen : forall fuel n acc, 0 <= n -> (0 < fuel)%nat ->
    exists d t, 0 <= d < 16 /\ format_go fuel 16 n acc = String (hexdigit d) t).
  { induction fuel as [|fuel IH]; intros n acc Hn Hf; [lia|]. cbn [format_go].
    destruct (n / 16 =? 0) eqn:E; [exists (n mod 16), acc; split; [apply Z.mod_pos_bound; lia|done]|].
    destruct fuel; [|apply IH; [apply Z.div_pos; lia|lia]].
    exists (n mod 16), acc. split; [apply Z.mod_pos_bound; lia|done]. }
  apply Hgen; lia.
Qed.

Lemma xtoi_format g r :
  is_group g -> stops is_hex r -> xtoi (FormatUint g 16 +:+ r) = Some (g, r).
Proof.
  intros Hg Hr. destruct (FormatUint16_head g Hg) as (d & t & Hd & Hc).
  assert (Hcases : xtoi (FormatUint g 16 +:+ r) = xtoi_go 0 (FormatUint g 16 +:+ r)).
  { rewrite Hc, app_cons. cbn [xtoi]. by rewrite xvalue_hexdigit. }
  unfold is_group in Hg. rewrite Hcases. unfold FormatUint.
  rewrite <- format_go_app, xtoi_go_format; [by apply xtoi_go_stop|unfold big; lia| |lia]. lia.
Qed.

Definition ungroup (gs : list Z) : list Z :=
  List.concat (map (fun g => [Z.shiftr g 8; Z.land g 0xFF]) gs).

Lemma ungroup_groups ip :
  Forall is_byte ip -> Nat.even (length ip) = true -> ungroup (groups ip) = ip.
Proof.
  intros Hip. remember (length ip) as n eqn:Hn. revert ip Hip Hn.
  induction n as [n IH] using lt_wf_ind. intros ip Hip Hn Hev.
  destruct ip as [|a [|b r]]; [done|cbn in Hn; subst n; done|].
  inversion_clear Hip as [|? ? Ha Hip']. inversion_clear Hip' as [|? ? Hb Hr].
  unfold is_byte in Ha, Hb. cbn [length] in Hn. subst n. cbn [groups].
  change (ungroup (a * 256 + b :: groups r)) with
    ([Z.shiftr (a * 256 + b) 8; Z.land (a * 256 + b) 0xFF] ++ ungroup (groups r)).
  change 0xFF with (Z.ones 8).
  rewrite (IH (length r)) by (done || lia).
  rewrite Z.shiftr_div_pow2, Z.land_ones by lia. change (2 ^ 8) with 256.
  rewrite Z.div_add_l, (Z.div_small b), Z.add_0_r by lia.
  by rewrite Z.add_comm, Z.mod_add, Z.mod_small by lia.
Qed.

Lemma groups_range ip : Forall is_byte ip -> Forall is_group (groups ip).
Proof.
  intros Hip. remember (length ip) as n eqn:Hn. revert ip Hip Hn.
  induction n as [n IH] using lt_wf_ind. intros ip Hip Hn.
  destruct ip as [|a [|b r]]; [constructor..|].
  inversion_clear Hip as [|? ? Ha Hip']. inversion_clear Hip' as [|? ? Hb Hr].
  cbn [groups]. constructor; [unfold is_byte, is_group in *; lia|].
  cbn in Hn. apply (IH (length r)); [lia|done|done].
Qed.

Lemma groups_length ip : length (groups ip) = (length ip / 2)%nat.
Proof.
  remember (length ip) as n eqn:Hn. revert ip Hn.
  induction n as [n IH] using lt_wf_ind. intros ip Hn.
  destruct ip as [|a [|b r]]; [by subst n..|]. cbn [groups length] in *.
  rewrite (IH (length r)) by lia. subst n.
  replace (S (S (length r))) with (length r + 1 * 2)%nat by lia.
  rewrite Nat.div_add by lia. lia.
Qed.

Lemma ungroup_app g1 g2 : ungroup (g1 ++ g2) = ungroup g1 ++ ungroup g2.
Proof. unfold ungroup. by rewrite map_app, concat_app. Qed.

Lemma ungroup_length gs : length (ungroup gs) = (2 * length gs)%nat.
Proof. induction gs as [|g gs IH]; [done|]. cbn in *. unfold ungroup in IH. rewrite IH. lia. Qed.

Lemma hexdigit_not d c :
  0 <= d < 16 -> is_xdigit c = false -> Ascii.eqb (hexdigit d) c = false.
Proof.
  intros Hd Hc. apply Ascii.eqb_neq. intros <-. by rewrite hexdigit_is_xdigit in Hc.
Qed.

Lemma head_is_hex d t c : 0 <= d < 16 -> is_xdigit c = false -> head_is c (String (hexdigit d) t) = false.
Proof. apply hexdigit_not. Qed.

Lemma ipv6_go_step fuel bs ell g r :
  is_group g -> (length bs < 16)%nat -> stops is_hex r -> head_is "." r = false ->
  ipv6_go (S fuel) bs ell (FormatUint g 16 +:+ r) =
    match r with
    | EmptyString => Some (bs ++ ungroup [g], ell, "")
    | String c r =>
        if negb (Ascii.eqb c ":") || (String.length r =? 0)%nat then None
        else if head_is ":" r then
          match ell with
          | Some _ => None
          | None =>
              if (String.length (sdrop 1 r) =? 0)%nat
              then Some (bs ++ ungroup [g], Some (length (bs ++ ungroup [g])), "")
              else ipv6_go fuel (bs ++ ungroup [g]) (Some (length (bs ++ ungroup [g]))) (sdrop 1 r)
          end
        else ipv6_go fuel (bs ++ ungroup [g]) ell r
    end.
Proof.
  intros Hg Hbs Hr Hdot. cbn [ipv6_go].
  destruct (Nat.leb_spec 16 (length bs)); [lia|].
  rewrite xtoi_format by done. cbn [mbind option_bind].
  destruct (Z.ltb_spec 0xFFFF g); [unfold is_group in Hg; lia|]. by rewrite Hdot.
Qed.

Lemma hex_groups_cons g gs : gs <> [] -> hex_groups (g :: gs) = FormatUint g 16 +:+ ":" +:+ hex_groups gs.
Proof. by destruct gs. Qed.

Lemma hex_groups_head g gs : is_group g -> exists d t, 0 <= d < 16 /\ hex_groups (g :: gs) = String (hexdigit d) t.
Proof.
  intros Hg. destruct (FormatUint16_head g Hg) as (d & t & Hd & E). destruct gs as [|g' gs].
  - by exists d, t.
  - rewrite hex_groups_cons, E, app_cons by done. eauto.
Qed.

Lemma ipv6_go_groups gs fuel bs ell :
  gs <> [] -> Forall is_group gs -> (length bs + 2 * length gs <= 16)%nat -> (length gs <= fuel)%nat ->
  ipv6_go fuel bs ell (hex_groups gs) = Some (bs ++ ungroup gs, ell, "").
Proof.
  intros Hne Hgs. revert fuel bs. induction Hgs as [|g gs Hg Hgs IH]; [done|].
  intros fuel bs Hlen Hf. cbn [length] in *. destruct fuel as [|fuel]; [lia|].
  destruct gs as [|g' gs].
  - change (hex_groups [g]) with (FormatUint g 16). rewrite <- (app_nil_r' (FormatUint g 16)).
    by rewrite ipv6_go_step by (done || lia).
  - rewrite hex_groups_cons, ipv6_go_step by (done || lia).
    inversion Hgs as [|? ? Hg' _]; subst.
    destruct (hex_groups_head g' gs Hg') as (d & t & Hd & E).
    rewrite app_cons, app_nil_l', E, head_is_hex by done.
    cbn [Ascii.eqb negb orb String.length Nat.eqb]. rewrite <- E, IH; [|done|rewrite length_app, ungroup_length; cbn [length] in *; lia|lia].
    by rewrite <- app_assoc, <- ungroup_app.
Qed.

Lemma ipv6_go_ellipsis gs fuel bs t :
  gs <> [] -> Forall is_group gs -> (length bs + 2 * length gs <= 16)%nat -> (length gs <= fuel)%nat ->
  let bs' := bs ++ ungroup gs in
  ipv6_go fuel bs None (hex_groups gs +:+ "::" +:+ t) =
    if (String.length t =? 0)%nat then Some (bs', Some (length bs'), "")
    else ipv6_go (fuel - length gs) bs' (Some (length bs')) t.
Proof.
  intros Hne Hgs. revert fuel bs. induction Hgs as [|g gs Hg Hgs IH]; [done|].
  intros fuel bs Hlen Hf. cbn [length] in *. destruct fuel as [|fuel]; [lia|].
  destruct gs as [|g' gs].
  - change (hex_groups [g]) with (FormatUint g 16).
    rewrite ipv6_go_step by (done || lia). cbn -[ungroup].
    by rewrite Nat.sub_0_r.
  - rewrite hex_groups_cons, !app_assoc', ipv6_go_step by (done || lia).
    inversion Hgs as [|? ? Hg' _]; subst.
    destruct (hex_groups_head g' gs Hg') as (d & u & Hd & E).
    rewrite app_cons, app_nil_l', E, app_cons, head_is_hex by done.
    cbn [Ascii.eqb negb orb String.length Nat.eqb]. rewrite <- app_cons, <- E, IH; [|done|rewrite length_app, ungroup_length; cbn [length] in *; lia|lia].
    by rewrite <- app_assoc, <- ungroup_app.
Qed.

Lemma zero_run_spec gs :
  (zero_run gs <= length gs)%nat /\ take (zero_run gs) gs = replicate (zero_run gs) 0.
Proof.
  induction gs as [|g gs [IH1 IH2]]; [done|]. cbn [zero_run].
  destruct (Z.eqb_spec g 0) as [->|]; [|split; [lia|done]].
  cbn. split; [lia|by rewrite IH2].
Qed.

(** A run of zero groups inside the address. *)
Definition zeros_at (gs : list Z) (e0 len : nat) : Prop :=
  (e0 + len <= length gs)%nat /\ take len (drop e0 gs) = replicate len 0.

Lemma longest_run_zeros gs0 gs skip i e0 len :
  gs = drop i gs0 -> zeros_at gs0 e0 len ->
  let (e, l) := longest_run skip i gs e0 len in zeros_at gs0 e l.
Proof.
  revert skip i e0 len. induction gs as [|g gs IH]; intros skip i e0 len Hgs Hz; [done|].
  assert (Hgs' : gs = drop (S i) gs0).
  { replace (S i) with (i + 1)%nat by lia. rewrite <- drop_drop, <- Hgs. done. }
  cbn [longest_run]. destruct skip as [|k]; [|by apply IH].
  destruct (Nat.ltb_spec len (zero_run (g :: gs))); [|by apply IH].
  apply IH; [done|]. unfold zeros_at. rewrite <- Hgs.
  destruct (zero_run_spec (g :: gs)) as [H1 H2]. split; [|done].
  apply (f_equal length) in Hgs. rewrite length_drop in Hgs. cbn [length] in *. lia.
Qed.

Lemma zeros_at_split gs e0 len :
  zeros_at gs e0 len -> gs = take e0 gs ++ replicate len 0 ++ drop (e0 + len) gs.
Proof.
  intros [_ Hz]. rewrite <- Hz, <- drop_drop, take_drop, take_drop. done.
Qed.

Lemma first_sep_group g r : is_group g -> first_sep (FormatUint g 16 +:+ String ":" r) = Some ":"%char.
Proof.
  intros Hg. pose proof (FormatUint_xdigits g ltac:(unfold is_group in Hg; lia)) as Hx.
  revert Hx. generalize (FormatUint g 16). induction s as [|c s IH]; [done|].
  rewrite app_cons. cbn [all_chars first_sep]. intros [Hc Hs]%andb_true_iff.
  destruct (Ascii.eqb_spec c ".") as [->|]; [done|].
  destruct (Ascii.eqb_spec c ":") as [->|]; [done|]. by apply IH.
Qed.

Lemma first_sep_groups gs r :
  Forall is_group gs -> first_sep (hex_groups gs +:+ "::" +:+ r) = Some ":"%char.
Proof.
  intros [|g gs' Hg Hgs]; [done|]. destruct gs' as [|g' gs'].
  - by apply first_sep_group.
  - rewrite hex_groups_cons, !app_assoc' by done. by apply first_sep_group.
Qed.

Lemma not_ellipsis_hex g gs r :
  is_group g -> HasPrefix (hex_groups (g :: gs) +:+ r) "::" = false.
Proof.
  intros Hg. destruct (hex_groups_head g gs Hg) as (d & t & Hd & ->).
  rewrite app_cons. unfold HasPrefix. rewrite prefix_cons.
  by rewrite Ascii.eqb_sym, hexdigit_not.
Qed.

Lemma ungroup_zeros n : ungroup (replicate n 0) = replicate (2 * n) 0.
Proof.
  induction n as [|n IH]; [done|]. replace (2 * S n)%nat with (S (S (2 * n))) by lia.
  cbn [replicate]. rewrite <- IH. done.
Qed.

(** Parsing the compressed form restores the zero groups. *)
Lemma parseIPv6_compressed g1 len g2 :
  Forall is_group g1 -> Forall is_group g2 -> (1 < len)%nat ->
  (length g1 + len + length g2 = 8)%nat ->
  parseIPv6 (hex_groups g1 +:+ "::" +:+ hex_groups g2) =
    Some (ungroup (g1 ++ replicate len 0 ++ g2)).
Proof.
  intros H1 H2 Hlen Htot. rewrite !ungroup_app, ungroup_zeros.
  assert (Hfin : (16 - length (ungroup g1 ++ ungroup g2) = 2 * len)%nat)
    by (rewrite length_app, !ungroup_length; lia).
  assert (Hlt : (length (ungroup g1 ++ ungroup g2) <? 16)%nat = true)
    by (apply Nat.ltb_lt; rewrite length_app, !ungroup_length; lia).
  assert (Hne2 : forall g gs, is_group g -> (String.length (hex_groups (g :: gs)) =? 0)%nat = false).
  { intros g gs Hg. by destruct (hex_groups_head g gs Hg) as (d & t & _ & ->). }
  unfold parseIPv6. destruct H1 as [|g gs Hg Hgs].
  - change (hex_groups [] +:+ "::" +:+ hex_groups g2) with ("::" +:+ hex_groups g2).
    unfold HasPrefix. rewrite prefix_app.
    change (sdrop 2 ("::" +:+ hex_groups g2)) with (hex_groups g2).
    destruct H2 as [|g gs Hg Hgs].
    + cbn in Htot. assert (len = 8)%nat as -> by lia. done.
    + rewrite Hne2 by done. cbn [andb].
      rewrite ipv6_go_groups by (done || (by constructor) || (cbn [length] in *; lia)).
      cbn [mbind option_bind String.length Nat.eqb negb ungroup app]. cbn [ungroup] in Hlt, Hfin.
      change (ungroup []) with (@nil Z) in Hlt, Hfin. cbn [app] in Hlt, Hfin.
      by rewrite Hlt, Hfin.
  - rewrite not_ellipsis_hex by done. cbn [andb].
    pose proof (ipv6_go_ellipsis (g :: gs) 8 [] (hex_groups g2)) as Hgo. cbn zeta in Hgo.
    rewrite Hgo by (done || (by constructor) || (cbn [length] in *; lia)). rewrite app_nil_l. clear Hgo.
    destruct H2 as [|h hs Hh Hhs].
    + cbn [String.length hex_groups map Join Nat.eqb mbind option_bind negb].
      change (ungroup []) with (@nil Z) in *. rewrite app_nil_r in *. rewrite Hlt, Hfin.
      by rewrite firstn_all, skipn_all, app_nil_r.
    + rewrite Hne2 by done.
      rewrite ipv6_go_groups by
        (done || (by constructor) || (rewrite ?ungroup_length; cbn [length] in *; lia)).
      cbn [mbind option_bind String.length Nat.eqb negb]. rewrite Hlt, Hfin.
      by rewrite take_app_length, drop_app_length.
Qed.

(** Every 16-byte address that is not an IPv4 one reads back from its text. *)
Lemma ParseIP_String_v6 ip :
  Forall is_byte ip -> length ip = 16%nat -> To4 ip = None -> ParseIP (IP_String ip) = Some ip.
Proof.
  intros Hip Hl H4. unfold IP_String. destruct ip as [|b ip'] eqn:Eip; [done|]. rewrite <- Eip in *.
  clear Eip b ip'. rewrite H4, Hl. cbn [Nat.eqb].
  pose proof (groups_range ip Hip) as Hg. pose proof (groups_length ip) as Hgl. rewrite Hl in Hgl.
  change (16 / 2)%nat with 8%nat in Hgl.
  pose proof (ungroup_groups ip Hip ltac:(by rewrite Hl)) as Hu.
  pose proof (longest_run_zeros (groups ip) (groups ip) 0 0 0 0 eq_refl) as Hz.
  destruct (longest_run 0 0 (groups ip) 0 0) as [e0 len].
  specialize (Hz ltac:(split; [lia|done])).
  destruct (Nat.ltb_spec 1 len) as [Hlen|Hlen].
  - rewrite (zeros_at_split _ _ _ Hz) in Hu.
    assert (Hg1 : Forall is_group (take e0 (groups ip))) by (by apply Forall_take).
    assert (Hg2 : Forall is_group (drop (e0 + len) (groups ip))) by (by apply Forall_drop).
    destruct Hz as [Hz _]. unfold ParseIP. rewrite first_sep_groups by done.
    cbn [Ascii.eqb Bool.eqb]. rewrite (parseIPv6_compressed _ len) by
      (done || rewrite length_take, length_drop; lia). by rewrite Hu.
  - destruct (groups ip) as [|g gs] eqn:E; [done|].
    inversion_clear Hg as [|? ? Hg0 Hgs]. destruct gs as [|g' gs]; [done|].
    unfold ParseIP.
    assert (Hsep : first_sep (hex_groups (g :: g' :: gs)) = Some ":"%char)
      by (rewrite hex_groups_cons by done; by apply first_sep_group).
    rewrite Hsep. cbn [Ascii.eqb Bool.eqb]. unfold parseIPv6.
    rewrite <- (app_nil_r' (hex_groups (g :: g' :: gs))), not_ellipsis_hex by done. cbn [andb].
    rewrite app_nil_r', ipv6_go_groups by (done || (by constructor) || (cbn [length] in *; lia)).
    cbn [mbind option_bind String.length Nat.eqb negb app]. rewrite Hu, Hl. done.
Qed.

(** What [ParseIP] and [ParseCIDR] return: 16 bytes. *)

Lemma dtoi_nonneg s n r : dtoi s = Some (n, r) -> 0 <= n.
Proof.
  assert (Hgo : forall s m, 0 <= m -> dtoi_go m s = Some (n, r) -> 0 <= n).
  { clear s. induction s as [|c s IH]; intros m Hm; cbn [dtoi_go]; [by intros [= <- _]|].
    destruct (is_digit c) eqn:Hc; [|by intros [= <- _]].
    destruct (big <=? _); [done|]. apply IH. unfold is_digit in Hc. bools. lia. }
  destruct s as [|c s]; [done|]. unfold dtoi. destruct (is_digit c); [|done]. by apply Hgo.
Qed.

Lemma xtoi_nonneg s n r : xtoi s = Some (n, r) -> 0 <= n.
Proof.
  assert (Hgo : forall s m, 0 <= m -> xtoi_go m s = Some (n, r) -> 0 <= n).
  { clear s. induction s as [|c s IH]; intros m Hm; cbn [xtoi_go]; [by intros [= <- _]|].
    destruct (xvalue c) as [d|] eqn:Hc; [|by intros [= <- _]].
    apply xvalue_range in Hc. destruct (big <=? _); [done|]. apply IH. lia. }
  destruct s as [|c s]; [done|]. unfold xtoi. destruct (xvalue c); [|done]. by apply Hgo.
Qed.

Lemma ipv4_octets_range k first s l r : ipv4_octets k first s = Some (l, r) -> Forall is_byte l.
Proof.
  revert first s l r. induction k as [|k IH]; intros first s l r H; cbn [ipv4_octets] in H.
  { by injection H as <- _. }
  destruct s as [|c s]; [done|].
  apply bind_Some in H as (s1 & _ & H).
  apply bind_Some in H as ([n s2] & Hn%dtoi_nonneg & H).
  destruct (Z.ltb_spec 255 n); [done|].
  apply bind_Some in H as ([ns s3] & Hns%IH & [= <- _]).
  constructor; [unfold is_byte; lia|done].
Qed.

Lemma IPv4_bytes a b c d :
  is_byte a -> is_byte b -> is_byte c -> is_byte d -> Forall is_byte (IPv4 a b c d).
Proof. intros. unfold IPv4. repeat (constructor; [first [assumption|unfold is_byte; lia]|]). constructor. Qed.

Lemma parseIPv4_spec s ip :
  parseIPv4 s = Some ip ->
  exists a b c d, Forall is_byte [a; b; c; d] /\ ip = IPv4 a b c d.
Proof.
  unfold parseIPv4. destruct (ipv4_octets 4 true s) as [[l r]|] eqn:E; [|done].
  apply ipv4_octets_range in E. destruct l as [|a [|b [|c [|d [|]]]]]; [done..| |done].
  destruct r; [|done]. intros [= <-]. eauto 6.
Qed.

Definition is_IP16 (ip : IP) : Prop := Forall is_byte ip /\ length ip = 16%nat.

Lemma parseIPv4_IP16 s ip : parseIPv4 s = Some ip -> is_IP16 ip.
Proof.
  intros (a & b & c & d & H & ->)%parseIPv4_spec. split; [|done].
  rewrite !Forall_cons in H. apply IPv4_bytes; tauto.
Qed.

Lemma group_bytes n : 0 <= n <= 0xFFFF -> Forall is_byte [Z.shiftr n 8; Z.land n 255].
Proof.
  intros Hn. change 255 with (Z.ones 8). rewrite Z.shiftr_div_pow2, Z.land_ones by lia.
  change (2 ^ 8) with 256. unfold is_byte.
  repeat constructor; try apply Z.mod_pos_bound; try lia;
    [apply Z.div_pos; lia|apply Z.div_lt_upper_bound; lia].
Qed.

Lemma ipv6_go_bytes fuel bs ell s bs' ell' r :
  Forall is_byte bs -> (length bs <= 16)%nat -> Nat.even (length bs) = true ->
  (forall e, ell = Some e -> (e <= length bs)%nat) ->
  ipv6_go fuel bs ell s = Some (bs', ell', r) ->
  Forall is_byte bs' /\ (length bs' <= 16)%nat /\ (forall e, ell' = Some e -> (e <= length bs')%nat).
Proof.
  revert bs ell s. induction fuel as [|fuel IH]; intros bs ell s Hb Hl Hev He H; cbn [ipv6_go] in H.
  { by injection H as <- <- _. }
  destruct (Nat.leb_spec 16 (length bs)) as [|H16]; [by injection H as <- <- _|].
  apply bind_Some in H as ([n s1] & Hn%xtoi_nonneg & H).
  destruct (Z.ltb_spec 0xFFFF n); [done|].
  assert (Hl2 : (length bs + 2 <= 16)%nat).
  { destruct (decide (length bs = 15)%nat) as [E|]; [by rewrite E in Hev|lia]. }
  pose proof (group_bytes n ltac:(lia)) as Hgb.
  assert (Hnext : Forall is_byte (bs ++ [Z.shiftr n 8; Z.land n 255]) /\
    length (bs ++ [Z.shiftr n 8; Z.land n 255]) = (length bs + 2)%nat).
  { split; [by apply Forall_app|by rewrite length_app]. }
  destruct Hnext as [Hb2 Hlen2].
  assert (Hev2 : Nat.even (length bs + 2) = true) by (by rewrite Nat.even_add, Hev).
  destruct (head_is "." s1).
  - destruct (_ && _); [done|]. destruct (Nat.ltb_spec 16 (length bs + 4)); [done|].
    apply bind_Some in H as (ip4 & Hip4%parseIPv4_IP16 & [= <- <- _]). destruct Hip4 as [Hip Hil].
    rewrite length_app, length_drop, Hil. split_and!; [apply Forall_app; split; [done|by apply Forall_drop]|lia|].
    intros e Hee. specialize (He e Hee). lia.
  - destruct s1 as [|c s1]; [injection H as <- <- _; rewrite Hlen2; split_and!; [done|lia|intros e Hee; specialize (He e Hee); lia]|].
    destruct (_ || _); [done|]. destruct (head_is ":" s1).
    + destruct ell; [done|]. destruct (_ =? 0)%nat.
      * injection H as <- <- _. rewrite Hlen2. split_and!; [done|lia|by intros e [= <-]].
      * apply IH in H; [done|done|by rewrite Hlen2|by rewrite Hlen2|intros e [= <-]; lia].
    + apply IH in H; [done|done|by rewrite Hlen2|by rewrite Hlen2|].
      intros e Hee. specialize (He e Hee). lia.
Qed.

Lemma parseIPv6_IP16 s ip : parseIPv6 s = Some ip -> is_IP16 ip.
Proof.
  unfold parseIPv6. set (t := if HasPrefix s "::" then sdrop 2 s else s).
  destruct (_ && _); [intros [= <-]; split; [repeat constructor; lia|done]|].
  intros H. apply bind_Some in H as ([[bs ell] r] & Hgo & H).
  apply ipv6_go_bytes in Hgo as (Hb & Hl & He);
    [|constructor|cbn; lia|done|intros e; destruct (HasPrefix s "::"); [by intros [= <-]|done]].
  destruct (negb _); [done|]. destruct (Nat.ltb_spec (length bs) 16).
  - destruct ell as [e|]; [|done]. injection H as <-. specialize (He e eq_refl). split.
    + apply Forall_app; split; [by apply Forall_take|]. apply Forall_app; split; [|by apply Forall_drop].
      apply Forall_replicate. unfold is_byte. lia.
    + rewrite !length_app, length_take, length_replicate, length_drop. lia.
  - destruct ell; [done|]. injection H as <-. split; [done|lia].
Qed.

Lemma ParseIP_IP16 s ip : ParseIP s = Some ip -> is_IP16 ip.
Proof.
  unfold ParseIP. destruct (first_sep s) as [c|]; [|done].
  destruct (Ascii.eqb c "."); [apply parseIPv4_IP16|apply parseIPv6_IP16].
Qed.

Lemma To4_IP16 ip p4 :
  length ip = 16%nat -> To4 ip = Some p4 ->
  exists a b c d, ip = IPv4 a b c d /\ p4 = [a; b; c; d].
Proof.
  intros Hl H4. do 16 (destruct ip as [|? ip]; [done|]). destruct ip; [|done].
  unfold To4 in H4. cbn [length Nat.eqb] in H4. destruct (_ && _) eqn:Hz; [|done].
  cbn in Hz, H4. injection H4 as <-. bools. subst. unfold IPv4. eauto 6.
Qed.

Lemma first_sep_dec n r : 0 <= n -> first_sep (FormatUint n 10 +:+ "." +:+ r) = Some "."%char.
Proof.
  intros Hn. pose proof (FormatUint_digits n Hn) as Hd. revert Hd.
  generalize (FormatUint n 10). induction s as [|c s IH]; [done|].
  rewrite app_cons. cbn [all_chars first_sep]. intros [Hc Hs]%andb_true_iff.
  destruct (Ascii.eqb_spec c ".") as [->|]; [done|].
  destruct (Ascii.eqb_spec c ":") as [->|]; [done|]. by apply IH.
Qed.

(** The text of a parsed address parses to the same address. *)
Lemma ParseIP_String ip : is_IP16 ip -> ParseIP (IP_String ip) = Some ip.
Proof.
  intros [Hb Hl]. destruct (To4 ip) as [p4|] eqn:H4; [|by apply ParseIP_String_v6].
  apply To4_IP16 in H4 as (a & b & c & d & -> & ->); [|done].
  assert (Hbytes : is_byte a /\ is_byte b /\ is_byte c /\ is_byte d).
  { unfold IPv4 in Hb. rewrite !Forall_cons in Hb. tauto. }
  destruct Hbytes as (Ha & Hb' & Hc & Hd).
  change (IP_String (IPv4 a b c d)) with (Join (map fmt_d [a; b; c; d]) ".").
  unfold ParseIP. assert (Hs : first_sep (Join (map fmt_d [a; b; c; d]) ".") = Some "."%char).
  { cbn [map Join]. unfold is_byte in Ha. rewrite (fmt_d_nonneg a) by lia. apply first_sep_dec. lia. }
  rewrite Hs. cbn [Ascii.eqb Bool.eqb]. by apply parseIPv4_format.
Qed.

Lemma ParseCIDR_IP16 s ip : ParseCIDR s = Some ip -> is_IP16 ip.
Proof.
  unfold ParseCIDR. destruct (SplitN2 s "/") as [|addr [|mask [|]]]; [done..| |done].
  intros H. apply bind_Some in H as (ip' & Hip & H).
  assert (is_IP16 ip').
  { destruct (parseIPv4 addr) eqn:E; [injection Hip as <-; by eapply parseIPv4_IP16|].
    by eapply parseIPv6_IP16. }
  destruct (dtoi mask) as [[n []]|]; try done. destruct (_ || _); [done|]. by injection H as <-.
Qed.

(** ** Characters of addresses *)

Definition addr_char (c : ascii) : bool := is_hex c || Ascii.eqb c "." || Ascii.eqb c ":".

Lemma xdigit_addr c : is_xdigit c = true -> addr_char c = true.
Proof.
  intros H. unfold addr_char, is_hex, xvalue. unfold is_xdigit, is_digit in H.
  destruct ((48 <=? code c) && (code c <=? 57)); [done|]. cbn [orb] in H. by rewrite H.
Qed.

Lemma digit_addr c : is_digit c = true -> addr_char c = true.
Proof. intros H. apply xdigit_addr. unfold is_xdigit. by rewrite H. Qed.

Lemma dtoi_prefix s n r : dtoi s = Some (n, r) -> exists p, s = p +:+ r /\ all_chars addr_char p = true.
Proof.
  assert (Hgo : forall s m, dtoi_go m s = Some (n, r) ->
    exists p, s = p +:+ r /\ all_chars addr_char p = true).
  { clear s. induction s as [|c s IH]; intros m; cbn [dtoi_go]; [intros [= _ <-]; by exists ""|].
    destruct (is_digit c) eqn:Hc; [|intros [= _ <-]; by exists ""].
    destruct (big <=? _); [done|]. intros (p & -> & Hp)%IH. exists (String c p).
    rewrite app_cons. cbn [all_chars]. by rewrite digit_addr. }
  destruct s as [|c s]; [done|]. unfold dtoi. destruct (is_digit c); [|done]. by apply Hgo.
Qed.

Lemma xtoi_prefix s n r : xtoi s = Some (n, r) -> exists p, s = p +:+ r /\ all_chars addr_char p = true.
Proof.
  assert (Hgo : forall s m, xtoi_go m s = Some (n, r) ->
    exists p, s = p +:+ r /\ all_chars addr_char p = true).
  { clear s. induction s as [|c s IH]; intros m; cbn [xtoi_go]; [intros [= _ <-]; by exists ""|].
    destruct (xvalue c) as [d|] eqn:Hc; [|intros [= _ <-]; by exists ""].
    destruct (big <=? _); [done|]. intros (p & -> & Hp)%IH. exists (String c p).
    rewrite app_cons. cbn [all_chars]. unfold addr_char at 1, is_hex. by rewrite Hc. }
  destruct s as [|c s]; [done|]. unfold xtoi. destruct (xvalue c); [|done]. by apply Hgo.
Qed.

Lemma ipv4_octets_prefix k first s l r :
  ipv4_octets k first s = Some (l, r) -> exists p, s = p +:+ r /\ all_chars addr_char p = true.
Proof.
  revert first s l r. induction k as [|k IH]; intros first s l r H; cbn [ipv4_octets] in H.
  { injection H as _ <-. by exists "". }
  destruct s as [|c s]; [done|].
  apply bind_Some in H as (s1 & Hs1 & H).
  apply bind_Some in H as ([n s2] & (p & -> & Hp)%dtoi_prefix & H).
  destruct (255 <? n); [done|].
  apply bind_Some in H as ([ns s3] & (q & -> & Hq)%IH & [= _ <-]).
  destruct first.
  - injection Hs1 as ->. exists (p +:+ q). by rewrite app_assoc', all_chars_app, Hp, Hq.
  - destruct (Ascii.eqb_spec c ".") as [->|]; [|done]. injection Hs1 as ->.
    exists (String "." (p +:+ q)). rewrite app_cons, app_assoc'. cbn [all_chars].
    rewrite all_chars_app, Hp, Hq. done.
Qed.

Lemma parseIPv4_chars s ip : parseIPv4 s = Some ip -> all_chars addr_char s = true.
Proof.
  unfold parseIPv4. destruct (ipv4_octets 4 true s) as [[l r]|] eqn:E; [|done].
  apply ipv4_octets_prefix in E as (p & -> & Hp).
  destruct l as [|a [|b [|c [|d [|]]]]]; [done..| |done]. destruct r; [|done].
  by rewrite app_nil_r'.
Qed.

Lemma sdrop_1 c s : sdrop 1 (String c s) = s.
Proof. by destruct s. Qed.

Lemma ipv6_go_chars fuel bs ell s bs' ell' :
  ipv6_go fuel bs ell s = Some (bs', ell', "") -> all_chars addr_char s = true.
Proof.
  revert bs ell s. induction fuel as [|fuel IH]; intros bs ell s H; cbn [ipv6_go] in H.
  { by injection H as _ _ ->. }
  destruct (16 <=? length bs)%nat; [by injection H as _ _ ->|].
  apply bind_Some in H as ([n r] & Hx & H). destruct (0xFFFF <? n); [done|].
  destruct (head_is "." r).
  { destruct (_ && _); [done|]. destruct (16 <? _)%nat; [done|].
    apply bind_Some in H as (ip4 & Hip4%parseIPv4_chars & _). exact Hip4. }
  apply xtoi_prefix in Hx as (p & -> & Hp). rewrite all_chars_app, Hp.
  destruct r as [|c r]; [done|].
  destruct (Ascii.eqb_spec c ":") as [->|]; [|done]. cbn [negb orb] in H.
  destruct (String.length r =? 0)%nat; [done|]. destruct r as [|d r]; cbn [head_is] in H.
  - done.
  - destruct (Ascii.eqb_spec d ":") as [->|].
    + destruct ell; [done|]. rewrite sdrop_1 in H. destruct (Nat.eqb_spec (String.length r) 0).
      * by destruct r.
      * exact (IH _ _ _ H).
    + exact (IH _ _ _ H).
Qed.

Lemma parseIPv6_chars s ip : parseIPv6 s = Some ip -> all_chars addr_char s = true.
Proof.
  unfold parseIPv6. destruct (HasPrefix s "::") eqn:Hp; cbn [andb].
  - apply prefix_spec in Hp as [r ->]. change (sdrop 2 ("::" +:+ r)) with r.
    rewrite all_chars_app. cbn [andb].
    destruct (Nat.eqb_spec (String.length r) 0); [by destruct r|].
    intros H. apply bind_Some in H as ([[bs ell] t] & Hgo & H).
    destruct t; [|done]. apply ipv6_go_chars in Hgo. by rewrite Hgo.
  - intros H. apply bind_Some in H as ([[bs ell] t] & Hgo & H).
    destruct t; [|done]. by apply ipv6_go_chars in Hgo.
Qed.

Lemma ParseCIDR_chars s ip :
  ParseCIDR s = Some ip -> all_chars (fun c => addr_char c || Ascii.eqb c "/") s = true.
Proof.
  unfold ParseCIDR. destruct (SplitN2_inv s "/") as [[-> _]|(addr & mask & -> & ->)]; [done|].
  intros H. apply bind_Some in H as (ip' & Hip & H).
  destruct (dtoi mask) as [[n r]|] eqn:Hm; [|done]. destruct r; [|done].
  apply dtoi_prefix in Hm as (p & -> & Hp). rewrite app_nil_r'.
  assert (Haddr : all_chars addr_char addr = true).
  { destruct (parseIPv4 addr) eqn:E; [by eapply parseIPv4_chars|by eapply parseIPv6_chars]. }
  assert (Himp : forall c, addr_char c = true -> addr_char c || Ascii.eqb c "/" = true)
    by (intros c ->; done).
  rewrite all_chars_app. cbn [all_chars].
  by rewrite !(all_chars_impl _ _ _ Himp) by done.
Qed.

Lemma HardwareAddr_String_chars a :
  Forall is_byte a -> all_chars addr_char (HardwareAddr_String a) = true.
Proof.
  intros Ha. apply all_chars_Join; [done|]. apply Forall_map.
  eapply Forall_impl; [exact Ha|]. intros b Hb. cbn.
  eapply all_chars_impl; [apply xdigit_addr|]. apply fmt_0x_xdigits. unfold is_byte in Hb. lia.
Qed.

Lemma hex_groups_chars gs : Forall is_group gs -> all_chars addr_char (hex_groups gs) = true.
Proof.
  intros Hg. apply all_chars_Join; [done|]. apply Forall_map.
  eapply Forall_impl; [exact Hg|]. intros g Hgg. cbn.
  eapply all_chars_impl; [apply xdigit_addr|]. apply FormatUint_xdigits. unfold is_group in Hgg. lia.
Qed.

Lemma IP_String_chars ip : is_IP16 ip -> all_chars addr_char (IP_String ip) = true.
Proof.
  intros [Hb Hl]. unfold IP_String. destruct ip as [|x ip'] eqn:Eip; [done|]. rewrite <- Eip in *.
  clear Eip x ip'. destruct (To4 ip) as [p4|] eqn:H4.
  - apply To4_IP16 in H4 as (a & b & c & d & -> & ->); [|done].
    apply all_chars_Join; [done|]. apply Forall_map. unfold IPv4 in Hb. rewrite !Forall_cons in Hb.
    assert (Hd : forall n, is_byte n -> all_chars addr_char (fmt_d n) = true).
    { unfold is_byte. intros n Hn. rewrite fmt_d_nonneg by lia.
      eapply all_chars_impl; [apply digit_addr|]. apply FormatUint_digits. lia. }
    rewrite !Forall_cons. split_and!; [apply Hd; tauto..|constructor].
  - rewrite Hl. cbn [Nat.eqb]. pose proof (groups_range ip Hb) as Hg.
    destruct (longest_run 0 0 (groups ip) 0 0) as [e0 len].
    destruct (1 <? len)%nat; [|by apply hex_groups_chars].
    rewrite !all_chars_app, !hex_groups_chars by (by apply Forall_take || by apply Forall_drop).
    done.
Qed.
