(* ===== verification/GoQuote.v ===== *)
(** * Quoted strings

    [strconv.Quote], which the verb [%q] of package [fmt] uses, and a reader of
    the interpreted string literals it writes.  Which runes beyond ASCII are
    printable is decided by the Unicode tables of package [unicode]; they are a
    parameter, of which only the ASCII part is fixed. *)

From S2P Require Import Prelude GoStrings GoConv.

Class Printable := {
  IsPrint : Z -> bool;
  IsPrint_ascii r : 0 <= r < 0x80 -> IsPrint r = (0x20 <=? r) && (r <=? 0x7E)
}.

(** A table without printable runes beyond ASCII, for examples. *)
#[refine] Definition ascii_table : Printable :=
  {| IsPrint r := (0x20 <=? r) && (r <=? 0x7E) |}.
Proof. done. Defined.

Definition dquote : ascii := "034".
Definition bslash : ascii := "\".
Definition newline : ascii := "010".

Definition valid_rune (r : Z) : bool :=
  (0 <=? r) && (r <=? 0x10FFFF) && negb ((0xD800 <=? r) && (r <=? 0xDFFF)).

(** The escapes of one letter. *)
Definition letter_escapes : list (Z * ascii) :=
  [(7, "a"%char); (8, "b"%char); (12, "f"%char); (10, "n"%char);
   (13, "r"%char); (9, "t"%char); (11, "v"%char)].

Definition letter_of (r : Z) : option ascii :=
  snd <$> List.find (fun p => fst p =? r) letter_escapes.
Definition of_letter (c : ascii) : option Z :=
  fst <$> List.find (fun p => Ascii.eqb (snd p) c) letter_escapes.

Section Quote.
Context `{Printable}.

(** [strconv.appendEscapedRune] *)
Definition escape_rune (r : Z) : string :=
  if (r =? 34) || (r =? 92) then String bslash (sing (chr r))
  else if IsPrint r then EncodeRune r
  else match letter_of r with
       | Some c => String bslash (sing c)
       | None =>
           if (r <? 0x20) || (r =? 0x7F) then String bslash (String "x" (fmt_0x 2 r))
           else if negb (valid_rune r) then String bslash (String "u" (fmt_0x 4 RuneError))
           else if r <? 0x10000 then String bslash (String "u" (fmt_0x 4 r))
           else String bslash (String "U" (fmt_0x 8 r))
       end.

(** The loop of [strconv.appendQuotedWith]; [skip] counts the bytes of the
    current rune still to pass. *)
Fixpoint quote_go (skip : nat) (s : string) : string :=
  match s with
  | EmptyString => ""
  | String c s' =>
      match skip with
      | S k => quote_go k s'
      | O =>
          let (r, w) := DecodeRune s in
          (if (w =? 1)%nat && (r =? RuneError)
           then String bslash (String "x" (fmt_0x 2 (code c)))
           else escape_rune r) +:+ quote_go (w - 1) s'
      end
  end.

Definition Quote (s : string) : string := String dquote (quote_go 0 s +:+ sing dquote).

End Quote.

(** ** Reading a literal *)

Definition push_text (p : string) (o : option (string * string)) : option (string * string) :=
  '(t, r) ← o; Some (p +:+ t, r).

Definition hex_value (s : string) : option Z :=
  match parse_uint s 16 64 with inr n => Some n | inl _ => None end.

Definition hex_rune (s : string) : option string :=
  r ← hex_value s; if valid_rune r then Some (EncodeRune r) else None.

(** The text up to the closing quote, and what follows it. *)
Fixpoint unquote (s : string) : option (string * string) :=
  match s with
  | EmptyString => None
  | String c s1 =>
      if Ascii.eqb c dquote then Some ("", s1)
      else if Ascii.eqb c newline then None
      else if negb (Ascii.eqb c bslash) then push_text (sing c) (unquote s1)
      else
        match s1 with
        | EmptyString => None
        | String e s2 =>
            if Ascii.eqb e "x" then
              match s2 with
              | String a (String b s3) =>
                  n ← hex_value (String a (sing b)); push_text (sing (chr n)) (unquote s3)
              | _ => None
              end
            else if Ascii.eqb e "u" then
              match s2 with
              | String a (String b (String c (String d s3))) =>
                  t ← hex_rune (String a (String b (String c (sing d)))); push_text t (unquote s3)
              | _ => None
              end
            else if Ascii.eqb e "U" then
              match s2 with
              | String a (String b (String c (String d (String a' (String b' (String c' (String d' s3))))))) =>
                  t ← hex_rune (String a (String b (String c (String d
                                 (String a' (String b' (String c' (sing d'))))))));
                  push_text t (unquote s3)
              | _ => None
              end
            else if Ascii.eqb e dquote || Ascii.eqb e bslash
            then push_text (sing e) (unquote s2)
            else
              match of_letter e with
              | Some n => push_text (sing (chr n)) (unquote s2)
              | None => None
              end
        end
  end.

Definition Unquote (s : string) : option (string * string) :=
  match s with
  | String c s => if Ascii.eqb c dquote then unquote s else None
  | EmptyString => None
  end.

Section Examples.
#[local] Existing Instance ascii_table.
Definition quote_sample : string :=
  String "a" (String newline (String dquote (String (chr 0xC3) (String (chr 0xA9) (sing (chr 0xFF)))))).
Example Quote_ex : Quote quote_sample
  = String dquote ("a\n\" +:+ String dquote ("\u00e9\xff" +:+ sing dquote)).
Proof. vm_compute. reflexivity. Qed.
Example Unquote_ex : Unquote (Quote quote_sample +:+ ", 1)") = Some (quote_sample, ", 1)").
Proof. vm_compute. reflexivity. Qed.
End Examples.

(** ** Lemmas: hexadecimal digits of a fixed width *)

Lemma format_go_length fuel base n k acc :
  2 <= base -> (0 < k)%nat -> 0 <= n < base ^ Z.of_nat k ->
  (String.length (format_go fuel base n acc) <= k + String.length acc)%nat.
Proof.
  intros Hb. revert n k acc. induction fuel as [|fuel IH]; intros n k acc Hk Hn; cbn; [lia|].
  destruct (Z.eqb_spec (n / base) 0); [cbn; lia|].
  destruct k as [|k]; [lia|]. destruct (decide (k = O)) as [->|Hk'].
  - change (Z.of_nat 1) with 1 in Hn. rewrite Z.pow_1_r in Hn. rewrite Z.div_small in n0 by lia. lia.
  - etrans; [apply (IH _ k)|cbn; lia]; [lia|].
    rewrite Nat2Z.inj_succ, Z.pow_succ_r in Hn by lia.
    split; [apply Z.div_pos; lia|apply Z.div_lt_upper_bound; lia].
Qed.

Lemma fmt_0x_length w n : (0 < w)%nat -> 0 <= n < 16 ^ Z.of_nat w -> String.length (fmt_0x w n) = w.
Proof.
  intros Hw Hn. pose proof (format_go_length 64 16 n w "" ltac:(lia) Hw Hn) as Hl.
  change (String.length "") with O in Hl. unfold fmt_0x, zero_pad, FormatUint. rewrite app_length'.
  assert (forall k, String.length (srepeat "0" k) = k) as -> by (intros k; induction k; cbn; lia). lia.
Qed.

Lemma hex_value_fmt w n : (0 < w)%nat -> 0 <= n < 2 ^ 64 -> hex_value (fmt_0x w n) = Some n.
Proof.
  intros Hw Hn. unfold hex_value, fmt_0x. rewrite parse_uint_format; [done|lia..|].
  change (maxUint 64) with (2 ^ 64 - 1). lia.
Qed.

(** ** Lemmas: runes *)

Lemma valid_rune_spec r :
  valid_rune r = true <-> 0 <= r <= 0x10FFFF /\ ~ (0xD800 <= r <= 0xDFFF).
Proof. unfold valid_rune. rewrite !andb_true_iff, negb_true_iff, andb_false_iff. lia. Qed.

Lemma cont_spec lo hi c :
  0x80 <= lo -> hi <= 0xBF -> cont_in lo hi c = true ->
  code c = 0x80 + low6 c /\ lo - 0x80 <= low6 c <= hi - 0x80.
Proof.
  intros Hlo Hhi Hc. unfold cont_in in Hc. bools.
  pose proof (forall_below 256
    (fun z => negb ((0x80 <=? z) && (z <=? 0xBF)) || (z =? 0x80 + Z.land z 0x3F)) eq_refl
    (code c) (code_range c)) as H'. cbn beta in H'.
  destruct (Z.leb_spec 0x80 (code c)); [|lia]. destruct (Z.leb_spec (code c) 0xBF); [|lia].
  cbn [andb negb orb] in H'. bools. unfold low6. lia.
Qed.

Lemma lead_spec lo hi base m c :
  forallb (fun z => negb ((lo <=? z) && (z <=? hi)) || (z =? base + Z.land z m))
    (List.map Z.of_nat (List.seq 0 256)) = true ->
  lo <= code c <= hi -> code c = base + Z.land (code c) m.
Proof.
  intros Hall Hc. pose proof (forall_below 256 _ Hall (code c) (code_range c)) as H'. cbn beta in H'.
  destruct (Z.leb_spec lo (code c)); [|lia]. destruct (Z.leb_spec (code c) hi); [|lia].
  cbn [andb negb orb] in H'. by bools.
Qed.

(** The bytes of a rune written as digits in base 64. *)
Lemma sixbits r k : 0 <= k -> Z.land (Z.shiftr r k) 0x3F = r / 2 ^ k mod 64.
Proof. intros Hk. change 0x3F with (Z.ones 6). by rewrite Z.land_ones, Z.shiftr_div_pow2. Qed.

Ltac divs := Z.to_euclidean_division_equations; lia.

Lemma EncodeRune_2 a b :
  2 <= a < 32 -> 0 <= b < 64 ->
  EncodeRune (a * 64 + b) = String (chr (0xC0 + a)) (sing (chr (0x80 + b))).
Proof.
  intros Ha Hb. unfold EncodeRune. rewrite sixbits, Z.shiftr_div_pow2 by lia.
  change (2 ^ 6) with 64. change (2 ^ 0) with 1.
  destruct (Z.leb_spec 0 (a * 64 + b)); [|lia]. destruct (Z.leb_spec (a * 64 + b) 0x7F); [lia|].
  destruct (Z.leb_spec (a * 64 + b) 0x7FF); [|lia]. cbn [andb].
  repeat f_equal; divs.
Qed.

Lemma EncodeRune_3 a b d :
  0 <= a < 16 -> 0 <= b < 64 -> 0 <= d < 64 -> valid_rune (a * 4096 + b * 64 + d) = true ->
  0x7FF < a * 4096 + b * 64 + d ->
  EncodeRune (a * 4096 + b * 64 + d)
  = String (chr (0xE0 + a)) (String (chr (0x80 + b)) (sing (chr (0x80 + d)))).
Proof.
  intros Ha Hb Hd Hv%valid_rune_spec Hr. unfold EncodeRune.
  rewrite !sixbits, !Z.shiftr_div_pow2 by lia.
  change (2 ^ 6) with 64. change (2 ^ 0) with 1. change (2 ^ 12) with 4096.
  set (r := a * 4096 + b * 64 + d) in *.
  destruct (Z.leb_spec 0 r); [|lia]. destruct (Z.leb_spec r 0x7F); [lia|].
  destruct (Z.leb_spec r 0x7FF); [lia|]. destruct (Z.ltb_spec r 0); [lia|].
  destruct (Z.ltb_spec 0x10FFFF r); [lia|].
  assert ((0xD800 <=? r) && (r <=? 0xDFFF) = false) as -> by lia.
  destruct (Z.leb_spec r 0xFFFF); [|lia]. cbn [andb orb].
  assert (r / 4096 = a) as -> by divs. assert (r / 64 mod 64 = b) as -> by divs.
  by assert (r / 1 mod 64 = d) as -> by divs.
Qed.

Lemma EncodeRune_4 a b d e :
  0 <= a < 8 -> 0 <= b < 64 -> 0 <= d < 64 -> 0 <= e < 64 ->
  0xFFFF < a * 262144 + b * 4096 + d * 64 + e <= 0x10FFFF ->
  EncodeRune (a * 262144 + b * 4096 + d * 64 + e)
  = String (chr (0xF0 + a)) (String (chr (0x80 + b)) (String (chr (0x80 + d)) (sing (chr (0x80 + e))))).
Proof.
  intros Ha Hb Hd He Hr. unfold EncodeRune.
  rewrite !sixbits, !Z.shiftr_div_pow2 by lia.
  change (2 ^ 6) with 64. change (2 ^ 0) with 1. change (2 ^ 12) with 4096. change (2 ^ 18) with 262144.
  set (r := a * 262144 + b * 4096 + d * 64 + e) in *.
  destruct (Z.leb_spec 0 r); [|lia]. destruct (Z.leb_spec r 0x7F); [lia|].
  destruct (Z.leb_spec r 0x7FF); [lia|]. destruct (Z.ltb_spec r 0); [lia|].
  destruct (Z.ltb_spec 0x10FFFF r); [lia|].
  assert ((0xD800 <=? r) && (r <=? 0xDFFF) = false) as -> by lia.
  destruct (Z.leb_spec r 0xFFFF); [lia|]. cbn [andb orb].
  assert (r / 262144 = a) as -> by divs. assert (r / 4096 mod 64 = b) as -> by divs.
  assert (r / 64 mod 64 = d) as -> by divs. by assert (r / 1 mod 64 = e) as -> by divs.
Qed.

(** A rune of valid UTF-8 is encoded by the bytes it was decoded from. *)
Definition decodes (s : string) (r : Z) (w : nat) : Prop :=
  (w = 1%nat /\ r = RuneError) \/
  ((0 < w)%nat /\ valid_rune r = true /\ exists t, s = EncodeRune r +:+ t /\ sdrop w s = t).

Lemma chr_lead c k : code c = k -> chr k = c.
Proof. intros <-. apply chr_code. Qed.

Ltac lead_byte c lo hi base m :=
  let H := fresh "Hlead" in let G := fresh "Hnn" in
  pose proof (lead_spec lo hi base m c eq_refl ltac:(lia)) as H;
  assert (G : 0 <= Z.land (code c) m) by (apply Z.land_nonneg; right; lia).

Lemma DecodeRune_spec c s r w : DecodeRune (String c s) = (r, w) -> decodes (String c s) r w.
Proof.
  cbn [DecodeRune].
  assert (Herr : forall r w, (RuneError, 1%nat) = (r, w) -> decodes (String c s) r w).
  { intros ? ? [= <- <-]. by left. }
  destruct (Z.ltb_spec (code c) 0x80).
  { intros [= <- <-]. right. pose proof (code_range c). split; [lia|].
    split; [apply valid_rune_spec; lia|]. exists s. split; [|by destruct s].
    unfold EncodeRune. destruct (Z.leb_spec 0 (code c)); [|lia].
    destruct (Z.leb_spec (code c) 0x7F); [|lia]. cbn [andb]. by rewrite chr_code. }
  destruct (Z.ltb_spec (code c) 0xC2); [apply Herr|].
  destruct (Z.ltb_spec (code c) 0xE0).
  { destruct s as [|c1 s]; [apply Herr|]. destruct (cont_in _ _ c1) eqn:K1; [|apply Herr].
    intros [= <- <-]. right. split; [lia|].
    apply cont_spec in K1 as [E1 B1]; [|done..]. lead_byte c 0xC2 0xDF 0xC0 0x1F.
    rewrite Z.shiftl_mul_pow2 by lia. change (2 ^ 6) with 64.
    split; [apply valid_rune_spec; lia|]. exists s. split; [|done].
    rewrite EncodeRune_2 by lia. by rewrite (chr_lead c), (chr_lead c1) by lia. }
  destruct (Z.ltb_spec (code c) 0xF0).
  { destruct s as [|c1 [|c2 s]]; [apply Herr..|]. destruct (_ && _) eqn:Hcc; [|apply Herr].
    apply andb_true_iff in Hcc as [K1 K2]. intros [= <- <-]. right. split; [lia|].
    assert (Hlo : 0x80 <= (if code c =? 0xE0 then 0xA0 else 0x80)) by (case_match; lia).
    assert (Hhi : (if code c =? 0xED then 0x9F else 0xBF) <= 0xBF) by (destruct (code c =? 0xED); lia).
    apply cont_spec in K1 as [E1 B1]; [|done..]. apply cont_spec in K2 as [E2 B2]; [|done..].
    lead_byte c 0xE0 0xEF 0xE0 0x0F.
    rewrite !Z.shiftl_mul_pow2 by lia. change (2 ^ 6) with 64. change (2 ^ 12) with 4096.
    assert (Hv : valid_rune (Z.land (code c) 15 * 4096 + low6 c1 * 64 + low6 c2) = true /\
                 0x7FF < Z.land (code c) 15 * 4096 + low6 c1 * 64 + low6 c2).
    { rewrite valid_rune_spec.
      destruct (Z.eqb_spec (code c) 0xE0), (Z.eqb_spec (code c) 0xED); lia. }
    destruct Hv as [Hv Hmin]. split; [done|]. exists s. split; [|done].
    rewrite EncodeRune_3 by (done || lia).
    by rewrite (chr_lead c), (chr_lead c1), (chr_lead c2) by lia. }
  destruct (Z.ltb_spec (code c) 0xF5); [|apply Herr].
  destruct s as [|c1 [|c2 [|c3 s]]]; [apply Herr..|]. destruct (_ && _) eqn:Hcc; [|apply Herr].
  apply andb_true_iff in Hcc as [[K1 K2]%andb_true_iff K3]. intros [= <- <-]. right. split; [lia|].
  assert (Hlo : 0x80 <= (if code c =? 0xF0 then 0x90 else 0x80)) by (case_match; lia).
  assert (Hhi : (if code c =? 0xF4 then 0x8F else 0xBF) <= 0xBF) by (destruct (code c =? 0xF4); lia).
  apply cont_spec in K1 as [E1 B1]; [|done..]. apply cont_spec in K2 as [E2 B2]; [|done..].
  apply cont_spec in K3 as [E3 B3]; [|done..]. lead_byte c 0xF0 0xF4 0xF0 0x07.
  rewrite !Z.shiftl_mul_pow2 by lia.
  change (2 ^ 6) with 64. change (2 ^ 12) with 4096. change (2 ^ 18) with 262144.
  assert (Hr : 0xFFFF < Z.land (code c) 7 * 262144 + low6 c1 * 4096 + low6 c2 * 64 + low6 c3 <= 0x10FFFF).
  { destruct (Z.eqb_spec (code c) 0xF0), (Z.eqb_spec (code c) 0xF4); lia. }
  split; [apply valid_rune_spec; lia|]. exists s. split; [|done].
  rewrite EncodeRune_4 by lia.
  by rewrite (chr_lead c), (chr_lead c1), (chr_lead c2), (chr_lead c3) by lia.
Qed.

(** Continuation and leading bytes. *)
Lemma low6_chr x : 0 <= x < 64 -> low6 (chr (0x80 + x)) = x.
Proof.
  intros Hx. unfold low6. rewrite code_chr by lia. change 0x3F with (Z.ones 6).
  rewrite Z.land_ones by lia. change (2 ^ 6) with 64. divs.
Qed.

Lemma cont_in_chr lo hi x : lo <= 0x80 + x <= hi -> 0 <= x < 64 -> cont_in lo hi (chr (0x80 + x)) = true.
Proof.
  intros H1 H2. unfold cont_in. rewrite code_chr by lia. apply andb_true_iff. split; apply Z.leb_le; lia.
Qed.

Lemma land_lead base k x : 0 <= x < 2 ^ k -> 0 <= k -> base mod 2 ^ k = 0 -> Z.land (base + x) (Z.ones k) = x.
Proof.
  intros Hx Hk Hb. rewrite Z.land_ones, Z.add_mod, Hb, Z.add_0_l, !Z.mod_small by (try apply Z.mod_pos_bound; lia).
  done.
Qed.

(** The rune at the start of a text is the one whose encoding starts it. *)
Lemma DecodeRune_EncodeRune x t :
  valid_rune x = true -> DecodeRune (EncodeRune x +:+ t) = (x, String.length (EncodeRune x)).
Proof.
  intros Hv. pose proof Hv as Hx%valid_rune_spec.
  destruct (Z.ltb_spec x 0x80).
  { assert (EncodeRune x = sing (chr x)) as ->.
    { unfold EncodeRune. destruct (Z.leb_spec 0 x); [|lia]. by destruct (Z.leb_spec x 0x7F); [|lia]. }
    rewrite app_cons, DecodeRune_ascii, code_chr by (unfold ascii_char; rewrite ?code_chr; lia). done. }
  destruct (Z.ltb_spec x 0x800).
  { assert (Ex : x = x / 64 * 64 + x mod 64) by divs.
    assert (Ha : 2 <= x / 64 < 32) by divs. assert (Hb : 0 <= x mod 64 < 64) by divs.
    revert Ex Ha Hb. generalize (x / 64) (x mod 64). intros a b -> Ha Hb.
    rewrite EncodeRune_2, !app_cons by lia. cbn [DecodeRune]. rewrite (code_chr (0xC0 + a)) by lia.
    destruct (Z.ltb_spec (0xC0 + a) 0x80); [lia|]. destruct (Z.ltb_spec (0xC0 + a) 0xC2); [lia|].
    destruct (Z.ltb_spec (0xC0 + a) 0xE0); [|lia]. rewrite cont_in_chr, low6_chr by lia.
    change 0x1F with (Z.ones 5). rewrite land_lead, Z.shiftl_mul_pow2 by (reflexivity || lia). done. }
  destruct (Z.ltb_spec x 0x10000).
  { assert (Ex : x = x / 4096 * 4096 + x / 64 mod 64 * 64 + x mod 64) by divs.
    assert (Ha : 0 <= x / 4096 < 16) by divs. assert (Hb : 0 <= x / 64 mod 64 < 64) by divs.
    assert (Hd : 0 <= x mod 64 < 64) by divs.
    revert Ex Ha Hb Hd. generalize (x / 4096) (x / 64 mod 64) (x mod 64). intros a b d -> Ha Hb Hd.
    rewrite EncodeRune_3, !app_cons by (done || lia). cbn [DecodeRune]. rewrite (code_chr (0xE0 + a)) by lia.
    destruct (Z.ltb_spec (0xE0 + a) 0x80); [lia|]. destruct (Z.ltb_spec (0xE0 + a) 0xC2); [lia|].
    destruct (Z.ltb_spec (0xE0 + a) 0xE0); [lia|]. destruct (Z.ltb_spec (0xE0 + a) 0xF0); [|lia].
    rewrite !cont_in_chr, !low6_chr by (repeat case_match; bools; lia).
    change 0x0F with (Z.ones 4). rewrite land_lead, !Z.shiftl_mul_pow2 by (reflexivity || lia). done. }
  assert (Ex : x = x / 262144 * 262144 + x / 4096 mod 64 * 4096 + x / 64 mod 64 * 64 + x mod 64) by divs.
  assert (Ha : 0 <= x / 262144 < 5) by divs. assert (Hb : 0 <= x / 4096 mod 64 < 64) by divs.
  assert (Hd : 0 <= x / 64 mod 64 < 64) by divs. assert (He : 0 <= x mod 64 < 64) by divs.
  revert Ex Ha Hb Hd He. generalize (x / 262144) (x / 4096 mod 64) (x / 64 mod 64) (x mod 64).
  intros a b d e -> Ha Hb Hd He.
  rewrite EncodeRune_4, !app_cons by (done || lia). cbn [DecodeRune]. rewrite (code_chr (0xF0 + a)) by lia.
  destruct (Z.ltb_spec (0xF0 + a) 0x80); [lia|]. destruct (Z.ltb_spec (0xF0 + a) 0xC2); [lia|].
  destruct (Z.ltb_spec (0xF0 + a) 0xE0); [lia|]. destruct (Z.ltb_spec (0xF0 + a) 0xF0); [lia|].
  destruct (Z.ltb_spec (0xF0 + a) 0xF5); [|lia].
  rewrite !cont_in_chr, !low6_chr by (repeat case_match; bools; lia).
  change 0x07 with (Z.ones 3). rewrite land_lead, !Z.shiftl_mul_pow2 by (reflexivity || lia). done.
Qed.

(** ** Lemmas: reading back what was quoted *)

Definition plain (c : ascii) : bool :=
  negb (Ascii.eqb c dquote) && negb (Ascii.eqb c newline) && negb (Ascii.eqb c bslash).

Lemma push_text_app p q o : push_text p (push_text q o) = push_text (p +:+ q) o.
Proof. destruct o as [[t r]|]; [|done]. cbn. by rewrite app_assoc'. Qed.

Lemma unquote_plain p r : all_chars plain p = true -> unquote (p +:+ r) = push_text p (unquote r).
Proof.
  induction p as [|c p IH]; [intros _; rewrite app_nil_l'; by destruct (unquote r) as [[t u]|]|].
  rewrite app_cons. cbn [all_chars].
  intros [Hc Hp]%andb_true_iff. unfold plain in Hc. bools.
  cbn [unquote]. rewrite H, H1, H0, IH by done. cbn [negb]. by rewrite push_text_app.
Qed.

Lemma high_plain c : 0x80 <= code c -> plain c = true.
Proof.
  intros Hc. unfold plain.
  destruct (Ascii.eqb_spec c dquote) as [->|]; [by destruct Hc|].
  destruct (Ascii.eqb_spec c newline) as [->|]; [by destruct Hc|].
  by destruct (Ascii.eqb_spec c bslash) as [->|]; [by destruct Hc|].
Qed.

Lemma high_chr_plain z : 0x80 <= z < 256 -> plain (chr z) = true.
Proof. intros Hz. apply high_plain. rewrite code_chr; lia. Qed.

Lemma EncodeRune_plain r :
  valid_rune r = true -> r <> 34 -> r <> 92 -> r <> 10 -> all_chars plain (EncodeRune r) = true.
Proof.
  intros Hv%valid_rune_spec H34 H92 H10. unfold EncodeRune. rewrite !sixbits, !Z.shiftr_div_pow2 by lia.
  change (2 ^ 6) with 64. change (2 ^ 0) with 1. change (2 ^ 12) with 4096. change (2 ^ 18) with 262144.
  destruct (Z.leb_spec 0 r); [|lia]. destruct (Z.leb_spec r 0x7F); cbn [andb].
  { cbn [all_chars]. rewrite andb_true_r. unfold plain.
    destruct (Ascii.eqb_spec (chr r) dquote) as [E|_].
    { apply (f_equal code) in E. rewrite code_chr in E by lia. by contradict H34. }
    destruct (Ascii.eqb_spec (chr r) newline) as [E|_].
    { apply (f_equal code) in E. rewrite code_chr in E by lia. by contradict H10. }
    destruct (Ascii.eqb_spec (chr r) bslash) as [E|_]; [|done].
    apply (f_equal code) in E. rewrite code_chr in E by lia. by contradict H92. }
  repeat (case_match; [cbn [all_chars]; rewrite !high_chr_plain by divs; done|]).
  cbn [all_chars]. by rewrite !high_chr_plain by divs.
Qed.

Lemma unquote_hex2 n r :
  0 <= n < 256 ->
  unquote (String bslash (String "x" (fmt_0x 2 n +:+ r))) = push_text (sing (chr n)) (unquote r).
Proof.
  intros Hn. pose proof (fmt_0x_length 2 n ltac:(lia) ltac:(change (16 ^ Z.of_nat 2) with 256; lia)) as Hl.
  pose proof (hex_value_fmt 2 n ltac:(lia) ltac:(lia)) as Hv.
  destruct (fmt_0x 2 n) as [|a [|b [|]]]; try discriminate Hl. rewrite !app_cons, app_nil_l'.
  cbn [unquote]. change (Ascii.eqb bslash dquote) with false. change (Ascii.eqb bslash newline) with false.
  change (Ascii.eqb bslash bslash) with true. cbn [negb]. change (Ascii.eqb "x" "x") with true. cbn iota.
  by rewrite Hv.
Qed.

Lemma unquote_hex4 n r :
  0 <= n < 0x10000 -> valid_rune n = true ->
  unquote (String bslash (String "u" (fmt_0x 4 n +:+ r))) = push_text (EncodeRune n) (unquote r).
Proof.
  intros Hn Hr.
  pose proof (fmt_0x_length 4 n ltac:(lia) ltac:(change (16 ^ Z.of_nat 4) with 0x10000; lia)) as Hl.
  pose proof (hex_value_fmt 4 n ltac:(lia) ltac:(lia)) as Hv.
  destruct (fmt_0x 4 n) as [|a [|b [|c [|d [|]]]]]; try discriminate Hl. rewrite !app_cons, app_nil_l'.
  cbn [unquote]. change (Ascii.eqb bslash dquote) with false. change (Ascii.eqb bslash newline) with false.
  change (Ascii.eqb bslash bslash) with true. cbn [negb]. change (Ascii.eqb "u" "x") with false.
  change (Ascii.eqb "u" "u") with true. cbn iota. unfold hex_rune. rewrite Hv. cbn [mbind option_bind].
  by rewrite Hr.
Qed.

Lemma unquote_hex8 n r :
  valid_rune n = true ->
  unquote (String bslash (String "U" (fmt_0x 8 n +:+ r))) = push_text (EncodeRune n) (unquote r).
Proof.
  intros Hr. pose proof Hr as Hn%valid_rune_spec.
  pose proof (fmt_0x_length 8 n ltac:(lia) ltac:(change (16 ^ Z.of_nat 8) with 0x100000000; lia)) as Hl.
  pose proof (hex_value_fmt 8 n ltac:(lia) ltac:(lia)) as Hv.
  destruct (fmt_0x 8 n) as [|a [|b [|c [|d [|a' [|b' [|c' [|d' [|]]]]]]]]]; try discriminate Hl.
  rewrite !app_cons, app_nil_l'.
  cbn [unquote]. change (Ascii.eqb bslash dquote) with false. change (Ascii.eqb bslash newline) with false.
  change (Ascii.eqb bslash bslash) with true. cbn [negb]. change (Ascii.eqb "U" "x") with false.
  change (Ascii.eqb "U" "u") with false. change (Ascii.eqb "U" "U") with true. cbn iota.
  unfold hex_rune. rewrite Hv. cbn [mbind option_bind]. by rewrite Hr.
Qed.

(** Every letter stands for its rune, and is read back. *)
Lemma letter_of_spec r c :
  letter_of r = Some c ->
  0 <= r < 128 /\ of_letter c = Some r /\ c <> "x"%char /\ c <> "u"%char /\ c <> "U"%char /\ c <> dquote /\ c <> bslash.
Proof.
  unfold letter_of, letter_escapes. cbn [List.find fst].
  repeat (case_match; [bools; subst; intros [= <-]; repeat split; done || lia|]). done.
Qed.

Lemma unquote_letter c n r :
  letter_of n = Some c ->
  unquote (String bslash (String c r)) = push_text (sing (chr n)) (unquote r).
Proof.
  intros (_ & Hc & Hx & Hu & HU & Hq & Hb)%letter_of_spec.
  cbn [unquote]. change (Ascii.eqb bslash dquote) with false. change (Ascii.eqb bslash newline) with false.
  change (Ascii.eqb bslash bslash) with true. cbn [negb].
  apply Ascii.eqb_neq in Hx as ->, Hu as ->, HU as ->, Hq as ->, Hb as ->. cbn [orb]. by rewrite Hc.
Qed.

Lemma EncodeRune_small r : 0 <= r < 128 -> EncodeRune r = sing (chr r).
Proof.
  intros Hr. unfold EncodeRune. destruct (Z.leb_spec 0 r); [|lia]. by destruct (Z.leb_spec r 0x7F); [|lia].
Qed.

Lemma unquote_escape `{Printable} r t :
  valid_rune r = true -> unquote (escape_rune r +:+ t) = push_text (EncodeRune r) (unquote t).
Proof.
  intros Hv. pose proof Hv as Hr%valid_rune_spec. unfold escape_rune.
  destruct (Z.eqb_spec r 34) as [->|H34]; [done|].
  destruct (Z.eqb_spec r 92) as [->|H92]; [done|]. cbn [orb].
  destruct (IsPrint r) eqn:Hp.
  { apply unquote_plain, EncodeRune_plain; [done..|]. intros ->.
    by rewrite IsPrint_ascii in Hp by lia. }
  destruct (letter_of r) as [c|] eqn:Hl.
  { rewrite !app_cons, app_nil_l', (unquote_letter c r) by done.
    apply letter_of_spec in Hl as [Hl _]. by rewrite EncodeRune_small. }
  destruct (Z.ltb_spec r 0x20); cbn [orb].
  { rewrite !app_cons, unquote_hex2, EncodeRune_small by lia. done. }
  destruct (Z.eqb_spec r 0x7F) as [->|]; [done|].
  rewrite Hv. cbn [negb]. destruct (Z.ltb_spec r 0x10000); rewrite !app_cons.
  - by rewrite unquote_hex4 by (done || lia).
  - by rewrite unquote_hex8.
Qed.

Lemma unquote_quote_go `{Printable} s k r :
  unquote (quote_go k s +:+ String dquote r) = Some (sdrop k s, r).
Proof.
  revert k. induction s as [|c s IH]; intros k; [by destruct k|].
  destruct k as [|k]; cbn [quote_go]; [|by rewrite IH].
  destruct (DecodeRune (String c s)) as [x w] eqn:Hd. rewrite app_assoc'.
  apply DecodeRune_spec in Hd as [[-> ->] | (Hw & Hv & t & Es & Et)].
  - cbn [andb Nat.eqb]. change (RuneError =? RuneError) with true. cbn iota.
    rewrite !app_cons, unquote_hex2 by apply code_range. change (1 - 1)%nat with O.
    rewrite IH, chr_code. by destruct s.
  - destruct ((w =? 1)%nat && (x =? RuneError)) eqn:Hbad.
    { apply andb_true_iff in Hbad as [->%Nat.eqb_eq ->%Z.eqb_eq].
      assert (Hs : String.length (sdrop 1 (String c s)) = String.length t) by (by rewrite Et).
      rewrite Es in Hs. change (EncodeRune RuneError) with
        (String (chr 0xEF) (String (chr 0xBF) (sing (chr 0xBD)))) in Hs.
      rewrite !app_cons, app_nil_l' in Hs. cbn [sdrop String.length] in Hs. lia. }
    rewrite unquote_escape, IH by done. destruct w as [|w]; [lia|]. cbn [sdrop] in Et.
    replace (S w - 1)%nat with w by lia. rewrite Et. unfold push_text. cbn [mbind option_bind].
    by rewrite <- Es.
Qed.

Lemma Unquote_Quote `{Printable} s r : Unquote (Quote s +:+ r) = Some (s, r).
Proof.
  unfold Unquote, Quote. rewrite app_cons. change (Ascii.eqb dquote dquote) with true. cbn iota.
  rewrite app_assoc', app_cons, app_nil_l'. apply (unquote_quote_go s 0).
Qed.
