(* ===== verification/GoJson.v ===== *)
(** * JSON texts

    The part of package [encoding/json] that the clients use: what [Marshal]
    writes, and the texts that [Unmarshal] and [Decoder] read, as trees.  Strings
    are escaped for HTML as [Marshal] does by default, and bytes that are not
    UTF-8 become U+FFFD both ways.  Numbers keep their literal. *)

From S2P Require Import Prelude GoStrings GoConv GoQuote.

#[warnings="-register-all"]
Inductive json :=
| JNull
| JBool (b : bool)
| JNum (lit : string)
| JStr (s : string)
| JArr (l : list json)
| JObj (m : list (string * json)).

(** The induction principle that goes under the lists. *)
Section json_ind.
Context (P : json -> Prop).
Hypothesis P_null : P JNull.
Hypothesis P_bool : forall b, P (JBool b).
Hypothesis P_num : forall n, P (JNum n).
Hypothesis P_str : forall s, P (JStr s).
Hypothesis P_arr : forall l, Forall P l -> P (JArr l).
Hypothesis P_obj : forall m, Forall (fun kv => P (snd kv)) m -> P (JObj m).

Fixpoint json_tree_ind (j : json) : P j :=
  match j with
  | JNull => P_null
  | JBool b => P_bool b
  | JNum n => P_num n
  | JStr s => P_str s
  | JArr l =>
      P_arr l ((fix go l := match l return Forall P l with
                            | [] => Forall_nil_2 P
                            | x :: l => Forall_cons_2 P x l (json_tree_ind x) (go l)
                            end) l)
  | JObj m =>
      P_obj m ((fix go m := match m return Forall (fun kv => P (snd kv)) m with
                            | [] => Forall_nil_2 _
                            | kv :: m => Forall_cons_2 _ kv m (json_tree_ind (snd kv)) (go m)
                            end) m)
  end.
End json_ind.

(** ** Marshal *)

Definition json_rune (r : Z) : string :=
  if (r =? 34) || (r =? 92) then String bslash (sing (chr r))
  else if r =? 10 then String bslash "n"
  else if r =? 13 then String bslash "r"
  else if r =? 9 then String bslash "t"
  else if (r <? 0x20) || (r =? 60) || (r =? 62) || (r =? 38) || (r =? 0x2028) || (r =? 0x2029)
  then String bslash (String "u" (fmt_0x 4 r))
  else EncodeRune r.

Fixpoint json_body (skip : nat) (s : string) : string :=
  match s with
  | EmptyString => ""
  | String c s' =>
      match skip with
      | S k => json_body k s'
      | O =>
          let (r, w) := DecodeRune s in
          (if (w =? 1)%nat && (r =? RuneError) then String bslash (String "u" (fmt_0x 4 RuneError))
           else json_rune r) +:+ json_body (w - 1) s'
      end
  end.

Definition json_string (s : string) : string := String dquote (json_body 0 s +:+ sing dquote).

Fixpoint Marshal (j : json) : string :=
  match j with
  | JNull => "null"
  | JBool true => "true"
  | JBool false => "false"
  | JNum n => n
  | JStr s => json_string s
  | JArr l => "[" +:+ Join (map Marshal l) "," +:+ "]"
  | JObj m => "{" +:+ Join (map (fun kv => json_string (fst kv) +:+ ":" +:+ Marshal (snd kv)) m) "," +:+ "}"
  end.

(** ** Reading *)

Definition json_space (c : ascii) : bool :=
  Ascii.eqb c " " || Ascii.eqb c "009" || Ascii.eqb c "010" || Ascii.eqb c "013".

Fixpoint skip_ws (s : string) : string :=
  match s with
  | String c s' => if json_space c then skip_ws s' else s
  | EmptyString => ""
  end.

(** The escapes of one letter. *)
Definition json_letters : list (ascii * Z) :=
  [("b"%char, 8); ("f"%char, 12); ("n"%char, 10); ("r"%char, 13); ("t"%char, 9);
   ("/"%char, 47); (bslash, 92); (dquote, 34)].

Definition json_letter (c : ascii) : option Z :=
  snd <$> List.find (fun p => Ascii.eqb (fst p) c) json_letters.

(** [utf16.DecodeRune] of two surrogates. *)
Definition surrogate (r : Z) : bool := (0xD800 <=? r) && (r <? 0xE000).
Definition join_surrogates (r1 r2 : Z) : option Z :=
  if (0xD800 <=? r1) && (r1 <? 0xDC00) && (0xDC00 <=? r2) && (r2 <? 0xE000)
  then Some ((r1 - 0xD800) * 0x400 + (r2 - 0xDC00) + 0x10000) else None.

(** The text of a string up to its closing quote, decoded, and what follows. *)
Fixpoint json_unquote (skip : nat) (s : string) : option (string * string) :=
  match s with
  | EmptyString => None
  | String c s1 =>
      match skip with
      | S k => json_unquote k s1
      | O =>
          if Ascii.eqb c dquote then Some ("", s1)
          else if code c <? 0x20 then None
          else if negb (Ascii.eqb c bslash) then
            let (r, w) := DecodeRune s in push_text (EncodeRune r) (json_unquote (w - 1) s1)
          else
            match s1 with
            | EmptyString => None
            | String e s2 =>
                if Ascii.eqb e "u" then
                  match s2 with
                  | String a (String b (String c (String d s3))) =>
                      r ← hex_value (String a (String b (String c (sing d))));
                      if surrogate r then
                        match s3 with
                        | String x (String y (String a' (String b' (String c' (String d' s4))))) =>
                            match (if Ascii.eqb x bslash && Ascii.eqb y "u"
                                   then r2 ← hex_value (String a' (String b' (String c' (sing d'))));
                                        join_surrogates r r2
                                   else None) with
                            | Some r => push_text (EncodeRune r) (json_unquote 0 s4)
                            | None => push_text (EncodeRune RuneError) (json_unquote 0 s3)
                            end
                        | _ => push_text (EncodeRune RuneError) (json_unquote 0 s3)
                        end
                      else push_text (EncodeRune r) (json_unquote 0 s3)
                  | _ => None
                  end
                else match json_letter e with
                     | Some r => push_text (EncodeRune r) (json_unquote 0 s2)
                     | None => None
                     end
            end
      end
  end.

(** Numbers: an optional sign, an integer without leading zeros, a fraction, an
    exponent.  Each stage gives what it read and the rest. *)
Definition stage := string -> option (string * string).

Definition then_stage (p q : stage) : stage := fun s =>
  '(t, r) ← p s; '(u, r) ← q r; Some (t +:+ u, r).

Definition one_of (f : ascii -> bool) : stage := fun s =>
  match s with String c r => if f c then Some (sing c, r) else None | EmptyString => None end.

Definition optional (f : ascii -> bool) (q : stage) : stage := fun s =>
  match s with
  | String c r => if f c then '(t, r) ← q r; Some (String c t, r) else Some ("", s)
  | EmptyString => Some ("", "")
  end.

Definition nothing : stage := fun s => Some ("", s).
Definition digits0 : stage := fun s => Some (span is_digit s).
Definition digits1 : stage := then_stage (one_of is_digit) digits0.
Definition int_part : stage := fun s =>
  match s with
  | String c r => if Ascii.eqb c "0" then Some ("0", r) else digits1 s
  | EmptyString => None
  end.
Definition sign : stage := optional (fun c => Ascii.eqb c "-") nothing.
Definition exp_sign : stage := optional (fun c => Ascii.eqb c "-" || Ascii.eqb c "+") nothing.
Definition fraction : stage := optional (fun c => Ascii.eqb c ".") digits1.
Definition exponent : stage :=
  optional (fun c => Ascii.eqb c "e" || Ascii.eqb c "E") (then_stage exp_sign digits1).
Definition scan_num : stage := then_stage sign (then_stage int_part (then_stage fraction exponent)).

(** Elements separated by commas, up to the closing character. *)
Fixpoint elements {A} (rd : string -> option (A * string)) (fuel : nat) (close : ascii) (s : string)
    : option (list A * string) :=
  match fuel with
  | O => None
  | S fuel =>
      '(x, r) ← rd (skip_ws s);
      let r := skip_ws r in
      match strip (sing close) r with
      | Some r => Some ([x], r)
      | None => r ← strip "," r; '(l, r) ← elements rd fuel close r; Some (x :: l, r)
      end
  end.

Definition elements0 {A} (rd : string -> option (A * string)) (fuel : nat) (close : ascii) (s : string)
    : option (list A * string) :=
  match strip (sing close) (skip_ws s) with
  | Some r => Some ([], r)
  | None => elements rd fuel close s
  end.

Definition key (s : string) : option (string * string) :=
  r ← strip (sing dquote) s; '(k, r) ← json_unquote 0 r; r ← strip ":" (skip_ws r); Some (k, skip_ws r).

Definition member {A} (rd : string -> option (A * string)) (s : string) : option ((string * A) * string) :=
  '(k, r) ← key s; '(v, r) ← rd r; Some ((k, v), r).

(** A value at the start of the text, and what follows it. *)
Fixpoint value (fuel : nat) (s : string) : option (json * string) :=
  match fuel, s with
  | S fuel, String c r =>
      if Ascii.eqb c dquote then '(t, r) ← json_unquote 0 r; Some (JStr t, r)
      else if Ascii.eqb c "[" then '(l, r) ← elements0 (value fuel) fuel "]" r; Some (JArr l, r)
      else if Ascii.eqb c "{" then '(m, r) ← elements0 (member (value fuel)) fuel "}" r; Some (JObj m, r)
      else if Ascii.eqb c "n" then r ← strip "null" s; Some (JNull, r)
      else if Ascii.eqb c "t" then r ← strip "true" s; Some (JBool true, r)
      else if Ascii.eqb c "f" then r ← strip "false" s; Some (JBool false, r)
      else '(n, r) ← scan_num s; Some (JNum n, r)
  | _, _ => None
  end.

(** A value takes no more steps than it has characters. *)
Definition read_value (s : string) : option (json * string) :=
  value (S (String.length s)) (skip_ws s).

(** The text of one value. *)
Definition parse (s : string) : option json :=
  '(j, r) ← read_value s; if (skip_ws r =? "")%string then Some j else None.

(** The members of an object with the texts of their values. *)
Definition with_text (rd : string -> option (json * string)) (s : string)
    : option ((json * string) * string) :=
  '(j, r) ← rd s; Some ((j, stake (String.length s - String.length r) s), r).

Definition members (s : string) : option (list (string * (json * string))) :=
  r ← strip "{" (skip_ws s);
  fst <$> elements0 (member (with_text (value (S (String.length s))))) (S (String.length s)) "}" r.

Example Marshal_ex : Marshal (JArr [JStr "a<b"; JNull; JObj [("k", JNum "-1.5e3")]])
  = "[" +:+ String dquote ("a\u003cb" +:+ String dquote (",null,{" +:+ String dquote ("k" +:+ String dquote ":-1.5e3}]"))).
Proof. vm_compute. reflexivity. Qed.
Example json_parse_ex : parse (" " +:+ Marshal (JArr [JStr "a<b"; JNull; JObj [("k", JNum "-1.5e3")]]) +:+ " ")
  = Some (JArr [JStr "a<b"; JNull; JObj [("k", JNum "-1.5e3")]]).
Proof. vm_compute. reflexivity. Qed.
Example json_parse_ex2 : map parse ["01"; "[1,]"; "1.e5"; "-"; "[1 2]"; "nul"; "{1:2}"; ""] = replicate 8 None.
Proof. vm_compute. reflexivity. Qed.
Example json_parse_ex3 : parse (String dquote ("\ud83d\ude00\ud83dx" +:+ sing dquote))
  = Some (JStr (EncodeRune 0x1F600 +:+ EncodeRune RuneError +:+ "x")).
Proof. vm_compute. reflexivity. Qed.
Example members_ex : members ("{ " +:+ json_string "id" +:+ " : 1, " +:+ json_string "r" +:+ ":[ 2 ] }")
  = Some [("id", (JNum "1", "1")); ("r", (JArr [JNum "2"], "[ 2 ]"))].
Proof. vm_compute. reflexivity. Qed.

(** ** Lemmas: strings *)

(** A text with the bytes that are not UTF-8 replaced. *)
Fixpoint sanitize (skip : nat) (s : string) : string :=
  match s with
  | EmptyString => ""
  | String _ s' =>
      match skip with
      | S k => sanitize k s'
      | O => let (r, w) := DecodeRune s in EncodeRune r +:+ sanitize (w - 1) s'
      end
  end.

Definition valid_utf8 (s : string) : Prop := sanitize 0 s = s.

Lemma json_unquote_skip p t : json_unquote (String.length p) (p +:+ t) = json_unquote 0 t.
Proof. induction p as [|c p IH]; [done|]. rewrite app_cons. exact IH. Qed.

Lemma EncodeRune_head x :
  0 <= x -> exists c s, EncodeRune x = String c s /\ (code c = x \/ 0x80 <= code c).
Proof.
  intros Hx. unfold EncodeRune. rewrite !sixbits, !Z.shiftr_div_pow2 by lia.
  change (2 ^ 6) with 64. change (2 ^ 12) with 4096. change (2 ^ 18) with 262144.
  destruct (Z.leb_spec 0 x); [|lia]. cbn [andb].
  destruct (Z.leb_spec x 0x7F); [eexists _, _; split; [done|left; apply code_chr; lia]|].
  destruct (Z.leb_spec x 0x7FF); [eexists _, _; split; [done|right; rewrite code_chr by divs; divs]|].
  destruct (Z.ltb_spec x 0); [lia|]. cbn [orb].
  destruct (Z.ltb_spec 0x10FFFF x); cbn [orb]; [eexists _, _; split; [done|right; done]|].
  destruct (_ && _); [eexists _, _; split; [done|right; done]|].
  destruct (Z.leb_spec x 0xFFFF); eexists _, _; (split; [done|right; rewrite code_chr by divs; divs]).
Qed.

Lemma json_unquote_raw x t :
  valid_rune x = true -> 0x20 <= x -> x <> 34 -> x <> 92 ->
  json_unquote 0 (EncodeRune x +:+ t) = push_text (EncodeRune x) (json_unquote 0 t).
Proof.
  intros Hv Hx H34 H92. pose proof (EncodeRune_plain x Hv H34 H92 ltac:(lia)) as Hp.
  pose proof (DecodeRune_EncodeRune x t Hv) as Hd.
  destruct (EncodeRune_head x ltac:(lia)) as (c & s & E & Hc). rewrite E in Hd, Hp |- *.
  cbn [all_chars] in Hp. apply andb_true_iff in Hp as [Hp _]. unfold plain in Hp. bools.
  rewrite app_cons in Hd |- *. cbn [json_unquote].
  match goal with H : Ascii.eqb c dquote = false |- _ => rewrite H end.
  match goal with H : Ascii.eqb c bslash = false |- _ => rewrite H end.
  destruct (Z.ltb_spec (code c) 0x20); [lia|]. cbn [negb].
  rewrite Hd, E. cbn [String.length]. rewrite Nat.sub_succ, Nat.sub_0_r. by rewrite json_unquote_skip.
Qed.

Lemma json_unquote_esc e s : 
  json_unquote 0 (String bslash (String e s)) =
  if Ascii.eqb e "u" then json_unquote 0 (String bslash (String "u" s))
  else match json_letter e with
       | Some r => push_text (EncodeRune r) (json_unquote 0 s)
       | None => None
       end.
Proof. by destruct (Ascii.eqb_spec e "u") as [->|Hu]; [|cbn [json_unquote]; apply Ascii.eqb_neq in Hu as ->]. Qed.

Lemma json_unquote_hex x t :
  0 <= x < 0x10000 -> surrogate x = false ->
  json_unquote 0 (String bslash (String "u" (fmt_0x 4 x +:+ t))) = push_text (EncodeRune x) (json_unquote 0 t).
Proof.
  intros Hx Hs.
  pose proof (fmt_0x_length 4 x ltac:(lia) ltac:(change (16 ^ Z.of_nat 4) with 0x10000; lia)) as Hl.
  pose proof (hex_value_fmt 4 x ltac:(lia) ltac:(lia)) as Hv.
  destruct (fmt_0x 4 x) as [|a [|b [|c [|d [|]]]]]; try discriminate Hl. rewrite !app_cons, app_nil_l'.
  cbn [json_unquote]. change (Ascii.eqb bslash dquote) with false. change (code bslash <? 0x20) with false.
  change (Ascii.eqb bslash bslash) with true. change (Ascii.eqb "u" "u") with true. cbn [negb]. cbn iota.
  rewrite Hv. cbn [mbind option_bind]. by rewrite Hs.
Qed.

Lemma json_unquote_rune x t :
  valid_rune x = true -> json_unquote 0 (json_rune x +:+ t) = push_text (EncodeRune x) (json_unquote 0 t).
Proof.
  intros Hv. pose proof Hv as Hx%valid_rune_spec. unfold json_rune.
  destruct (Z.eqb_spec x 34) as [->|H34]; [done|].
  destruct (Z.eqb_spec x 92) as [->|H92]; [done|]. cbn [orb].
  destruct (Z.eqb_spec x 10) as [->|H10]; [done|].
  destruct (Z.eqb_spec x 13) as [->|H13]; [done|].
  destruct (Z.eqb_spec x 9) as [->|H9]; [done|].
  destruct (_ || _) eqn:Hesc.
  - rewrite !app_cons. apply json_unquote_hex.
    + repeat rewrite orb_true_iff in Hesc. rewrite !Z.eqb_eq, Z.ltb_lt in Hesc. lia.
    + unfold surrogate. apply andb_false_iff. rewrite Z.leb_gt, Z.ltb_ge. lia.
  - bools. by apply json_unquote_raw.
Qed.

Lemma json_unquote_body s k r :
  json_unquote 0 (json_body k s +:+ String dquote r) = Some (sanitize k s, r).
Proof.
  revert k. induction s as [|c s IH]; intros k; [done|].
  destruct k as [|k]; cbn [json_body sanitize]; [|by rewrite IH].
  destruct (DecodeRune (String c s)) as [x w] eqn:Hd. rewrite app_assoc'.
  destruct ((w =? 1)%nat && (x =? RuneError)) eqn:Hbad.
  - apply andb_true_iff in Hbad as [->%Nat.eqb_eq ->%Z.eqb_eq]. rewrite !app_cons.
    rewrite json_unquote_hex by done. by rewrite IH.
  - apply DecodeRune_spec in Hd as [[-> ->] | (_ & Hv & _)]; [done|].
    by rewrite json_unquote_rune, IH.
Qed.

Lemma json_string_unquote s r :
  valid_utf8 s -> exists b, json_string s +:+ r = String dquote b /\ json_unquote 0 b = Some (s, r).
Proof.
  intros Hs. eexists. split; [unfold json_string; by rewrite app_cons, app_assoc', app_cons, app_nil_l'|].
  by rewrite json_unquote_body, Hs.
Qed.

(** ** Lemmas: numbers *)

Definition num_part (c : ascii) : bool :=
  is_digit c || Ascii.eqb c "-" || Ascii.eqb c "+" || Ascii.eqb c "." || Ascii.eqb c "e" || Ascii.eqb c "E".

(** A stage reads the same when a text that ends a number follows. *)
Definition extends (p : stage) : Prop := forall s t u,
  p s = Some (t, u) ->
  (String.length u <= String.length s)%nat /\
  forall r, (u = "" -> stops num_part r) -> p (s +:+ r) = Some (t, u +:+ r).

Lemma extends_nothing : extends nothing.
Proof. intros s t u [= <- <-]. split; [done|]. by intros r _. Qed.

Lemma extends_one_of f : extends (one_of f).
Proof.
  intros [|c s] t u; [done|]. cbn. destruct (f c) eqn:Hc; [|done]. intros [= <- <-]. split; [lia|].
  intros r _. rewrite app_cons. cbn. by rewrite Hc.
Qed.

Lemma extends_then p q : extends p -> extends q -> extends (then_stage p q).
Proof.
  intros Hp Hq s t u. unfold then_stage. destruct (p s) as [[t1 r1]|] eqn:E1; [|done].
  cbn [mbind option_bind]. destruct (q r1) as [[t2 r2]|] eqn:E2; [|done].
  cbn [mbind option_bind]. intros [= <- <-].
  destruct (Hp _ _ _ E1) as [L1 H1]. destruct (Hq _ _ _ E2) as [L2 H2]. split; [lia|].
  intros r Hr. rewrite H1.
  - cbn [mbind option_bind]. by rewrite H2.
  - intros ->. apply Hr. destruct r2; [done|]. cbn in L2. lia.
Qed.

Lemma span_extends f s r :
  snd (span f s) = "" -> stops f r -> span f (s +:+ r) = (fst (span f s), r).
Proof.
  intros Hs Hr. induction s as [|c s IH].
  - rewrite app_nil_l'. cbn. destruct r as [|d r]; [done|]. cbn in *. by rewrite Hr.
  - rewrite app_cons. cbn [span] in *. destruct (f c); [|done].
    destruct (span f s) as [p t] eqn:E. cbn in *. by rewrite IH.
Qed.

Lemma span_extends_ne f s r :
  snd (span f s) <> "" -> span f (s +:+ r) = (fst (span f s), snd (span f s) +:+ r).
Proof.
  intros Hs. induction s as [|c s IH]; [done|].
  rewrite app_cons. cbn [span] in *. destruct (f c); [|done].
  destruct (span f s) as [p t] eqn:E. cbn in *. by rewrite IH.
Qed.

Lemma span_length f s : (String.length (snd (span f s)) <= String.length s)%nat.
Proof.
  induction s as [|c s IH]; [done|]. cbn [span]. destruct (f c); [|cbn; lia].
  destruct (span f s) as [p t]. cbn in *. lia.
Qed.

Lemma stops_impl (f g : ascii -> bool) s : (forall c, f c = true -> g c = true) -> stops g s -> stops f s.
Proof.
  intros H. destruct s as [|c s]; [done|]. cbn. intros Hg. destruct (f c) eqn:Hf; [|done].
  apply H in Hf. congruence.
Qed.

Lemma digit_num_part c : is_digit c = true -> num_part c = true.
Proof. unfold num_part. by intros ->. Qed.

Lemma extends_digits0 : extends digits0.
Proof.
  intros s t u. unfold digits0. intros [= H]. pose proof (span_length is_digit s) as Hl. rewrite H in Hl.
  split; [exact Hl|]. intros r Hr. destruct u as [|c u].
  - rewrite (span_extends is_digit s r); rewrite ?H; [done|done|].
    eapply stops_impl; [apply digit_num_part|by apply Hr].
  - rewrite (span_extends_ne is_digit s r); rewrite ?H; done.
Qed.

Lemma extends_optional f q :
  (forall c, f c = true -> num_part c = true) -> extends q -> extends (optional f q).
Proof.
  intros Hf Hq [|c s] t u.
  - intros [= <- <-]. split; [done|]. intros r Hr. rewrite app_nil_l'. specialize (Hr eq_refl).
    destruct r as [|d r]; [done|]. cbn in Hr |- *. destruct (f d) eqn:E; [|done]. apply Hf in E. congruence.
  - cbn [optional]. destruct (f c) eqn:Hc.
    + destruct (q s) as [[t' r']|] eqn:E; [|done]. cbn [mbind option_bind]. intros [= <- <-].
      destruct (Hq _ _ _ E) as [L H]. split; [cbn; lia|]. intros r Hr. rewrite app_cons. cbn [optional].
      by rewrite Hc, H.
    + intros [= <- <-]. split; [done|]. intros r _. rewrite app_cons. cbn [optional]. by rewrite Hc.
Qed.

Lemma extends_int_part : extends int_part.
Proof.
  intros [|c s] t u; [done|]. cbn [int_part]. destruct (Ascii.eqb c "0") eqn:Hc.
  - intros [= <- <-]. split; [cbn; lia|]. intros r _. rewrite app_cons. cbn [int_part]. by rewrite Hc.
  - intros H. destruct (extends_then _ _ (extends_one_of is_digit) extends_digits0 _ _ _ H) as [L He].
    split; [done|]. intros r Hr. rewrite app_cons. cbn [int_part]. rewrite Hc. rewrite <- app_cons. by apply He.
Qed.

Lemma extends_scan_num : extends scan_num.
Proof.
  assert (Hd : extends digits1) by (apply extends_then; [apply extends_one_of|apply extends_digits0]).
  assert (Hn : forall c d, num_part d = true -> Ascii.eqb c d = true -> num_part c = true).
  { by intros c d Hd' ->%Ascii.eqb_eq. }
  repeat apply extends_then; try apply extends_int_part.
  - apply extends_optional; [|apply extends_nothing]. intros c. by apply Hn.
  - apply extends_optional; [|done]. intros c. by apply Hn.
  - apply extends_optional; [|apply extends_then; [|done]].
    + intros c [H|H]%orb_true_iff; by eapply Hn; [|exact H].
    + apply extends_optional; [|apply extends_nothing].
      intros c [H|H]%orb_true_iff; by eapply Hn; [|exact H].
Qed.

Definition num_ok (n : string) : bool :=
  match scan_num n with Some (t, r) => (t =? n)%string && (r =? "")%string | None => false end.

Lemma scan_num_ok n r : num_ok n = true -> stops num_part r -> scan_num (n +:+ r) = Some (n, r).
Proof.
  unfold num_ok. destruct (scan_num n) as [[t u]|] eqn:E; [|done].
  intros [->%String.eqb_eq ->%String.eqb_eq]%andb_true_iff Hr.
  apply extends_scan_num in E as [_ H]. by rewrite H.
Qed.

Lemma num_ok_head n : num_ok n = true -> exists c s, n = String c s /\ (c = "-"%char \/ is_digit c = true).
Proof.
  unfold num_ok. destruct n as [|c s]; [done|]. intros H. exists c, s. split; [done|].
  destruct (Ascii.eqb_spec c "-") as [->|Hm]; [by left|right].
  unfold scan_num, then_stage, sign, optional in H. apply Ascii.eqb_neq in Hm. rewrite Hm in H.
  cbn [mbind option_bind int_part] in H. destruct (Ascii.eqb_spec c "0") as [->|]; [done|].
  unfold digits1, then_stage, one_of in H. by destruct (is_digit c).
Qed.

(** ** Lemmas: values *)

Fixpoint json_ok (j : json) : bool :=
  match j with
  | JNull | JBool _ => true
  | JNum n => num_ok n
  | JStr s => (sanitize 0 s =? s)%string
  | JArr l => forallb json_ok l
  | JObj m => forallb (fun kv => (sanitize 0 (fst kv) =? fst kv)%string && json_ok (snd kv)) m
  end.

Fixpoint size (j : json) : nat :=
  match j with
  | JArr l => S (list_sum (map size l))
  | JObj m => S (list_sum (map (fun kv => size (snd kv)) m))
  | _ => 1
  end.

Definition starts_ok (t : string) : Prop :=
  match t with
  | String c _ => json_space c = false /\ c <> "]"%char /\ c <> "}"%char
  | EmptyString => False
  end.

Definition after (r : string) : Prop :=
  match r with
  | String c _ => c = ","%char \/ c = "]"%char \/ c = "}"%char
  | EmptyString => True
  end.

Definition reads {A} (rd : string -> option (A * string)) (t : string) (v : A) : Prop :=
  starts_ok t /\ forall r, after r -> rd (t +:+ r) = Some (v, r).

Lemma skip_ws_start t r : starts_ok t -> skip_ws (t +:+ r) = t +:+ r.
Proof. destruct t as [|c t]; [done|]. intros [Hc _]. rewrite app_cons. cbn. by rewrite Hc. Qed.

Lemma strip_start c t r : (c = "]"%char \/ c = "}"%char) -> starts_ok t -> strip (sing c) (t +:+ r) = None.
Proof.
  destruct t as [|d t]; [done|]. intros Hc (_ & H1 & H2). rewrite app_cons. unfold strip, HasPrefix.
  rewrite prefix_sing. destruct (Ascii.eqb_spec c d) as [->|]; [by destruct Hc|done].
Qed.

Lemma elements_Join {A} (rd : string -> option (A * string)) fuel c t ts v vs r :
  (c = "]"%char \/ c = "}"%char) -> Forall2 (reads rd) (t :: ts) (v :: vs) -> (length ts < fuel)%nat ->
  elements rd fuel c (Join (t :: ts) "," +:+ String c r) = Some (v :: vs, r).
Proof.
  intros Hc. revert t ts v vs. induction fuel as [|fuel IH]; intros t ts v vs Hall Hf; [lia|].
  apply Forall2_cons in Hall as [[Hs Ht] Hall]. cbn [elements].
  destruct Hall as [|u w ts vs Hu Hall].
  - cbn [Join]. rewrite skip_ws_start, Ht by (done || right; exact Hc). cbn [mbind option_bind].
    assert (skip_ws (String c r) = sing c +:+ r) as -> by (by destruct Hc as [-> | ->]).
    by rewrite strip_app.
  - rewrite Join_cons, !app_assoc', skip_ws_start, Ht by (done || by left). cbn [mbind option_bind].
    set (rest := Join (u :: ts) "," +:+ String c r).
    assert (skip_ws ("," +:+ rest) = "," +:+ rest) as -> by done.
    assert (strip (sing c) ("," +:+ rest) = None) as -> by (by destruct Hc as [-> | ->]).
    rewrite strip_app. cbn [mbind option_bind]. unfold rest.
    rewrite (IH u ts w vs); [done|by constructor|cbn in Hf; lia].
Qed.

Lemma elements0_Join {A} (rd : string -> option (A * string)) fuel c ts vs r :
  (c = "]"%char \/ c = "}"%char) -> Forall2 (reads rd) ts vs -> (length ts <= fuel)%nat ->
  elements0 rd fuel c (Join ts "," +:+ String c r) = Some (vs, r).
Proof.
  intros Hc Hall Hf. unfold elements0. destruct Hall as [|t v ts vs Ht Hall].
  - cbn [Join]. rewrite app_nil_l'. assert (skip_ws (String c r) = sing c +:+ r) as ->
      by (by destruct Hc as [-> | ->]). by rewrite strip_app.
  - assert (Hh : exists q, Join (t :: ts) "," +:+ String c r = t +:+ q).
    { destruct ts; [by eexists|]. rewrite Join_cons, !app_assoc' by done. by eexists. }
    destruct Hh as [q Hq]. rewrite Hq, skip_ws_start, strip_start by (done || apply Ht). rewrite <- Hq.
    apply elements_Join; [done|by constructor|cbn in Hf; lia].
Qed.

Lemma reads_key {A} (rd : string -> option (A * string)) k t v :
  valid_utf8 k -> reads rd t v -> reads (member rd) (json_string k +:+ ":" +:+ t) (k, v).
Proof.
  intros Hk [Hs Ht]. split.
  - by unfold json_string.
  - intros r Hr. rewrite !app_assoc'. destruct (json_string_unquote k (":" +:+ t +:+ r) Hk) as (b & E & Hb).
    rewrite E. unfold member, key. change (String dquote b) with (sing dquote +:+ b).
    rewrite strip_app. cbn [mbind option_bind]. rewrite Hb. cbn [mbind option_bind].
    assert (skip_ws (":" +:+ t +:+ r) = ":" +:+ t +:+ r) as -> by done.
    rewrite strip_app. cbn [mbind option_bind]. rewrite skip_ws_start by done. by rewrite Ht.
Qed.

Lemma Marshal_start j : json_ok j = true -> starts_ok (Marshal j).
Proof.
  destruct j as [|[]|n|s|l|m]; try (intros _; by repeat split). cbn [json_ok Marshal].
  intros (c & s & -> & [-> | Hc])%num_ok_head; [done|]. repeat split; [|by intros ->..].
  unfold json_space. repeat (apply orb_false_iff; split); apply Ascii.eqb_neq; by intros ->.
Qed.

Lemma after_num r : after r -> stops num_part r.
Proof. destruct r as [|c r]; [done|]. by intros [-> | [-> | ->]]. Qed.

Lemma list_sum_le (l : list nat) x : In x l -> (x <= list_sum l)%nat.
Proof. induction l as [|y l IH]; [done|]. change (list_sum (y :: l)) with (y + list_sum l)%nat.
  intros [->|H]; [lia|]. specialize (IH H). lia.
Qed.

Lemma size_pos j : (1 <= size j)%nat.
Proof. destruct j; cbn; lia. Qed.

Lemma length_list_sum {A} (f : A -> nat) l :
  (forall x, 1 <= f x)%nat -> (length l <= list_sum (map f l))%nat.
Proof.
  intros Hf. induction l as [|x l IH]; [done|]. cbn [map length].
  change (list_sum (f x :: map f l)) with (f x + list_sum (map f l))%nat. specialize (Hf x). lia.
Qed.

(** What may follow a value: a number goes on as long as it can. *)
Definition value_end (j : json) (r : string) : Prop :=
  match j with JNum _ => stops num_part r | _ => True end.

Lemma after_end j r : after r -> value_end j r.
Proof. destruct j; [done..| |done|done|done]. apply after_num. Qed.

(** Reading what was written; the fuel is the number of values inside. *)
Lemma value_Marshal j f :
  json_ok j = true -> (size j <= f)%nat -> forall r, value_end j r -> value f (Marshal j +:+ r) = Some (j, r).
Proof.
  revert f. induction j as [|[]|n|s|l IH|m IH] using json_tree_ind; intros f Hok Hf r Hr;
    (destruct f as [|f]; [cbn in Hf; lia|]).
  - transitivity (u ← strip "null" ("null" +:+ r); Some (JNull, u)); [done|by rewrite strip_app].
  - transitivity (u ← strip "true" ("true" +:+ r); Some (JBool true, u)); [done|by rewrite strip_app].
  - transitivity (u ← strip "false" ("false" +:+ r); Some (JBool false, u)); [done|by rewrite strip_app].
  - cbn [json_ok Marshal] in *. pose proof (num_ok_head n Hok) as (c & s & E & Hc).
    pose proof (scan_num_ok n r Hok Hr) as Hn. rewrite E in *. rewrite app_cons in *.
    cbn [value]. rewrite Hn.
    assert (Hd : forall d, num_part d = false -> Ascii.eqb c d = false).
    { intros d Hd. apply Ascii.eqb_neq. intros ->. destruct Hc as [-> | Hc]; [done|].
      apply digit_num_part in Hc. congruence. }
    by rewrite !Hd by done.
  - cbn [json_ok Marshal] in *. apply String.eqb_eq in Hok.
    destruct (json_string_unquote s r Hok) as (b & -> & Hb). cbn [value].
    change (Ascii.eqb dquote dquote) with true. cbn iota. by rewrite Hb.
  - cbn [json_ok Marshal size] in *. rewrite !app_assoc'. set (x := Join _ _ +:+ _).
    transitivity ('(l, r) ← elements0 (value f) f "]" x; Some (JArr l, r)); [done|]. unfold x.
    rewrite (app_cons "]"), app_nil_l', (elements0_Join _ f "]" (map Marshal l) l); [done|by left| |].
    + rewrite Forall2_fmap_l. apply Forall_Forall2_diag.
      rewrite forallb_forall in Hok. rewrite Forall_forall in IH |- *.
      intros y Hy. pose proof (proj1 (list_elem_of_In _ _) Hy) as Hi.
      split; [by apply Marshal_start, Hok|]. intros u Hu. apply IH; [done|by apply Hok| |by apply after_end].
      pose proof (list_sum_le (map size l) (size y) (in_map _ _ _ Hi)). lia.
    + rewrite length_map. pose proof (length_list_sum size l size_pos). lia.
  - cbn [json_ok Marshal size] in *. rewrite !app_assoc'. set (x := Join _ _ +:+ _).
    transitivity ('(m, r) ← elements0 (member (value f)) f "}" x; Some (JObj m, r)); [done|]. unfold x.
    rewrite (app_cons "}"), app_nil_l'.
    rewrite (elements0_Join _ f "}" (map (fun kv => json_string (fst kv) +:+ ":" +:+ Marshal (snd kv)) m) m);
      [done|by right| |].
    + rewrite Forall2_fmap_l. apply Forall_Forall2_diag.
      rewrite forallb_forall in Hok. rewrite Forall_forall in IH |- *.
      intros [k y] Hy. pose proof (proj1 (list_elem_of_In _ _) Hy) as Hi.
      specialize (Hok _ Hi). cbn [fst snd] in *. apply andb_true_iff in Hok as [Hk Hok].
      apply reads_key; [by apply String.eqb_eq|]. split; [by apply Marshal_start|].
      intros u Hu. apply (IH _ Hy); [done| |by apply after_end]. cbn [snd].
      pose proof (list_sum_le (map (fun kv => size (snd kv)) m) (size y)
        (in_map (fun kv => size (snd kv)) _ _ Hi)). lia.
    + rewrite length_map. pose proof (length_list_sum (fun kv : string * json => size (snd kv)) m
        (fun kv => size_pos (snd kv))). lia.
Qed.

Lemma Join_length {A} (f : A -> string) (g : A -> nat) l sep :
  Forall (fun x => (g x <= String.length (f x))%nat) l ->
  (list_sum (map g l) <= String.length (Join (map f l) sep))%nat.
Proof.
  induction 1 as [|x l Hx Hl IH]; [done|]. cbn [map].
  change (list_sum (g x :: map g l)) with (g x + list_sum (map g l))%nat.
  destruct l as [|y l]; [cbn in IH |- *; lia|]. rewrite Join_cons, !app_length' by done. lia.
Qed.

Lemma size_length j : json_ok j = true -> (size j <= String.length (Marshal j))%nat.
Proof.
  induction j as [|[]|n|s|l IH|m IH] using json_tree_ind; intros Hok; try (cbn; lia).
  - cbn [json_ok Marshal size] in *. apply num_ok_head in Hok as (c & s & -> & _). cbn. lia.
  - cbn [json_ok Marshal size] in *. rewrite !app_length'. cbn [String.length].
    assert (Hl : Forall (fun x => (size x <= String.length (Marshal x))%nat) l).
    { rewrite forallb_forall in Hok. rewrite Forall_forall in IH |- *. intros x Hx.
      by apply IH, Hok, list_elem_of_In. }
    pose proof (Join_length Marshal size l "," Hl). lia.
  - cbn [json_ok Marshal size] in *. rewrite !app_length'. cbn [String.length].
    assert (Hl : Forall (fun kv => (size (snd kv) <= String.length (json_string (fst kv) +:+ ":" +:+ Marshal (snd kv)))%nat) m).
    { rewrite forallb_forall in Hok. rewrite Forall_forall in IH |- *. intros x Hx.
      pose proof (Hok x (proj1 (list_elem_of_In _ _) Hx)) as [_ Hx']%andb_true_iff.
      specialize (IH x Hx Hx'). rewrite !app_length'. lia. }
    pose proof (Join_length _ (fun kv => size (snd kv)) m "," Hl). lia.
Qed.

Lemma read_value_Marshal j r : json_ok j = true -> value_end j r -> read_value (Marshal j +:+ r) = Some (j, r).
Proof.
  intros Hok Hr. unfold read_value. rewrite skip_ws_start by (by apply Marshal_start).
  apply value_Marshal; [done| |done]. pose proof (size_length j Hok). rewrite app_length'. lia.
Qed.

Lemma parse_Marshal j : json_ok j = true -> parse (Marshal j) = Some j.
Proof.
  intros Hok. unfold parse. rewrite <- (app_nil_r' (Marshal j)), read_value_Marshal by (done || by apply after_end). done.
Qed.

(** A member with its text. *)
Lemma reads_with_text rd t v : reads rd t v -> reads (with_text rd) t (v, t).
Proof.
  intros [Hs Ht]. split; [done|]. intros r Hr. unfold with_text. rewrite Ht by done.
  cbn [mbind option_bind]. rewrite app_length', Nat.add_sub. by rewrite stake_app.
Qed.

Definition with_texts (m : list (string * json)) : list (string * (json * string)) :=
  map (fun kv => (fst kv, (snd kv, Marshal (snd kv)))) m.

Lemma members_Marshal m :
  json_ok (JObj m) = true -> members (Marshal (JObj m)) = Some (with_texts m).
Proof.
  intros Hok. pose proof (size_length _ Hok) as Hf. unfold members.
  change (Marshal (JObj m)) with ("{" +:+ Join (map (fun kv => json_string (fst kv) +:+ ":" +:+ Marshal (snd kv)) m) "," +:+ "}") in *.
  set (t := Join _ _) in *. set (f := S _).
  assert (Hff : (size (JObj m) <= f)%nat) by (unfold f; lia).
  rewrite skip_ws_start by done. rewrite strip_app. cbn [mbind option_bind].
  assert (elements0 (member (with_text (value f))) f "}" (t +:+ "}") = Some (with_texts m, "")) as ->; [|done].
  unfold t. apply elements0_Join; [by right| |].
  - unfold with_texts. rewrite Forall2_fmap_l, Forall2_fmap_r. apply Forall_Forall2_diag, Forall_forall.
    intros [k y] Hy. pose proof (proj1 (list_elem_of_In _ _) Hy) as Hi. cbn [json_ok size] in *.
    rewrite forallb_forall in Hok. specialize (Hok _ Hi). cbn [fst snd] in *.
    apply andb_true_iff in Hok as [Hk Hok]. apply reads_key; [by apply String.eqb_eq|].
    apply reads_with_text. split; [by apply Marshal_start|].
    intros u Hu. apply value_Marshal; [done| |by apply after_end].
    pose proof (list_sum_le (map (fun kv => size (snd kv)) m) (size y)
      (in_map (fun kv => size (snd kv)) _ _ Hi)). cbn [snd]. lia.
  - rewrite length_map. cbn [size] in Hff.
    pose proof (length_list_sum (fun kv : string * json => size (snd kv)) m (fun kv => size_pos (snd kv))). lia.
Qed.

(** ** Decoding into Go values

    A field is found by its name, exactly or with the case folded; [null] leaves a
    string as it is; a value of another type leaves the variable as it is, and the
    first such error is returned in the end.  A number keeps its literal, and a
    nested object the order of its members. *)

Definition errSyntax : error := ErrorString "json: syntax error".

Definition kind (j : json) : string :=
  match j with
  | JNull => "null" | JBool _ => "bool" | JNum _ => "number" | JStr _ => "string"
  | JArr _ => "array" | JObj _ => "object"
  end.

Definition errType (j : json) (typ : string) : error :=
  Errorf "json: cannot unmarshal %s into Go value of type %s" [inl (kind j); inl typ].

(** The first error is kept. *)
Definition first_err (e f : option error) : option error := match e with Some _ => e | None => f end.

Definition decoder A := json -> A -> A * option error.

Definition dec_string : decoder string := fun j cur =>
  match j with
  | JStr s => (s, None)
  | JNull => (cur, None)
  | _ => (cur, Some (errType j "string"))
  end.

(** Into a slice: the elements there are decoded into, further ones are new. *)
Fixpoint dec_elems {A} (zero : A) (dec : decoder A) (l : list json) (cur : list A) : list A * option error :=
  match l with
  | [] => ([], None)
  | j :: l =>
      let (x, e) := dec j (hd zero cur) in
      let (xs, es) := dec_elems zero dec l (tl cur) in
      (x :: xs, first_err e es)
  end.

Definition dec_slice {A} (zero : A) (dec : decoder A) (typ : string) : decoder (list A) := fun j cur =>
  match j with
  | JArr l => dec_elems zero dec l cur
  | JNull => ([], None)
  | _ => (cur, Some (errType j typ))
  end.

Definition dec_strings : decoder (list string) := dec_slice "" dec_string "[]string".

(** Into an array of one string: further elements are skipped, a missing one is zeroed. *)
Definition dec_array1 : decoder (list string) := fun j cur =>
  match j with
  | JArr [] => ([""], None)
  | JArr (j :: _) => let (s, e) := dec_string j (hd "" cur) in ([s], e)
  | JNull => (cur, None)
  | _ => (cur, Some (errType j "[1]string"))
  end.

(** Field names: equality of runes up to case, with the two folds outside ASCII
    that reach it, U+212A and U+017F. *)
Definition fold_rune (r : Z) : Z :=
  if (65 <=? r) && (r <=? 90) then r + 32
  else if r =? 0x212A then 107
  else if r =? 0x17F then 115
  else r.
Definition EqualFold (s t : string) : bool :=
  bool_decide (map (fun ir => fold_rune (snd ir)) (runes s) = map (fun ir => fold_rune (snd ir)) (runes t)).

Definition field_of (names : list string) (k : string) : option string :=
  match List.find (fun n => (n =? k)%string) names with
  | Some n => Some n
  | None => List.find (fun n => EqualFold n k) names
  end.

(** The members of an object, in order, into the fields of a structure. *)
Fixpoint dec_fields {A V} (step : string -> V -> A -> A * option error) (names : list string)
    (m : list (string * V)) (a : A) : A * option error :=
  match m with
  | [] => (a, None)
  | (k, v) :: m =>
      match field_of names k with
      | None => dec_fields step names m a
      | Some n =>
          let (a, e) := step n v a in
          let (a, es) := dec_fields step names m a in (a, first_err e es)
      end
  end.

Definition dec_struct {A} (typ : string) (step : string -> json -> A -> A * option error)
    (names : list string) : decoder A := fun j a =>
  match j with
  | JObj m => dec_fields step names m a
  | JNull => (a, None)
  | _ => (a, Some (errType j typ))
  end.

(** [json.Unmarshal]. *)
Definition Unmarshal {A} (dec : decoder A) (text : string) (a : A) : A * option error :=
  match parse text with
  | None => (a, Some errSyntax)
  | Some j => dec j a
  end.

Lemma dec_elems_strings l : dec_elems "" dec_string (map JStr l) [] = (l, None).
Proof. induction l as [|s l IH]; [done|]. cbn [map dec_elems hd tl dec_string]. by rewrite IH. Qed.
