(* ===== verification/ErrorText.v ===== *)
(** * The texts of errors

    The methods [Error] of the packages' error types and of the errors they wrap, and
    the part of [fmt.Sprintf] their formats use.  [error_text] is what the functions
    that look into the text of an error, [IsPortNotExist] and [isClosedNetwork], take
    as their argument. *)

From S2P Require Import Prelude GoStrings GoConv GoQuote.

Section text.
Context `{Printable}.

(** One operand under a verb. *)
Definition verb (c : ascii) (a : string + Z) : string :=
  match a with
  | inl s => if Ascii.eqb c "q" then Quote s else s
  | inr n => fmt_d n
  end.

(** [%s], [%q], [%d] and [%v] on strings and integers, and [%#v], whose operand is
    kept as its text. A verb without operand and an operand without verb do not
    occur. *)
Fixpoint Sprintf (fmt : string) (args : list (string + Z)) : string :=
  match fmt with
  | EmptyString => ""
  | String "%" (String "#" (String _ fmt)) =>
      match args with
      | a :: args => verb "v" a +:+ Sprintf fmt args
      | [] => Sprintf fmt []
      end
  | String "%" (String c fmt) =>
      match args with
      | a :: args => verb c a +:+ Sprintf fmt args
      | [] => Sprintf fmt []
      end
  | String c fmt => String c (Sprintf fmt args)
  end.

Definition num_error_text (e : num_error) : string :=
  match e with ErrSyntax => "invalid syntax" | ErrRange => "value out of range" end.

(** [ovs/flow.go], [ovs/matchflow.go] *)
Definition FlowError_Error (str err : string) : string :=
  if (str =? "")%string then err
  else "flow error due to string " +:+ Quote str +:+ ": " +:+ err.

Definition MatchFlowError_Error (str err : string) : string :=
  if (str =? "")%string then err
  else "flow error due to string " +:+ Quote str +:+ ": " +:+ err.

(** [ovs/ovs.go], [ovs/client.go]; a nil output is written as the empty one. *)
Definition OvsError_Error (out : option string) (err : string) : string := err +:+ ": " +:+ default "" out.

Definition pipeError_Error (out : option string) (err : string) : string :=
  "pipe error: " +:+ err +:+ ": " +:+ Quote (default "" out).

Fixpoint error_text (e : error) : string :=
  match e with
  | ErrorString s => s
  | Errorf fmt args => Sprintf fmt args
  | ErrorfErr fmt e => Sprintf fmt [inl (error_text e)]
  | NumError fn num e => "strconv." +:+ fn +:+ ": parsing " +:+ Quote num +:+ ": " +:+ num_error_text e
  | AddrError err addr => if (addr =? "")%string then err else "address " +:+ addr +:+ ": " +:+ err
  | ParseError typ text => "invalid " +:+ typ +:+ ": " +:+ text
  | io_EOF => "EOF"
  | io_ErrUnexpectedEOF => "unexpected EOF"
  | FlowError str err => FlowError_Error str (error_text err)
  | MatchFlowError str err => MatchFlowError_Error str (error_text err)
  | OvsError out err => OvsError_Error out (error_text err)
  | PipeError out err => pipeError_Error out (error_text err)
  end.

(** The text of an error that wraps another names it. *)
Definition wraps (e : error) : option error :=
  match e with
  | FlowError _ err | MatchFlowError _ err | OvsError _ err | PipeError _ err => Some err
  | _ => None
  end.

Lemma flow_text_wraps (str t : string) : exists p, FlowError_Error str t = p +:+ t.
Proof.
  unfold FlowError_Error. destruct (String.eqb str ""); [by exists ""|].
  exists ("flow error due to string " +:+ Quote str +:+ ": "). by rewrite !app_assoc'.
Qed.

Lemma error_text_wraps e err : wraps e = Some err -> exists p s, error_text e = p +:+ error_text err +:+ s.
Proof.
  destruct e as [| | | | | | | |str e|str e|out e|out e]; cbn [wraps]; try discriminate; intros [= <-];
    cbn [error_text].
  - destruct (flow_text_wraps str (error_text e)) as [p ->]. exists p, "". by rewrite app_nil_r'.
  - destruct (flow_text_wraps str (error_text e)) as [p Hp]. exists p, "". rewrite app_nil_r'. exact Hp.
  - exists "", (": " +:+ default "" out). by rewrite app_nil_l'.
  - exists "pipe error: ", (": " +:+ Quote (default "" out)). done.
Qed.
End text.

Section Examples.
#[local] Existing Instance ascii_table.
Example error_text1 :
  error_text (FlowError "priority=x" (NumError "Atoi" "x" ErrSyntax))
  = "flow error due to string " +:+ Quote "priority=x" +:+ ": strconv.Atoi: parsing " +:+ Quote "x" +:+ ": invalid syntax".
Proof. vm_compute. reflexivity. Qed.
Example error_text2 :
  error_text (Errorf "integer %d too large; %d > %d" [inr 300; inr 300; inr 255]) = "integer 300 too large; 300 > 255".
Proof. vm_compute. reflexivity. Qed.
Example error_text3 :
  error_text (OvsError (Some "ovs-vsctl: no port named eth9") (ErrorString "exit status 1"))
  = "exit status 1: ovs-vsctl: no port named eth9".
Proof. vm_compute. reflexivity. Qed.
Example error_text4 :
  error_text (Errorf "received JSON-RPC error: %#v" [inl "map[string]interface {}{}"])
  = "received JSON-RPC error: map[string]interface {}{}".
Proof. vm_compute. reflexivity. Qed.
End Examples.
