(* ===== verification/PortRange.v ===== *)
(** * Transport port ranges as bitwise matches

    Models [ovs/portrange.go]: [PortRange], [BitRange],
    its method [BitwiseMatch], [getMask] and [getRange], on 16-bit ports. *)

From S2P Require Import Prelude.

(** ** Data *)

Record PortRange := mkPortRange { Start : Z; Stop : Z }.
Record BitRange := mkBitRange { Value : Z; Mask : Z }.

#[export] Instance PortRange_eq_dec : EqDecision PortRange.
Proof. solve_decision. Defined.
#[export] Instance BitRange_eq_dec : EqDecision BitRange.
Proof. solve_decision. Defined.

(** The fields are [uint16]. *)
Definition PortRange_wf (r : PortRange) : Prop := in_u 16 (Start r) /\ in_u 16 (Stop r).

Definition ErrInvalidPortRange : error := ErrorString "invalid port range".

(** ** Operations *)

Definition getMask (bitLength : Z) : Z :=
  Z.lxor 65535 (u16 (u16 (Z.shiftl 1 bitLength) - 1)).

Definition getRange (stop bitLength : Z) : Z * Z :=
  let rangeLength := u16 (u16 (Z.shiftl 1 bitLength) - 1) in
  let rangeStart := Z.ldiff stop rangeLength in
  let rangeEnd := u16 (rangeStart + rangeLength) in
  (rangeStart, rangeEnd).

(** [for rangeEnd > r.End { bitLength--; ... }]: the loop on the [uint]
    [bitLength] and the current window. [None] is out of fuel. *)
Fixpoint fitRange (fuel : nat) (stop bitLength : Z) (rng : Z * Z)
    : option (Z * (Z * Z)) :=
  if snd rng >? stop then
    match fuel with
    | O => None
    | S fuel =>
        let bitLength := u64 (bitLength - 1) in
        fitRange fuel stop bitLength (getRange stop bitLength)
    end
  else Some (bitLength, rng).

(** [math.Floor(math.Log2(float64(window)))] is exact on the [uint16] window. *)
Fixpoint BitwiseMatch_fuel (fuel : nat) (r : PortRange)
    : option (go (list BitRange)) :=
  match fuel with
  | O => None
  | S fuel =>
      if (Start r <=? 0) || (Stop r <=? 0) then Some (Err ErrInvalidPortRange)
      else if Start r >? Stop r then Some (Err ErrInvalidPortRange)
      else if Start r =? Stop r then Some (Ok [mkBitRange (Start r) 65535])
      else
        let window := u16 (u16 (Stop r - Start r) + 1) in
        let bitLength := Z.log2 window in
        match fitRange 64 (Stop r) bitLength (getRange (Stop r) bitLength) with
        | None => None
        | Some (bitLength, (rangeStart, rangeEnd)) =>
            let current := mkBitRange rangeStart (getMask bitLength) in
            let lres :=
              if negb (Start r =? rangeStart)
              then BitwiseMatch_fuel fuel (mkPortRange (Start r) (u16 (rangeStart - 1)))
              else Some (Ok []) in
            match lres with
            | None => None
            | Some (Err e) => Some (Err e)
            | Some (Panic w) => Some (Panic w)
            | Some (Ok leftRemaining) =>
                let rres :=
                  if negb (Stop r =? rangeEnd)
                  then BitwiseMatch_fuel fuel (mkPortRange (u16 (rangeEnd + 1)) (Stop r))
                  else Some (Ok []) in
                match rres with
                | None => None
                | Some rres =>
                    Some (rightRemaining ← rres;
                          Ok (leftRemaining ++ [current] ++ rightRemaining))
                end
            end
        end
  end.

(** The nesting of calls never exceeds [BitwiseMatch_depth] (theorem
    [BitwiseMatch_terminates]). *)
Definition BitwiseMatch_depth : nat := 30.

Definition BitwiseMatch (r : PortRange) : go (list BitRange) :=
  default (Panic "unreachable: out of fuel") (BitwiseMatch_fuel BitwiseMatch_depth r).

#[global] Arguments BitwiseMatch : simpl never.

(** A packet's port satisfies the masked match [value/mask]. *)
Definition br_matches (br : BitRange) (p : Z) : bool :=
  Z.land p (Mask br) =? Value br.

Example BitwiseMatch_1000_1999 :
  BitwiseMatch (mkPortRange 1000 1999) =
  Ok [mkBitRange 0x03e8 0xfff8; mkBitRange 0x03f0 0xfff0; mkBitRange 0x0400 0xfe00;
      mkBitRange 0x0600 0xff00; mkBitRange 0x0700 0xff80; mkBitRange 0x0780 0xffc0;
      mkBitRange 0x07c0 0xfff0].
Proof. vm_compute. reflexivity. Qed.

Example BitwiseMatch_1_65534 :
  (fun l => length l) <$> match BitwiseMatch (mkPortRange 1 65534) with Ok l => Some l | _ => None end
  = Some 30%nat.
Proof. vm_compute. reflexivity. Qed.

(** ** Windows and masks as dyadic blocks *)

Lemma rangeLength_ones b :
  0 <= b <= 16 -> u16 (u16 (Z.shiftl 1 b) - 1) = 2 ^ b - 1.
Proof.
  intros Hb. unfold u16, uint. rewrite Z.shiftl_1_l.
  destruct (Z.eq_dec b 16) as [->|]; [reflexivity|].
  assert (0 < 2 ^ b) by lia.
  assert (2 ^ b < 2 ^ 16) by (apply Z.pow_lt_mono_r; lia).
  rewrite (Z.mod_small (2 ^ b)), Z.mod_small; lia.
Qed.

Lemma pow2_le_65536 b : 0 <= b <= 16 -> 0 < 2 ^ b <= 65536.
Proof.
  intros Hb. pose proof (Z.pow_le_mono_r 2 b 16). lia.
Qed.

Lemma block_base x b : 0 <= b -> Z.ldiff x (2 ^ b - 1) = x - x mod 2 ^ b.
Proof.
  intros Hb. replace (2 ^ b - 1) with (Z.ones b) by (rewrite Z.ones_equiv; lia).
  rewrite Z.ldiff_ones_r, Z.shiftr_div_pow2, Z.shiftl_mul_pow2 by done.
  pose proof (Z_div_mod_eq_full x (2 ^ b)). lia.
Qed.

(** A block never passes the end of the port space. *)
Lemma block_fits x b :
  in_u 16 x -> 0 <= b <= 16 -> 0 <= x - x mod 2 ^ b /\ x - x mod 2 ^ b + 2 ^ b <= 65536.
Proof.
  intros [H0 H1] Hb. pose proof (pow2_le_65536 b Hb).
  pose proof (Z.mod_pos_bound x (2 ^ b)). pose proof (Z_div_mod_eq_full x (2 ^ b)).
  pose proof (Z.div_pos x (2 ^ b)).
  assert (Hm : 2 ^ 16 = 2 ^ (16 - b) * 2 ^ b) by (rewrite <- Z.pow_add_r by lia; f_equal; lia).
  assert (x / 2 ^ b < 2 ^ (16 - b)) by (apply Z.div_lt_upper_bound; lia).
  split; [nia|]. change 65536 with (2 ^ 16). nia.
Qed.

Lemma getRange_eq x b :
  in_u 16 x -> 0 <= b <= 16 ->
  getRange x b = (x - x mod 2 ^ b, x - x mod 2 ^ b + (2 ^ b - 1)).
Proof.
  intros Hx Hb. unfold getRange. rewrite rangeLength_ones, block_base by lia.
  destruct (block_fits x b Hx Hb). pose proof (pow2_le_65536 b Hb).
  f_equal. apply uint_small. unfold in_u. lia.
Qed.

Lemma getMask_land p b :
  in_u 16 p -> 0 <= b <= 16 -> Z.land p (getMask b) = p - p mod 2 ^ b.
Proof.
  intros Hp Hb. unfold getMask. rewrite rangeLength_ones, <- block_base by lia.
  replace (2 ^ b - 1) with (Z.ones b) by (rewrite Z.ones_equiv; lia).
  change 65535 with (Z.ones 16). apply Z.bits_inj'. intros i Hi.
  rewrite Z.land_spec, Z.lxor_spec, Z.ldiff_spec, !Z.testbit_ones_nonneg by lia.
  destruct (Z.ltb_spec i 16) as [|Hi16]; [by destruct (i <? b)|].
  rewrite <- (Z.mod_small p (2 ^ 16)) by apply Hp.
  by rewrite Z.mod_pow2_bits_high by lia.
Qed.

Lemma br_matches_block v b p :
  in_u 16 p -> 0 <= b <= 16 ->
  br_matches (mkBitRange v (getMask b)) p = true <-> p - p mod 2 ^ b = v.
Proof.
  intros Hp Hb. unfold br_matches. cbn. rewrite getMask_land by done. apply Z.eqb_eq.
Qed.

(** With an aligned base the block is the interval it looks like. *)
Lemma block_interval v b p :
  0 <= b -> v mod 2 ^ b = 0 -> p - p mod 2 ^ b = v <-> v <= p < v + 2 ^ b.
Proof.
  intros Hb Hv. assert (0 < 2 ^ b) by lia.
  pose proof (Z.mod_pos_bound p (2 ^ b)).
  split; [lia|]. intros Hp.
  apply Z.mod_divide in Hv as [k ->]; [|lia].
  replace p with (p - k * 2 ^ b + k * 2 ^ b) at 2 by lia.
  rewrite Z.mod_add, Z.mod_small; lia.
Qed.

(** Two multiples of a step are at least a step apart. *)
Lemma multiples_apart m x y : 0 < m -> (m | x) -> (m | y) -> x < y -> x + m <= y.
Proof. intros Hm [a ->] [b ->] H. assert (a < b) by nia. nia. Qed.

Lemma pow2_divide b c : 0 <= b <= c -> (2 ^ b | 2 ^ c).
Proof.
  intros H. exists (2 ^ (c - b)). rewrite <- Z.pow_add_r by lia. f_equal. lia.
Qed.

(** [x] ends in [b] one bits. *)
Definition ones_low (x b : Z) : Prop := x mod 2 ^ b = 2 ^ b - 1.

Lemma ones_low_divide x b : 0 <= b -> ones_low x b <-> (2 ^ b | x + 1).
Proof.
  intros Hb. unfold ones_low. assert (0 < 2 ^ b) by lia. split.
  - intros H1. exists (x / 2 ^ b + 1). pose proof (Z_div_mod_eq_full x (2 ^ b)). lia.
  - intros [k Hk]. replace x with (2 ^ b - 1 + (k - 1) * 2 ^ b) by lia.
    rewrite Z.mod_add, Z.mod_small; lia.
Qed.

Lemma ones_low_mono x b c : 0 <= b <= c -> ones_low x c -> ones_low x b.
Proof.
  intros Hbc. rewrite !ones_low_divide by lia. intros H.
  eapply Z.divide_trans; [by apply pow2_divide|done].
Qed.

(** ** The greedy decomposition

    [isTop s e c]: [2^c] is the largest aligned window that ends at [e] and
    starts at or after [s].  The search from [floor (log2 window)] down finds
    it, and it always ends exactly at [e]: nothing is ever left on its right. *)
Definition isTop (s e c : Z) : Prop :=
  0 <= c /\ 2 ^ c <= e - s + 1 /\ ones_low e c /\
  forall d, c < d -> 2 ^ d <= e - s + 1 -> ~ ones_low e d.

Lemma fitRange_spec (fuel : nat) e b :
  in_u 16 e -> 0 <= b <= 16 -> b <= Z.of_nat fuel ->
  exists c, fitRange fuel e b (getRange e b) = Some (c, (e - 2 ^ c + 1, e)) /\
    0 <= c <= b /\ ones_low e c /\ forall d, c < d <= b -> ~ ones_low e d.
Proof.
  intros He. revert b. induction fuel as [|fuel IH]; intros b Hb Hf;
    cbn [fitRange]; rewrite getRange_eq by (done || lia); cbn [snd];
    pose proof (pow2_le_65536 b Hb); pose proof (Z.mod_pos_bound e (2 ^ b));
    destruct (Z.gtb_spec (e - e mod 2 ^ b + (2 ^ b - 1)) e).
  - replace b with 0 in * by lia. rewrite Z.mod_1_r in *. lia.
  - exists b. unfold ones_low. split_and!; [do 2 f_equal; f_equal; lia|lia..|intros; lia].
  - assert (b <> 0) by (intros ->; rewrite Z.mod_1_r in *; lia).
    assert (Hw : u64 (b - 1) = b - 1) by (apply uint_small; unfold in_u; lia).
    rewrite Hw. destruct (IH (b - 1)) as (c & -> & Hc & Ho & Hmax); [lia..|].
    exists c. split_and!; [done|lia|lia|done|].
    intros d Hd Hod. destruct (Z.eq_dec d b) as [->|]; [unfold ones_low in Hod; lia|].
    apply (Hmax d); [lia|done].
  - exists b. unfold ones_low. split_and!; [do 2 f_equal; f_equal; lia|lia..|intros; lia].
Qed.

Inductive Greedy (s : Z) : Z -> list BitRange -> Prop :=
| Greedy_last e c :
    isTop s e c -> e - 2 ^ c + 1 = s ->
    Greedy s e [mkBitRange s (getMask c)]
| Greedy_more e c l :
    isTop s e c -> s < e - 2 ^ c + 1 -> Greedy s (e - 2 ^ c) l ->
    Greedy s e (l ++ [mkBitRange (e - 2 ^ c + 1) (getMask c)]).

Definition valid (s e : Z) : Prop := 1 <= s /\ s <= e /\ e < 65536.

Lemma isTop_bound s e c : valid s e -> isTop s e c -> 0 <= c <= 15.
Proof.
  intros (? & ? & ?) (Hc & Hw & _). split; [done|].
  destruct (Z.le_gt_cases c 15); [done|].
  pose proof (Z.pow_le_mono_r 2 16 c). lia.
Qed.

(** One call of [BitwiseMatch] on a valid range: the last window is the top
    one, the recursion is on what is left of it. *)
Lemma BitwiseMatch_step (fuel : nat) s e :
  valid s e ->
  exists c, isTop s e c /\
    BitwiseMatch_fuel (S fuel) (mkPortRange s e) =
      if decide (e - 2 ^ c + 1 = s) then Some (Ok [mkBitRange s (getMask c)])
      else match BitwiseMatch_fuel fuel (mkPortRange s (e - 2 ^ c)) with
           | Some (Ok l) => Some (Ok (l ++ [mkBitRange (e - 2 ^ c + 1) (getMask c)]))
           | r => r
           end.
Proof.
  intros Hv. destruct Hv as (Hs & Hse & He). cbn [BitwiseMatch_fuel Start Stop].
  destruct (Z.leb_spec s 0); [lia|]. destruct (Z.leb_spec e 0); [lia|].
  destruct (Z.gtb_spec s e); [lia|]. cbn [orb].
  destruct (Z.eqb_spec s e) as [->|Hne].
  { exists 0. split.
    - split_and!; [lia|lia|unfold ones_low; rewrite Z.mod_1_r; lia|].
      intros d Hd Hw. pose proof (Z.pow_le_mono_r 2 1 d). lia.
    - rewrite decide_True by lia. done. }
  assert (Hw : u16 (u16 (e - s) + 1) = e - s + 1).
  { unfold u16. rewrite (uint_small 16 (e - s)), uint_small; unfold in_u; lia. }
  rewrite Hw. destruct (Z.log2_spec (e - s + 1)) as [Hl1 Hl2]; [lia|].
  pose proof (Z.log2_nonneg (e - s + 1)).
  assert (Z.log2 (e - s + 1) < 16) by (apply Z.log2_lt_pow2; lia).
  destruct (fitRange_spec 64 e (Z.log2 (e - s + 1))) as (c & -> & Hc & Ho & Hmax);
    [unfold in_u; lia|lia|lia|].
  assert (Htop : isTop s e c).
  { split_and!; [lia| |done|].
    - pose proof (Z.pow_le_mono_r 2 c (Z.log2 (e - s + 1))). lia.
    - intros d Hd Hdw. apply Hmax. split; [lia|]. apply Z.log2_le_pow2; lia. }
  exists c. split; [done|]. destruct Htop as (_ & Htw & _ & _).
  rewrite Z.eqb_refl. cbn [negb]. assert (0 < 2 ^ c) by lia.
  destruct (decide _) as [Heq|Hneq].
  - rewrite Heq, Z.eqb_refl. done.
  - destruct (Z.eqb_spec s (e - 2 ^ c + 1)); [lia|]. cbn [negb].
    replace (u16 (e - 2 ^ c + 1 - 1)) with (e - 2 ^ c)
      by (symmetry; unfold u16; rewrite uint_small; [lia|unfold in_u; lia]).
    destruct (BitwiseMatch_fuel fuel _) as [[]|]; reflexivity.
Qed.

Lemma BitwiseMatch_invalid (fuel : nat) s e :
  0 <= s -> 0 <= e -> ~ 0 < s <= e ->
  BitwiseMatch_fuel (S fuel) (mkPortRange s e) = Some (Err ErrInvalidPortRange).
Proof.
  intros Hs He Hr. cbn [BitwiseMatch_fuel Start Stop].
  destruct (Z.leb_spec s 0), (Z.leb_spec e 0); cbn [orb]; try reflexivity.
  destruct (Z.gtb_spec s e); [reflexivity|lia].
Qed.

(** What is left of the top window ends in more ones, or fits in less room. *)
Lemma isTop_rest s e c :
  isTop s e c -> ones_low (e - 2 ^ c) c /\
  (ones_low (e - 2 ^ c) (c + 1) \/ e - 2 ^ c - s + 1 < 2 ^ c).
Proof.
  intros (Hc & Hw & Ho & Hmax).
  assert (H1 : ones_low (e - 2 ^ c) c).
  { apply ones_low_divide in Ho as [k Hk]; [|done].
    apply ones_low_divide; [done|]. exists (k - 1). lia. }
  split; [done|]. destruct (Z.le_gt_cases (2 ^ (c + 1)) (e - s + 1)) as [Hle|Hgt].
  - left. apply ones_low_divide in Ho as [k Hk]; [|done].
    rewrite ones_low_divide by lia.
    specialize (Hmax (c + 1)). rewrite ones_low_divide in Hmax by lia.
    rewrite Z.pow_add_r in * by lia. change (2 ^ 1) with 2 in *.
    destruct (Zeven_odd_dec k) as [Hev|Hodd].
    + apply Zeven_ex in Hev as [j ->]. destruct Hmax; [lia|lia|]. exists j. lia.
    + apply Zodd_ex in Hodd as [j ->]. exists j. lia.
  - right. rewrite Z.pow_add_r in Hgt by lia. lia.
Qed.

Lemma isTop_unique s e c c' : isTop s e c -> isTop s e c' -> c = c'.
Proof.
  intros (_ & Hw & Ho & Hm) (_ & Hw' & Ho' & Hm').
  destruct (Z.lt_trichotomy c c') as [H|[H|H]]; [|done|].
  - by destruct (Hm c').
  - by destruct (Hm' c).
Qed.

(** [k] nested calls are enough on [s..e], and give a greedy decomposition in
    at most [k] windows. *)
Definition runs (k : nat) (s e : Z) : Prop :=
  exists l, (forall fuel, (k <= fuel)%nat ->
               BitwiseMatch_fuel fuel (mkPortRange s e) = Some (Ok l)) /\
            Greedy s e l /\ (length l <= k)%nat.

Lemma runs_step (k : nat) s e :
  valid s e ->
  (forall c, isTop s e c -> s < e - 2 ^ c + 1 -> runs k s (e - 2 ^ c)) ->
  runs (S k) s e.
Proof.
  intros Hv Hrest. destruct (BitwiseMatch_step 0 s e Hv) as (c & Hc & _).
  assert (Hle : s <= e - 2 ^ c + 1) by (destruct Hc as (_ & ? & _); lia).
  assert (Hstep : forall fuel, BitwiseMatch_fuel (S fuel) (mkPortRange s e) =
      if decide (e - 2 ^ c + 1 = s) then Some (Ok [mkBitRange s (getMask c)])
      else match BitwiseMatch_fuel fuel (mkPortRange s (e - 2 ^ c)) with
           | Some (Ok l) => Some (Ok (l ++ [mkBitRange (e - 2 ^ c + 1) (getMask c)]))
           | r => r
           end).
  { intros fuel. destruct (BitwiseMatch_step fuel s e Hv) as (c' & Hc' & E).
    by rewrite <- (isTop_unique _ _ _ _ Hc' Hc). }
  destruct (decide (e - 2 ^ c + 1 = s)) as [Heq|Hne].
  - exists [mkBitRange s (getMask c)]. split_and!; [|by econstructor|cbn; lia].
    intros [|fuel] Hf; [lia|]. by rewrite Hstep.
  - destruct (Hrest c Hc) as (l & Hl & Hg & Hlen); [lia|].
    exists (l ++ [mkBitRange (e - 2 ^ c + 1) (getMask c)]). split_and!.
    + intros [|fuel] Hf; [lia|]. by rewrite Hstep, Hl by lia.
    + apply Greedy_more; [done|lia|done].
    + rewrite length_app. cbn. lia.
Qed.

Lemma valid_rest s e c : valid s e -> isTop s e c -> s < e - 2 ^ c + 1 -> valid s (e - 2 ^ c).
Proof. intros (? & ? & ?) (? & _) ?. unfold valid. lia. Qed.

Lemma runs_mono (k k' : nat) s e : (k <= k')%nat -> runs k s e -> runs k' s e.
Proof.
  intros Hk (l & Hl & Hg & Hlen). exists l.
  split_and!; [intros; apply Hl; lia|done|lia].
Qed.

(** The top window of a range with room below [2^k], whose end has [k] ones. *)
Lemma isTop_narrow s e c (k : nat) :
  valid s e -> e - s + 1 < 2 ^ Z.of_nat k -> ones_low e (Z.of_nat k) -> isTop s e c ->
  c < Z.of_nat k /\ e - s + 1 < 2 ^ (c + 1).
Proof.
  intros (Hs & Hse & He) Hw Ho (Hc & Hcw & _ & Hmax).
  assert (Hck : c < Z.of_nat k) by (apply (Z.pow_lt_mono_r_iff 2); lia).
  split; [done|]. destruct (Z.le_gt_cases (2 ^ (c + 1)) (e - s + 1)) as [Hle|]; [|done].
  destruct (Hmax (c + 1)); [lia|done|]. eapply ones_low_mono; [|exact Ho]. lia.
Qed.

(** The remaining room at least halves at each call once it is below [2^k]. *)
Lemma runs_narrow (k : nat) s e :
  valid s e -> e - s + 1 < 2 ^ Z.of_nat k -> ones_low e (Z.of_nat k) -> runs k s e.
Proof.
  revert e. induction k as [k IH] using lt_wf_ind. intros e Hv Hw Ho.
  destruct k as [|k]; [destruct Hv as (? & ? & ?); cbn in Hw; lia|].
  apply runs_step; [done|]. intros c Hc Hlt.
  destruct (isTop_narrow s e c (S k) Hv Hw Ho Hc) as [Hck Hw'].
  destruct (isTop_rest s e c Hc) as [Ho' _]. destruct Hc as [Hc0 Hc].
  rewrite Z.pow_add_r in Hw' by lia.
  apply (runs_mono (Z.to_nat c)); [lia|].
  apply IH; [lia|by apply valid_rest|rewrite Z2Nat.id; lia|by rewrite Z2Nat.id].
Qed.

(** Before that, each call makes the end of the range end in more ones. *)
Lemma runs_wide (t : nat) s e :
  valid s e -> e < 65535 -> (t <= 15)%nat -> ones_low e (Z.of_nat t) -> runs (30 - t) s e.
Proof.
  remember (15 - t)%nat as n eqn:Hn. revert t e Hn.
  induction n as [n IH] using lt_wf_ind. intros t e Hn Hv He Ht Ho.
  destruct (Z.le_gt_cases (2 ^ Z.of_nat t) (e - s + 1)) as [Hle|Hgt].
  2: { apply (runs_mono t); [lia|]. by apply runs_narrow. }
  replace (30 - t)%nat with (S (29 - t)) by lia.
  apply runs_step; [done|]. intros c Hc Hlt.
  assert (Hc15 : 0 <= c < 15).
  { destruct (isTop_bound s e c Hv Hc). destruct (Z.eq_dec c 15) as [->|]; [|lia].
    destruct Hv as (? & ? & ?), Hc as (_ & Hw & Hoc & _).
    apply ones_low_divide in Hoc as [j Hj]; lia. }
  assert (Htc : Z.of_nat t <= c).
  { destruct (Z.le_gt_cases (Z.of_nat t) c) as [|Hgt]; [done|].
    destruct Hc as (_ & _ & _ & Hmax). by destruct (Hmax (Z.of_nat t)). }
  pose proof (valid_rest s e c Hv Hc Hlt) as Hv'.
  destruct (isTop_rest s e c Hc) as [Ho' [Ho''|Hsmall]].
  - apply (runs_mono (30 - Z.to_nat (c + 1))); [lia|].
    apply (IH (15 - Z.to_nat (c + 1))%nat); try lia; [done|].
    by rewrite Z2Nat.id by lia.
  - apply (runs_mono (Z.to_nat c)); [lia|].
    apply runs_narrow; [done|rewrite Z2Nat.id; lia|by rewrite Z2Nat.id by lia].
Qed.

Lemma runs_depth s e : valid s e -> runs BitwiseMatch_depth s e.
Proof.
  intros Hv. destruct (Z.eq_dec e 65535) as [->|He].
  - apply (runs_mono 16); [unfold BitwiseMatch_depth; lia|].
    apply runs_narrow; [done|destruct Hv; cbn; lia|reflexivity].
  - apply (runs_wide 0); [done|destruct Hv; lia|lia|].
    unfold ones_low. cbn. by rewrite Z.mod_1_r.
Qed.

Lemma BitwiseMatch_Greedy s e :
  valid s e ->
  exists l, BitwiseMatch (mkPortRange s e) = Ok l /\ Greedy s e l /\ (length l <= 30)%nat.
Proof.
  intros Hv. destruct (runs_depth s e Hv) as (l & Hl & Hg & Hlen).
  exists l. unfold BitwiseMatch. rewrite Hl by lia. split_and!; [reflexivity|exact Hg|exact Hlen].
Qed.

(** ** What a greedy decomposition covers *)

Lemma isTop_aligned s e c : isTop s e c -> (e - 2 ^ c + 1) mod 2 ^ c = 0.
Proof.
  intros (Hc & _ & Ho & _). apply ones_low_divide in Ho as [k Hk]; [|done].
  replace (e - 2 ^ c + 1) with ((k - 1) * 2 ^ c) by lia. apply Z.mod_mul. lia.
Qed.

Lemma isTop_covers s e c p :
  valid s e -> isTop s e c -> in_u 16 p ->
  br_matches (mkBitRange (e - 2 ^ c + 1) (getMask c)) p = true <->
  e - 2 ^ c + 1 <= p <= e.
Proof.
  intros Hv Hc Hp. destruct (isTop_bound s e c Hv Hc).
  rewrite br_matches_block by (done || lia).
  rewrite block_interval; [lia|lia|by eapply isTop_aligned].
Qed.

Lemma Greedy_count s e l p :
  Greedy s e l -> valid s e -> in_u 16 p ->
  length (List.filter (fun br => br_matches br p) l) =
    if decide (s <= p <= e) then 1%nat else 0%nat.
Proof.
  intros Hg Hv Hp. induction Hg as [e c Hc Heq|e c l Hc Hlt Hg IH];
    pose proof (isTop_covers s e c p Hv Hc Hp) as Hcov.
  - rewrite Heq in Hcov. cbn.
    destruct (br_matches _ p), (decide (s <= p <= e)); cbn; try reflexivity; exfalso; intuition congruence.
  - rewrite List.filter_app, length_app, IH by (by apply valid_rest). cbn.
    assert (0 < 2 ^ c) by (destruct Hc; lia).
    destruct (br_matches _ p);
      repeat case_decide; cbn; try reflexivity; exfalso; intuition (congruence || lia).
Qed.

Lemma Greedy_shape s e l :
  Greedy s e l -> valid s e ->
  StronglySorted (fun a b => Value a < Value b) l /\
  Forall (fun br => s <= Value br <= e /\
                    exists b, 0 <= b <= 15 /\ Mask br = getMask b /\ Value br mod 2 ^ b = 0) l.
Proof.
  intros Hg Hv. induction Hg as [e c Hc Heq|e c l Hc Hlt Hg IH];
    pose proof (isTop_bound s e c Hv Hc) as Hb;
    assert (Hpos : 0 < 2 ^ c) by lia;
    assert (Hal : (e - 2 ^ c + 1) mod 2 ^ c = 0)
      by (by eapply isTop_aligned).
  - rewrite Heq in Hal. split; [repeat constructor|].
    apply Forall_singleton. cbn. split; [lia|by exists c].
  - destruct IH as [IHs IHf]; [by apply valid_rest|]. split.
    + apply StronglySorted_app_2; [|done|repeat constructor].
      intros a b Ha Hb'. apply list_elem_of_singleton in Hb' as ->. cbn.
      rewrite Forall_forall in IHf. specialize (IHf a Ha). lia.
    + apply Forall_app; split.
      * eapply Forall_impl; [exact IHf|]. cbn. intros a [? ?]. split; [lia|done].
      * apply Forall_singleton. cbn. split; [lia|by exists c].
Qed.

Lemma getMask_nonzero b : 0 <= b <= 15 -> 32768 <= getMask b < 65536.
Proof.
  intros Hb.
  pose proof (forall_below 16 (fun b => (32768 <=? getMask b) && (getMask b <? 65536))
                eq_refl b ltac:(lia)) as H.
  cbn beta in H. bools. lia.
Qed.

(** ** Optimality

    Whatever prefix masks a list uses, if it matches exactly the ports
    [s..e] it has at least as many entries as the greedy decomposition. *)

Definition prefix_mask (br : BitRange) : Prop :=
  exists b, 0 <= b <= 16 /\ Mask br = getMask b.

Definition covers (l : list BitRange) (s e : Z) : Prop :=
  forall p, in_u 16 p -> s <= p <= e <-> exists br, br ∈ l /\ br_matches br p = true.

(** A prefix-mask entry that matches some port matches the whole of an aligned
    block around it. *)
Lemma prefix_block br p :
  prefix_mask br -> in_u 16 p -> br_matches br p = true ->
  exists b, 0 <= b <= 16 /\ (2 ^ b | Value br) /\ 0 <= Value br /\ Value br + 2 ^ b <= 65536 /\
    forall q, in_u 16 q -> br_matches br q = true <-> Value br <= q < Value br + 2 ^ b.
Proof.
  intros (b & Hb & Hm) Hp Hmatch. destruct br as [v m]. cbn in *. subst m.
  exists b. apply br_matches_block in Hmatch; [|done..].
  destruct (block_fits p b Hp Hb).
  assert (Hd : (2 ^ b | v)).
  { exists (p / 2 ^ b). pose proof (Z_div_mod_eq_full p (2 ^ b)). lia. }
  split_and!; [lia..|done|lia|lia|].
  intros q Hq. rewrite br_matches_block by done. apply block_interval; [lia|].
  destruct Hd as [k ->]. apply Z.mod_mul. lia.
Qed.

(** An entry inside [s..e] that matches the last port lies in the top window. *)
Lemma last_entry_in_top s e c br :
  valid s e -> isTop s e c -> prefix_mask br ->
  (forall q, in_u 16 q -> br_matches br q = true -> s <= q <= e) ->
  br_matches br e = true -> e - 2 ^ c + 1 <= Value br.
Proof.
  intros Hv Hc Hpm Hin Hm. assert (He : in_u 16 e) by (destruct Hv as (? & ? & ?); unfold in_u; lia).
  destruct (prefix_block br e Hpm He Hm) as (b & Hb & Hd & H0 & Hfit & Hiff).
  assert (0 < 2 ^ b) by lia.
  assert (Hlo : s <= Value br <= e) by (apply Hin; [unfold in_u; lia|]; apply Hiff; unfold in_u; lia).
  assert (Hhi : Value br + 2 ^ b - 1 <= e).
  { assert (in_u 16 (Value br + 2 ^ b - 1)) by (unfold in_u; lia).
    apply Hin; [done|]. apply Hiff; [done|lia]. }
  pose proof (proj1 (Hiff e He) Hm) as [? ?].
  destruct Hc as (Hc & Hw & _ & Hmax).
  destruct (Z.le_gt_cases b c) as [Hle|Hgt].
  - pose proof (Z.pow_le_mono_r 2 b c). lia.
  - exfalso. apply (Hmax b Hgt); [lia|]. apply ones_low_divide; [lia|].
    replace (e + 1) with (Value br + 2 ^ b) by lia.
    apply Z.divide_add_r; [done|apply Z.divide_refl].
Qed.

(** An entry inside [s..e] that starts below the top window stays below it. *)
Lemma low_entry_below_top s e c br :
  valid s e -> isTop s e c -> prefix_mask br ->
  (forall q, in_u 16 q -> br_matches br q = true -> s <= q <= e) ->
  Value br < e - 2 ^ c + 1 ->
  forall q, in_u 16 q -> br_matches br q = true -> q < e - 2 ^ c + 1.
Proof.
  intros Hv Hc Hpm Hin Hlow q Hq Hm.
  destruct (Z.lt_ge_cases q (e - 2 ^ c + 1)) as [|Hge]; [done|exfalso].
  assert (He : in_u 16 e) by (destruct Hv as (? & ? & ?); unfold in_u; lia).
  assert (Hnot : br_matches br e = true -> False).
  { intros H. pose proof (last_entry_in_top s e c br Hv Hc Hpm Hin H). lia. }
  destruct (prefix_block br q Hpm Hq Hm) as (b & Hb & Hd & H0 & Hfit & Hiff).
  pose proof (proj1 (Hiff q Hq) Hm) as [Hlo Hhi].
  destruct (isTop_bound s e c Hv Hc) as [Hc0 _].
  assert (Htd : (2 ^ c | e - 2 ^ c + 1)) by (apply Z.mod_divide; [lia|by eapply isTop_aligned]).
  destruct (Z.le_gt_cases b c) as [Hle|Hgt].
  - assert (Hbd : (2 ^ b | e - 2 ^ c + 1)) by (apply (Z.divide_trans _ (2 ^ c)); [apply pow2_divide; lia|done]).
    pose proof (multiples_apart (2 ^ b) _ _ ltac:(lia) Hd Hbd Hlow). lia.
  - assert (Hcd : (2 ^ c | Value br + 2 ^ b)).
    { apply Z.divide_add_r; [apply (Z.divide_trans _ (2 ^ b)); [|exact Hd]|]; apply pow2_divide; lia. }
    pose proof (multiples_apart (2 ^ c) _ _ ltac:(lia) Htd Hcd).
    apply Hnot, Hiff; [done|lia].
Qed.

Lemma filter_length_lt {A} (f : A -> bool) l x :
  x ∈ l -> f x = false -> (S (length (List.filter f l)) <= length l)%nat.
Proof.
  intros Hx Hf. induction l as [|y l IH]; [by apply elem_of_nil in Hx|].
  apply elem_of_cons in Hx as [<-|Hx]; cbn.
  - rewrite Hf. pose proof (List.filter_length_le f l). lia.
  - specialize (IH Hx). destruct (f y); cbn; lia.
Qed.

Lemma Greedy_optimal s e l l' :
  Greedy s e l -> valid s e -> Forall prefix_mask l' -> covers l' s e ->
  (length l <= length l')%nat.
Proof.
  intros Hg. revert l'.
  induction Hg as [e c Hc Heq|e c l Hc Hlt Hg IH]; intros l' Hv Hpm Hcov.
  all: assert (He : in_u 16 e) by (destruct Hv as (? & ? & ?); unfold in_u; lia).
  all: destruct (proj1 (Hcov e He)) as (br0 & Hbr0 & Hm0); [destruct Hv; lia|].
  { destruct l'; [by apply elem_of_nil in Hbr0|cbn; lia]. }
  rewrite Forall_forall in Hpm.
  assert (Hin : forall br, br ∈ l' -> forall q, in_u 16 q -> br_matches br q = true -> s <= q <= e)
    by (intros br Hbr q Hq Hm; apply Hcov; [done|by exists br]).
  set (keep := fun br => Value br <? e - 2 ^ c + 1).
  assert (Hkeep : forall br, br ∈ List.filter keep l' <-> br ∈ l' /\ Value br < e - 2 ^ c + 1).
  { intros br. rewrite !list_elem_of_In, List.filter_In. unfold keep. by rewrite Z.ltb_lt. }
  rewrite length_app. cbn [length].
  assert (H1 : (length l <= length (List.filter keep l'))%nat).
  { apply IH; [by apply valid_rest| |].
    - apply Forall_forall. intros br Hbr. apply Hpm, Hkeep, Hbr.
    - intros p Hp. split.
      + intros Hpr. assert (0 < 2 ^ c) by (destruct Hc; lia).
        destruct (proj1 (Hcov p Hp)) as (br & Hbr & Hm); [lia|].
        exists br. split; [|done]. apply Hkeep. split; [done|].
        destruct (prefix_block br p (Hpm _ Hbr) Hp Hm) as (b & _ & _ & _ & _ & Hiff).
        apply Hiff in Hm; [lia|done].
      + intros (br & [Hbr Hlow]%Hkeep & Hm).
        pose proof (Hin br Hbr p Hp Hm).
        pose proof (low_entry_below_top s e c br Hv Hc (Hpm _ Hbr) (Hin _ Hbr) Hlow p Hp Hm). lia. }
  assert (H2 : (S (length (List.filter keep l')) <= length l')%nat).
  { apply (filter_length_lt _ _ br0 Hbr0). unfold keep. apply Z.ltb_ge.
    exact (last_entry_in_top s e c br0 Hv Hc (Hpm _ Hbr0) (Hin _ Hbr0) Hm0). }
  lia.
Qed.

(** ** Theorems *)

(** C2: on a valid range [BitwiseMatch] returns masked matches such that every
    16-bit port in the range satisfies exactly one of them, and every port
    outside the range satisfies none. *)
Theorem BitwiseMatch_partition r :
  PortRange_wf r -> 0 < Start r <= Stop r ->
  exists l, BitwiseMatch r = Ok l /\
    forall p, in_u 16 p ->
      length (List.filter (fun br => br_matches br p) l) =
        if decide (Start r <= p <= Stop r) then 1%nat else 0%nat.
Proof.
  destruct r as [s e]. intros [Hs He] Hr. cbn [Start Stop] in *.
  assert (Hv : valid s e) by (unfold valid, in_u in *; lia).
  destruct (BitwiseMatch_Greedy s e Hv) as (l & Hl & Hg & _).
  exists l. split; [exact Hl|]. intros p Hp. by apply (Greedy_count s e l p).
Qed.

Lemma BitwiseMatch_partition_witness :
  exists l, BitwiseMatch (mkPortRange 1000 1999) = Ok l /\
    forall p, in_u 16 p ->
      length (List.filter (fun br => br_matches br p) l) =
        if decide (1000 <= p <= 1999) then 1%nat else 0%nat.
Proof.
  apply (BitwiseMatch_partition (mkPortRange 1000 1999));
    [split; vm_compute; split; congruence|cbn; lia].
Defined.

(** C15: the decomposition is minimal. Any list of prefix-masked matches that
    matches exactly the ports of the range has at least as many entries. *)
Theorem BitwiseMatch_optimal r l l' :
  PortRange_wf r -> 0 < Start r <= Stop r -> BitwiseMatch r = Ok l ->
  Forall prefix_mask l' -> covers l' (Start r) (Stop r) ->
  (length l <= length l')%nat.
Proof.
  destruct r as [s e]. intros [Hs He] Hr Hl Hpm Hcov. cbn [Start Stop] in *.
  assert (Hv : valid s e) by (unfold valid, in_u in *; lia).
  destruct (BitwiseMatch_Greedy s e Hv) as (l0 & Hl0 & Hg & _).
  rewrite Hl in Hl0. injection Hl0 as <-. by eapply Greedy_optimal.
Qed.

Lemma BitwiseMatch_optimal_witness : (2 <= 2)%nat.
Proof.
  apply (BitwiseMatch_optimal (mkPortRange 15 16)
    [mkBitRange 15 65535; mkBitRange 16 65535] [mkBitRange 16 65535; mkBitRange 15 65535]).
  - split; vm_compute; split; congruence.
  - cbn; lia.
  - vm_compute. reflexivity.
  - repeat constructor; exists 0; split; [lia|reflexivity|lia|reflexivity].
  - intros p Hp. cbn [Start Stop]. split.
    + intros Hpr. assert (p = 15 \/ p = 16) as [-> | ->] by lia;
        [exists (mkBitRange 15 65535)|exists (mkBitRange 16 65535)]; (split; [set_solver|reflexivity]).
    + intros (br & Hbr & Hm).
      assert (Hid : Z.land p 65535 = p).
      { change 65535 with (Z.ones 16). rewrite Z.land_ones by lia. by apply Z.mod_small. }
      unfold br_matches in Hm. apply Z.eqb_eq in Hm.
      apply elem_of_cons in Hbr as [-> |Hbr]; [cbn [Mask Value] in Hm; lia|].
      apply list_elem_of_singleton in Hbr as ->. cbn [Mask Value] in Hm; lia.
Defined.

(** shape of the result: windows in increasing order of base, each aligned
    to its mask and inside the range, with a non-zero mask (so that a masked
    match is never mistaken for an exact one), and at most 30 of them. *)
Theorem BitwiseMatch_shape r l :
  PortRange_wf r -> 0 < Start r <= Stop r -> BitwiseMatch r = Ok l ->
  StronglySorted (fun a b => Value a < Value b) l /\
  Forall (fun br => Start r <= Value br <= Stop r /\ 32768 <= Mask br < 65536 /\
                    Z.land (Value br) (Mask br) = Value br) l /\
  (1 <= length l <= 30)%nat.
Proof.
  destruct r as [s e]. intros [Hs He] Hr Hl. cbn [Start Stop] in *.
  assert (Hv : valid s e) by (unfold valid, in_u in *; lia).
  destruct (BitwiseMatch_Greedy s e Hv) as (l0 & Hl0 & Hg & Hlen).
  rewrite Hl in Hl0. injection Hl0 as <-.
  destruct (Greedy_shape s e l Hg Hv) as [Hsort Hall]. split; [done|]. split.
  - eapply Forall_impl; [exact Hall|]. cbn. intros [v m] (Hv1 & b & Hb & Hm & Hal). cbn in *.
    subst m. split; [done|]. split; [by apply getMask_nonzero|].
    rewrite getMask_land; [lia| |lia]. unfold in_u in *. lia.
  - split; [|done]. destruct Hg; rewrite ?length_app; cbn; lia.
Qed.

Lemma BitwiseMatch_shape_witness :
  (1 <= length [mkBitRange 16 0xfff0; mkBitRange 32 0xffff] <= 30)%nat.
Proof.
  apply (BitwiseMatch_shape (mkPortRange 16 32)).
  - split; vm_compute; split; congruence.
  - cbn; lia.
  - vm_compute. reflexivity.
Defined.

(** C36: [BitwiseMatch] fails exactly on the ranges it documents as invalid,
    always with [ErrInvalidPortRange], and returns for every pair of 16-bit
    ends: the recursion and the window search terminate. *)
Theorem BitwiseMatch_terminates r :
  PortRange_wf r ->
  BitwiseMatch r = Err ErrInvalidPortRange /\
    (Start r = 0 \/ Stop r = 0 \/ Stop r < Start r) \/
  (exists l, BitwiseMatch r = Ok l) /\ 0 < Start r <= Stop r.
Proof.
  destruct r as [s e]. intros [Hs He]. cbn [Start Stop] in *. unfold in_u in *.
  destruct (decide (0 < s <= e)) as [Hr|Hr].
  - right. destruct (BitwiseMatch_Greedy s e) as (l & Hl & _); [unfold valid; lia|].
    split; [exists l; exact Hl|done].
  - left. split; [|lia]. unfold BitwiseMatch.
    unfold BitwiseMatch_depth. by rewrite (BitwiseMatch_invalid 29 s e) by lia.
Qed.

Lemma BitwiseMatch_terminates_witness :
  BitwiseMatch (mkPortRange 5000 4000) = Err ErrInvalidPortRange.
Proof.
  destruct (BitwiseMatch_terminates (mkPortRange 5000 4000)) as [[H _]|[_ H]];
    [split; vm_compute; split; congruence|exact H|cbn in H; lia].
Defined.
