(* ===== verification/Names.v ===== *)
(** * Names and small helpers shared by the parts of package [ovs]

    Constants of [ovs/match.go], [ovs/action.go], [ovs/flow.go] and
    [ovs/matchflow.go], the sentinel errors, and [validVLANVID]. *)

From S2P Require Import Prelude GoStrings GoConv.

(** ** [match.go] *)
Definition source := "src".
Definition destination := "dst".

Definition arpSHA := "arp_sha".
Definition arpSPA := "arp_spa".
Definition arpTHA := "arp_tha".
Definition arpTPA := "arp_tpa".
Definition conjID := "conj_id".
Definition ctMark := "ct_mark".
Definition ctState := "ct_state".
Definition ctZone := "ct_zone".
Definition dlSRC := "dl_src".
Definition dlDST := "dl_dst".
Definition dlType := "dl_type".
Definition dlVLAN := "dl_vlan".
Definition icmpType := "icmp_type".
Definition ipv6DST := "ipv6_dst".
Definition ipv6SRC := "ipv6_src".
Definition ndSLL := "nd_sll".
Definition ndTLL := "nd_tll".
Definition ndTarget := "nd_target".
Definition nwDST := "nw_dst".
Definition nwProto := "nw_proto".
Definition nwSRC := "nw_src".
Definition tcpFlags := "tcp_flags".
Definition tpDST := "tp_dst".
Definition tpSRC := "tp_src".
Definition tunID := "tun_id".
Definition vlanTCI := "vlan_tci".

Definition ethernetAddrLen : nat := 6.
Definition VLANNone : Z := 0xffff.

(** ** [action.go] *)
Definition errCTNoArguments := ErrorString "no arguments for connection tracking".
Definition errInvalidVLANVID := ErrorString "VLAN VID must be between 0 and 4095".
Definition errOutputNegativePort := ErrorString "output port number must not be negative".
Definition errResubmitPortTableZero :=
  ErrorString "both port and table are zero for action resubmit".
Definition errLoadSetFieldZero :=
  ErrorString "value and/or field for action load or set_field are empty".
Definition errResubmitPortInvalid :=
  ErrorString "resubmit port must be between 0 and 65279 inclusive".
Definition errDimensionTooLarge :=
  ErrorString "dimension number exceeds total number of dimensions".

Definition actionDrop := "drop".
Definition actionFlood := "flood".
Definition actionInPort := "in_port".
Definition actionLocal := "local".
Definition actionNormal := "normal".
Definition actionStripVLAN := "strip_vlan".

Definition validVLANVID (vid : Z) : bool := (0 <=? vid) && (vid <=? 0xfff).

(** The error of every check of a hardware address's length. *)
Definition errHWAddrLen (what : string) (got : nat) : error :=
  Errorf (what +:+ " must be %d octets, but got %d") [inr (Z.of_nat ethernetAddrLen); inr (Z.of_nat got)].

(** ** [flow.go] *)
Definition PortLOCAL : Z := -1.
Definition errActionsWithDrop :=
  ErrorString "Flow actions include drop, but multiple actions specified".
Definition errInvalidActions := ErrorString "invalid actions for Flow".
Definition errNoActions := ErrorString "no actions defined for Flow".
Definition errNotEnoughElements := ErrorString "not enough elements for valid Flow".

Definition priorityString := "priority=".
Definition priority := "priority".
Definition cookie := "cookie".
Definition keyActions := "actions".
Definition idleTimeout := "idle_timeout".
Definition inPort := "in_port".
Definition table := "table".
Definition duration := "duration".
Definition nPackets := "n_packets".
Definition nBytes := "n_bytes".
Definition hardAge := "hard_age".
Definition idleAge := "idle_age".
Definition portLOCAL := "LOCAL".

Definition paddedHexUint64 (i : Z) : string := fmt_sharp_0x 16 i.

(** ** [matchflow.go] *)
Definition AnyTable : Z := -1.
Definition errEmptyMatchFlow := ErrorString "match flow is empty".
