(* ===== verification/Match.v ===== *)
(** * Matches

    Models [ovs/match.go]: the match types, their constructors, [MarshalText]
    of each, the address helpers and the transport port ranges.  The interface
    [Match] is the sum of its implementations. *)

From S2P Require Import Prelude GoStrings GoConv GoNet PortRange Names.

(** ** Data *)

Inductive Match :=
| dataLinkMatch (srcdst addr : string)
| dataLinkTypeMatch (etherType : Z)
| dataLinkVLANMatch (vid : Z)
| networkMatch (srcdst ip : string)
| conjunctionIDMatch (id : Z)
| networkProtocolMatch (num : Z)
| ipv6Match (srcdst ip : string)
| icmpTypeMatch (typ : Z)
| neighborDiscoveryTargetMatch (ip : string)
| neighborDiscoveryLinkLayerMatch (srctgt : string) (addr : HardwareAddr)
| arpHardwareAddressMatch (srctgt : string) (addr : HardwareAddr)
| arpProtocolAddressMatch (srctgt ip : string)
| transportPortMatch (srcdst : string) (port mask : Z)
| vlanTCIMatch (tci mask : Z)
| connectionTrackingMarkMatch (mark mask : Z)
| connectionTrackingZoneMatch (zone : Z)
| connectionTrackingMatch (state : list string)
| tcpFlagsMatch (flags : list string)
| tunnelIDMatch (id mask : Z).

#[export] Instance Match_eq_dec : EqDecision Match.
Proof. solve_decision. Defined.

(** ** Constructors *)

Definition DataLinkSource (addr : string) : Match := dataLinkMatch source addr.
Definition DataLinkDestination (addr : string) : Match := dataLinkMatch destination addr.
Definition DataLinkType (etherType : Z) : Match := dataLinkTypeMatch etherType.
Definition DataLinkVLAN (vid : Z) : Match := dataLinkVLANMatch vid.
Definition NetworkSource (ip : string) : Match := networkMatch source ip.
Definition NetworkDestination (ip : string) : Match := networkMatch destination ip.
Definition ConjunctionID (id : Z) : Match := conjunctionIDMatch id.
Definition NetworkProtocol (num : Z) : Match := networkProtocolMatch num.
Definition IPv6Source (ip : string) : Match := ipv6Match source ip.
Definition IPv6Destination (ip : string) : Match := ipv6Match destination ip.
Definition ICMPType (typ : Z) : Match := icmpTypeMatch typ.
Definition NeighborDiscoveryTarget (ip : string) : Match := neighborDiscoveryTargetMatch ip.
Definition NeighborDiscoverySourceLinkLayer (addr : HardwareAddr) : Match :=
  neighborDiscoveryLinkLayerMatch source addr.
Definition NeighborDiscoveryTargetLinkLayer (addr : HardwareAddr) : Match :=
  neighborDiscoveryLinkLayerMatch destination addr.
Definition ARPSourceHardwareAddress (addr : HardwareAddr) : Match :=
  arpHardwareAddressMatch source addr.
Definition ARPTargetHardwareAddress (addr : HardwareAddr) : Match :=
  arpHardwareAddressMatch destination addr.
Definition ARPSourceProtocolAddress (ip : string) : Match := arpProtocolAddressMatch source ip.
Definition ARPTargetProtocolAddress (ip : string) : Match := arpProtocolAddressMatch destination ip.
Definition TransportSourcePort (port : Z) : Match := transportPortMatch source port 0.
Definition TransportDestinationPort (port : Z) : Match := transportPortMatch destination port 0.
Definition TransportSourceMaskedPort (port mask : Z) : Match := transportPortMatch source port mask.
Definition TransportDestinationMaskedPort (port mask : Z) : Match :=
  transportPortMatch destination port mask.
Definition VLANTCI (tci mask : Z) : Match := vlanTCIMatch tci mask.
Definition ConnectionTrackingMark (mark mask : Z) : Match := connectionTrackingMarkMatch mark mask.
Definition ConnectionTrackingZone (zone : Z) : Match := connectionTrackingZoneMatch zone.
Definition ConnectionTrackingState (state : list string) : Match := connectionTrackingMatch state.
Definition TCPFlags (flags : list string) : Match := tcpFlagsMatch flags.
Definition TunnelID (id : Z) : Match := tunnelIDMatch id 0.
Definition TunnelIDWithMask (id mask : Z) : Match := tunnelIDMatch id mask.

(** [CTState] and [TCPFlag] are strings; the set and unset markers. *)
Definition SetState (state : string) : string := "+" +:+ state.
Definition UnsetState (state : string) : string := "-" +:+ state.
Definition SetTCPFlag (flag : string) : string := "+" +:+ flag.
Definition UnsetTCPFlag (flag : string) : string := "-" +:+ flag.

(** The declared flags. *)
Definition CTStates : list string := ["new"; "est"; "rel"; "rpl"; "inv"; "trk"].
Definition TCPFlagNames : list string := ["urg"; "ack"; "psh"; "rst"; "syn"; "fin"].

(** ** Marshaling helpers *)

Definition errInvalidIPv4 (ip : string) : error :=
  Errorf "%q is not a valid IPv4 address or IPv4 CIDR block" [inl ip].
Definition errInvalidIPv6 (ip : string) : error :=
  Errorf "%q is not a valid IPv6 address or IPv6 CIDR block" [inl ip].

Definition is_some {A} (o : option A) : bool := match o with Some _ => true | None => false end.

Definition matchIPv4AddressOrCIDR (key ip : string) : go string :=
  match ParseCIDR ip with
  | Some ipAddr =>
      if negb (is_some (To4 ipAddr)) then Err (errInvalidIPv4 ip)
      else Ok (key +:+ "=" +:+ ip)
  | None =>
      match ParseIP ip with
      | Some ipAddr =>
          if negb (is_some (To4 ipAddr)) then Err (errInvalidIPv4 ip)
          else Ok (key +:+ "=" +:+ IP_String ipAddr)
      | None => Err (errInvalidIPv4 ip)
      end
  end.

Definition matchIPv6AddressOrCIDR (key ip : string) : go string :=
  match ParseCIDR ip with
  | Some ipAddr =>
      if negb (is_some (To16 ipAddr)) || is_some (To4 ipAddr) then Err (errInvalidIPv6 ip)
      else Ok (key +:+ "=" +:+ ip)
  | None =>
      match ParseIP ip with
      | Some ipAddr =>
          if negb (is_some (To16 ipAddr)) || is_some (To4 ipAddr) then Err (errInvalidIPv6 ip)
          else Ok (key +:+ "=" +:+ IP_String ipAddr)
      | None => Err (errInvalidIPv6 ip)
      end
  end.

Definition matchEthernetHardwareAddress (key : string) (addr : HardwareAddr) : go string :=
  if negb (length addr =? ethernetAddrLen)%nat
  then Err (errHWAddrLen "hardware address" (length addr))
  else Ok (key +:+ "=" +:+ HardwareAddr_String addr).

Definition matchTransportPort (srcdst : string) (port mask : Z) : go string :=
  if mask =? 0 then Ok ("tp_" +:+ srcdst +:+ "=" +:+ fmt_d port)
  else Ok ("tp_" +:+ srcdst +:+ "=0x" +:+ fmt_0x 4 port +:+ "/0x" +:+ fmt_0x 4 mask).

(** ** [MarshalText] *)

Definition dataLinkMatch_MarshalText (srcdst addr : string) : go string :=
  let ss := SplitN2 addr "/" in
  hwAddr ← ParseMAC (default "" (ss !! 0%nat));
  if negb (length hwAddr =? ethernetAddrLen)%nat
  then Err (errHWAddrLen "hardware address" (length hwAddr))
  else
    match ss !! 1%nat with
    | None => Ok ("dl_" +:+ srcdst +:+ "=" +:+ HardwareAddr_String hwAddr)
    | Some mask =>
        wildcard ← ParseMAC mask;
        if negb (length wildcard =? ethernetAddrLen)%nat
        then Err (errHWAddrLen "wildcard mask" (length wildcard))
        else Ok ("dl_" +:+ srcdst +:+ "=" +:+ HardwareAddr_String hwAddr
                 +:+ "/" +:+ HardwareAddr_String wildcard)
    end.

Definition dataLinkVLANMatch_MarshalText (vid : Z) : go string :=
  if negb (validVLANVID vid) && negb (vid =? VLANNone) then Err errInvalidVLANVID
  else if vid =? VLANNone then Ok (dlVLAN +:+ "=0xffff")
  else Ok (dlVLAN +:+ "=" +:+ fmt_d vid).

Definition vlanTCIMatch_MarshalText (tci mask : Z) : go string :=
  if negb (mask =? 0)
  then Ok (vlanTCI +:+ "=0x" +:+ fmt_0x 4 tci +:+ "/0x" +:+ fmt_0x 4 mask)
  else Ok (vlanTCI +:+ "=0x" +:+ fmt_0x 4 tci).

Definition connectionTrackingMarkMatch_MarshalText (mark mask : Z) : go string :=
  if negb (mask =? 0)
  then Ok (ctMark +:+ "=0x" +:+ fmt_0x 8 mark +:+ "/0x" +:+ fmt_0x 8 mask)
  else Ok (ctMark +:+ "=0x" +:+ fmt_0x 8 mark).

Definition tunnelIDMatch_MarshalText (id mask : Z) : go string :=
  if mask =? 0 then Ok (tunID +:+ "=" +:+ fmt_sharp_x id)
  else Ok (tunID +:+ "=" +:+ fmt_sharp_x id +:+ "/" +:+ fmt_sharp_x mask).

Definition dataLinkTypeMatch_MarshalText (etherType : Z) : go string :=
  Ok (dlType +:+ "=0x" +:+ fmt_0x 4 etherType).

Definition networkMatch_MarshalText (srcdst ip : string) : go string :=
  matchIPv4AddressOrCIDR ("nw_" +:+ srcdst) ip.

Definition conjunctionIDMatch_MarshalText (id : Z) : go string := Ok ("conj_id=" +:+ fmt_d id).

Definition networkProtocolMatch_MarshalText (num : Z) : go string := Ok (nwProto +:+ "=" +:+ fmt_d num).

Definition ipv6Match_MarshalText (srcdst ip : string) : go string :=
  matchIPv6AddressOrCIDR ("ipv6_" +:+ srcdst) ip.

Definition icmpTypeMatch_MarshalText (typ : Z) : go string := Ok (icmpType +:+ "=" +:+ fmt_d typ).

Definition neighborDiscoveryTargetMatch_MarshalText (ip : string) : go string :=
  matchIPv6AddressOrCIDR ndTarget ip.

Definition neighborDiscoveryLinkLayerMatch_MarshalText (srctgt : string) (addr : HardwareAddr) : go string :=
  if (srctgt =? source)%string then matchEthernetHardwareAddress ndSLL addr
  else matchEthernetHardwareAddress ndTLL addr.

Definition arpHardwareAddressMatch_MarshalText (srctgt : string) (addr : HardwareAddr) : go string :=
  if (srctgt =? source)%string then matchEthernetHardwareAddress arpSHA addr
  else matchEthernetHardwareAddress arpTHA addr.

Definition arpProtocolAddressMatch_MarshalText (srctgt ip : string) : go string :=
  if (srctgt =? source)%string then matchIPv4AddressOrCIDR arpSPA ip
  else matchIPv4AddressOrCIDR arpTPA ip.

Definition transportPortMatch_MarshalText (srcdst : string) (port mask : Z) : go string :=
  matchTransportPort srcdst port mask.

Definition connectionTrackingZoneMatch_MarshalText (zone : Z) : go string :=
  Ok (ctZone +:+ "=" +:+ fmt_d zone).

Definition connectionTrackingMatch_MarshalText (state : list string) : go string :=
  Ok (ctState +:+ "=" +:+ Join state "").

Definition tcpFlagsMatch_MarshalText (flags : list string) : go string :=
  Ok (tcpFlags +:+ "=" +:+ Join flags "").

Definition Match_MarshalText (m : Match) : go string :=
  match m with
  | dataLinkMatch srcdst addr => dataLinkMatch_MarshalText srcdst addr
  | dataLinkTypeMatch etherType => dataLinkTypeMatch_MarshalText etherType
  | dataLinkVLANMatch vid => dataLinkVLANMatch_MarshalText vid
  | networkMatch srcdst ip => networkMatch_MarshalText srcdst ip
  | conjunctionIDMatch id => conjunctionIDMatch_MarshalText id
  | networkProtocolMatch num => networkProtocolMatch_MarshalText num
  | ipv6Match srcdst ip => ipv6Match_MarshalText srcdst ip
  | icmpTypeMatch typ => icmpTypeMatch_MarshalText typ
  | neighborDiscoveryTargetMatch ip => neighborDiscoveryTargetMatch_MarshalText ip
  | neighborDiscoveryLinkLayerMatch srctgt addr =>
      neighborDiscoveryLinkLayerMatch_MarshalText srctgt addr
  | arpHardwareAddressMatch srctgt addr => arpHardwareAddressMatch_MarshalText srctgt addr
  | arpProtocolAddressMatch srctgt ip => arpProtocolAddressMatch_MarshalText srctgt ip
  | transportPortMatch srcdst port mask => transportPortMatch_MarshalText srcdst port mask
  | vlanTCIMatch tci mask => vlanTCIMatch_MarshalText tci mask
  | connectionTrackingMarkMatch mark mask => connectionTrackingMarkMatch_MarshalText mark mask
  | connectionTrackingZoneMatch zone => connectionTrackingZoneMatch_MarshalText zone
  | connectionTrackingMatch state => connectionTrackingMatch_MarshalText state
  | tcpFlagsMatch flags => tcpFlagsMatch_MarshalText flags
  | tunnelIDMatch id mask => tunnelIDMatch_MarshalText id mask
  end.

(** ** Transport port ranges *)

Record transportPortRange := mkTransportPortRange {
  tpr_srcdst : string; startPort : Z; endPort : Z
}.

Definition TransportDestinationPortRange (startPort endPort : Z) : transportPortRange :=
  mkTransportPortRange destination startPort endPort.
Definition TransportSourcePortRange (startPort endPort : Z) : transportPortRange :=
  mkTransportPortRange source startPort endPort.

Definition MaskedPorts (pr : transportPortRange) : go (list Match) :=
  bitRanges ← BitwiseMatch (mkPortRange (startPort pr) (endPort pr));
  Ok (map (fun br => transportPortMatch (tpr_srcdst pr) (Value br) (Mask br)) bitRanges).

(** ** Well-formed matches: the field types and the constructors' direction. *)

Definition is_dir (d : string) : Prop := d = source \/ d = destination.

Definition Match_wf (m : Match) : Prop :=
  match m with
  | dataLinkMatch d _ | networkMatch d _ | ipv6Match d _ | arpProtocolAddressMatch d _ => is_dir d
  | dataLinkTypeMatch n | connectionTrackingZoneMatch n => in_u 16 n
  | dataLinkVLANMatch n => in_i64 n
  | conjunctionIDMatch n => in_u 32 n
  | networkProtocolMatch n | icmpTypeMatch n => in_u 8 n
  | neighborDiscoveryTargetMatch _ => True
  | neighborDiscoveryLinkLayerMatch d a | arpHardwareAddressMatch d a =>
      is_dir d /\ Forall is_byte a
  | transportPortMatch d p m => is_dir d /\ in_u 16 p /\ in_u 16 m
  | vlanTCIMatch a b => in_u 16 a /\ in_u 16 b
  | connectionTrackingMarkMatch a b => in_u 32 a /\ in_u 32 b
  | connectionTrackingMatch _ | tcpFlagsMatch _ => True
  | tunnelIDMatch a b => in_u 64 a /\ in_u 64 b
  end.

Example m1 : Match_MarshalText (DataLinkSource "DE:AD:BE:EF:DE:AD/ff:ff:ff:ff:ff:ff")
  = Ok "dl_src=de:ad:be:ef:de:ad/ff:ff:ff:ff:ff:ff". Proof. vm_compute. reflexivity. Qed.
Example m2 : Match_MarshalText (NetworkSource "192.0.2.0/24") = Ok "nw_src=192.0.2.0/24".
Proof. vm_compute. reflexivity. Qed.
Example m3 : Match_MarshalText (DataLinkVLAN 4096) = Err errInvalidVLANVID.
Proof. vm_compute. reflexivity. Qed.
Example m4 : Match_MarshalText (IPv6Source "2001:DB8::1") = Ok "ipv6_src=2001:db8::1".
Proof. vm_compute. reflexivity. Qed.
