(* ===== verification/MatchParser.v ===== *)
(** * Parsing matches

    Models [ovs/matchparser.go]: [parseMatch] and the parsers it selects by
    key, with Go's conversions between integer widths. *)

From S2P Require Import Prelude GoStrings GoConv GoNet PortRange Names Match.

(** ** Integers *)

Definition hexPrefix := "0x".

Definition errTooLarge (n max : Z) : error :=
  Errorf "integer %d too large; %d > %d" [inr n; inr n; inr max].

Definition parseClampInt (s : string) (max : Z) : go Z :=
  t ← Atoi s;
  if max <? t then Err (errTooLarge t max) else Ok t.

Definition parseHexUint16 (value : string) : go Z :=
  val ← ParseUint (TrimPrefix value hexPrefix) 16 32; Ok (u16 val).

Definition parseHexUint32 (value : string) : go Z :=
  val ← ParseUint (TrimPrefix value hexPrefix) 16 32; Ok (u32 val).

Definition parseHexUint64 (value : string) : go Z :=
  ParseUint (TrimPrefix value hexPrefix) 16 64.

(** ** Parsers by kind of value *)

Definition errNoAction (key value : string) : error :=
  Errorf "no action matched for %s=%s" [inl key; inl value].

Definition parseIntMatch (key value : string) (max : Z) : go Match :=
  t ← parseClampInt value max;
  if (key =? icmpType)%string then Ok (ICMPType (u8 t))
  else if (key =? nwProto)%string then Ok (NetworkProtocol (u8 t))
  else if (key =? ctZone)%string then Ok (ConnectionTrackingZone (u16 t))
  else if (key =? conjID)%string then Ok (ConjunctionID (u32 t))
  else Err (errNoAction key value).

Definition parsePort (key value : string) (max : Z) : go Match :=
  let ss := Split value "/" in
  values ←
    match ss with
    | [_] => val ← parseClampInt value max; Ok (u64 val, 0)
    | [s0; s1] =>
        let one s := (val ← parseHexUint64 s;
                      if u64 max <? val then Err (errTooLarge val max) else Ok val) in
        v0 ← one s0; v1 ← one s1; Ok (v0, v1)
    | _ => Err (Errorf "invalid value, no action matched for %s=%s" [inl key; inl value])
    end;
  if (key =? tpSRC)%string then Ok (TransportSourceMaskedPort (u16 values.1) (u16 values.2))
  else if (key =? tpDST)%string then Ok (TransportDestinationMaskedPort (u16 values.1) (u16 values.2))
  else Err (errNoAction key value).

Definition parseMACMatch (key value : string) : go Match :=
  mac ← ParseMAC value;
  if (key =? arpSHA)%string then Ok (ARPSourceHardwareAddress mac)
  else if (key =? arpTHA)%string then Ok (ARPTargetHardwareAddress mac)
  else if (key =? ndSLL)%string then Ok (NeighborDiscoverySourceLinkLayer mac)
  else if (key =? ndTLL)%string then Ok (NeighborDiscoveryTargetLinkLayer mac)
  else Err (errNoAction key value).

(** The loop of [parseCTState] and [parseTCPFlags] over the runes of the value:
    at every byte offset that is a multiple of four the buffer is emitted. *)
Definition flag_step (st : list string * string) (ir : nat * Z) : list string * string :=
  let '(states, buf) := st in
  let '(i, r) := ir in
  if negb (i =? 0)%nat && (i mod 4 =? 0)%nat
  then (states ++ [buf], EncodeRune r)
  else (states, buf +:+ EncodeRune r).

Definition split_flags (value : string) : list string :=
  let '(states, buf) := fold_left flag_step (runes value) ([], "") in
  states ++ [buf].

Definition parseCTState (value : string) : go Match :=
  if negb (String.length value mod 4 =? 0)%nat
  then Err (ErrorString "ct_state length must be divisible by 4")
  else Ok (ConnectionTrackingState (split_flags value)).

Definition parseTCPFlags (value : string) : go Match :=
  if negb (String.length value mod 4 =? 0)%nat
  then Err (ErrorString "tcp_flags length must be divisible by 4")
  else Ok (TCPFlags (split_flags value)).

Definition parseDataLinkVLAN (value : string) : go Match :=
  if negb (HasPrefix value hexPrefix)
  then vlan ← Atoi value; Ok (DataLinkVLAN vlan)
  else vlan ← parseHexUint16 value; Ok (DataLinkVLAN vlan).

(** One of the slash-separated integers of [parseVLANTCI], [parseCTMark] and
    [parseTunID]: decimal is converted to the width, hexadecimal parsed. *)
Definition parse_part (conv : Z -> Z) (hex : string -> go Z) (s : string) : go Z :=
  if negb (HasPrefix s hexPrefix) then v ← Atoi s; Ok (conv v) else hex s.

Definition parseVLANTCI (value : string) : go Match :=
  values ← mapM (parse_part u16 parseHexUint16) (Split value "/");
  match values with
  | [v] => Ok (VLANTCI v 0)
  | [v; mask] => Ok (VLANTCI v mask)
  | _ => Err (Errorf "invalid vlan_tci match: %q" [inl value])
  end.

Definition parseCTMark (value : string) : go Match :=
  values ← mapM (parse_part u32 parseHexUint32) (Split value "/");
  match values with
  | [v] => Ok (ConnectionTrackingMark v 0)
  | [v; mask] => Ok (ConnectionTrackingMark v mask)
  | _ => Err (Errorf "invalid ct_mark match: %q" [inl value])
  end.

Definition parseTunID (value : string) : go Match :=
  values ← mapM (parse_part u64 parseHexUint64) (Split value "/");
  match values with
  | [v] => Ok (TunnelID v)
  | [v; mask] => Ok (TunnelIDWithMask v mask)
  | _ => Err (Errorf "invalid tun_id match: %q" [inl value])
  end.

(** ** [parseMatch] *)

Definition is_one_of (key : string) (keys : list string) : bool :=
  existsb (String.eqb key) keys.

Definition parseMatch (key value : string) : go Match :=
  if is_one_of key [arpSHA; arpTHA; ndSLL; ndTLL] then parseMACMatch key value
  else if is_one_of key [icmpType; nwProto] then parseIntMatch key value 255
  else if is_one_of key [ctZone] then parseIntMatch key value 65535
  else if is_one_of key [tpSRC; tpDST] then parsePort key value 65535
  else if is_one_of key [conjID] then parseIntMatch key value 4294967295
  else if is_one_of key [arpSPA] then Ok (ARPSourceProtocolAddress value)
  else if is_one_of key [arpTPA] then Ok (ARPTargetProtocolAddress value)
  else if is_one_of key [ctState] then parseCTState value
  else if is_one_of key [tcpFlags] then parseTCPFlags value
  else if is_one_of key [dlSRC] then Ok (DataLinkSource value)
  else if is_one_of key [dlDST] then Ok (DataLinkDestination value)
  else if is_one_of key [dlType] then etherType ← parseHexUint16 value; Ok (DataLinkType etherType)
  else if is_one_of key [dlVLAN] then parseDataLinkVLAN value
  else if is_one_of key [ndTarget] then Ok (NeighborDiscoveryTarget value)
  else if is_one_of key [ipv6SRC] then Ok (IPv6Source value)
  else if is_one_of key [ipv6DST] then Ok (IPv6Destination value)
  else if is_one_of key [nwSRC] then Ok (NetworkSource value)
  else if is_one_of key [nwDST] then Ok (NetworkDestination value)
  else if is_one_of key [vlanTCI] then parseVLANTCI value
  else if is_one_of key [ctMark] then parseCTMark value
  else if is_one_of key [tunID] then parseTunID value
  else Err (Errorf "no match parser found for %s=%s" [inl key; inl value]).

Example p1 : parseMatch "tcp_flags" "+syn-psh+ack" = Ok (TCPFlags ["+syn"; "-psh"; "+ack"]).
Proof. vm_compute. reflexivity. Qed.
Example p2 : parseMatch "tp_src" "0xea60/0xffe0" = Ok (TransportSourceMaskedPort 60000 65504).
Proof. vm_compute. reflexivity. Qed.
Example p3 : parseMatch "vlan_tci" "10/0x1000" = Ok (VLANTCI 10 0x1000).
Proof. vm_compute. reflexivity. Qed.
(** Values that do not fit are truncated rather than refused. *)
Example p4 : parseMatch "dl_type" "0x12345" = Ok (DataLinkType 0x2345).
Proof. vm_compute. reflexivity. Qed.
Example p5 : parseMatch "icmp_type" "-1" = Ok (ICMPType 255).
Proof. vm_compute. reflexivity. Qed.

(** ** Round trip: what a match marshals to is what it parses from *)

(** Characters that neither separate fields nor keys, and are not trimmed. *)
Definition value_char (c : ascii) : bool :=
  graphic c && other_than "," c && other_than "=" c.

Definition value_text (s : string) : bool := all_chars value_char s.

Lemma value_char_range (f : ascii -> bool) :
  forallb (fun z => negb (f (chr z)) || value_char (chr z)) (List.map Z.of_nat (List.seq 0 256)) = true ->
  forall c, f c = true -> value_char c = true.
Proof.
  intros Hall c Hc.
  pose proof (forall_below 256 (fun z => negb (f (chr z)) || value_char (chr z)) Hall (code c) (code_range c)) as H.
  cbn beta in H. by rewrite chr_code, Hc in H.
Qed.

Lemma addr_value c : addr_char c = true -> value_char c = true.
Proof. apply value_char_range. vm_compute. reflexivity. Qed.

Lemma num_value c : num_char c = true -> value_char c = true.
Proof. apply value_char_range. vm_compute. reflexivity. Qed.

Lemma addr_no_slash c : addr_char c = true -> other_than "/" c = true.
Proof. intros H. apply negb_true_iff, Ascii.eqb_neq. by intros <-. Qed.

Lemma num_no_slash c : num_char c = true -> other_than "/" c = true.
Proof. intros H. apply negb_true_iff, Ascii.eqb_neq. by intros <-. Qed.

#[export] Hint Resolve addr_value num_value addr_no_slash num_no_slash : go.
#[export] Hint Resolve fmt_d_num HardwareAddr_String_chars IP_String_chars : go.

Lemma addr_value_text s : all_chars addr_char s = true -> value_text s = true.
Proof. apply all_chars_impl. auto with go. Qed.

Lemma num_value_text s : all_chars num_char s = true -> value_text s = true.
Proof. apply all_chars_impl. auto with go. Qed.

Lemma addr_text_no_slash s : all_chars addr_char s = true -> all_chars (other_than "/") s = true.
Proof. apply all_chars_impl. auto with go. Qed.

Lemma num_text_no_slash s : all_chars num_char s = true -> all_chars (other_than "/") s = true.
Proof. apply all_chars_impl. auto with go. Qed.

#[export] Hint Resolve addr_value_text num_value_text addr_text_no_slash num_text_no_slash : go.

(** [t] is a [key=value] text that parses to a match with the same text. *)
Definition reparses (t : string) : Prop :=
  exists k v m, t = k +:+ "=" +:+ v /\ value_text k = true /\ value_text v = true /\
    parseMatch k v = Ok m /\ Match_MarshalText m = Ok t.

Lemma reparses_intro k v m t :
  value_text k = true -> value_text v = true -> parseMatch k v = Ok m ->
  Match_MarshalText m = Ok (k +:+ "=" +:+ v) -> t = k +:+ "=" +:+ v -> reparses t.
Proof. intros ? ? ? ? ->. exists k, v, m. auto. Qed.

(** *** Addresses *)

Lemma matchIPv4_stable key ip t :
  matchIPv4AddressOrCIDR key ip = Ok t ->
  exists v, t = key +:+ "=" +:+ v /\ value_text v = true /\ matchIPv4AddressOrCIDR key v = Ok t.
Proof.
  unfold matchIPv4AddressOrCIDR. destruct (ParseCIDR ip) as [a|] eqn:Hc.
  - destruct (is_some (To4 a)) eqn:H4; [|done]. cbn [negb]. intros [= <-].
    exists ip. rewrite Hc, H4. split_and!; [done| |done].
    eapply all_chars_impl; [|by eapply ParseCIDR_chars].
    apply value_char_range. vm_compute. reflexivity.
  - destruct (ParseIP ip) as [a|] eqn:Hp; [|done].
    destruct (is_some (To4 a)) eqn:H4; [|done]. cbn [negb]. intros [= <-].
    apply ParseIP_IP16 in Hp. exists (IP_String a).
    assert (Hnc : ParseCIDR (IP_String a) = None).
    { unfold ParseCIDR. rewrite SplitN2_none by auto with go. done. }
    rewrite Hnc, ParseIP_String, H4 by done. auto with go.
Qed.

Lemma matchIPv6_stable key ip t :
  matchIPv6AddressOrCIDR key ip = Ok t ->
  exists v, t = key +:+ "=" +:+ v /\ value_text v = true /\ matchIPv6AddressOrCIDR key v = Ok t.
Proof.
  unfold matchIPv6AddressOrCIDR. destruct (ParseCIDR ip) as [a|] eqn:Hc.
  - destruct (_ || _) eqn:H4; [done|]. intros [= <-].
    exists ip. rewrite Hc, H4. split_and!; [done| |done].
    eapply all_chars_impl; [|by eapply ParseCIDR_chars].
    apply value_char_range. vm_compute. reflexivity.
  - destruct (ParseIP ip) as [a|] eqn:Hp; [|done].
    destruct (_ || _) eqn:H4; [done|]. intros [= <-].
    apply ParseIP_IP16 in Hp. exists (IP_String a).
    assert (Hnc : ParseCIDR (IP_String a) = None).
    { unfold ParseCIDR. rewrite SplitN2_none by auto with go. done. }
    rewrite Hnc, ParseIP_String, H4 by done. auto with go.
Qed.

Lemma dataLink_stable d addr t :
  dataLinkMatch_MarshalText d addr = Ok t ->
  exists v, t = "dl_" +:+ d +:+ "=" +:+ v /\ value_text v = true /\
            dataLinkMatch_MarshalText d v = Ok t.
Proof.
  unfold dataLinkMatch_MarshalText. intros H. apply bind_Ok_inv in H as (hw & Hhw & H).
  apply ParseMAC_spec in Hhw as [Hb Hl].
  destruct (length hw =? ethernetAddrLen)%nat eqn:Hlen; [|done]. cbn [negb] in H.
  pose proof (HardwareAddr_String_chars hw Hb) as Hc.
  destruct (SplitN2 addr "/" !! 1%nat) as [mask|].
  - apply bind_Ok_inv in H as (w & Hw & H). apply ParseMAC_spec in Hw as [Hwb Hwl].
    destruct (length w =? ethernetAddrLen)%nat eqn:Hwlen; [|done]. injection H as <-.
    pose proof (HardwareAddr_String_chars w Hwb) as Hwc.
    exists (HardwareAddr_String hw +:+ String "/" (HardwareAddr_String w)).
    rewrite SplitN2_first by auto with go. cbn [lookup list_lookup from_option id].
    rewrite !ParseMAC_String by done. cbn [mbind go_bind]. rewrite Hlen, Hwlen. 
    split_and!; [done| |done]. unfold value_text. rewrite all_chars_app. cbn [all_chars].
    change (value_char "/") with true. apply addr_value_text in Hc, Hwc.
    unfold value_text in *. by rewrite Hc, Hwc.
  - injection H as <-. exists (HardwareAddr_String hw).
    rewrite SplitN2_none by auto with go. cbn [lookup list_lookup from_option id].
    rewrite ParseMAC_String by done. cbn [mbind go_bind]. rewrite Hlen.
    split_and!; [done|auto with go|done].
Qed.

Lemma hwaddr_stable key a t :
  Forall is_byte a -> matchEthernetHardwareAddress key a = Ok t ->
  t = key +:+ "=" +:+ HardwareAddr_String a /\ value_text (HardwareAddr_String a) = true /\
  ParseMAC (HardwareAddr_String a) = Ok a.
Proof.
  unfold matchEthernetHardwareAddress. intros Ha.
  destruct (Nat.eqb_spec (length a) ethernetAddrLen) as [Hl|]; [|done]. intros [= <-].
  split_and!; [done|auto with go|]. apply ParseMAC_String; [done|]. by rewrite Hl.
Qed.

(** *** Flags *)

Lemma Join_empty_app l k : Join (l ++ k) "" = Join l "" +:+ Join k "".
Proof.
  assert (Hc : forall s l, Join (s :: l) "" = s +:+ Join l "").
  { intros s [|s' l']; [by rewrite app_nil_r'|done]. }
  induction l as [|s l IH]; [done|]. cbn [app]. by rewrite !Hc, IH, app_assoc'.
Qed.

Lemma EncodeRune_ascii c : ascii_char c = true -> EncodeRune (code c) = sing c.
Proof.
  unfold ascii_char, EncodeRune. intros H%Z.ltb_lt. pose proof (code_range c).
  destruct (Z.leb_spec 0 (code c)); [|lia]. destruct (Z.leb_spec (code c) 0x7F); [|lia].
  cbn [andb]. by rewrite chr_code.
Qed.

Lemma split_flags_join s : all_chars ascii_char s = true -> Join (split_flags s) "" = s.
Proof.
  assert (Hgo : forall s off states buf, all_chars ascii_char s = true ->
    let '(states', buf') := fold_left flag_step (runes_go 0 off s) (states, buf) in
    Join (states' ++ [buf']) "" = Join (states ++ [buf]) "" +:+ s).
  { clear s. induction s as [|c s IH]; intros off states buf Hs; [cbn; by rewrite app_nil_r'|].
    cbn [all_chars] in Hs. apply andb_true_iff in Hs as [Hc Hs].
    cbn [runes_go]. rewrite DecodeRune_ascii by done. cbn [Nat.sub fold_left].
    unfold flag_step at 2. rewrite EncodeRune_ascii by done. destruct (_ && _).
    - specialize (IH (S off) (states ++ [buf]) (sing c) Hs).
      destruct (fold_left _ _ _). rewrite IH, Join_empty_app. cbn [Join].
      by rewrite app_assoc', app_cons, app_nil_l'.
    - specialize (IH (S off) states (buf +:+ sing c) Hs).
      destruct (fold_left _ _ _). rewrite IH, !Join_empty_app. cbn [Join].
      by rewrite !app_assoc', app_cons, app_nil_l'. }
  intros Hs. unfold split_flags, runes. specialize (Hgo s 0%nat [] "" Hs).
  destruct (fold_left _ _ _). rewrite Hgo. done.
Qed.

Lemma value_ascii c : value_char c = true -> ascii_char c = true.
Proof. unfold value_char. intros H. bools. by apply graphic_ascii. Qed.

(** A list of flags that a parser accepts back: plain characters, a multiple of
    four bytes in all, as the helpers [SetState], [UnsetState], [SetTCPFlag]
    and [UnsetTCPFlag] produce from the declared names. *)
Definition flags_ok (flags : list string) : Prop :=
  value_text (Join flags "") = true /\ (String.length (Join flags "") mod 4 = 0)%nat.

Definition Match_flags_ok (m : Match) : Prop :=
  match m with
  | connectionTrackingMatch l | tcpFlagsMatch l => flags_ok l
  | _ => True
  end.

(** *** Numbers *)

Lemma hex_ParseUint w bits n :
  0 < bits <= 64 -> in_u bits n ->
  ParseUint (TrimPrefix ("0x" +:+ fmt_0x w n) hexPrefix) 16 bits = Ok n.
Proof.
  intros Hb [H0 Hn]. unfold hexPrefix. rewrite TrimPrefix_app. apply ParseUint_format; [lia|lia|].
  unfold maxUint. destruct (Z.eqb_spec bits 0); lia.
Qed.

Lemma parseHexUint16_fmt w n : in_u 16 n -> parseHexUint16 ("0x" +:+ fmt_0x w n) = Ok n.
Proof.
  intros Hn. unfold parseHexUint16.
  rewrite hex_ParseUint by (lia || by eapply in_u_mono; [|exact Hn]).
  cbn [mbind go_bind]. unfold u16. by rewrite uint_small.
Qed.

Lemma parseHexUint32_fmt w n : in_u 32 n -> parseHexUint32 ("0x" +:+ fmt_0x w n) = Ok n.
Proof.
  intros Hn. unfold parseHexUint32. rewrite hex_ParseUint by (done || lia).
  cbn [mbind go_bind]. unfold u32. by rewrite uint_small.
Qed.

Lemma parseHexUint64_fmt w n : in_u 64 n -> parseHexUint64 ("0x" +:+ fmt_0x w n) = Ok n.
Proof. intros Hn. unfold parseHexUint64. by rewrite hex_ParseUint by (done || lia). Qed.

Lemma hex_num_text w n : 0 <= n -> all_chars num_char ("0x" +:+ fmt_0x w n) = true.
Proof. intros Hn. by apply sharp_num, fmt_0x_xdigits. Qed.

Lemma parse_part_hex conv hex w n :
  hex ("0x" +:+ fmt_0x w n) = Ok n -> parse_part conv hex ("0x" +:+ fmt_0x w n) = Ok n.
Proof. intros H. unfold parse_part, HasPrefix, hexPrefix. by rewrite prefix_app. Qed.

(** The one- and two-part values of [vlan_tci], [ct_mark] and [tun_id]. *)
Lemma parse_parts_one f w n :
  0 <= n -> f ("0x" +:+ fmt_0x w n) = Ok n ->
  mapM (M:=go) f (Split ("0x" +:+ fmt_0x w n) "/") = Ok [n].
Proof.
  intros Hn Hf. rewrite Split_char_none by auto using hex_num_text with go.
  cbn. by rewrite Hf.
Qed.

Lemma parse_parts_two f w n m :
  0 <= n -> 0 <= m -> f ("0x" +:+ fmt_0x w n) = Ok n -> f ("0x" +:+ fmt_0x w m) = Ok m ->
  mapM (M:=go) f (Split (("0x" +:+ fmt_0x w n) +:+ String "/" ("0x" +:+ fmt_0x w m)) "/") = Ok [n; m].
Proof.
  intros Hn Hm Hfn Hfm. rewrite Split_char by auto using hex_num_text with go.
  rewrite Split_char_none by auto using hex_num_text with go.
  cbn. rewrite Hfn. cbn. by rewrite Hfm.
Qed.

Lemma two_parts_text w n m :
  0 <= n -> 0 <= m ->
  value_text (("0x" +:+ fmt_0x w n) +:+ String "/" ("0x" +:+ fmt_0x w m)) = true.
Proof.
  intros Hn Hm. unfold value_text. rewrite all_chars_app. cbn [all_chars].
  change (value_char "/") with true.
  pose proof (num_value_text _ (hex_num_text w n Hn)) as H1.
  pose proof (num_value_text _ (hex_num_text w m Hm)) as H2. unfold value_text in *.
  by rewrite H1, H2.
Qed.

Lemma fmt_sharp_x_0x n : fmt_sharp_x n = "0x" +:+ fmt_0x 0 n.
Proof. done. Qed.

Lemma parseClampInt_fmt n max :
  0 <= n <= max -> max < 2 ^ 63 -> parseClampInt (fmt_d n) max = Ok n.
Proof.
  intros Hn Hm. unfold parseClampInt. rewrite Atoi_fmt_d by (unfold in_i64; lia).
  cbn [mbind go_bind]. by destruct (Z.ltb_spec max n); [lia|].
Qed.

Lemma fmt_d_not_hex n : HasPrefix (fmt_d n) hexPrefix = false.
Proof.
  pose proof (fmt_d_num n) as Hn. unfold fmt_d, FormatInt, HasPrefix, hexPrefix in *.
  destruct (Z.ltb_spec n 0); [by rewrite app_cons, prefix_cons|].
  pose proof (FormatUint_digits n ltac:(lia)) as Hd.
  destruct (FormatUint n 10) as [|c s]; [done|]. cbn [all_chars] in Hd.
  apply andb_true_iff in Hd as [_ Hd]. rewrite prefix_cons.
  destruct s as [|d s]; [by rewrite andb_false_r|]. rewrite prefix_cons.
  destruct (Ascii.eqb_spec "x" d) as [<-|]; [done|]. by rewrite andb_false_r.
Qed.

Lemma int_stable key n max t :
  0 <= n <= max -> max < 2 ^ 63 -> t = key +:+ "=" +:+ fmt_d n ->
  value_text (fmt_d n) = true /\ parseClampInt (fmt_d n) max = Ok n.
Proof. intros Hn Hm ->. split; [auto with go|by apply parseClampInt_fmt]. Qed.

(** *** The cases *)

(** The one-line [MarshalText] methods. *)
Ltac unfold_marshal :=
  unfold dataLinkTypeMatch_MarshalText, networkMatch_MarshalText, conjunctionIDMatch_MarshalText,
    networkProtocolMatch_MarshalText, ipv6Match_MarshalText, icmpTypeMatch_MarshalText,
    neighborDiscoveryTargetMatch_MarshalText, neighborDiscoveryLinkLayerMatch_MarshalText,
    arpHardwareAddressMatch_MarshalText, arpProtocolAddressMatch_MarshalText,
    transportPortMatch_MarshalText, connectionTrackingZoneMatch_MarshalText,
    connectionTrackingMatch_MarshalText, tcpFlagsMatch_MarshalText.

(** The hardware address matches, by the kind of key. *)
Lemma parseMAC_key key value mac m :
  is_one_of key [arpSHA; arpTHA; ndSLL; ndTLL] = true -> ParseMAC value = Ok mac ->
  parseMACMatch key value = Ok m -> parseMatch key value = Ok m.
Proof. unfold parseMatch. by intros ->. Qed.

Lemma roundtrip_addr m t :
  match m with
  | dataLinkMatch d _ | networkMatch d _ | ipv6Match d _ | arpProtocolAddressMatch d _ => is_dir d
  | neighborDiscoveryTargetMatch _ => True
  | neighborDiscoveryLinkLayerMatch d a | arpHardwareAddressMatch d a => is_dir d /\ Forall is_byte a
  | _ => False
  end -> Match_MarshalText m = Ok t -> reparses t.
Proof.
  destruct m; try done; cbn [Match_MarshalText]; unfold_marshal.
  - intros [-> | ->] (v & -> & Hv & Hm)%dataLink_stable.
    + exact (reparses_intro dlSRC v (DataLinkSource v) _ eq_refl Hv eq_refl Hm eq_refl).
    + exact (reparses_intro dlDST v (DataLinkDestination v) _ eq_refl Hv eq_refl Hm eq_refl).
  - intros [-> | ->] (v & -> & Hv & Hm)%matchIPv4_stable.
    + exact (reparses_intro nwSRC v (NetworkSource v) _ eq_refl Hv eq_refl Hm eq_refl).
    + exact (reparses_intro nwDST v (NetworkDestination v) _ eq_refl Hv eq_refl Hm eq_refl).
  - intros [-> | ->] (v & -> & Hv & Hm)%matchIPv6_stable.
    + exact (reparses_intro ipv6SRC v (IPv6Source v) _ eq_refl Hv eq_refl Hm eq_refl).
    + exact (reparses_intro ipv6DST v (IPv6Destination v) _ eq_refl Hv eq_refl Hm eq_refl).
  - intros _ (v & -> & Hv & Hm)%matchIPv6_stable.
    exact (reparses_intro ndTarget v (NeighborDiscoveryTarget v) _ eq_refl Hv eq_refl Hm eq_refl).
  - intros [[-> | ->] Ha] Hm; pose proof Hm as Hm'; apply hwaddr_stable in Hm as (-> & Hv & Hp); try done.
    + refine (reparses_intro ndSLL _ (NeighborDiscoverySourceLinkLayer addr) _ eq_refl Hv _ Hm' eq_refl).
      eapply (parseMAC_key ndSLL); [done|exact Hp|]. unfold parseMACMatch. by rewrite Hp.
    + refine (reparses_intro ndTLL _ (NeighborDiscoveryTargetLinkLayer addr) _ eq_refl Hv _ Hm' eq_refl).
      eapply (parseMAC_key ndTLL); [done|exact Hp|]. unfold parseMACMatch. by rewrite Hp.
  - intros [[-> | ->] Ha] Hm; pose proof Hm as Hm'; apply hwaddr_stable in Hm as (-> & Hv & Hp); try done.
    + refine (reparses_intro arpSHA _ (ARPSourceHardwareAddress addr) _ eq_refl Hv _ Hm' eq_refl).
      eapply (parseMAC_key arpSHA); [done|exact Hp|]. unfold parseMACMatch. by rewrite Hp.
    + refine (reparses_intro arpTHA _ (ARPTargetHardwareAddress addr) _ eq_refl Hv _ Hm' eq_refl).
      eapply (parseMAC_key arpTHA); [done|exact Hp|]. unfold parseMACMatch. by rewrite Hp.
  - intros [-> | ->] (v & -> & Hv & Hm)%matchIPv4_stable.
    + exact (reparses_intro arpSPA v (ARPSourceProtocolAddress v) _ eq_refl Hv eq_refl Hm eq_refl).
    + exact (reparses_intro arpTPA v (ARPTargetProtocolAddress v) _ eq_refl Hv eq_refl Hm eq_refl).
Qed.

Lemma roundtrip_int key n max m :
  value_text key = true -> 0 <= n <= max -> max < 2 ^ 63 ->
  Match_MarshalText m = Ok (key +:+ "=" +:+ fmt_d n) ->
  (parseClampInt (fmt_d n) max = Ok n -> parseMatch key (fmt_d n) = Ok m) ->
  reparses (key +:+ "=" +:+ fmt_d n).
Proof.
  intros Hk Hn Hmax Hm Hp. eapply (reparses_intro key (fmt_d n) m); auto with go.
  by apply Hp, parseClampInt_fmt.
Qed.

Lemma roundtrip_hex key v m :
  value_text key = true -> value_text v = true ->
  Match_MarshalText m = Ok (key +:+ "=" +:+ v) -> parseMatch key v = Ok m ->
  reparses (key +:+ "=" +:+ v).
Proof. intros Hk Hv Hm Hp. by eapply (reparses_intro key v m). Qed.

Lemma in_u_int bits n max :
  in_u bits n -> 2 ^ bits = max + 1 -> max < 2 ^ 63 -> 0 <= n <= max /\ max < 2 ^ 63.
Proof. unfold in_u. lia. Qed.

(** Close a decimal case of the round trip: the key's parser is
    [parseIntMatch] (or [parsePort]), whose bound the field type meets. *)
Ltac int_case key n m max H :=
  apply (roundtrip_int key n max m);
    [done|unfold in_u in H; lia|lia|reflexivity|];
  match goal with |- _ -> parseMatch ?k ?v = _ =>
    change (parseClampInt v max = Ok n -> parseIntMatch k v max = Ok m);
    intros Hp; unfold parseIntMatch; rewrite Hp; cbn -[u8 u16 u32];
    unfold u8, u16, u32; by rewrite uint_small
  end.

Lemma roundtrip_num m t :
  Match_wf m ->
  match m with
  | dataLinkTypeMatch _ | dataLinkVLANMatch _ | conjunctionIDMatch _ | networkProtocolMatch _
  | icmpTypeMatch _ | connectionTrackingZoneMatch _ => True
  | _ => False
  end -> Match_MarshalText m = Ok t -> reparses t.
Proof.
  destruct m; try done; cbn [Match_wf Match_MarshalText]; unfold_marshal; intros Hw _.
  - intros [= <-]. apply (roundtrip_hex dlType ("0x" +:+ fmt_0x 4 etherType) (DataLinkType etherType)); auto.
    + apply num_value_text, hex_num_text. apply Hw.
    + change (parseMatch dlType (?x)) with (e ← parseHexUint16 x; Ok (DataLinkType e)).
      by rewrite parseHexUint16_fmt.
  - unfold dataLinkVLANMatch_MarshalText. destruct (_ && _) eqn:Hv; [done|].
    destruct (Z.eqb_spec vid VLANNone) as [->|Hne]; intros [= <-].
    + by apply (roundtrip_hex dlVLAN "0xffff" (DataLinkVLAN VLANNone)).
    + apply (roundtrip_hex dlVLAN (fmt_d vid) (DataLinkVLAN vid)); [done|auto with go| |].
      * cbn [Match_MarshalText DataLinkVLAN]. unfold dataLinkVLANMatch_MarshalText.
        destruct (Z.eqb_spec vid VLANNone); [done|]. by rewrite Hv.
      * change (parseMatch dlVLAN (fmt_d vid)) with (parseDataLinkVLAN (fmt_d vid)).
        unfold parseDataLinkVLAN. rewrite fmt_d_not_hex. cbn [negb].
        by rewrite Atoi_fmt_d.
  - intros [= <-]. int_case conjID id (ConjunctionID id) 4294967295 Hw.
  - intros [= <-]. int_case nwProto num (NetworkProtocol num) 255 Hw.
  - intros [= <-]. int_case icmpType typ (ICMPType typ) 255 Hw.
  - intros [= <-]. int_case ctZone zone (ConnectionTrackingZone zone) 65535 Hw.
Qed.

(** Masked values: [0x] and fixed-width hexadecimal digits, on either side of
    a slash. *)
Lemma app_slash (b : string) : "/0x" +:+ b = String "/" ("0x" +:+ b).
Proof. done. Qed.

Lemma parseClamp_port port :
  in_u 16 port -> parseClampInt (fmt_d port) 65535 = Ok port.
Proof. intros H. apply parseClampInt_fmt; unfold in_u in H; lia. Qed.

Lemma parsePort_plain key port :
  in_u 16 port ->
  parsePort key (fmt_d port) 65535 =
  if (key =? tpSRC)%string then Ok (TransportSourcePort port)
  else if (key =? tpDST)%string then Ok (TransportDestinationPort port)
  else Err (errNoAction key (fmt_d port)).
Proof.
  intros H. unfold parsePort. rewrite Split_char_none by auto with go.
  rewrite parseClamp_port by done. cbn -[u16 u64 fmt_d].
  assert (H64 : u64 port = port) by (apply uint_small; eapply in_u_mono; [|exact H]; lia).
  assert (H16 : u16 port = port) by (by apply uint_small).
  by rewrite H64, H16.
Qed.

Lemma parsePort_masked key port mask :
  in_u 16 port -> in_u 16 mask ->
  parsePort key (("0x" +:+ fmt_0x 4 port) +:+ String "/" ("0x" +:+ fmt_0x 4 mask)) 65535 =
  if (key =? tpSRC)%string then Ok (TransportSourceMaskedPort port mask)
  else if (key =? tpDST)%string then Ok (TransportDestinationMaskedPort port mask)
  else Err (errNoAction key (("0x" +:+ fmt_0x 4 port) +:+ String "/" ("0x" +:+ fmt_0x 4 mask))).
Proof.
  intros Hp Hm. unfold parsePort.
  rewrite Split_char by (apply num_text_no_slash, hex_num_text; apply Hp).
  rewrite Split_char_none by (apply num_text_no_slash, hex_num_text; apply Hm).
  assert (Hin : forall x, in_u 16 x -> in_u 64 x) by (intros x Hx; eapply in_u_mono; [|exact Hx]; lia).
  assert (Hlt : forall x, in_u 16 x -> (u64 65535 <? x) = false).
  { intros x Hx. apply Z.ltb_ge. unfold in_u in Hx. change (u64 65535) with 65535. lia. }
  assert (Hu : forall x, in_u 16 x -> u16 x = x) by (intros; by apply uint_small).
  rewrite !parseHexUint64_fmt by auto. cbn -[u16 u64 fmt_0x String.append]. rewrite !Hlt by done.
  cbn -[u16 u64 fmt_0x String.append]. by rewrite (Hu port Hp), (Hu mask Hm).
Qed.

(** A value of one or two parts, each [0x] and hexadecimal digits. *)
Lemma roundtrip_parts key w n k m t :
  value_text key = true -> 0 <= n -> 0 <= k ->
  Match_MarshalText m = Ok t ->
  t = key +:+ "=" +:+
      (if k =? 0 then "0x" +:+ fmt_0x w n
       else ("0x" +:+ fmt_0x w n) +:+ String "/" ("0x" +:+ fmt_0x w k)) ->
  (k = 0 -> parseMatch key ("0x" +:+ fmt_0x w n) = Ok m) ->
  (k <> 0 -> parseMatch key (("0x" +:+ fmt_0x w n) +:+ String "/" ("0x" +:+ fmt_0x w k)) = Ok m) ->
  reparses t.
Proof.
  intros Hkey Hn Hk Hm -> H0 H1. destruct (Z.eqb_spec k 0) as [Hk0|Hk0].
  - apply (roundtrip_hex key _ m); [done|auto using hex_num_text with go|done|auto].
  - apply (roundtrip_hex key _ m); [done|by apply two_parts_text|done|auto].
Qed.

Lemma roundtrip_port d port mask t :
  Match_wf (transportPortMatch d port mask) ->
  Match_MarshalText (transportPortMatch d port mask) = Ok t -> reparses t.
Proof.
  cbn [Match_wf Match_MarshalText]. unfold_marshal. intros (Hd & Hp & Hm) Ht. pose proof Ht as Ht'.
  unfold matchTransportPort in Ht. destruct (Z.eqb_spec mask 0) as [->|Hmask]; injection Ht as <-.
  - destruct Hd as [-> | ->].
    + apply (roundtrip_hex tpSRC (fmt_d port) (TransportSourcePort port)); [done|auto with go|done|].
      change (parsePort tpSRC (fmt_d port) 65535 = Ok (TransportSourcePort port)).
      by rewrite parsePort_plain.
    + apply (roundtrip_hex tpDST (fmt_d port) (TransportDestinationPort port)); [done|auto with go|done|].
      change (parsePort tpDST (fmt_d port) 65535 = Ok (TransportDestinationPort port)).
      by rewrite parsePort_plain.
  - rewrite app_slash in *. set (v := ("0x" +:+ fmt_0x 4 port) +:+ String "/" ("0x" +:+ fmt_0x 4 mask)).
    assert (Hv : value_text v = true) by (apply two_parts_text; [apply Hp|apply Hm]).
    destruct Hd as [-> | ->].
    + apply (roundtrip_hex tpSRC v (TransportSourceMaskedPort port mask)); [done|done|exact Ht'|].
      change (parsePort tpSRC v 65535 = Ok (TransportSourceMaskedPort port mask)).
      unfold v. by rewrite parsePort_masked.
    + apply (roundtrip_hex tpDST v (TransportDestinationMaskedPort port mask)); [done|done|exact Ht'|].
      change (parsePort tpDST v 65535 = Ok (TransportDestinationMaskedPort port mask)).
      unfold v. by rewrite parsePort_masked.
Qed.

Lemma roundtrip_masked m t :
  Match_wf m ->
  match m with
  | vlanTCIMatch _ _ | connectionTrackingMarkMatch _ _ | tunnelIDMatch _ _ => True
  | _ => False
  end -> Match_MarshalText m = Ok t -> reparses t.
Proof.
  destruct m as [| | | | | | | | | | | | |tci mk|mark mk| | | |id mk]; try done;
    cbn [Match_wf]; intros [H1 H2] _ Ht;
    pose proof (proj1 H1); pose proof (proj1 H2).
  - eapply (roundtrip_parts vlanTCI 4 tci mk (VLANTCI tci mk)); try done.
    + revert Ht. cbn [Match_MarshalText]. unfold vlanTCIMatch_MarshalText.
      destruct (mk =? 0); by intros [= <-].
    + intros ->. change (parseMatch vlanTCI ?v) with (parseVLANTCI v). unfold parseVLANTCI.
      rewrite parse_parts_one; auto using parse_part_hex, parseHexUint16_fmt.
    + intros _. change (parseMatch vlanTCI ?v) with (parseVLANTCI v). unfold parseVLANTCI.
      rewrite parse_parts_two; auto using parse_part_hex, parseHexUint16_fmt.
  - eapply (roundtrip_parts ctMark 8 mark mk (ConnectionTrackingMark mark mk)); try done.
    + revert Ht. cbn [Match_MarshalText]. unfold connectionTrackingMarkMatch_MarshalText.
      destruct (mk =? 0); by intros [= <-].
    + intros ->. change (parseMatch ctMark ?v) with (parseCTMark v). unfold parseCTMark.
      rewrite parse_parts_one; auto using parse_part_hex, parseHexUint32_fmt.
    + intros _. change (parseMatch ctMark ?v) with (parseCTMark v). unfold parseCTMark.
      rewrite parse_parts_two; auto using parse_part_hex, parseHexUint32_fmt.
  - eapply (roundtrip_parts tunID 0 id mk (TunnelIDWithMask id mk)); try done.
    + revert Ht. cbn [Match_MarshalText]. unfold tunnelIDMatch_MarshalText.
      rewrite !fmt_sharp_x_0x. destruct (mk =? 0); by intros [= <-].
    + intros ->. change (parseMatch tunID ?v) with (parseTunID v). unfold parseTunID.
      rewrite parse_parts_one; auto using parse_part_hex, parseHexUint64_fmt.
    + intros _. change (parseMatch tunID ?v) with (parseTunID v). unfold parseTunID.
      rewrite parse_parts_two; auto using parse_part_hex, parseHexUint64_fmt.
Qed.

Lemma roundtrip_flags m t :
  Match_flags_ok m ->
  match m with connectionTrackingMatch _ | tcpFlagsMatch _ => True | _ => False end ->
  Match_MarshalText m = Ok t -> reparses t.
Proof.
  destruct m as [| | | | | | | | | | | | | | | |l|l|]; try done;
    cbn [Match_flags_ok Match_MarshalText]; unfold_marshal; intros [Hv Hl] _ [= <-];
    pose proof (all_chars_impl _ _ _ value_ascii Hv) as Ha.
  - apply (roundtrip_hex ctState _ (ConnectionTrackingState (split_flags (Join l "")))); [done|done| |].
    + cbn [Match_MarshalText ConnectionTrackingState]. unfold_marshal. by rewrite split_flags_join.
    + change (parseMatch ctState ?v) with (parseCTState v). unfold parseCTState. by rewrite Hl.
  - apply (roundtrip_hex tcpFlags _ (TCPFlags (split_flags (Join l "")))); [done|done| |].
    + cbn [Match_MarshalText TCPFlags]. unfold_marshal. by rewrite split_flags_join.
    + change (parseMatch tcpFlags ?v) with (parseTCPFlags v). unfold parseTCPFlags. by rewrite Hl.
Qed.

Lemma Match_reparses m t :
  Match_wf m -> Match_flags_ok m -> Match_MarshalText m = Ok t -> reparses t.
Proof.
  intros Hw Hf Ht. destruct m;
    first [ by eapply roundtrip_num; [exact Hw| |exact Ht]
          | by eapply roundtrip_masked; [exact Hw| |exact Ht]
          | by eapply roundtrip_flags; [exact Hf| |exact Ht]
          | by eapply roundtrip_port; [exact Hw|exact Ht]
          | by eapply roundtrip_addr; [|exact Ht]; exact Hw ].
Qed.

(** *** Types of the parsed fields, and freedom from panics *)

Lemma parseHexUint64_range s k : parseHexUint64 s = Ok k -> in_u 64 k.
Proof. apply ParseUint_range; lia. Qed.

Lemma parse_part_range w hex s v :
  0 <= w -> (forall s v, hex s = Ok v -> in_u w v) ->
  parse_part (uint w) hex s = Ok v -> in_u w v.
Proof.
  intros Hw Hhex. unfold parse_part. destruct (negb _); [|apply Hhex].
  intros (x & _ & [= <-])%bind_Ok_inv. by apply uint_range.
Qed.

Lemma parse_parts_range w hex s vs :
  0 <= w -> (forall s v, hex s = Ok v -> in_u w v) ->
  mapM (M:=go) (parse_part (uint w) hex) (Split s "/") = Ok vs -> Forall (in_u w) vs.
Proof.
  intros Hw Hhex H%mapM_Ok_Forall2. induction H; constructor; eauto using parse_part_range.
Qed.

Lemma parseHexUint16_range s v : parseHexUint16 s = Ok v -> in_u 16 v.
Proof. unfold parseHexUint16. intros (x & _ & [= <-])%bind_Ok_inv. by apply uint_range. Qed.

Lemma parseHexUint32_range s v : parseHexUint32 s = Ok v -> in_u 32 v.
Proof. unfold parseHexUint32. intros (x & _ & [= <-])%bind_Ok_inv. by apply uint_range. Qed.

#[export] Hint Resolve parseHexUint16_range parseHexUint32_range parseHexUint64_range : go.

Lemma parseIntMatch_wf key value max m : parseIntMatch key value max = Ok m -> Match_wf m.
Proof.
  unfold parseIntMatch. intros (t & _ & H)%bind_Ok_inv.
  repeat case_match; simplify_eq; by apply uint_range.
Qed.

Lemma parsePort_wf key value max m : parsePort key value max = Ok m -> Match_wf m.
Proof.
  unfold parsePort. intros (t & _ & H)%bind_Ok_inv.
  repeat case_match; simplify_eq;
    (split; [first [by left|by right]|split; by apply uint_range]).
Qed.

Lemma parseMACMatch_wf key value m : parseMACMatch key value = Ok m -> Match_wf m.
Proof.
  unfold parseMACMatch. intros (mac & [Hb _]%ParseMAC_spec & H)%bind_Ok_inv.
  repeat case_match; simplify_eq; (split; [first [by left|by right]|done]).
Qed.

Lemma parseParts_wf value m :
  parseVLANTCI value = Ok m \/ parseCTMark value = Ok m \/ parseTunID value = Ok m -> Match_wf m.
Proof.
  unfold parseVLANTCI, parseCTMark, parseTunID.
  intros [H|[H|H]]; apply bind_Ok_inv in H as (vs & Hvs & H);
    (apply parse_parts_range in Hvs; [|lia|by eauto with go]);
    destruct vs as [|v [|k [|]]]; simplify_eq; apply Forall_cons in Hvs as [Hv Hk];
    (split; [done|]); rewrite ?Forall_singleton in Hk; try done; by vm_compute.
Qed.

Lemma parseDataLinkVLAN_wf value m : parseDataLinkVLAN value = Ok m -> Match_wf m.
Proof.
  unfold parseDataLinkVLAN. destruct (negb _); intros (v & Hv & [= <-])%bind_Ok_inv; cbn.
  - by apply Atoi_range in Hv.
  - apply parseHexUint16_range in Hv. unfold in_u, in_i64 in *. lia.
Qed.

Ltac no_panic :=
  repeat match goal with
  | |- is_Panic (_ ≫= _) = false => apply bind_no_panic; [|intros ? ?]
  | |- is_Panic (Atoi _) = false => apply Atoi_no_panic
  | |- is_Panic (ParseUint _ _ _) = false => apply ParseUint_no_panic
  | |- is_Panic (mapM _ _) = false => apply mapM_no_panic; intros ? _
  | |- is_Panic ((if ?b then _ else _) ≫= _) = false => apply bind_no_panic; [|intros ? ?]
  | |- is_Panic (if ?b then _ else _) = false => destruct b
  | |- is_Panic (match ?x with _ => _ end) = false => destruct x
  | |- _ => progress unfold parseClampInt, parseHexUint64, parseHexUint32, parseHexUint16, parse_part
  | |- _ => reflexivity
  end.

Lemma ParseMAC_no_panic s : is_Panic (ParseMAC s) = false.
Proof. unfold ParseMAC, from_option_err. by repeat case_match. Qed.

Lemma parsePort_no_panic key value max : is_Panic (parsePort key value max) = false.
Proof. unfold parsePort. cbv zeta. no_panic. Qed.

Lemma parseParts_no_panic value :
  is_Panic (parseVLANTCI value) = false /\ is_Panic (parseCTMark value) = false /\
  is_Panic (parseTunID value) = false.
Proof. unfold parseVLANTCI, parseCTMark, parseTunID. split_and!. all: no_panic. Qed.

Lemma masked_port_reparses d port mk :
  is_dir d -> in_u 16 port -> in_u 16 mk -> mk <> 0 ->
  exists v, Match_MarshalText (transportPortMatch d port mk) = Ok ("tp_" +:+ d +:+ "=" +:+ v) /\
            parseMatch ("tp_" +:+ d) v = Ok (transportPortMatch d port mk).
Proof.
  intros Hd Hp Hm Hmk. exists (("0x" +:+ fmt_0x 4 port) +:+ String "/" ("0x" +:+ fmt_0x 4 mk)). split.
  - cbn [Match_MarshalText]. unfold_marshal. unfold matchTransportPort. by destruct (Z.eqb_spec mk 0).
  - destruct Hd as [-> | ->]; change (parseMatch _ ?v) with (parsePort tpSRC v 65535)
      || change (parseMatch _ ?v) with (parsePort tpDST v 65535); by rewrite parsePort_masked.
Qed.

Lemma filter_map_length {A B} (f : A -> B) (g : B -> bool) l :
  length (List.filter g (map f l)) = length (List.filter (fun x => g (f x)) l).
Proof. induction l as [|x l IH]; [done|]. cbn. destruct (g (f x)); cbn; auto. Qed.

(** *** Theorems *)

(** C3: a well-formed match that marshals, to a text [t], is parsed back:
    [t] is [key=value], [parseMatch] accepts it, and the match it returns
    marshals to [t] again. (The parsed match may be spelled differently: an
    address is normalised, and flags are regrouped four bytes at a time.) *)
Theorem Match_roundtrip m t :
  Match_wf m -> Match_flags_ok m -> Match_MarshalText m = Ok t ->
  exists k v m', t = k +:+ "=" +:+ v /\ parseMatch k v = Ok m' /\ Match_MarshalText m' = Ok t.
Proof.
  intros Hw Hf Ht. destruct (Match_reparses m t Hw Hf Ht) as (k & v & m' & ? & _ & _ & ? & ?).
  by exists k, v, m'.
Qed.

Lemma Match_roundtrip_witness :
  exists k v m', "tp_src=0xea60/0xffe0" = k +:+ "=" +:+ v /\ parseMatch k v = Ok m' /\
    Match_MarshalText m' = Ok "tp_src=0xea60/0xffe0".
Proof.
  apply (Match_roundtrip (TransportSourceMaskedPort 60000 65504)).
  - split; [by left|]. split; split; vm_compute; congruence.
  - exact I.
  - vm_compute. reflexivity.
Defined.

Lemma parseMatch_total key value :
  is_Panic (parseMatch key value) = false /\
  forall m, parseMatch key value = Ok m -> Match_wf m.
Proof.
  unfold parseMatch. split.
  - repeat match goal with |- context [is_one_of ?k ?l] => destruct (is_one_of k l) end;
      try first [reflexivity | apply parsePort_no_panic | apply parseParts_no_panic
                | unfold parseMACMatch, parseIntMatch, parseCTState, parseTCPFlags, parseDataLinkVLAN;
                  no_panic; apply ParseMAC_no_panic].
  - intros m H.
    repeat match type of H with context [is_one_of ?k ?l] => destruct (is_one_of k l) end;
      eauto using parseMACMatch_wf, parseIntMatch_wf, parsePort_wf, parseDataLinkVLAN_wf, parseParts_wf.
    all: unfold parseCTState, parseTCPFlags in H; repeat case_match; inv_bind; try done;
      first [by left | by right | by eapply parseHexUint16_range].
Qed.

(** [parseMatch] never panics, and every match it returns has its fields in
    the range of their Go types, whatever the text. *)
Theorem parseMatch_safe key value :
  is_Panic (parseMatch key value) = false /\
  forall m, parseMatch key value = Ok m -> Match_wf m.
Proof. apply parseMatch_total. Qed.

(** A transport port in a masked or exact transport match. *)
Definition port_matches (d : string) (m : Match) (p : Z) : bool :=
  match m with
  | transportPortMatch d' port mk =>
      (d =? d')%string && (if mk =? 0 then p =? port else Z.land p mk =? port)
  | _ => false
  end.

(** C17: the matches of a port range, rendered and parsed back by the flow
    parser, select exactly the ports of the range: every 16-bit port in the
    range is selected by exactly one of them, every other port by none. *)
Theorem MaskedPorts_end_to_end d lo hi :
  is_dir d -> 0 < lo <= hi -> hi < 65536 ->
  exists ms, MaskedPorts (mkTransportPortRange d lo hi) = Ok ms /\
    Forall (fun m => exists v, Match_MarshalText m = Ok ("tp_" +:+ d +:+ "=" +:+ v) /\
                               parseMatch ("tp_" +:+ d) v = Ok m) ms /\
    forall p, in_u 16 p ->
      length (List.filter (fun m => port_matches d m p) ms) =
        if decide (lo <= p <= hi) then 1%nat else 0%nat.
Proof.
  intros Hd Hlo Hhi. assert (Hv : valid lo hi) by (unfold valid; lia).
  destruct (BitwiseMatch_Greedy lo hi Hv) as (l & Hl & Hg & _).
  pose proof (Greedy_shape lo hi l Hg Hv) as [_ Hshape].
  unfold MaskedPorts. cbn [startPort endPort tpr_srcdst]. rewrite Hl.
  cbn [mbind go_bind]. eexists. split; [done|]. split.
  - apply Forall_map. eapply Forall_impl; [exact Hshape|]. intros [v mk] (Hvr & b & Hb & -> & _).
    cbn [Value Mask] in *. pose proof (getMask_nonzero b Hb).
    apply masked_port_reparses; [done|unfold in_u; lia|unfold in_u; lia|lia].
  - intros p Hp. rewrite <- (Greedy_count lo hi l p Hg Hv Hp), filter_map_length.
    f_equal. apply filter_ext_in. intros br Hbr. apply Forall_forall with (x := br) in Hshape;
      [|by apply list_elem_of_In]. destruct Hshape as (_ & b & Hb & Hm & _).
    pose proof (getMask_nonzero b Hb). unfold port_matches, br_matches.
    rewrite String.eqb_refl. destruct (Z.eqb_spec (Mask br) 0); [lia|done].
Qed.

Lemma MaskedPorts_end_to_end_witness :
  exists ms, MaskedPorts (mkTransportPortRange "dst" 1000 1999) = Ok ms /\ length ms = 7%nat.
Proof.
  destruct (MaskedPorts_end_to_end "dst" 1000 1999) as (ms & Hms & _ & _); [by right|lia|lia|].
  exists ms. split; [exact Hms|]. vm_compute in Hms. injection Hms as <-. reflexivity.
Defined.

(** ** Bounds of the integers of a match *)

(** By key: the largest decimal integer accepted, where there is one, and the match
    built, with the conversions to the width of its field. *)
Definition decimal_rules : list (string * option Z * (Z -> Match)) :=
  [(icmpType, Some 255, fun n => ICMPType (u8 n));
   (nwProto, Some 255, fun n => NetworkProtocol (u8 n));
   (ctZone, Some 65535, fun n => ConnectionTrackingZone (u16 n));
   (conjID, Some 4294967295, fun n => ConjunctionID (u32 n));
   (tpSRC, Some 65535, fun n => TransportSourcePort (u16 n));
   (tpDST, Some 65535, fun n => TransportDestinationPort (u16 n));
   (dlVLAN, None, fun n => DataLinkVLAN n);
   (vlanTCI, None, fun n => VLANTCI (u16 n) 0);
   (ctMark, None, fun n => ConnectionTrackingMark (u32 n) 0);
   (tunID, None, fun n => TunnelID (u64 n))].

(** The width in which a hexadecimal integer is parsed, and the match built. *)
Definition hex_rules : list (string * Z * (Z -> Match)) :=
  [(dlType, 32, fun n => DataLinkType (u16 n));
   (dlVLAN, 32, fun n => DataLinkVLAN (u16 n));
   (vlanTCI, 32, fun n => VLANTCI (u16 n) 0);
   (ctMark, 32, fun n => ConnectionTrackingMark (u32 n) 0);
   (tunID, 64, fun n => TunnelID n)].

Lemma parseClampInt_dec n max :
  in_i64 n -> parseClampInt (fmt_d n) max = if max <? n then Err (errTooLarge n max) else Ok n.
Proof. intros Hn. unfold parseClampInt. by rewrite Atoi_fmt_d. Qed.

Lemma u16_u64 n : u16 (u64 n) = u16 n.
Proof.
  unfold u16, u64, uint. apply Z.mod_mod_divide. exists (2 ^ 48). reflexivity.
Qed.

Lemma parse_part_dec conv hex n : in_i64 n -> parse_part conv hex (fmt_d n) = Ok (conv n).
Proof. intros Hn. unfold parse_part. rewrite fmt_d_not_hex. cbn [negb]. by rewrite Atoi_fmt_d. Qed.

Lemma parse_parts_dec conv hex n :
  in_i64 n -> mapM (M:=go) (parse_part conv hex) (Split (fmt_d n) "/") = Ok [conv n].
Proof. intros Hn. rewrite Split_char_none by auto with go. cbn. by rewrite parse_part_dec. Qed.

Lemma parsePort_dec key n :
  in_i64 n ->
  parsePort key (fmt_d n) 65535 =
  if 65535 <? n then Err (errTooLarge n 65535)
  else if (key =? tpSRC)%string then Ok (TransportSourcePort (u16 n))
  else if (key =? tpDST)%string then Ok (TransportDestinationPort (u16 n))
  else Err (errNoAction key (fmt_d n)).
Proof.
  intros Hn. unfold parsePort. rewrite Split_char_none by auto with go.
  rewrite parseClampInt_dec by done. destruct (65535 <? n); [done|].
  cbn -[u16 u64 fmt_d]. by rewrite u16_u64.
Qed.

Lemma hex_rules_bits key bits f : In (key, bits, f) hex_rules -> bits = 32 \/ bits = 64.
Proof. cbn. intuition (simplify_eq; auto). Qed.

Lemma ParseUint_hex bits w n :
  bits = 32 \/ bits = 64 -> 0 <= n < 16 ^ 64 ->
  ParseUint (fmt_0x w n) 16 bits = if n <? 2 ^ bits then Ok n else Err (NumError "ParseUint" (fmt_0x w n) ErrRange).
Proof.
  intros Hb Hn. assert (Hm : maxUint bits = 2 ^ bits - 1) by (by destruct Hb as [-> | ->]). unfold fmt_0x.
  destruct (Z.ltb_spec n (2 ^ bits)); [apply ParseUint_format|apply ParseUint_over]; rewrite ?Hm; destruct Hb; lia.
Qed.

(** A hexadecimal text where a decimal one is read. *)
Lemma Atoi_hex t : Atoi ("0x" +:+ t) = Err (NumError "Atoi" ("0x" +:+ t) ErrSyntax).
Proof. rewrite !app_cons, app_nil_l'. reflexivity. Qed.

(** Decide the tests on constant keys. *)
Ltac decide_keys :=
  repeat match goal with
  | |- context [is_one_of ?k ?l] => let b := eval vm_compute in (is_one_of k l) in change (is_one_of k l) with b
  | |- context [String.eqb ?k ?l] => let b := eval vm_compute in (String.eqb k l) in
      lazymatch b with true => change (String.eqb k l) with true | false => change (String.eqb k l) with false end
  end; cbv iota.

(** Integers in the range. *)
Lemma parseMatch_dec key max f n :
  In (key, max, f) decimal_rules -> in_i64 n ->
  parseMatch key (fmt_d n) =
  match max with
  | Some max => if max <? n then Err (errTooLarge n max) else Ok (f n)
  | None => Ok (f n)
  end.
Proof.
  intros Hr Hn. cbn [In decimal_rules] in Hr.
  repeat (destruct Hr as [[= <- <- <-]|Hr]); [..|done]; unfold parseMatch; decide_keys.
  1-4: unfold parseIntMatch; rewrite parseClampInt_dec by done;
    match goal with |- context [Z.ltb ?m ?k] => destruct (Z.ltb m k) end; [done|];
    cbn [mbind go_bind]; by decide_keys.
  1-2: rewrite parsePort_dec by done; destruct (65535 <? n); [done|]; by decide_keys.
  + unfold parseDataLinkVLAN. rewrite fmt_d_not_hex. cbn [negb]. by rewrite Atoi_fmt_d.
  + unfold parseVLANTCI. by rewrite parse_parts_dec.
  + unfold parseCTMark. by rewrite parse_parts_dec.
  + unfold parseTunID. by rewrite parse_parts_dec.
Qed.

(** A hexadecimal text is parsed in the width of its key. *)
Lemma parseMatch_hex key bits f w n :
  In (key, bits, f) hex_rules -> 0 <= n ->
  parseMatch key ("0x" +:+ fmt_0x w n) = (v ← ParseUint (fmt_0x w n) 16 bits; Ok (f v)).
Proof.
  intros Hr Hn. cbn [In hex_rules] in Hr.
  assert (Hs : Split ("0x" +:+ fmt_0x w n) "/" = ["0x" +:+ fmt_0x w n])
    by (apply Split_char_none; auto using hex_num_text with go).
  assert (Hp : HasPrefix ("0x" +:+ fmt_0x w n) hexPrefix = true) by (unfold HasPrefix, hexPrefix; by rewrite prefix_app).
  assert (Ht : TrimPrefix ("0x" +:+ fmt_0x w n) hexPrefix = fmt_0x w n) by (unfold hexPrefix; by rewrite TrimPrefix_app).
  repeat (destruct Hr as [[= <- <- <-]|Hr]); [..|done]; unfold parseMatch; decide_keys;
    unfold parseDataLinkVLAN, parseVLANTCI, parseCTMark, parseTunID, parseHexUint16, parseHexUint32, parseHexUint64;
    rewrite ?Hs; cbn [mapM]; unfold parse_part; rewrite ?Hp; cbn [negb]; rewrite Ht; by destruct (ParseUint _ _ _).
Qed.

(** What [Atoi] refuses, the keys of [decimal_rules] refuse, unless their text is taken
    for hexadecimal. *)
Lemma parseMatch_Atoi_error key max f s e :
  In (key, max, f) decimal_rules -> Atoi s = Err e -> Split s "/" = [s] -> (is_Some max \/ HasPrefix s hexPrefix = false) ->
  parseMatch key s = Err e.
Proof.
  intros Hr He Hs Hp. cbn [In decimal_rules] in Hr.
  repeat (destruct Hr as [[= <- <- <-]|Hr]); [..|done]; unfold parseMatch; decide_keys;
    unfold parseIntMatch, parsePort, parseClampInt, parseDataLinkVLAN, parseVLANTCI, parseCTMark, parseTunID;
    (destruct Hp as [[m [=]]|Hp] || destruct Hp as [_|Hp]); rewrite ?Hs; cbn [mapM]; unfold parse_part; rewrite ?Hp; cbn [negb]; by rewrite He.
Qed.


