(* ===== verification/GoScan.v ===== *)
(** * Scanning text

    The part of package [fmt]'s [Sscanf] that the client's formats use — literal
    text, [%d] into an [int] or a [uint16], [%s] — and of package [regexp]: the
    leftmost match of a literal followed by greedy classes. *)

From S2P Require Import Prelude GoStrings GoConv.

(** ** [fmt.Sscanf] *)

(** A scanner consumes a prefix of the text. *)
Definition scan A := string -> go (A * string).

#[export] Instance scan_ret : MRet scan := fun A a s => Ok (a, s).
#[export] Instance scan_bind : MBind scan := fun A B f m s =>
  match m s with
  | Ok (a, s) => f a s
  | Err e => Err e
  | Panic w => Panic w
  end.

(** A literal of the format, when the text must continue with it. *)
Definition scan_lit (c : ascii) : scan unit := fun s =>
  match s with
  | EmptyString => Err io_ErrUnexpectedEOF
  | String d r => if Ascii.eqb c d then Ok (tt, r)
                  else Err (ErrorString "input does not match format")
  end.

Fixpoint scan_lits (p : string) : scan unit :=
  match p with
  | EmptyString => mret tt
  | String c p => scan_lit c ≫= fun _ => scan_lits p
  end.

(** [SkipSpace]; a newline in the text is an error of [Sscanf]. *)
Fixpoint skip_space_go (skip : nat) (s : string) : go (unit * string) :=
  match s with
  | EmptyString => Ok (tt, "")
  | String c r =>
      match skip with
      | S k => skip_space_go k r
      | O => if Ascii.eqb c "010" then Err (ErrorString "unexpected newline")
             else match space_len s with
                  | O => Ok (tt, s)
                  | S n => skip_space_go n r
                  end
      end
  end.

Definition SkipSpace : scan unit := skip_space_go 0.

Definition notEOF : scan unit := fun s =>
  match s with EmptyString => Err io_EOF | _ => Ok (tt, s) end.

Definition is_dec (c : ascii) : bool := (48 <=? code c) && (code c <=? 57).

(** [scanNumber] with the decimal digits. *)
Definition scanNumber : scan string := fun s =>
  match s with
  | EmptyString => Err io_EOF
  | _ => let (p, t) := span is_dec s in
         if (p =? "")%string then Err (ErrorString "expected integer") else Ok (p, t)
  end.

Definition accept_sign : scan string := fun s =>
  match s with
  | String c r => if Ascii.eqb c "+" || Ascii.eqb c "-" then Ok (sing c, r) else Ok ("", s)
  | EmptyString => Ok ("", "")
  end.

Definition lift_go {A} (m : go A) : scan A := fun s => a ← m; Ok (a, s).

(** [%d] into an [int]. *)
Definition scanInt : scan Z :=
  SkipSpace ≫= fun _ => notEOF ≫= fun _ => accept_sign ≫= fun sg => scanNumber ≫= fun tok =>
  lift_go (ParseInt (sg +:+ tok) 10 64).

(** [%d] into a [uint16]. *)
Definition scanUint16 : scan Z :=
  SkipSpace ≫= fun _ => notEOF ≫= fun _ => scanNumber ≫= fun tok =>
  lift_go (ParseUint tok 10 64) ≫= fun i =>
  lift_go (if i =? u16 i then Ok i
           else Err (ErrorString ("unsigned integer overflow on token " +:+ tok))).

(** [%s]: the runes up to white space, written back as UTF-8. *)
Fixpoint token_go (skip : nat) (s : string) : string * string :=
  match s with
  | EmptyString => ("", "")
  | String _ r =>
      match skip with
      | S k => token_go k r
      | O => let (ru, n) := DecodeRune s in
             if IsSpace ru then ("", s)
             else let (p, t) := token_go (n - 1) r in (EncodeRune ru +:+ p, t)
      end
  end.

Definition scan_token : scan string := fun s => Ok (token_go 0 s).

Definition scanString : scan string := SkipSpace ≫= fun _ => notEOF ≫= fun _ => scan_token.

(** [Sscanf] returns what was scanned; the text that follows is not looked at. *)
Definition Sscanf {A} (s : string) (m : scan A) : go A := fst <$> m s.

Example scan1 : Sscanf "output: +12 rest" (scan_lits "output:" ≫= fun _ => scanInt) = Ok 12.
Proof. vm_compute. reflexivity. Qed.
Example scan2 : Sscanf "mod_tp_dst:65536" (scan_lits "mod_tp_dst:" ≫= fun _ => scanUint16)
  = Err (ErrorString "unsigned integer overflow on token 65536").
Proof. vm_compute. reflexivity. Qed.
Example scan3 : Sscanf "output: " (scan_lits "output:" ≫= fun _ => scanInt) = Err io_EOF.
Proof. vm_compute. reflexivity. Qed.

(** ** [regexp]: the classes, and the leftmost match *)

(** [\S]: not one of the ASCII white space characters of RE2.  All the bytes of
    a multi-byte rune satisfy it. *)
Definition re_nonspace (c : ascii) : bool :=
  let b := code c in
  negb ((b =? 9) || (b =? 10) || (b =? 12) || (b =? 13) || (b =? 32)).

(** The first position at which [lit] is followed by a text that [m] accepts. *)
Fixpoint find_re {A} (lit : string) (m : string -> option A) (s : string) : option A :=
  match (if String.prefix lit s then m (sdrop (String.length lit) s) else None) with
  | Some a => Some a
  | None => match s with
            | EmptyString => None
            | String _ r => find_re lit m r
            end
  end.

(** Split [s] at the last occurrence of [sep] that has at least one character
    before it and satisfies [ok] on what follows: a greedy [(.+)sep]. *)
Fixpoint split_last (sep : string) (ok : string -> bool) (s : string) : option (string * string) :=
  match s with
  | EmptyString => None
  | String c r =>
      match split_last sep ok r with
      | Some (a, b) => Some (String c a, b)
      | None =>
          if String.prefix sep r && ok (sdrop (String.length sep) r)
          then Some (sing c, sdrop (String.length sep) r)
          else None
      end
  end.

Definition nonempty (s : string) : bool := match s with EmptyString => false | _ => true end.

(** ** Lemmas *)

Lemma scan_bind_Ok {A B} (m : scan A) (f : A -> scan B) s a r :
  m s = Ok (a, r) -> (m ≫= f) s = f a r.
Proof. unfold mbind, scan_bind. by intros ->. Qed.

Lemma scan_lits_app p s : scan_lits p (p +:+ s) = Ok (tt, s).
Proof.
  revert s. induction p as [|c p IH]; intros s; [done|].
  rewrite app_cons. cbn [scan_lits]. erewrite scan_bind_Ok; [apply IH|].
  cbn [scan_lit]. by rewrite Ascii.eqb_refl.
Qed.

Lemma scan_lits_bind {B} p (f : unit -> scan B) s : (scan_lits p ≫= f) (p +:+ s) = f tt s.
Proof. apply scan_bind_Ok, scan_lits_app. Qed.

Lemma SkipSpace_graphic c s : graphic c = true -> SkipSpace (String c s) = Ok (tt, String c s).
Proof.
  intros Hc. unfold SkipSpace. cbn [skip_space_go]. rewrite space_len_graphic by done.
  destruct (Ascii.eqb_spec c "010") as [->|]; [done|done].
Qed.

Lemma digits_graphic c : is_dec c = true -> graphic c = true.
Proof. unfold is_dec, graphic. intros H. bools. apply andb_true_iff. split; apply Z.leb_le; lia. Qed.

Lemma scanNumber_digits s t :
  s <> "" -> all_chars is_dec s = true -> stops is_dec t -> scanNumber (s +:+ t) = Ok (s, t).
Proof.
  intros Hne Hs Ht. destruct s as [|c s]; [done|]. unfold scanNumber. rewrite app_cons.
  rewrite <- app_cons, span_app by done. done.
Qed.

Lemma FormatUint_dec n : 0 <= n -> all_chars is_dec (FormatUint n 10) = true.
Proof. apply FormatUint_digits. Qed.

(** [%d] reads back what [%d] prints. *)
Lemma scanInt_fmt n t :
  in_i64 n -> stops is_dec t -> scanInt (fmt_d n +:+ t) = Ok (n, t).
Proof.
  intros Hn Ht. unfold scanInt, fmt_d, FormatInt.
  pose proof (ParseInt_FormatInt n Hn) as Hp. unfold FormatInt in Hp.
  assert (Hp64 : forall s, ParseInt s 10 64 = ParseInt s 10 0) by done.
  destruct (Z.ltb_spec n 0) as [Hneg|Hpos].
  - rewrite app_cons, app_nil_l'.
    erewrite scan_bind_Ok by (by apply SkipSpace_graphic).
    erewrite scan_bind_Ok by done. erewrite scan_bind_Ok by done.
    erewrite scan_bind_Ok by
      (apply scanNumber_digits; [apply FormatUint_nonempty|apply FormatUint_dec; lia|done]).
    unfold lift_go. rewrite Hp64. rewrite app_cons, app_nil_l' in *. by rewrite Hp.
  - destruct (FormatUint_head n 10) as (c & s & Hs).
    pose proof (FormatUint_dec n Hpos) as Hd. rewrite Hs in *.
    pose proof Hd as Hd'. cbn [all_chars] in Hd'. apply andb_true_iff in Hd' as [Hc _].
    rewrite app_cons.
    erewrite scan_bind_Ok by (apply SkipSpace_graphic; by apply digits_graphic).
    erewrite scan_bind_Ok by done.
    assert (Hsign : accept_sign (String c (s +:+ t)) = Ok ("", String c (s +:+ t))).
    { destruct (is_digit_not_sign c Hc) as [H1 H2]. unfold accept_sign. by rewrite H1, H2. }
    erewrite scan_bind_Ok by exact Hsign. rewrite <- app_cons.
    erewrite scan_bind_Ok by (by apply scanNumber_digits).
    unfold lift_go. by rewrite Hp64, app_nil_l', Hp.
Qed.

Lemma scanUint16_fmt n t :
  in_u 16 n -> stops is_dec t -> scanUint16 (fmt_d n +:+ t) = Ok (n, t).
Proof.
  intros Hn Ht. unfold scanUint16, fmt_d, FormatInt. destruct Hn as [H0 H1].
  destruct (Z.ltb_spec n 0); [lia|].
  destruct (FormatUint_head n 10) as (c & s & Hs).
  pose proof (FormatUint_dec n H0) as Hd. pose proof Hd as Hd'. rewrite Hs in Hd'.
  cbn [all_chars] in Hd'. apply andb_true_iff in Hd' as [Hc _].
  rewrite Hs at 1. rewrite app_cons.
  erewrite scan_bind_Ok by (apply SkipSpace_graphic; by apply digits_graphic).
  erewrite scan_bind_Ok by done. rewrite <- app_cons, <- Hs.
  erewrite scan_bind_Ok by (apply scanNumber_digits; [apply FormatUint_nonempty|done|done]).
  assert (Hp : ParseUint (FormatUint n 10) 10 64 = Ok n).
  { rewrite <- (zero_pad_0 (FormatUint n 10)). apply ParseUint_format; [lia|lia|].
    unfold maxUint. cbn. lia. }
  unfold lift_go. erewrite scan_bind_Ok by (rewrite Hp; reflexivity).
  cbn -[u16]. unfold u16. rewrite uint_small by done. by rewrite Z.eqb_refl.
Qed.

(** [%s] reads a text of graphic characters. *)
Lemma token_go_graphic s : all_chars graphic s = true -> token_go 0 s = (s, "").
Proof.
  induction s as [|c s IH]; [done|]. intros [Hc Hs]%andb_true_iff.
  cbn [token_go]. rewrite DecodeRune_ascii, graphic_not_space by auto using graphic_ascii.
  cbn [Nat.sub]. rewrite IH by done. f_equal.
  unfold EncodeRune. unfold graphic in Hc. bools.
  destruct (Z.leb_spec 0 (code c)); [|lia]. destruct (Z.leb_spec (code c) 0x7F); [|lia].
  cbn [andb]. by rewrite chr_code.
Qed.

Lemma scanString_graphic s :
  s <> "" -> all_chars graphic s = true -> scanString s = Ok (s, "").
Proof.
  intros Hne Hs. destruct s as [|c s]; [done|]. pose proof Hs as Hs'.
  cbn [all_chars] in Hs'. apply andb_true_iff in Hs' as [Hc _]. unfold scanString.
  erewrite scan_bind_Ok by (by apply SkipSpace_graphic).
  erewrite scan_bind_Ok by done. unfold scan_token. by rewrite token_go_graphic.
Qed.

(** *** Regular expressions *)

Lemma find_re_here {A} lit (m : string -> option A) s a :
  m s = Some a -> find_re lit m (lit +:+ s) = Some a.
Proof.
  intros Hm. pose proof (prefix_app lit s) as Hp. pose proof (sdrop_app lit s) as Hd.
  destruct (lit +:+ s) as [|c r]; cbn [find_re]; by rewrite Hp, Hd, Hm.
Qed.

Lemma find_re_absent {A} lit (m : string -> option A) s :
  Contains s lit = false -> find_re lit m s = None.
Proof.
  unfold Contains. induction s as [|c s IH]; cbn [Index find_re].
  - destruct (String.prefix lit ""); [done|done].
  - destruct (String.prefix lit (String c s)); [done|]. intros H. apply IH.
    by destruct (Index s lit).
Qed.

(** A literal with a character that the text lacks does not occur in it. *)
Lemma prefix_chars f p s : String.prefix p s = true -> all_chars f s = true -> all_chars f p = true.
Proof.
  intros [r ->]%prefix_spec. rewrite all_chars_app. by intros [? _]%andb_true_iff.
Qed.

Lemma absent_char f lit s :
  all_chars f s = true -> all_chars f lit = false -> Contains s lit = false.
Proof.
  intros Hs Hl. unfold Contains. induction s as [|c s IH]; cbn [Index].
  - destruct (String.prefix lit "") eqn:Hp; [|done]. apply (prefix_chars f) in Hp; [|done]. congruence.
  - destruct (String.prefix lit (String c s)) eqn:Hp.
    + apply (prefix_chars f) in Hp; [|done]. congruence.
    + cbn [all_chars] in Hs. apply andb_true_iff in Hs as [_ Hs]. specialize (IH Hs).
      by destruct (Index s lit).
Qed.

Lemma find_re_char {A} f lit (m : string -> option A) s :
  all_chars f s = true -> all_chars f lit = false -> find_re lit m s = None.
Proof. intros Hs Hl. by apply find_re_absent, (absent_char f). Qed.

(** The last separator of a text in which no other one follows. *)
Lemma split_last_none sep ok s : Contains s sep = false -> split_last sep ok s = None.
Proof.
  unfold Contains. induction s as [|c s IH]; [done|]. cbn [Index split_last].
  destruct (String.prefix sep (String c s)); [done|]. intros H.
  assert (Hs : Index s sep = None) by (by destruct (Index s sep)).
  rewrite Hs in IH. rewrite IH by done.
  assert (Hp : String.prefix sep s = false).
  { destruct s; cbn [Index] in Hs; by destruct (String.prefix sep _). }
  by rewrite Hp.
Qed.

Lemma split_last_app sep ok v f :
  v <> "" -> split_last sep ok (sep +:+ f) = None -> ok f = true ->
  split_last sep ok (v +:+ sep +:+ f) = Some (v, f).
Proof.
  intros Hv Hn Hok. induction v as [|c v IH]; [done|]. rewrite app_cons. cbn [split_last].
  destruct v as [|d v].
  - rewrite app_nil_l', Hn, prefix_app, sdrop_app, Hok. done.
  - by rewrite IH.
Qed.

(** *** Scanners do not panic *)

Definition scan_safe {A} (m : scan A) : Prop := forall s, is_Panic (m s) = false.

Lemma scan_safe_bind {A B} (m : scan A) (f : A -> scan B) :
  scan_safe m -> (forall a, scan_safe (f a)) -> scan_safe (m ≫= f).
Proof.
  intros Hm Hf s. unfold mbind, scan_bind. specialize (Hm s).
  destruct (m s) as [[a r]| |]; [apply Hf|done|done].
Qed.

Lemma scan_safe_ret {A} (a : A) : scan_safe (mret a).
Proof. intros s. reflexivity. Qed.

Lemma scan_lit_safe c : scan_safe (scan_lit c).
Proof. intros [|d s]; [done|]. cbn. by destruct (Ascii.eqb c d). Qed.

Lemma scan_lits_safe p : scan_safe (scan_lits p).
Proof.
  induction p as [|c p IH]; [apply scan_safe_ret|]. cbn [scan_lits].
  apply scan_safe_bind; [apply scan_lit_safe|done].
Qed.

Lemma SkipSpace_safe : scan_safe SkipSpace.
Proof.
  intros s. unfold SkipSpace. generalize O as k. induction s as [|c s IH]; intros k; [done|].
  cbn [skip_space_go]. destruct k; [|apply IH]. destruct (Ascii.eqb c _); [done|].
  destruct (space_len _); [done|apply IH].
Qed.

Lemma notEOF_safe : scan_safe notEOF.
Proof. by intros []. Qed.

Lemma scanNumber_safe : scan_safe scanNumber.
Proof.
  intros [|c s]; [done|]. unfold scanNumber. destruct (span is_dec _) as [p t]. by destruct (p =? "")%string.
Qed.

Lemma accept_sign_safe : scan_safe accept_sign.
Proof. intros [|c s]; [done|]. cbn. by destruct (_ || _). Qed.

Lemma lift_go_safe {A} (m : go A) : is_Panic m = false -> scan_safe (lift_go m).
Proof. intros H s. unfold lift_go. by destruct m. Qed.

Lemma scan_token_safe : scan_safe scan_token.
Proof. by intros s. Qed.

#[export] Hint Resolve scan_safe_bind scan_safe_ret scan_lit_safe scan_lits_safe SkipSpace_safe
  notEOF_safe scanNumber_safe accept_sign_safe lift_go_safe scan_token_safe : go.

#[export] Hint Resolve ParseInt_no_panic ParseUint_no_panic : go.

Lemma scanInt_safe : scan_safe scanInt.
Proof. unfold scanInt. auto 20 with go. Qed.

Lemma scanUint16_safe : scan_safe scanUint16.
Proof.
  unfold scanUint16. repeat (apply scan_safe_bind; [auto with go|intros ?]).
  apply lift_go_safe. by destruct (_ =? _).
Qed.

Lemma scanString_safe : scan_safe scanString.
Proof. unfold scanString. auto 20 with go. Qed.

#[export] Hint Resolve scanInt_safe scanUint16_safe scanString_safe : go.

Lemma Sscanf_safe {A} s (m : scan A) : scan_safe m -> is_Panic (Sscanf s m) = false.
Proof. intros H. unfold Sscanf. specialize (H s). by destruct (m s) as [[]| |]. Qed.

(** *** Ranges of scanned numbers *)

Lemma scan_bind_inv {A B} (m : scan A) (f : A -> scan B) s b r :
  (m ≫= f) s = Ok (b, r) -> exists a s', m s = Ok (a, s') /\ f a s' = Ok (b, r).
Proof.
  unfold mbind, scan_bind. destruct (m s) as [[a s']| |]; [|done|done]. eauto.
Qed.

Lemma ParseInt_range s k : ParseInt s 10 64 = Ok k -> in_i64 k.
Proof.
  unfold ParseInt, parse_int. destruct s as [|c r]; [done|].
  destruct (parse_uint _ 10 64) as [[]|n] eqn:H; [done..|].
  apply parse_uint_range in H; [|lia|lia].
  change (2 ^ ((if 64 =? 0 then 64 else 64) - 1)) with (2 ^ 63).
  destruct (Ascii.eqb c "-"); cbn [negb andb].
  - destruct (Z.ltb_spec (2 ^ 63) n); [done|]. intros [= <-]. unfold in_i64. lia.
  - destruct (Z.leb_spec (2 ^ 63) n); [done|]. intros [= <-]. unfold in_i64. lia.
Qed.

Ltac inv_scan H :=
  repeat (let a := fresh "a" in let s' := fresh "s'" in let Hm := fresh "Hm" in
          apply scan_bind_inv in H as (a & s' & Hm & H)).

Lemma scanInt_range s n r : scanInt s = Ok (n, r) -> in_i64 n.
Proof.
  unfold scanInt. intros H. inv_scan H. unfold lift_go in H.
  apply bind_Ok_inv in H as (k & Hk & [= <- <-]). by eapply ParseInt_range.
Qed.

Lemma scanUint16_range s n r : scanUint16 s = Ok (n, r) -> in_u 16 n.
Proof.
  unfold scanUint16. intros H. inv_scan H. unfold lift_go in H.
  apply bind_Ok_inv in H as (k & Hk & [= <- <-]).
  destruct (Z.eqb_spec a2 (u16 a2)) as [He|]; [|done]. injection Hk as <-.
  rewrite He. by apply uint_range.
Qed.

Lemma Sscanf_inv {A} s (m : scan A) a : Sscanf s m = Ok a -> exists r, m s = Ok (a, r).
Proof. unfold Sscanf. destruct (m s) as [[b r]| |]; [|done|done]. intros [= <-]. eauto. Qed.
