(* ===== verification/Action.v ===== *)
(** * Actions

    Models [ovs/action.go]: the action types, their constructors and
    [MarshalText].  The interface [Action] is the sum of its implementations. *)

From S2P Require Import Prelude GoStrings GoConv GoNet Names.

(** ** Data *)

(** The [typ] of a [loadSetFieldAction]: [actionSetField] or [actionLoad]. *)
Inductive loadSetFieldType := actionSetField | actionLoad.

Inductive Action :=
| textAction (action : string)
| ctAction (args : string)
| modDataLinkAction (srcdst : string) (addr : HardwareAddr)
| modNetworkAction (srcdst : string) (ip : option IP)
| modTransportPortAction (srcdst : string) (port : Z)
| modVLANVIDAction (vid : Z)
| outputAction (port : Z)
| conjunctionAction (id dimensionNumber dimensionSize : Z)
| resubmitAction (port table : Z)
| resubmitPortAction (port : Z)
| loadSetFieldAction (value field : string) (typ : loadSetFieldType)
| setTunnelAction (tunnelID : Z).

#[export] Instance loadSetFieldType_eq_dec : EqDecision loadSetFieldType.
Proof. solve_decision. Defined.
#[export] Instance Action_eq_dec : EqDecision Action.
Proof. solve_decision. Defined.

(** ** Constructors *)

Definition Drop : Action := textAction actionDrop.
Definition Flood : Action := textAction actionFlood.
Definition InPort : Action := textAction actionInPort.
Definition Local : Action := textAction actionLocal.
Definition Normal : Action := textAction actionNormal.
Definition StripVLAN : Action := textAction actionStripVLAN.
Definition ConnectionTracking (args : string) : Action := ctAction args.
Definition ModDataLinkDestination (addr : HardwareAddr) : Action := modDataLinkAction destination addr.
Definition ModDataLinkSource (addr : HardwareAddr) : Action := modDataLinkAction source addr.
Definition ModNetworkDestination (ip : IP) : Action := modNetworkAction destination (To4 ip).
Definition ModNetworkSource (ip : IP) : Action := modNetworkAction source (To4 ip).
Definition ModTransportDestinationPort (port : Z) : Action := modTransportPortAction destination port.
Definition ModTransportSourcePort (port : Z) : Action := modTransportPortAction source port.
Definition ModVLANVID (vid : Z) : Action := modVLANVIDAction vid.
Definition Output (port : Z) : Action := outputAction port.
Definition Conjunction (id dimensionNumber dimensionSize : Z) : Action :=
  conjunctionAction id dimensionNumber dimensionSize.
Definition Resubmit (port table : Z) : Action := resubmitAction port table.
Definition ResubmitPort (port : Z) : Action := resubmitPortAction port.
Definition SetField (value field : string) : Action := loadSetFieldAction value field actionSetField.
Definition Load (value field : string) : Action := loadSetFieldAction value field actionLoad.
Definition SetTunnel (tunnelID : Z) : Action := setTunnelAction tunnelID.

(** ** Patterns: the literal text before the first verb of each. *)

Definition preModDataLinkDestination := "mod_dl_dst:".
Definition preModDataLinkSource := "mod_dl_src:".
Definition preModNetworkDestination := "mod_nw_dst:".
Definition preModNetworkSource := "mod_nw_src:".
Definition preModTransportDestinationPort := "mod_tp_dst:".
Definition preModTransportSourcePort := "mod_tp_src:".
Definition preModVLANVID := "mod_vlan_vid:".
Definition preOutput := "output:".
Definition preConjunction := "conjunction".

(** ** [MarshalText] *)

Definition ctAction_MarshalText (args : string) : go string :=
  if (args =? "")%string then Err errCTNoArguments
  else Ok ("ct(" +:+ args +:+ ")").

Definition modDataLinkAction_MarshalText (srcdst : string) (addr : HardwareAddr) : go string :=
  if negb (length addr =? ethernetAddrLen)%nat
  then Err (errHWAddrLen "hardware address" (length addr))
  else if (srcdst =? source)%string
  then Ok (preModDataLinkSource +:+ HardwareAddr_String addr)
  else Ok (preModDataLinkDestination +:+ HardwareAddr_String addr).

Definition modNetworkAction_MarshalText (srcdst : string) (ip : option IP) : go string :=
  match ip with
  | None => Err (ErrorString "invalid IPv4 address for ModNetwork action")
  | Some ip =>
      if (srcdst =? source)%string
      then Ok (preModNetworkSource +:+ IP_String ip)
      else Ok (preModNetworkDestination +:+ IP_String ip)
  end.

Definition modTransportPortAction_MarshalText (srcdst : string) (port : Z) : go string :=
  if (srcdst =? source)%string
  then Ok (preModTransportSourcePort +:+ fmt_d port)
  else Ok (preModTransportDestinationPort +:+ fmt_d port).

Definition modVLANVIDAction_MarshalText (vid : Z) : go string :=
  if negb (validVLANVID vid) then Err errInvalidVLANVID
  else Ok (preModVLANVID +:+ fmt_d vid).

Definition outputAction_MarshalText (port : Z) : go string :=
  if port <? 0 then Err errOutputNegativePort
  else Ok (preOutput +:+ fmt_d port).

Definition conjunctionAction_MarshalText (id dimensionNumber dimensionSize : Z) : go string :=
  if dimensionNumber >? dimensionSize then Err errDimensionTooLarge
  else Ok (preConjunction +:+ "(" +:+ fmt_d id +:+ "," +:+ fmt_d dimensionNumber
           +:+ "/" +:+ fmt_d dimensionSize +:+ ")").

Definition resubmitPortAction_MarshalText (port : Z) : go string :=
  if (port <? 0) || (port >? 0xfffffeff) then Err errResubmitPortInvalid
  else Ok ("resubmit:" +:+ Itoa port).

Definition resubmitAction_MarshalText (port table : Z) : go string :=
  if (port =? 0) && (table =? 0) then Err errResubmitPortTableZero
  else
    let p := if negb (port =? 0) then Itoa port else "" in
    let t := if negb (table =? 0) then Itoa table else "" in
    Ok ("resubmit(" +:+ p +:+ "," +:+ t +:+ ")").

Definition loadSetFieldAction_MarshalText (value field : string) (typ : loadSetFieldType) : go string :=
  if (value =? "")%string || (field =? "")%string then Err errLoadSetFieldZero
  else
    match typ with
    | actionLoad => Ok ("load:" +:+ value +:+ "->" +:+ field)
    | actionSetField => Ok ("set_field:" +:+ value +:+ "->" +:+ field)
    end.

Definition setTunnelAction_MarshalText (tunnelID : Z) : go string :=
  Ok ("set_tunnel:" +:+ fmt_sharp_x tunnelID).

Definition Action_MarshalText (a : Action) : go string :=
  match a with
  | textAction action => Ok action
  | ctAction args => ctAction_MarshalText args
  | modDataLinkAction srcdst addr => modDataLinkAction_MarshalText srcdst addr
  | modNetworkAction srcdst ip => modNetworkAction_MarshalText srcdst ip
  | modTransportPortAction srcdst port => modTransportPortAction_MarshalText srcdst port
  | modVLANVIDAction vid => modVLANVIDAction_MarshalText vid
  | outputAction port => outputAction_MarshalText port
  | conjunctionAction id n size => conjunctionAction_MarshalText id n size
  | resubmitAction port table => resubmitAction_MarshalText port table
  | resubmitPortAction port => resubmitPortAction_MarshalText port
  | loadSetFieldAction value field typ => loadSetFieldAction_MarshalText value field typ
  | setTunnelAction tunnelID => setTunnelAction_MarshalText tunnelID
  end.

Example a1 : Action_MarshalText (Conjunction 123 1 2) = Ok "conjunction(123,1/2)".
Proof. reflexivity. Qed.
Example a2 : Action_MarshalText (Resubmit 0 25) = Ok "resubmit(,25)". Proof. reflexivity. Qed.
Example a3 : Action_MarshalText (ModNetworkSource (IPv4 192 168 1 1)) = Ok "mod_nw_src:192.168.1.1".
Proof. reflexivity. Qed.
Example a4 : Action_MarshalText (SetTunnel 0xa) = Ok "set_tunnel:0xa". Proof. reflexivity. Qed.
Example a5 : Action_MarshalText (ModNetworkSource [1; 2; 3]) =
  Err (ErrorString "invalid IPv4 address for ModNetwork action"). Proof. reflexivity. Qed.

(** ** Well-formed actions: the names of text actions, the constructors'
    directions, the ranges of the field types, IPv4 addresses of four bytes. *)

Definition textActions : list string :=
  [actionDrop; actionFlood; actionInPort; actionLocal; actionNormal; actionStripVLAN].

Definition Action_wf (a : Action) : Prop :=
  match a with
  | textAction s => s ∈ textActions
  | ctAction _ | loadSetFieldAction _ _ _ => True
  | modDataLinkAction d addr => (d = source \/ d = destination) /\ Forall is_byte addr
  | modNetworkAction d ip =>
      (d = source \/ d = destination) /\
      match ip with Some ip => length ip = 4%nat /\ Forall is_byte ip | None => True end
  | modTransportPortAction d port => (d = source \/ d = destination) /\ in_u 16 port
  | modVLANVIDAction n | outputAction n | resubmitPortAction n => in_i64 n
  | conjunctionAction a b c => in_i64 a /\ in_i64 b /\ in_i64 c
  | resubmitAction a b => in_i64 a /\ in_i64 b
  | setTunnelAction n => in_u 64 n
  end.
