(* ===== verification/Codegen.v ===== *)
(** * Go syntax of matches and actions

    Models [ovs/codegen.go] and the methods [GoString] of [ovs/match.go] and
    [ovs/action.go], which print the Go expression that builds a match or an
    action, and gives them a meaning: [read_call] reads such an expression and
    [eval_call] applies the constructor it names to its arguments, each checked
    against the type of the parameter. *)

From S2P Require Import Prelude GoStrings GoConv GoNet GoQuote PortRange Names Match Action.

(** ** [codegen.go] *)

(** The loop that writes the elements of a slice of [n] elements, with a comma
    after each but the last. *)
Fixpoint write_elems {A} (f : A -> string) (n i : nat) (l : list A) : string :=
  match l with
  | [] => ""
  | x :: l =>
      f x +:+ (if negb (i =? n - 1)%nat then ", " else "") +:+ write_elems f n (S i) l
  end.

Definition hwAddrGoString (addr : HardwareAddr) : string :=
  "net.HardwareAddr{"
  +:+ write_elems (fun b => "0x" +:+ fmt_0x 2 b) (length addr) 0 addr +:+ "}".

Definition ipv4GoString (ip : option IP) : string :=
  match ip ≫= To4 with
  | None => "panic(" +:+ String dquote ("invalid IPv4 address" +:+ String dquote ")")
  | Some ip4 => "net.IPv4(" +:+ write_elems Itoa (length ip4) 0 ip4 +:+ ")"
  end.

Section GoString.
Context `{Printable}.

(** ** Matches *)

Definition dataLinkMatch_GoString (srcdst addr : string) : string :=
  if (srcdst =? source)%string then "ovs.DataLinkSource(" +:+ Quote addr +:+ ")"
  else "ovs.DataLinkDestination(" +:+ Quote addr +:+ ")".

Definition dataLinkTypeMatch_GoString (etherType : Z) : string :=
  "ovs.DataLinkType(0x" +:+ fmt_0x 4 etherType +:+ ")".

Definition dataLinkVLANMatch_GoString (vid : Z) : string :=
  if vid =? VLANNone then "ovs.DataLinkVLAN(ovs.VLANNone)"
  else "ovs.DataLinkVLAN(" +:+ fmt_d vid +:+ ")".

Definition networkMatch_GoString (srcdst ip : string) : string :=
  if (srcdst =? source)%string then "ovs.NetworkSource(" +:+ Quote ip +:+ ")"
  else "ovs.NetworkDestination(" +:+ Quote ip +:+ ")".

Definition conjunctionIDMatch_GoString (id : Z) : string :=
  "ovs.ConjunctionID(" +:+ fmt_d id +:+ ")".

Definition networkProtocolMatch_GoString (num : Z) : string :=
  "ovs.NetworkProtocol(" +:+ fmt_d num +:+ ")".

Definition ipv6Match_GoString (srcdst ip : string) : string :=
  if (srcdst =? source)%string then "ovs.IPv6Source(" +:+ Quote ip +:+ ")"
  else "ovs.IPv6Destination(" +:+ Quote ip +:+ ")".

Definition icmpTypeMatch_GoString (typ : Z) : string := "ovs.ICMPType(" +:+ fmt_d typ +:+ ")".

Definition neighborDiscoveryTargetMatch_GoString (ip : string) : string :=
  "ovs.NeighborDiscoveryTarget(" +:+ Quote ip +:+ ")".

Definition neighborDiscoveryLinkLayerMatch_GoString (srctgt : string) (addr : HardwareAddr) : string :=
  let syntax := hwAddrGoString addr in
  if (srctgt =? source)%string then "ovs.NeighborDiscoverySourceLinkLayer(" +:+ syntax +:+ ")"
  else "ovs.NeighborDiscoveryTargetLinkLayer(" +:+ syntax +:+ ")".

Definition arpHardwareAddressMatch_GoString (srctgt : string) (addr : HardwareAddr) : string :=
  let syntax := hwAddrGoString addr in
  if (srctgt =? source)%string then "ovs.ARPSourceHardwareAddress(" +:+ syntax +:+ ")"
  else "ovs.ARPTargetHardwareAddress(" +:+ syntax +:+ ")".

Definition arpProtocolAddressMatch_GoString (srctgt ip : string) : string :=
  if (srctgt =? source)%string then "ovs.ARPSourceProtocolAddress(" +:+ Quote ip +:+ ")"
  else "ovs.ARPTargetProtocolAddress(" +:+ Quote ip +:+ ")".

Definition transportPortMatch_GoString (srcdst : string) (port mask : Z) : string :=
  if mask >? 0 then
    if (srcdst =? source)%string
    then "ovs.TransportSourceMaskedPort(" +:+ fmt_sharp_x port +:+ ", " +:+ fmt_sharp_x mask +:+ ")"
    else "ovs.TransportDestinationMaskedPort(" +:+ fmt_sharp_x port +:+ ", " +:+ fmt_sharp_x mask +:+ ")"
  else if (srcdst =? source)%string then "ovs.TransportSourcePort(" +:+ fmt_d port +:+ ")"
  else "ovs.TransportDestinationPort(" +:+ fmt_d port +:+ ")".

Definition vlanTCIMatch_GoString (tci mask : Z) : string :=
  "ovs.VLANTCI(0x" +:+ fmt_0x 4 tci +:+ ", 0x" +:+ fmt_0x 4 mask +:+ ")".

Definition connectionTrackingMarkMatch_GoString (mark mask : Z) : string :=
  "ovs.ConnectionTrackingMark(0x" +:+ fmt_0x 8 mark +:+ ", 0x" +:+ fmt_0x 8 mask +:+ ")".

Definition connectionTrackingZoneMatch_GoString (zone : Z) : string :=
  "ovs.ConnectionTrackingZone(" +:+ fmt_d zone +:+ ")".

Definition connectionTrackingMatch_GoString (state : list string) : string :=
  let buf := write_elems Quote (length state) 0 state in
  "ovs.ConnectionTrackingState(" +:+ buf +:+ ")".

Definition tcpFlagsMatch_GoString (flags : list string) : string :=
  let buf := write_elems Quote (length flags) 0 flags in
  "ovs.TCPFlags(" +:+ buf +:+ ")".

Definition tunnelIDMatch_GoString (id mask : Z) : string :=
  if mask >? 0
  then "ovs.TunnelIDWithMask(" +:+ fmt_sharp_x id +:+ ", " +:+ fmt_sharp_x mask +:+ ")"
  else "ovs.TunnelID(" +:+ fmt_sharp_x id +:+ ")".

Definition Match_GoString (m : Match) : string :=
  match m with
  | dataLinkMatch srcdst addr => dataLinkMatch_GoString srcdst addr
  | dataLinkTypeMatch etherType => dataLinkTypeMatch_GoString etherType
  | dataLinkVLANMatch vid => dataLinkVLANMatch_GoString vid
  | networkMatch srcdst ip => networkMatch_GoString srcdst ip
  | conjunctionIDMatch id => conjunctionIDMatch_GoString id
  | networkProtocolMatch num => networkProtocolMatch_GoString num
  | ipv6Match srcdst ip => ipv6Match_GoString srcdst ip
  | icmpTypeMatch typ => icmpTypeMatch_GoString typ
  | neighborDiscoveryTargetMatch ip => neighborDiscoveryTargetMatch_GoString ip
  | neighborDiscoveryLinkLayerMatch srctgt addr => neighborDiscoveryLinkLayerMatch_GoString srctgt addr
  | arpHardwareAddressMatch srctgt addr => arpHardwareAddressMatch_GoString srctgt addr
  | arpProtocolAddressMatch srctgt ip => arpProtocolAddressMatch_GoString srctgt ip
  | transportPortMatch srcdst port mask => transportPortMatch_GoString srcdst port mask
  | vlanTCIMatch tci mask => vlanTCIMatch_GoString tci mask
  | connectionTrackingMarkMatch mark mask => connectionTrackingMarkMatch_GoString mark mask
  | connectionTrackingZoneMatch zone => connectionTrackingZoneMatch_GoString zone
  | connectionTrackingMatch state => connectionTrackingMatch_GoString state
  | tcpFlagsMatch flags => tcpFlagsMatch_GoString flags
  | tunnelIDMatch id mask => tunnelIDMatch_GoString id mask
  end.

(** ** Actions *)

Definition textAction_GoString (action : string) : string :=
  if (action =? actionDrop)%string then "ovs.Drop()"
  else if (action =? actionFlood)%string then "ovs.Flood()"
  else if (action =? actionInPort)%string then "ovs.InPort()"
  else if (action =? actionLocal)%string then "ovs.Local()"
  else if (action =? actionNormal)%string then "ovs.Normal()"
  else if (action =? actionStripVLAN)%string then "ovs.StripVLAN()"
  else "// BUG(mdlayher): unimplemented OVS text action: " +:+ Quote action.

Definition ctAction_GoString (args : string) : string :=
  "ovs.ConnectionTracking(" +:+ Quote args +:+ ")".

Definition modDataLinkAction_GoString (srcdst : string) (addr : HardwareAddr) : string :=
  if (srcdst =? source)%string then "ovs.ModDataLinkSource(" +:+ hwAddrGoString addr +:+ ")"
  else "ovs.ModDataLinkDestination(" +:+ hwAddrGoString addr +:+ ")".

Definition modNetworkAction_GoString (srcdst : string) (ip : option IP) : string :=
  if (srcdst =? source)%string then "ovs.ModNetworkSource(" +:+ ipv4GoString ip +:+ ")"
  else "ovs.ModNetworkDestination(" +:+ ipv4GoString ip +:+ ")".

Definition modTransportPortAction_GoString (srcdst : string) (port : Z) : string :=
  if (srcdst =? source)%string then "ovs.ModTransportSourcePort(" +:+ fmt_d port +:+ ")"
  else "ovs.ModTransportDestinationPort(" +:+ fmt_d port +:+ ")".

Definition modVLANVIDAction_GoString (vid : Z) : string := "ovs.ModVLANVID(" +:+ fmt_d vid +:+ ")".

Definition outputAction_GoString (port : Z) : string := "ovs.Output(" +:+ fmt_d port +:+ ")".

Definition conjunctionAction_GoString (id dimensionNumber dimensionSize : Z) : string :=
  "ovs.Conjunction(" +:+ fmt_d id +:+ ", " +:+ fmt_d dimensionNumber +:+ ", "
  +:+ fmt_d dimensionSize +:+ ")".

Definition resubmitPortAction_GoString (port : Z) : string :=
  "ovs.ResubmitPort(" +:+ fmt_d port +:+ ")".

Definition resubmitAction_GoString (port table : Z) : string :=
  "ovs.Resubmit(" +:+ fmt_d port +:+ ", " +:+ fmt_d table +:+ ")".

Definition loadSetFieldAction_GoString (value field : string) (typ : loadSetFieldType) : string :=
  match typ with
  | actionLoad => "ovs.Load(" +:+ Quote value +:+ ", " +:+ Quote field +:+ ")"
  | actionSetField => "ovs.SetField(" +:+ Quote value +:+ ", " +:+ Quote field +:+ ")"
  end.

Definition setTunnelAction_GoString (tunnelID : Z) : string :=
  "ovs.SetTunnel(" +:+ fmt_sharp_x tunnelID +:+ ")".

Definition Action_GoString (a : Action) : string :=
  match a with
  | textAction action => textAction_GoString action
  | ctAction args => ctAction_GoString args
  | modDataLinkAction srcdst addr => modDataLinkAction_GoString srcdst addr
  | modNetworkAction srcdst ip => modNetworkAction_GoString srcdst ip
  | modTransportPortAction srcdst port => modTransportPortAction_GoString srcdst port
  | modVLANVIDAction vid => modVLANVIDAction_GoString vid
  | outputAction port => outputAction_GoString port
  | conjunctionAction id n size => conjunctionAction_GoString id n size
  | resubmitAction port table => resubmitAction_GoString port table
  | resubmitPortAction port => resubmitPortAction_GoString port
  | loadSetFieldAction value field typ => loadSetFieldAction_GoString value field typ
  | setTunnelAction tunnelID => setTunnelAction_GoString tunnelID
  end.

End GoString.

(** ** Reading a Go expression

    [ovs.Name(arg, ...)], whose arguments are integer and string literals,
    [ovs.VLANNone], [net.HardwareAddr{...}] and [net.IPv4(...)]. *)

Inductive lit :=
| LInt (n : Z)
| LStr (s : string)
| LHW (addr : HardwareAddr)
| LIP (ip : IP).

Definition int_lit (s : string) : option Z :=
  match s with
  | EmptyString => None
  | String c r =>
      if Ascii.eqb c "-" then match parse_uint r 0 64 with inr n => Some (- n) | inl _ => None end
      else match parse_uint s 0 64 with inr n => Some n | inl _ => None end
  end.

Definition read_int (s : string) : option (Z * string) :=
  let (t, r) := span num_char s in n ← int_lit t; Some (n, r).

(** Elements separated by a comma and a space, up to the closing character. *)
Fixpoint read_items {A} (rd : string -> option (A * string)) (fuel : nat) (close : ascii) (s : string)
    : option (list A * string) :=
  match fuel with
  | O => None
  | S fuel =>
      '(x, r) ← rd s;
      match strip (sing close) r with
      | Some r => Some ([x], r)
      | None => r ← strip ", " r; '(l, r) ← read_items rd fuel close r; Some (x :: l, r)
      end
  end.

Definition read_seq {A} (rd : string -> option (A * string)) (close : ascii) (s : string)
    : option (list A * string) :=
  match strip (sing close) s with
  | Some r => Some ([], r)
  | None => read_items rd (String.length s) close s
  end.

Definition read_net (s : string) : option (lit * string) :=
  match strip "net.HardwareAddr{" s with
  | Some r =>
      '(l, r) ← read_seq read_int "}" r;
      if forallb (fun b => (0 <=? b) && (b <? 256)) l then Some (LHW l, r) else None
  | None =>
      r ← strip "net.IPv4(" s;
      '(l, r) ← read_seq read_int ")" r;
      match l with
      | [a; b; c; d] =>
          if forallb (fun b => (0 <=? b) && (b <? 256)) l then Some (LIP (IPv4 a b c d), r) else None
      | _ => None
      end
  end.

Definition read_lit (s : string) : option (lit * string) :=
  match s with
  | EmptyString => None
  | String c _ =>
      if Ascii.eqb c dquote then '(t, r) ← Unquote s; Some (LStr t, r)
      else if Ascii.eqb c "n" then read_net s
      else if Ascii.eqb c "o" then r ← strip "ovs.VLANNone" s; Some (LInt VLANNone, r)
      else '(n, r) ← read_int s; Some (LInt n, r)
  end.

Definition is_alnum (c : ascii) : bool :=
  is_digit c || ((65 <=? code c) && (code c <=? 90)) || ((97 <=? code c) && (code c <=? 122)).

Definition read_call (s : string) : option (string * list lit) :=
  r ← strip "ovs." s;
  let (name, r) := span is_alnum r in
  r ← strip "(" r;
  '(args, r) ← read_seq read_lit ")" r;
  if (r =? "")%string then Some (name, args) else None.

(** ** Evaluating it

    A parameter of type [uint8], [uint16], [uint32], [uint64] or [int] takes a
    constant in its range only. *)

Definition arg_u (bits : Z) (l : lit) : option Z :=
  match l with
  | LInt n => if (0 <=? n) && (n <? 2 ^ bits) then Some n else None
  | _ => None
  end.
Definition arg_int (l : lit) : option Z :=
  match l with
  | LInt n => if (- 2 ^ 63 <=? n) && (n <? 2 ^ 63) then Some n else None
  | _ => None
  end.
Definition arg_str (l : lit) : option string := match l with LStr s => Some s | _ => None end.
Definition arg_hw (l : lit) : option HardwareAddr := match l with LHW a => Some a | _ => None end.
Definition arg_ip (l : lit) : option IP := match l with LIP a => Some a | _ => None end.

Definition fn0 {R} (r : R) (ls : list lit) : option R := match ls with [] => Some r | _ => None end.
Definition fn1 {A R} (a : lit -> option A) (f : A -> R) (ls : list lit) : option R :=
  match ls with [x] => f <$> a x | _ => None end.
Definition fn2 {A B R} (a : lit -> option A) (b : lit -> option B) (f : A -> B -> R) (ls : list lit) : option R :=
  match ls with [x; y] => x ← a x; y ← b y; Some (f x y) | _ => None end.
Definition fn3 {A B C R} (a : lit -> option A) (b : lit -> option B) (c : lit -> option C)
    (f : A -> B -> C -> R) (ls : list lit) : option R :=
  match ls with [x; y; z] => x ← a x; y ← b y; z ← c z; Some (f x y z) | _ => None end.
Definition fnv {A R} (a : lit -> option A) (f : list A -> R) (ls : list lit) : option R :=
  f <$> mapM a ls.

Definition func R := (string * (list lit -> option R))%type.

Definition matchFuncs : list (func Match) :=
  [("DataLinkSource", fn1 arg_str DataLinkSource);
   ("DataLinkDestination", fn1 arg_str DataLinkDestination);
   ("DataLinkType", fn1 (arg_u 16) DataLinkType);
   ("DataLinkVLAN", fn1 arg_int DataLinkVLAN);
   ("NetworkSource", fn1 arg_str NetworkSource);
   ("NetworkDestination", fn1 arg_str NetworkDestination);
   ("ConjunctionID", fn1 (arg_u 32) ConjunctionID);
   ("NetworkProtocol", fn1 (arg_u 8) NetworkProtocol);
   ("IPv6Source", fn1 arg_str IPv6Source);
   ("IPv6Destination", fn1 arg_str IPv6Destination);
   ("ICMPType", fn1 (arg_u 8) ICMPType);
   ("NeighborDiscoveryTarget", fn1 arg_str NeighborDiscoveryTarget);
   ("NeighborDiscoverySourceLinkLayer", fn1 arg_hw NeighborDiscoverySourceLinkLayer);
   ("NeighborDiscoveryTargetLinkLayer", fn1 arg_hw NeighborDiscoveryTargetLinkLayer);
   ("ARPSourceHardwareAddress", fn1 arg_hw ARPSourceHardwareAddress);
   ("ARPTargetHardwareAddress", fn1 arg_hw ARPTargetHardwareAddress);
   ("ARPSourceProtocolAddress", fn1 arg_str ARPSourceProtocolAddress);
   ("ARPTargetProtocolAddress", fn1 arg_str ARPTargetProtocolAddress);
   ("TransportSourcePort", fn1 (arg_u 16) TransportSourcePort);
   ("TransportDestinationPort", fn1 (arg_u 16) TransportDestinationPort);
   ("TransportSourceMaskedPort", fn2 (arg_u 16) (arg_u 16) TransportSourceMaskedPort);
   ("TransportDestinationMaskedPort", fn2 (arg_u 16) (arg_u 16) TransportDestinationMaskedPort);
   ("VLANTCI", fn2 (arg_u 16) (arg_u 16) VLANTCI);
   ("ConnectionTrackingMark", fn2 (arg_u 32) (arg_u 32) ConnectionTrackingMark);
   ("ConnectionTrackingZone", fn1 (arg_u 16) ConnectionTrackingZone);
   ("ConnectionTrackingState", fnv arg_str ConnectionTrackingState);
   ("TCPFlags", fnv arg_str TCPFlags);
   ("TunnelID", fn1 (arg_u 64) TunnelID);
   ("TunnelIDWithMask", fn2 (arg_u 64) (arg_u 64) TunnelIDWithMask)].

Definition actionFuncs : list (func Action) :=
  [("Drop", fn0 Drop); ("Flood", fn0 Flood); ("InPort", fn0 InPort); ("Local", fn0 Local);
   ("Normal", fn0 Normal); ("StripVLAN", fn0 StripVLAN);
   ("ConnectionTracking", fn1 arg_str ConnectionTracking);
   ("ModDataLinkDestination", fn1 arg_hw ModDataLinkDestination);
   ("ModDataLinkSource", fn1 arg_hw ModDataLinkSource);
   ("ModNetworkDestination", fn1 arg_ip ModNetworkDestination);
   ("ModNetworkSource", fn1 arg_ip ModNetworkSource);
   ("ModTransportDestinationPort", fn1 (arg_u 16) ModTransportDestinationPort);
   ("ModTransportSourcePort", fn1 (arg_u 16) ModTransportSourcePort);
   ("ModVLANVID", fn1 arg_int ModVLANVID);
   ("Output", fn1 arg_int Output);
   ("Conjunction", fn3 arg_int arg_int arg_int Conjunction);
   ("Resubmit", fn2 arg_int arg_int Resubmit);
   ("ResubmitPort", fn1 arg_int ResubmitPort);
   ("SetField", fn2 arg_str arg_str SetField);
   ("Load", fn2 arg_str arg_str Load);
   ("SetTunnel", fn1 (arg_u 64) SetTunnel)].

Definition find_func {R} (table : list (func R)) (name : string) : option (list lit -> option R) :=
  snd <$> List.find (fun f => (fst f =? name)%string) table.

Definition eval_call {R} (table : list (func R)) (s : string) : option R :=
  '(name, args) ← read_call s; f ← find_func table name; f args.

Section Examples.
#[local] Existing Instance ascii_table.
Example gs1 : Match_GoString (ARPSourceHardwareAddress [0xde; 0xad; 0xbe; 0xef; 0; 1])
  = "ovs.ARPSourceHardwareAddress(net.HardwareAddr{0xde, 0xad, 0xbe, 0xef, 0x00, 0x01})".
Proof. vm_compute. reflexivity. Qed.
Example gs2 : Match_GoString (TransportSourceMaskedPort 0x10 0xfff0)
  = "ovs.TransportSourceMaskedPort(0x10, 0xfff0)".
Proof. vm_compute. reflexivity. Qed.
Example gs3 : eval_call matchFuncs (Match_GoString (TCPFlags ["+syn"; "-ack"])) = Some (TCPFlags ["+syn"; "-ack"]).
Proof. vm_compute. reflexivity. Qed.
Example gs4 : eval_call actionFuncs (Action_GoString (ModNetworkSource (IPv4 192 168 1 1)))
  = Some (ModNetworkSource (IPv4 192 168 1 1)).
Proof. vm_compute. reflexivity. Qed.
Example gs5 : Action_GoString (ModNetworkSource [1; 2])
  = "ovs.ModNetworkSource(panic(" +:+ String dquote ("invalid IPv4 address" +:+ String dquote "))").
Proof. vm_compute. reflexivity. Qed.
Example gs6 : eval_call matchFuncs (Match_GoString (DataLinkVLAN VLANNone)) = Some (DataLinkVLAN VLANNone).
Proof. vm_compute. reflexivity. Qed.
Example gs7 : eval_call actionFuncs (Action_GoString (Conjunction (-1) 2 3)) = Some (Conjunction (-1) 2 3).
Proof. vm_compute. reflexivity. Qed.
End Examples.

(** ** Lemmas: what a literal prints *)

(** [t] is read as the value [v] whatever follows, up to a delimiter. *)
Definition delim (r : string) : Prop :=
  match r with
  | String c _ => c = ","%char \/ c = ")"%char \/ c = "}"%char
  | EmptyString => True
  end.

Definition not_close (t : string) : Prop :=
  match t with
  | String c _ => c <> ")"%char /\ c <> "}"%char
  | EmptyString => False
  end.

Definition prints {A} (rd : string -> option (A * string)) (t : string) (v : A) : Prop :=
  not_close t /\ forall r, delim r -> rd (t +:+ r) = Some (v, r).

Lemma delim_stops r : delim r -> stops num_char r.
Proof. destruct r as [|c r]; [done|]. by intros [-> | [-> | ->]]. Qed.

Lemma write_elems_Join {A} (f : A -> string) l n i :
  n = (i + length l)%nat -> write_elems f n i l = Join (map f l) ", ".
Proof.
  revert i. induction l as [|x l IH]; intros i Hn; [done|]. cbn [write_elems map length] in *.
  rewrite IH by lia. destruct l as [|y l].
  - cbn in Hn. destruct (Nat.eqb_spec i (n - 1)); [|lia]. cbn [negb map Join]. by rewrite !app_nil_r'.
  - cbn in Hn. destruct (Nat.eqb_spec i (n - 1)); [lia|]. by cbn [negb map Join].
Qed.

Lemma strip_close c t r : not_close t -> (c = ")"%char \/ c = "}"%char) -> strip (sing c) (t +:+ r) = None.
Proof.
  destruct t as [|d t]; [done|]. intros [H1 H2] Hc. rewrite app_cons. unfold strip, HasPrefix.
  rewrite prefix_sing. destruct (Ascii.eqb_spec c d) as [->|]; [|done]. by destruct Hc.
Qed.

Lemma Join_length_le l sep :
  Forall not_close l -> (length l <= String.length (Join l sep))%nat.
Proof.
  intros Hl. induction Hl as [|t l Ht Hl IH]; [done|]. destruct t as [|c t]; [done|].
  destruct l as [|u l]; [cbn; lia|]. rewrite Join_cons by done.
  rewrite !app_length'. cbn [String.length length] in *. lia.
Qed.

Lemma read_items_Join {A} (rd : string -> option (A * string)) fuel c t ts v vs r :
  (c = ")"%char \/ c = "}"%char) -> Forall2 (prints rd) (t :: ts) (v :: vs) -> (length ts < fuel)%nat ->
  read_items rd fuel c (Join (t :: ts) ", " +:+ String c r) = Some (v :: vs, r).
Proof.
  intros Hc. revert t ts v vs. induction fuel as [|fuel IH]; intros t ts v vs Hall Hf; [lia|].
  apply Forall2_cons in Hall as [[Hn Ht] Hall]. cbn [read_items].
  destruct Hall as [|u w ts vs Hu Hall].
  - cbn [Join]. rewrite Ht by (right; exact Hc). cbn [mbind option_bind].
    change (String c r) with (sing c +:+ r). by rewrite strip_app.
  - rewrite Join_cons, !app_assoc', Ht by (done || by left). cbn [mbind option_bind].
    assert (strip (sing c) (", " +:+ Join (u :: ts) ", " +:+ String c r) = None) as ->.
    { by destruct Hc as [-> | ->]. }
    rewrite strip_app. cbn [mbind option_bind].
    rewrite (IH u ts w vs); [done|by constructor|cbn in Hf; lia].
Qed.

Lemma read_seq_Join {A} (rd : string -> option (A * string)) c ts vs r :
  (c = ")"%char \/ c = "}"%char) -> Forall2 (prints rd) ts vs ->
  read_seq rd c (Join ts ", " +:+ String c r) = Some (vs, r).
Proof.
  intros Hc Hall. unfold read_seq. destruct Hall as [|t v ts vs Ht Hall].
  - cbn [Join]. rewrite app_nil_l'. change (String c r) with (sing c +:+ r). by rewrite strip_app.
  - assert (Hn : Forall not_close (t :: ts)).
    { apply Forall_cons. split; [apply Ht|]. eapply Forall2_Forall_l; [exact Hall|].
      apply Forall_forall. by intros ? _ ? []. }
    pose proof (Join_length_le _ ", " Hn) as Hl.
    assert (strip (sing c) (Join (t :: ts) ", " +:+ String c r) = None) as ->.
    { apply Forall_inv in Hn. destruct ts; [by apply strip_close|].
      rewrite Join_cons, !app_assoc' by done. by apply strip_close. }
    apply read_items_Join; [done|by constructor|]. rewrite app_length'. cbn [length String.length] in *. lia.
Qed.

(** ** Lemmas: integers *)

Lemma format_go_head fuel n acc :
  0 < n < 10 ^ Z.of_nat fuel -> exists d s, 1 <= d < 10 /\ format_go fuel 10 n acc = String (hexdigit d) s.
Proof.
  revert n acc. induction fuel as [|fuel IH]; intros n acc Hn; [cbn in Hn; lia|]. cbn [format_go].
  destruct (Z.eqb_spec (n / 10) 0).
  - exists (n mod 10), acc. split; [|done]. divs.
  - apply IH. rewrite Nat2Z.inj_succ, Z.pow_succ_r in Hn by lia. divs.
Qed.

Lemma parse_uint_dec n : in_u 64 n -> parse_uint (FormatUint n 10) 0 64 = inr n.
Proof.
  intros Hn. unfold in_u in Hn. destruct (Z.eqb_spec n 0) as [->|Hz]; [done|].
  pose proof (parse_uint_format 0 10 64 n ltac:(lia) ltac:(lia)) as Hp. rewrite zero_pad_0 in Hp.
  assert (Hm : 0 <= n <= maxUint 64) by (change (maxUint 64) with (2 ^ 64 - 1); lia).
  specialize (Hp Hm). destruct (format_go_head 64 n "") as (d & s & Hd & E).
  { change (10 ^ Z.of_nat 64) with (10 ^ 64). split; [lia|].
    assert (2 ^ 64 < 10 ^ 64) by reflexivity. lia. }
  unfold FormatUint in *. rewrite E in *. rewrite parse_uint_ne in Hp by done.
  unfold parse_uint. cbn [Z.eqb]. unfold base_prefix.
  destruct (Ascii.eqb_spec (hexdigit d) "0") as [Ed|Ed].
  { exfalso. apply (f_equal code) in Ed. rewrite hexdigit_code in Ed by lia. change (code "0") with 48 in Ed.
    destruct (Z.ltb_spec d 10); lia. }
  destruct (hexdigit d) as [[] [] [] [] [] [] [] []]; try done.
Qed.

Lemma parse_uint_hex w n : in_u 64 n -> parse_uint ("0x" +:+ fmt_0x w n) 0 64 = inr n.
Proof.
  intros Hn. pose proof (ParseUint_sharp_0x w n Hn) as H. unfold ParseUint, fmt_sharp_0x in H.
  by destruct (parse_uint _ 0 64); simplify_eq.
Qed.

Lemma prints_int t n :
  not_close t -> all_chars num_char t = true -> int_lit t = Some n -> prints read_int t n.
Proof.
  intros Ht Hc Hn. split; [done|]. intros r Hr. unfold read_int.
  rewrite span_app by (done || by apply delim_stops). by rewrite Hn.
Qed.

Lemma digit_not_close c t : is_digit c = true -> not_close (String c t) /\ Ascii.eqb c "-" = false.
Proof. intros H. repeat split; [..|apply Ascii.eqb_neq]; by intros ->. Qed.

Lemma prints_dec n : - 2 ^ 63 <= n < 2 ^ 64 -> prints read_int (fmt_d n) n.
Proof.
  intros Hn. unfold fmt_d, FormatInt. destruct (Z.ltb_spec n 0).
  - apply prints_int; [done| |].
    + rewrite app_cons, app_nil_l'. cbn [all_chars].
      eapply all_chars_impl, FormatUint_digits; [|lia]. apply is_digit_num.
    + rewrite app_cons, app_nil_l'. cbn [int_lit]. change (Ascii.eqb "-" "-") with true. cbn iota.
      rewrite parse_uint_dec by (unfold in_u; lia). f_equal. lia.
  - assert (Hd := FormatUint_digits n ltac:(lia)).
    assert (Hp := parse_uint_dec n ltac:(unfold in_u; lia)).
    destruct (FormatUint_head n 10) as (c & s & E). rewrite E in *. cbn [all_chars] in Hd.
    pose proof Hd as [Hc _]%andb_true_iff. apply (digit_not_close c s) in Hc as [Hc Hm].
    apply prints_int; [done| |].
    + eapply all_chars_impl; [apply is_digit_num|]. by cbn [all_chars].
    + cbn [int_lit]. by rewrite Hm, Hp.
Qed.

Lemma prints_hex w n : in_u 64 n -> prints read_int ("0x" +:+ fmt_0x w n) n.
Proof.
  intros Hn. apply prints_int; [done| |].
  - apply sharp_num, fmt_0x_xdigits, Hn.
  - rewrite !app_cons. cbn [int_lit]. change (Ascii.eqb "0" "-") with false. cbn iota.
    rewrite <- !app_cons. by rewrite parse_uint_hex.
Qed.

Lemma prints_sharp n : in_u 64 n -> prints read_int (fmt_sharp_x n) n.
Proof.
  intros Hn. unfold fmt_sharp_x. change (FormatUint n 16) with (fmt_0x 0 n). by apply prints_hex.
Qed.

(** ** Lemmas: literals *)

Lemma num_char_dispatch c :
  num_char c = true -> Ascii.eqb c dquote = false /\ Ascii.eqb c "n" = false /\ Ascii.eqb c "o" = false.
Proof. intros H. repeat split; apply Ascii.eqb_neq; by intros ->. Qed.

Lemma read_int_head t n r : read_int (t +:+ r) = Some (n, r) -> not_close t -> delim r ->
  exists c s, t = String c s /\ num_char c = true.
Proof.
  unfold read_int. destruct t as [|c t]; [done|]. rewrite app_cons. cbn [span].
  destruct (num_char c) eqn:Hc; [|done]. intros _ _ _. by exists c, t.
Qed.

Lemma prints_LInt t n : prints read_int t n -> prints read_lit t (LInt n).
Proof.
  intros [Ht Hr]. split; [done|]. intros r Hd. specialize (Hr r Hd).
  destruct (read_int_head _ _ _ Hr Ht Hd) as (c & s & -> & Hc). rewrite app_cons in *. unfold read_lit.
  apply num_char_dispatch in Hc as (-> & -> & ->). by rewrite Hr.
Qed.

Lemma prints_LStr `{Printable} s : prints read_lit (Quote s) (LStr s).
Proof.
  split; [done|]. intros r _. unfold Quote. rewrite app_cons. cbn [read_lit].
  change (Ascii.eqb dquote dquote) with true. cbn iota.
  pose proof (Unquote_Quote s r) as E. unfold Quote in E. rewrite app_cons in E. by rewrite E.
Qed.

Lemma prints_VLANNone : prints read_lit "ovs.VLANNone" (LInt VLANNone).
Proof.
  split; [done|]. intros r _. pose proof (strip_app "ovs.VLANNone" r) as E.
  rewrite app_cons in *. cbn [read_lit]. change (Ascii.eqb "o" dquote) with false.
  change (Ascii.eqb "o" "n") with false. change (Ascii.eqb "o" "o") with true. cbn iota. by rewrite E.
Qed.

Lemma byte_bits l : Forall is_byte l -> forallb (fun b => (0 <=? b) && (b <? 256)) l = true.
Proof. intros Hl. apply forallb_forall. rewrite Forall_forall in Hl. intros x Hx%list_elem_of_In%Hl.
  unfold is_byte in Hx. lia. Qed.

Lemma read_seq_ints f c l r :
  (c = ")"%char \/ c = "}"%char) -> Forall (fun b => prints read_int (f b) b) l ->
  read_seq read_int c (write_elems f (length l) 0 l +:+ String c r) = Some (l, r).
Proof.
  intros Hc Hl. rewrite (write_elems_Join f l) by done. apply read_seq_Join; [done|].
  rewrite Forall2_fmap_l. by apply Forall_Forall2_diag.
Qed.

Lemma is_byte_u64 b : is_byte b -> in_u 64 b.
Proof. unfold is_byte, in_u. lia. Qed.

Lemma read_lit_net t r : read_lit ("net." +:+ t +:+ r) = read_net ("net." +:+ t +:+ r).
Proof. done. Qed.

Lemma prints_LHW a : Forall is_byte a -> prints read_lit (hwAddrGoString a) (LHW a).
Proof.
  intros Ha. unfold hwAddrGoString. split; [done|]. intros r _. rewrite !app_assoc'.
  set (e := write_elems _ _ _ _).
  transitivity (read_net ("net.HardwareAddr{" +:+ e +:+ "}" +:+ r)); [done|].
  unfold read_net. rewrite strip_app. rewrite app_cons, app_nil_l'. unfold e. rewrite read_seq_ints; [..|].
  - cbn [mbind option_bind]. by rewrite byte_bits.
  - by right.
  - eapply Forall_impl; [exact Ha|]. intros b Hb. by apply prints_hex, is_byte_u64.
Qed.

Lemma prints_LIP a b c d :
  Forall is_byte [a; b; c; d] -> prints read_lit (ipv4GoString (Some [a; b; c; d])) (LIP (IPv4 a b c d)).
Proof.
  intros Ha. split; [done|]. intros r _. change (ipv4GoString (Some [a; b; c; d])) with
    ("net.IPv4(" +:+ write_elems Itoa (length [a; b; c; d]) 0 [a; b; c; d] +:+ ")").
  rewrite !app_assoc'. set (e := write_elems _ _ _ _).
  transitivity (read_net ("net.IPv4(" +:+ e +:+ ")" +:+ r)); [done|].
  unfold read_net. assert (strip "net.HardwareAddr{" ("net.IPv4(" +:+ e +:+ ")" +:+ r) = None) as -> by done.
  rewrite strip_app. rewrite app_cons, app_nil_l'. cbn [mbind option_bind]. unfold e. rewrite read_seq_ints; [..|].
  - cbn [mbind option_bind]. by rewrite byte_bits.
  - by left.
  - eapply Forall_impl; [exact Ha|]. intros x Hx. apply prints_dec. unfold is_byte in Hx. lia.
Qed.

(** ** Lemmas: calls *)

Lemma read_call_printed name ts vs :
  all_chars is_alnum name = true -> Forall2 (prints read_lit) ts vs ->
  read_call ("ovs." +:+ name +:+ "(" +:+ Join ts ", " +:+ ")") = Some (name, vs).
Proof.
  intros Hn Hts. unfold read_call. rewrite strip_app. cbn [mbind option_bind].
  rewrite span_app by done. rewrite strip_app. cbn [mbind option_bind].
  rewrite (read_seq_Join _ _ ts vs); [done|by left|done].
Qed.

Lemma eval_printed {R} (table : list (func R)) name f ts vs (v : R) s :
  s = "ovs." +:+ name +:+ "(" +:+ Join ts ", " +:+ ")" ->
  all_chars is_alnum name = true -> Forall2 (prints read_lit) ts vs ->
  find_func table name = Some f -> f vs = Some v ->
  eval_call table s = Some v.
Proof.
  intros -> Hn Hts Hf Hv. unfold eval_call. rewrite (read_call_printed name ts vs) by done.
  cbn [mbind option_bind]. by rewrite Hf.
Qed.

Lemma arg_u_in bits n : in_u bits n -> arg_u bits (LInt n) = Some n.
Proof.
  intros [H1 H2]. cbn. apply Z.leb_le in H1 as ->. by apply Z.ltb_lt in H2 as ->.
Qed.

Lemma arg_int_in n : in_i64 n -> arg_int (LInt n) = Some n.
Proof.
  intros [H1 H2]. cbn -[Z.pow]. apply Z.leb_le in H1 as ->. by apply Z.ltb_lt in H2 as ->.
Qed.

Lemma mapM_arg_str l : mapM arg_str (map LStr l) = Some l.
Proof. induction l as [|s l IH]; [done|]. cbn. by rewrite IH. Qed.

Lemma fn1_u {R} bits n (f : Z -> R) : in_u bits n -> fn1 (arg_u bits) f [LInt n] = Some (f n).
Proof. intros Hn. unfold fn1. by rewrite arg_u_in. Qed.

Lemma fn1_int {R} n (f : Z -> R) : in_i64 n -> fn1 arg_int f [LInt n] = Some (f n).
Proof. intros Hn. unfold fn1. by rewrite arg_int_in. Qed.

Lemma fn2_u {R} bits a b (f : Z -> Z -> R) :
  in_u bits a -> in_u bits b -> fn2 (arg_u bits) (arg_u bits) f [LInt a; LInt b] = Some (f a b).
Proof. intros Ha Hb. unfold fn2. by rewrite !arg_u_in. Qed.

Lemma fn2_int {R} a b (f : Z -> Z -> R) :
  in_i64 a -> in_i64 b -> fn2 arg_int arg_int f [LInt a; LInt b] = Some (f a b).
Proof. intros Ha Hb. unfold fn2. by rewrite !arg_int_in. Qed.

Lemma fn3_int {R} a b c (f : Z -> Z -> Z -> R) :
  in_i64 a -> in_i64 b -> in_i64 c ->
  fn3 arg_int arg_int arg_int f [LInt a; LInt b; LInt c] = Some (f a b c).
Proof. intros Ha Hb Hc. unfold fn3. by rewrite !arg_int_in. Qed.

Lemma prints_u bits n : 0 <= bits <= 64 -> in_u bits n -> prints read_lit (fmt_d n) (LInt n).
Proof.
  intros Hb Hn. apply (in_u_mono _ 64) in Hn; [|lia]. unfold in_u in Hn. apply prints_LInt, prints_dec. lia.
Qed.

Lemma prints_i n : in_i64 n -> prints read_lit (fmt_d n) (LInt n).
Proof. intros Hn. unfold in_i64 in Hn. apply prints_LInt, prints_dec. lia. Qed.

Lemma prints_x bits w n : bits <= 64 -> in_u bits n -> prints read_lit ("0x" +:+ fmt_0x w n) (LInt n).
Proof. intros Hb Hn. by apply prints_LInt, prints_hex, (in_u_mono bits). Qed.

Lemma prints_sx bits n : bits <= 64 -> in_u bits n -> prints read_lit (fmt_sharp_x n) (LInt n).
Proof. intros Hb Hn. by apply prints_LInt, prints_sharp, (in_u_mono bits). Qed.

Create HintDb prints.
#[export] Hint Resolve Forall2_nil_2 Forall2_cons_2 prints_LStr prints_LHW prints_LIP prints_VLANNone prints_i
  : prints.
#[export] Hint Extern 1 (prints read_lit (fmt_d _) _) => eapply prints_u; [|eassumption]; lia : prints.
#[export] Hint Extern 1 (prints read_lit ("0x" +:+ _) _) => eapply prints_x; [|eassumption]; lia : prints.
#[export] Hint Extern 1 (prints read_lit (fmt_sharp_x _) _) => eapply prints_sx; [|eassumption]; lia : prints.

(** The expression is the call of [name] with the texts [ts] that print [vs]. *)
Ltac call name ts vs :=
  eapply (eval_printed _ name _ ts vs);
  [ cbn [Join]; rewrite ?app_assoc'; reflexivity | reflexivity | auto with prints | reflexivity
  | cbn [snd];
    first [ reflexivity
          | etrans; [first [by apply fn1_u | by apply fn1_int | by apply fn2_u | by apply fn2_int
                           | by apply fn3_int]|reflexivity] ] ].

Section Evaluated.
Context `{Printable}.

Lemma eval_strings {R} (table : list (func R)) name (l : list string) (f : list string -> R) :
  all_chars is_alnum name = true -> find_func table name = Some (fnv arg_str f) ->
  eval_call table ("ovs." +:+ name +:+ "(" +:+ write_elems Quote (length l) 0 l +:+ ")") = Some (f l).
Proof.
  intros Hn Hf. eapply (eval_printed _ name _ (map Quote l) (map LStr l)); [|done| |exact Hf|].
  - by rewrite (write_elems_Join Quote l).
  - rewrite Forall2_fmap_l, Forall2_fmap_r. apply Forall_Forall2_diag, Forall_forall. intros. apply prints_LStr.
  - unfold fnv. by rewrite mapM_arg_str.
Qed.

(** C34: The Go expression that [GoString] prints for a well-formed match, evaluated, is the match. *)
Theorem Match_GoString_evaluates (m : Match) :
  Match_wf m -> eval_call matchFuncs (Match_GoString m) = Some m.
Proof.
  destruct m; cbn [Match_wf Match_GoString].
  - intros [-> | ->]; [call "DataLinkSource" [Quote addr] [LStr addr]
                      |call "DataLinkDestination" [Quote addr] [LStr addr]].
  - intros Hn. call "DataLinkType" ["0x" +:+ fmt_0x 4 etherType] [LInt etherType].
  - intros Hn. unfold dataLinkVLANMatch_GoString. destruct (Z.eqb_spec vid VLANNone) as [->|_].
    + call "DataLinkVLAN" ["ovs.VLANNone"] [LInt VLANNone].
    + call "DataLinkVLAN" [fmt_d vid] [LInt vid].
  - intros [-> | ->]; [call "NetworkSource" [Quote ip] [LStr ip]
                      |call "NetworkDestination" [Quote ip] [LStr ip]].
  - intros Hn. call "ConjunctionID" [fmt_d id] [LInt id].
  - intros Hn. call "NetworkProtocol" [fmt_d num] [LInt num].
  - intros [-> | ->]; [call "IPv6Source" [Quote ip] [LStr ip]|call "IPv6Destination" [Quote ip] [LStr ip]].
  - intros Hn. call "ICMPType" [fmt_d typ] [LInt typ].
  - intros _. call "NeighborDiscoveryTarget" [Quote ip] [LStr ip].
  - intros [[-> | ->] Ha];
      [call "NeighborDiscoverySourceLinkLayer" [hwAddrGoString addr] [LHW addr]
      |call "NeighborDiscoveryTargetLinkLayer" [hwAddrGoString addr] [LHW addr]].
  - intros [[-> | ->] Ha];
      [call "ARPSourceHardwareAddress" [hwAddrGoString addr] [LHW addr]
      |call "ARPTargetHardwareAddress" [hwAddrGoString addr] [LHW addr]].
  - intros [-> | ->]; [call "ARPSourceProtocolAddress" [Quote ip] [LStr ip]
                      |call "ARPTargetProtocolAddress" [Quote ip] [LStr ip]].
  - unfold transportPortMatch_GoString. intros (Hd & Hp & Hm). destruct (Z.gtb_spec mask0 0).
    + destruct Hd as [-> | ->];
        [call "TransportSourceMaskedPort" [fmt_sharp_x port; fmt_sharp_x mask0] [LInt port; LInt mask0]
        |call "TransportDestinationMaskedPort" [fmt_sharp_x port; fmt_sharp_x mask0] [LInt port; LInt mask0]].
    + assert (mask0 = 0) as -> by (unfold in_u in Hm; lia).
      destruct Hd as [-> | ->]; [call "TransportSourcePort" [fmt_d port] [LInt port]
                                |call "TransportDestinationPort" [fmt_d port] [LInt port]].
  - intros [Ha Hb]. call "VLANTCI" ["0x" +:+ fmt_0x 4 tci; "0x" +:+ fmt_0x 4 mask0] [LInt tci; LInt mask0].
  - intros [Ha Hb].
    call "ConnectionTrackingMark" ["0x" +:+ fmt_0x 8 mark; "0x" +:+ fmt_0x 8 mask0] [LInt mark; LInt mask0].
  - intros Hn. call "ConnectionTrackingZone" [fmt_d zone] [LInt zone].
  - intros _. by apply (eval_strings matchFuncs "ConnectionTrackingState").
  - intros _. by apply (eval_strings matchFuncs "TCPFlags").
  - unfold tunnelIDMatch_GoString. intros [Ha Hb]. destruct (Z.gtb_spec mask0 0).
    + call "TunnelIDWithMask" [fmt_sharp_x id; fmt_sharp_x mask0] [LInt id; LInt mask0].
    + assert (mask0 = 0) as -> by (unfold in_u in Hb; lia). call "TunnelID" [fmt_sharp_x id] [LInt id].
Qed.

(** Only an IPv4 address that is not one has no Go expression. *)
Definition has_GoString (a : Action) : bool :=
  match a with modNetworkAction _ None => false | _ => true end.

(** The Go expression that [GoString] prints for a well-formed action, evaluated, is the action;
    with the single exception of an invalid IPv4 address, whose text has no value. *)
Theorem Action_GoString_evaluates (a : Action) :
  Action_wf a -> eval_call actionFuncs (Action_GoString a) = if has_GoString a then Some a else None.
Proof.
  destruct a as [s|args|d addr|d ip|d port|vid|port|id n size|port table|port|value field []|id];
    cbn [Action_wf Action_GoString has_GoString].
  - intros Hs. unfold textActions in Hs. repeat setoid_rewrite elem_of_cons in Hs.
    by destruct Hs as [-> | [-> | [-> | [-> | [-> | [-> | []%elem_of_nil]]]]]].
  - intros _. call "ConnectionTracking" [Quote args] [LStr args].
  - intros [[-> | ->] Ha]; [call "ModDataLinkSource" [hwAddrGoString addr] [LHW addr]
                           |call "ModDataLinkDestination" [hwAddrGoString addr] [LHW addr]].
  - destruct ip as [ip|]; [|by intros [[-> | ->] _]]. intros [Hd [Hl Hb]].
    destruct ip as [|a [|b [|c [|e [|]]]]]; try discriminate Hl.
    destruct Hd as [-> | ->];
      [call "ModNetworkSource" [ipv4GoString (Some [a; b; c; e])] [LIP (IPv4 a b c e)]
      |call "ModNetworkDestination" [ipv4GoString (Some [a; b; c; e])] [LIP (IPv4 a b c e)]].
  - intros [[-> | ->] Hp]; [call "ModTransportSourcePort" [fmt_d port] [LInt port]
                           |call "ModTransportDestinationPort" [fmt_d port] [LInt port]].
  - intros Hn. call "ModVLANVID" [fmt_d vid] [LInt vid].
  - intros Hn. call "Output" [fmt_d port] [LInt port].
  - intros (Ha & Hb & Hc).
    call "Conjunction" [fmt_d id; fmt_d n; fmt_d size] [LInt id; LInt n; LInt size].
  - intros [Ha Hb]. call "Resubmit" [fmt_d port; fmt_d table] [LInt port; LInt table].
  - intros Hn. call "ResubmitPort" [fmt_d port] [LInt port].
  - intros _. call "SetField" [Quote value; Quote field] [LStr value; LStr field].
  - intros _. call "Load" [Quote value; Quote field] [LStr value; LStr field].
  - intros Hn. call "SetTunnel" [fmt_sharp_x id] [LInt id].
Qed.
End Evaluated.

Lemma Match_GoString_evaluates_witness :
  let m := neighborDiscoveryLinkLayerMatch source [0xde; 0xad; 0xbe; 0xef; 0xde; 0xad] in
  Match_wf m /\ eval_call matchFuncs (@Match_GoString ascii_table m) = Some m.
Proof.
  set (m := neighborDiscoveryLinkLayerMatch _ _). assert (H : Match_wf m).
  { split; [by left|]. repeat constructor; unfold is_byte; lia. }
  split; [exact H|]. exact (@Match_GoString_evaluates ascii_table m H).
Defined.

Lemma Action_GoString_evaluates_witness :
  let a := loadSetFieldAction quote_sample "reg0" actionLoad in
  Action_wf a /\ eval_call actionFuncs (@Action_GoString ascii_table a) = Some a.
Proof. split; [exact I|]. exact (@Action_GoString_evaluates ascii_table (loadSetFieldAction _ _ _) I). Defined.
