(* ===== verification/ActionParser.v ===== *)
(** * Parsing actions

    Models [ovs/actionparser.go]: the [actionParser], which cuts a list of
    actions at the commas outside parentheses, and [parseAction].  The state of
    the parser is what is left to read and the height of its stack of open
    parentheses. *)

From S2P Require Import Prelude GoStrings GoConv GoNet Names GoScan Action.

(** ** [parseAction] *)

(** The submatches of the regular expressions, tried at one position after
    their literal prefix. *)
Definition ct_args (s : string) : option string :=
  fst <$> split_last ")" (fun _ => true) (fst (span re_nonspace s)).

Definition resubmit_args (s : string) : option (string * string) :=
  let (p, s) := span is_dec s in
  match s with
  | String "," s => let (t, s) := span is_dec s in
                    match s with String ")" _ => Some (p, t) | _ => None end
  | _ => None
  end.

Definition digits1 (s : string) : option string :=
  let (p, _) := span is_dec s in if nonempty p then Some p else None.

Definition arrow_args (s : string) : option (string * string) :=
  split_last "->" nonempty (fst (span re_nonspace s)).

Definition ctRe : string -> option string := find_re "ct(" ct_args.
Definition resubmitRe : string -> option (string * string) := find_re "resubmit(" resubmit_args.
Definition resubmitPortRe : string -> option string := find_re "resubmit:" digits1.
Definition loadRe : string -> option (string * string) := find_re "load:" arrow_args.
Definition setFieldRe : string -> option (string * string) := find_re "set_field:" arrow_args.

Definition scan_conjunction : scan (Z * Z * Z) :=
  scan_lits "conjunction(" ≫= fun _ => scanInt ≫= fun id =>
  scan_lit "," ≫= fun _ => scanInt ≫= fun n =>
  scan_lit "/" ≫= fun _ => scanInt ≫= fun size =>
  scan_lit ")" ≫= fun _ => mret (id, n, size).

Definition parse_modNetwork (prefix s : string) (mk : IP -> Action) : go Action :=
  ip ← Sscanf s (scan_lits prefix ≫= fun _ => scanString);
  match ParseIP ip ≫= To4 with
  | None => Err (Errorf "invalid IPv4 address: %s" [inl ip])
  | Some ip4 => Ok (mk ip4)
  end.

Definition parse_modDataLink (prefix s : string) (mk : HardwareAddr -> Action) : go Action :=
  addr ← Sscanf s (scan_lits prefix ≫= fun _ => scanString);
  mac ← ParseMAC addr; Ok (mk mac).

Definition optAtoi (s : string) : go Z := if (s =? "")%string then Ok 0 else Atoi s.

(** The string cases of [parseAction], after the ones that scan a prefix. *)
Definition parseAction_re (s : string) : go Action :=
  match resubmitRe s with
  | Some (p, t) => port ← optAtoi p; table ← optAtoi t; Ok (Resubmit port table)
  | None =>
  match resubmitPortRe s with
  | Some p => port ← Atoi p; Ok (ResubmitPort port)
  | None =>
  match loadRe s with
  | Some (value, field) => Ok (Load value field)
  | None =>
  match setFieldRe s with
  | Some (value, field) => Ok (SetField value field)
  | None => Err (Errorf "no action matched for %q" [inl s])
  end end end end.

(** The cases that scan a text with a given prefix. *)
Definition parseAction_rest (s : string) : go Action :=
  if HasPrefix s preModDataLinkDestination
  then parse_modDataLink preModDataLinkDestination s ModDataLinkDestination
  else if HasPrefix s preModDataLinkSource
  then parse_modDataLink preModDataLinkSource s ModDataLinkSource
  else if HasPrefix s preModNetworkDestination
  then parse_modNetwork preModNetworkDestination s ModNetworkDestination
  else if HasPrefix s preModNetworkSource
  then parse_modNetwork preModNetworkSource s ModNetworkSource
  else if HasPrefix s preModTransportDestinationPort
  then port ← Sscanf s (scan_lits preModTransportDestinationPort ≫= fun _ => scanUint16);
       Ok (ModTransportDestinationPort port)
  else if HasPrefix s preModTransportSourcePort
  then port ← Sscanf s (scan_lits preModTransportSourcePort ≫= fun _ => scanUint16);
       Ok (ModTransportSourcePort port)
  else if HasPrefix s preModVLANVID
  then vlan ← Sscanf s (scan_lits preModVLANVID ≫= fun _ => scanInt); Ok (ModVLANVID vlan)
  else if HasPrefix s preConjunction
  then '(id, n, size) ← Sscanf s scan_conjunction; Ok (Conjunction id n size)
  else if HasPrefix s preOutput
  then port ← Sscanf s (scan_lits preOutput ≫= fun _ => scanInt); Ok (Output port)
  else parseAction_re s.

Definition parseAction (s : string) : go Action :=
  let l := ToLower s in
  if (l =? actionDrop)%string then Ok Drop
  else if (l =? actionFlood)%string then Ok Flood
  else if (l =? actionInPort)%string then Ok InPort
  else if (l =? actionLocal)%string then Ok Local
  else if (l =? actionNormal)%string then Ok Normal
  else if (l =? actionStripVLAN)%string then Ok StripVLAN
  else match ctRe s with
  | Some args => Ok (ConnectionTracking args)
  | None => parseAction_rest s
  end.

(** ** The parser *)

Record actionParser := mkActionParser { p_rest : string; p_depth : nat }.

Definition newActionParser (s : string) : actionParser := mkActionParser s 0.

(** Reading one action: the loop of the method [parseAction] up to the end of
    the action.  [skip] counts the bytes of the current rune still to pass over.
    The rune 0 stands for the end of the text, so a NUL byte ends an action. *)
Inductive read_result :=
| NoAction
| RawAction (buf : string) (p : actionParser)
| PopEmpty.

Fixpoint read_action (skip : nat) (buf : string) (s : string) (depth : nat) : read_result :=
  match s with
  | EmptyString => if nonempty buf then RawAction buf (mkActionParser "" depth) else NoAction
  | String _ r =>
      match skip with
      | S k => read_action k buf r depth
      | O =>
          let (ch, n) := DecodeRune s in
          if (ch =? 44) && (depth =? 0)%nat then RawAction buf (mkActionParser r depth)
          else if ch =? 0 then
            if nonempty buf then RawAction buf (mkActionParser r depth) else NoAction
          else if ch =? 40 then read_action (n - 1) (buf +:+ EncodeRune ch) r (S depth)
          else if ch =? 41 then
            match depth with
            | O => PopEmpty
            | S depth => read_action (n - 1) (buf +:+ EncodeRune ch) r depth
            end
          else read_action (n - 1) (buf +:+ EncodeRune ch) r depth
      end
  end.

(** [stack.pop] slices below zero when the stack is empty. *)
Definition parser_parseAction (p : actionParser) : go (Action * string * actionParser) :=
  match read_action 0 "" (p_rest p) (p_depth p) with
  | NoAction => Err io_EOF
  | PopEmpty => Panic "slice bounds out of range"
  | RawAction s p =>
      if (0 <? p_depth p)%nat then Err (Errorf "invalid action: %q" [inl s])
      else act ← parseAction s; Ok (act, s, p)
  end.

Fixpoint Parse_fuel (fuel : nat) (p : actionParser) : go (list Action * list string) :=
  match fuel with
  | O => Panic "unreachable: out of fuel"
  | S fuel =>
      match parser_parseAction p with
      | Err io_EOF => Ok ([], [])
      | Err e => Err e
      | Panic w => Panic w
      | Ok (a, r, p) => '(actions, raw) ← Parse_fuel fuel p; Ok (a :: actions, r :: raw)
      end
  end.

(** Every call of the method but the last consumes at least one byte. *)
Definition Parse (p : actionParser) : go (list Action * list string) :=
  Parse_fuel (S (String.length (p_rest p))) p.

Definition ParseActions (s : string) : go (list Action) := fst <$> Parse (newActionParser s).

Example pa1 : ParseActions "ct(commit,exec(load:0x1->NXM_NX_CT_MARK[])),resubmit(,25),output:1" =
  Ok [ConnectionTracking "commit,exec(load:0x1->NXM_NX_CT_MARK[])"; Resubmit 0 25; Output 1].
Proof. vm_compute. reflexivity. Qed.
Example pa2 : ParseActions "mod_nw_dst:192.168.1.1,conjunction(123,1/2)" =
  Ok [modNetworkAction destination (Some [192; 168; 1; 1]); Conjunction 123 1 2].
Proof. vm_compute. reflexivity. Qed.
Example pa3 : ParseActions "resubmit(1,2" = Err (Errorf "invalid action: %q" [inl "resubmit(1,2"]).
Proof. vm_compute. reflexivity. Qed.
Example pa4 : ParseActions "set_field:192.168.1.1->arp_spa,load:0x2->NXM_OF_ARP_OP[]" =
  Ok [SetField "192.168.1.1" "arp_spa"; Load "0x2" "NXM_OF_ARP_OP[]"].
Proof. vm_compute. reflexivity. Qed.
Example pa5 : parseAction "ct()" = Err (Errorf "no action matched for %q" [inl "ct()"]).
Proof. vm_compute. reflexivity. Qed.
(** Behaviours of the code that its callers may not expect. *)
Example pa6 : is_Panic (ParseActions "drop)") = true. Proof. vm_compute. reflexivity. Qed.
Example pa7 : ParseActions "output:1,output:,drop" = Ok [Output 1]. Proof. vm_compute. reflexivity. Qed.
Example pa8 : parseAction "output:5abc" = Ok (Output 5). Proof. vm_compute. reflexivity. Qed.
Example pa9 : is_Ok (parseAction "set_tunnel:0xa") = false. Proof. vm_compute. reflexivity. Qed.

(** ** Round trip of single actions *)

Lemma runes_go_snd off off' k s : map snd (runes_go k off s) = map snd (runes_go k off' s).
Proof.
  revert off off' k. induction s as [|c s IH]; intros off off' k; [done|].
  cbn [runes_go]. destruct k; [|apply IH]. destruct (DecodeRune _) as [r n].
  cbn [map snd]. f_equal. apply IH.
Qed.

Lemma ToLower_cons c s :
  ascii_char c = true -> ToLower (String c s) = EncodeRune (lower_rune (code c)) +:+ ToLower s.
Proof.
  intros Hc. unfold ToLower, runes. cbn [runes_go]. rewrite DecodeRune_ascii by done.
  cbn [Nat.sub map String.concat snd].
  assert (Hm : forall l l' : list (nat * Z), map snd l = map snd l' ->
    map (fun ir => EncodeRune (lower_rune (snd ir))) l = map (fun ir => EncodeRune (lower_rune (snd ir))) l').
  { intros l l' H. rewrite <- !(map_map snd (fun r => EncodeRune (lower_rune r))). by rewrite H. }
  rewrite (Hm _ _ (runes_go_snd 1 0 0 s)).
  by destruct (map _ (runes_go 0 0 s)) eqn:E; cbn [String.concat]; rewrite ?app_nil_r', ?app_nil_l'.
Qed.

(** The first characters of a text, when they are ASCII lower case or not letters. *)
Definition lower_fixed (c : ascii) : bool :=
  ascii_char c && negb ((65 <=? code c) && (code c <=? 90)).

Lemma ToLower_prefix p s : all_chars lower_fixed p = true -> ToLower (p +:+ s) = p +:+ ToLower s.
Proof.
  induction p as [|c p IH]; [done|]. cbn [all_chars]. unfold lower_fixed at 1.
  intros [[Hc Hl]%andb_true_iff Hp]%andb_true_iff. apply negb_true_iff in Hl.
  rewrite !app_cons, ToLower_cons, IH by done.
  unfold lower_rune. rewrite Hl. unfold ascii_char in Hc. apply Z.ltb_lt in Hc.
  pose proof (code_range c).
  destruct (Z.eqb_spec (code c) 0x130); [lia|]. destruct (Z.eqb_spec (code c) 0x212A); [lia|].
  unfold EncodeRune. destruct (Z.leb_spec 0 (code c)); [|lia].
  destruct (Z.leb_spec (code c) 0x7F); [|lia]. cbn [andb]. by rewrite chr_code.
Qed.

(** [parseAction] past the simple actions: the text begins with [p], in lower
    case, that none of the six names begins with. *)
Definition not_simple (p : string) : bool :=
  all_chars lower_fixed p &&
  forallb (fun n => negb (String.prefix p n)) textActions.

Lemma not_simple_eqb p s n :
  String.prefix p n = false -> (p +:+ s =? n)%string = false.
Proof.
  intros Hp. apply String.eqb_neq. intros <-. by rewrite prefix_app in Hp.
Qed.

Lemma parseAction_prefix p s :
  not_simple p = true ->
  parseAction (p +:+ s) = match ctRe (p +:+ s) with
                          | Some args => Ok (ConnectionTracking args)
                          | None => parseAction_rest (p +:+ s)
                          end.
Proof.
  unfold not_simple, parseAction. intros [Hl Hn]%andb_true_iff.
  cbv zeta. rewrite (ToLower_prefix p s Hl). cbn [forallb textActions] in Hn.
  repeat match goal with
  | H : _ && _ = true |- _ => apply andb_true_iff in H as [?%negb_true_iff H]
  end.
  rewrite !not_simple_eqb by done. reflexivity.
Qed.

(** Without an opening parenthesis no [ct(] is found. *)
Lemma ctRe_none s : all_chars (other_than "(") s = true -> ctRe s = None.
Proof. intros H. by apply (find_re_char (other_than "(")). Qed.

Lemma HasPrefix_app p s : HasPrefix (p +:+ s) p = true.
Proof. apply prefix_app. Qed.

(** The scanned kinds of action. *)
Lemma parse_scanned p s a :
  not_simple p = true -> all_chars (other_than "(") (p +:+ s) = true ->
  parseAction_rest (p +:+ s) = Ok a -> parseAction (p +:+ s) = Ok a.
Proof. intros Hp Hs Ha. rewrite parseAction_prefix by done. by rewrite ctRe_none. Qed.

Lemma text_no_paren f p s :
  (forall c, f c = true -> other_than "(" c = true) ->
  all_chars (other_than "(") p = true -> all_chars f s = true ->
  all_chars (other_than "(") (p +:+ s) = true.
Proof.
  intros Hf Hp Hs. rewrite all_chars_app, Hp. cbn [andb]. by eapply all_chars_impl.
Qed.

Lemma fmt_no_paren p n :
  all_chars (other_than "(") p = true -> all_chars (other_than "(") (p +:+ fmt_d n) = true.
Proof.
  intros Hp. apply (text_no_paren num_char); [intros c; by apply num_char_other|done|apply fmt_d_num].
Qed.

Lemma addr_other c d : addr_char d = false -> addr_char c = true -> other_than d c = true.
Proof. intros Hd Hc. apply negb_true_iff, Ascii.eqb_neq. congruence. Qed.

Lemma addr_no_paren p s :
  all_chars (other_than "(") p = true -> all_chars addr_char s = true ->
  all_chars (other_than "(") (p +:+ s) = true.
Proof. apply text_no_paren. intros c. by apply addr_other. Qed.

Lemma addr_graphic c : addr_char c = true -> graphic c = true.
Proof.
  intros H. pose proof (forall_below 256 (fun z => negb (addr_char (chr z)) || graphic (chr z))
    ltac:(vm_compute; reflexivity) (code c) (code_range c)) as Hc.
  cbn beta in Hc. by rewrite chr_code, H in Hc.
Qed.

Lemma Sscanf_lits {A} p s (m : scan A) a r :
  m s = Ok (a, r) -> Sscanf (p +:+ s) (scan_lits p ≫= fun _ => m) = Ok a.
Proof. intros Hm. unfold Sscanf. rewrite scan_lits_bind, Hm. done. Qed.

(** The one-number actions. *)
Lemma scanInt_end n : in_i64 n -> scanInt (fmt_d n) = Ok (n, "").
Proof. intros Hn. rewrite <- (app_nil_r' (fmt_d n)). by apply scanInt_fmt. Qed.

Lemma scanUint16_end n : in_u 16 n -> scanUint16 (fmt_d n) = Ok (n, "").
Proof. intros Hn. rewrite <- (app_nil_r' (fmt_d n)). by apply scanUint16_fmt. Qed.

Lemma parse_output n : in_i64 n -> parseAction (preOutput +:+ fmt_d n) = Ok (Output n).
Proof.
  intros Hn. apply parse_scanned; [done|by apply fmt_no_paren|].
  unfold parseAction_rest. rewrite (HasPrefix_app preOutput).
  rewrite (Sscanf_lits _ _ _ n "") by (by apply scanInt_end). done.
Qed.

Lemma parse_vlan n : in_i64 n -> parseAction (preModVLANVID +:+ fmt_d n) = Ok (ModVLANVID n).
Proof.
  intros Hn. apply parse_scanned; [done|by apply fmt_no_paren|].
  unfold parseAction_rest. rewrite (HasPrefix_app preModVLANVID).
  rewrite (Sscanf_lits _ _ _ n "") by (by apply scanInt_end). done.
Qed.

Lemma parse_tp_dst n :
  in_u 16 n -> parseAction (preModTransportDestinationPort +:+ fmt_d n) = Ok (ModTransportDestinationPort n).
Proof.
  intros Hn. apply parse_scanned; [done|by apply fmt_no_paren|].
  unfold parseAction_rest. rewrite (HasPrefix_app preModTransportDestinationPort).
  rewrite (Sscanf_lits _ _ _ n "") by (by apply scanUint16_end). done.
Qed.

Lemma parse_tp_src n :
  in_u 16 n -> parseAction (preModTransportSourcePort +:+ fmt_d n) = Ok (ModTransportSourcePort n).
Proof.
  intros Hn. apply parse_scanned; [done|by apply fmt_no_paren|].
  unfold parseAction_rest. rewrite (HasPrefix_app preModTransportSourcePort).
  rewrite (Sscanf_lits _ _ _ n "") by (by apply scanUint16_end). done.
Qed.

(** Hardware and IPv4 addresses. *)
Lemma parse_modDataLink_String p a mk :
  Forall is_byte a -> mac_len (length a) = true ->
  parse_modDataLink p (p +:+ HardwareAddr_String a) mk = Ok (mk a).
Proof.
  intros Ha Hl. unfold parse_modDataLink.
  assert (Hg : all_chars graphic (HardwareAddr_String a) = true).
  { eapply all_chars_impl; [apply addr_graphic|]. by apply HardwareAddr_String_chars. }
  assert (Hne : HardwareAddr_String a <> "").
  { intros He. pose proof (ParseMAC_String a Ha Hl) as Hp. by rewrite He in Hp. }
  rewrite (Sscanf_lits _ _ _ (HardwareAddr_String a) "") by (by apply scanString_graphic).
  cbn [mbind go_bind]. by rewrite ParseMAC_String.
Qed.

(** A four-byte address and its sixteen-byte form. *)
Lemma IP4_16 ip :
  length ip = 4%nat -> Forall is_byte ip ->
  exists v, is_IP16 v /\ IP_String ip = IP_String v /\ To4 v = Some ip.
Proof.
  intros Hl Hb. destruct ip as [|a [|b [|c [|d [|]]]]]; try done.
  exists (IPv4 a b c d). split_and!; [|done|done]. split; [|done].
  rewrite !Forall_cons in Hb. apply IPv4_bytes; tauto.
Qed.

Lemma parse_modNetwork_String p ip mk :
  length ip = 4%nat -> Forall is_byte ip ->
  parse_modNetwork p (p +:+ IP_String ip) mk = Ok (mk ip).
Proof.
  intros Hl Hb. destruct (IP4_16 ip Hl Hb) as (v & Hv & -> & H4).
  pose proof (IP_String_chars _ Hv) as Hc. pose proof (ParseIP_String _ Hv) as Hp.
  unfold parse_modNetwork.
  assert (Hne : IP_String v <> "") by (intros He; by rewrite He in Hp).
  rewrite (Sscanf_lits _ _ _ (IP_String v) "").
  - cbn [mbind go_bind]. rewrite Hp. cbn [mbind option_bind]. by rewrite H4.
  - apply scanString_graphic; [done|]. eapply all_chars_impl; [apply addr_graphic|done].
Qed.

Lemma parse_mod_dl a mk p :
  (p, mk) ∈ [(preModDataLinkSource, ModDataLinkSource); (preModDataLinkDestination, ModDataLinkDestination)] ->
  Forall is_byte a -> length a = 6%nat ->
  parseAction (p +:+ HardwareAddr_String a) = Ok (mk a).
Proof.
  intros Hin Ha Hl. assert (Hm : mac_len (length a) = true) by (by rewrite Hl).
  pose proof (HardwareAddr_String_chars a Ha) as Hc.
  repeat (apply elem_of_cons in Hin as [[= -> ->]|Hin]; [|]); [| |by apply not_elem_of_nil in Hin].
  - apply parse_scanned; [done|by apply addr_no_paren|]. unfold parseAction_rest.
    rewrite (HasPrefix_app preModDataLinkSource). by apply parse_modDataLink_String.
  - apply parse_scanned; [done|by apply addr_no_paren|]. unfold parseAction_rest.
    rewrite (HasPrefix_app preModDataLinkDestination). by apply parse_modDataLink_String.
Qed.

Lemma IP4_String_chars ip :
  length ip = 4%nat -> Forall is_byte ip -> all_chars addr_char (IP_String ip) = true.
Proof. intros Hl Hb. destruct (IP4_16 ip Hl Hb) as (v & Hv & -> & _). by apply IP_String_chars. Qed.

Lemma parse_mod_nw ip mk p :
  (p, mk) ∈ [(preModNetworkSource, ModNetworkSource); (preModNetworkDestination, ModNetworkDestination)] ->
  length ip = 4%nat -> Forall is_byte ip ->
  parseAction (p +:+ IP_String ip) = Ok (mk ip).
Proof.
  intros Hin Hl Hb. pose proof (IP4_String_chars ip Hl Hb) as Hc.
  repeat (apply elem_of_cons in Hin as [[= -> ->]|Hin]; [|]); [| |by apply not_elem_of_nil in Hin].
  - apply parse_scanned; [done|by apply addr_no_paren|]. unfold parseAction_rest.
    rewrite (HasPrefix_app preModNetworkSource). by apply parse_modNetwork_String.
  - apply parse_scanned; [done|by apply addr_no_paren|]. unfold parseAction_rest.
    rewrite (HasPrefix_app preModNetworkDestination). by apply parse_modNetwork_String.
Qed.

(** Conjunctions. *)
Lemma fmt_d_head_not n c : num_char c = false -> stops (fun d => Ascii.eqb c d) (fmt_d n).
Proof.
  intros Hc. pose proof (fmt_d_num n) as Hn. destruct (fmt_d n) as [|d s]; [done|].
  cbn in *. apply andb_true_iff in Hn as [Hd _]. apply Ascii.eqb_neq. congruence.
Qed.

Lemma scan_conjunction_text id n size :
  in_i64 id -> in_i64 n -> in_i64 size ->
  scan_conjunction ("conjunction(" +:+ fmt_d id +:+ "," +:+ fmt_d n +:+ "/" +:+ fmt_d size +:+ ")")
  = Ok ((id, n, size), "").
Proof.
  intros Hi Hn Hs. unfold scan_conjunction. rewrite scan_lits_bind.
  erewrite scan_bind_Ok by (by apply scanInt_fmt).
  erewrite scan_bind_Ok by (rewrite app_cons; reflexivity).
  erewrite scan_bind_Ok by (rewrite app_nil_l'; by apply scanInt_fmt).
  erewrite scan_bind_Ok by (rewrite app_cons; reflexivity).
  erewrite scan_bind_Ok by (rewrite app_nil_l'; by apply scanInt_fmt).
  erewrite scan_bind_Ok by reflexivity. done.
Qed.

Lemma find_re_step {A} lit (m : string -> option A) c s :
  String.prefix lit (String c s) = false -> find_re lit m (String c s) = find_re lit m s.
Proof. intros H. cbn [find_re]. by rewrite H. Qed.

Lemma ctRe_conjunction s : all_chars (other_than "(") s = true -> ctRe ("conjunction(" +:+ s) = None.
Proof.
  intros Hs. unfold ctRe. rewrite !app_cons, app_nil_l'.
  repeat (rewrite find_re_step by reflexivity). by apply ctRe_none.
Qed.

Lemma num_no_paren n : all_chars (other_than "(") (fmt_d n) = true.
Proof. by apply (fmt_no_paren "" n). Qed.

Lemma parse_conjunction id n size :
  in_i64 id -> in_i64 n -> in_i64 size ->
  parseAction ("conjunction(" +:+ fmt_d id +:+ "," +:+ fmt_d n +:+ "/" +:+ fmt_d size +:+ ")")
  = Ok (Conjunction id n size).
Proof.
  intros Hi Hn Hs. rewrite parseAction_prefix by reflexivity.
  rewrite ctRe_conjunction by (by rewrite !all_chars_app, !num_no_paren).
  unfold parseAction_rest. pose proof (scan_conjunction_text id n size Hi Hn Hs) as Hc.
  revert Hc. change "conjunction(" with (preConjunction +:+ "(") at 1. rewrite app_assoc'.
  intros Hc. change ("conjunction(" +:+ ?x) with (preConjunction +:+ "(" +:+ x).
  rewrite (HasPrefix_app preConjunction). unfold Sscanf. by rewrite Hc.
Qed.

(** Resubmissions. *)
Lemma ctRe_resubmit s : all_chars (other_than "(") s = true -> ctRe ("resubmit(" +:+ s) = None.
Proof.
  intros Hs. unfold ctRe. rewrite !app_cons, app_nil_l'.
  repeat (rewrite find_re_step by reflexivity). by apply ctRe_none.
Qed.

(** The optional number of a [resubmit]: nothing stands for zero. *)
Definition opt_num (n : Z) : string := if negb (n =? 0) then Itoa n else "".

Lemma opt_num_dec n : 0 <= n -> all_chars is_dec (opt_num n) = true.
Proof.
  intros Hn. unfold opt_num, Itoa, FormatInt. destruct (n =? 0); [done|]. cbn [negb].
  destruct (Z.ltb_spec n 0); [lia|]. by apply FormatUint_dec.
Qed.

Lemma optAtoi_opt_num n : in_i64 n -> optAtoi (opt_num n) = Ok n.
Proof.
  intros Hn. unfold optAtoi, opt_num. destruct (Z.eqb_spec n 0) as [->|Hz]; [done|].
  cbn [negb]. pose proof (Atoi_fmt_d n Hn) as Ha. unfold fmt_d in Ha.
  change (Itoa n) with (FormatInt n 10). destruct (String.eqb_spec (FormatInt n 10) "") as [He|_]; [|done].
  by rewrite He in Ha.
Qed.

Lemma dec_no_paren s : all_chars is_dec s = true -> all_chars (other_than "(") s = true.
Proof.
  apply all_chars_impl. intros c Hc. apply negb_true_iff, Ascii.eqb_neq. by intros <-.
Qed.

Lemma parse_resubmit port table :
  0 <= port -> 0 <= table -> in_i64 port -> in_i64 table ->
  parseAction ("resubmit(" +:+ opt_num port +:+ "," +:+ opt_num table +:+ ")")
  = Ok (Resubmit port table).
Proof.
  intros Hp0 Ht0 Hp Ht. pose proof (opt_num_dec port Hp0) as Dp. pose proof (opt_num_dec table Ht0) as Dt.
  rewrite parseAction_prefix by reflexivity.
  rewrite ctRe_resubmit by (by rewrite !all_chars_app, (dec_no_paren _ Dp), (dec_no_paren _ Dt)).
  change (parseAction_rest ("resubmit(" +:+ ?x)) with (parseAction_re ("resubmit(" +:+ x)).
  unfold parseAction_re, resubmitRe.
  rewrite (find_re_here "resubmit(" resubmit_args _ (opt_num port, opt_num table)).
  - by rewrite !optAtoi_opt_num.
  - unfold resubmit_args. rewrite span_app by done. rewrite app_cons, app_nil_l'.
    by rewrite span_app.
Qed.

Lemma parse_resubmitPort port :
  0 <= port -> in_i64 port -> parseAction ("resubmit:" +:+ Itoa port) = Ok (ResubmitPort port).
Proof.
  intros Hp0 Hp. apply (parse_scanned "resubmit:"); [done|by apply fmt_no_paren|].
  change (parseAction_rest ("resubmit:" +:+ ?x)) with (parseAction_re ("resubmit:" +:+ x)).
  unfold parseAction_re, resubmitRe.
  rewrite (find_re_char (other_than "(")) by (done || by apply fmt_no_paren).
  unfold resubmitPortRe. rewrite (find_re_here _ _ _ (Itoa port)).
  - pose proof (Atoi_fmt_d port Hp) as Ha. unfold fmt_d in Ha. unfold Itoa. by rewrite Ha.
  - unfold digits1, Itoa, FormatInt. destruct (Z.ltb_spec port 0); [lia|].
    rewrite span_all by (by apply FormatUint_dec).
    by destruct (FormatUint_head port 10) as (c & s & ->).
Qed.

(** Connection tracking and the field actions. *)
Lemma parse_ct args :
  args <> "" -> all_chars re_nonspace args = true ->
  parseAction ("ct(" +:+ args +:+ ")") = Ok (ConnectionTracking args).
Proof.
  intros Hne Ha. rewrite parseAction_prefix by reflexivity. unfold ctRe.
  rewrite (find_re_here "ct(" ct_args _ args); [done|]. unfold ct_args.
  rewrite span_all by (by rewrite all_chars_app, Ha). cbn [fst].
  rewrite <- (app_nil_r' (args +:+ ")")), app_assoc'.
  by rewrite split_last_app.
Qed.

Lemma arrow_args_app value field :
  value <> "" -> field <> "" -> all_chars re_nonspace value = true ->
  all_chars re_nonspace field = true -> Contains field "->" = false ->
  arrow_args (value +:+ "->" +:+ field) = Some (value, field).
Proof.
  intros Hv Hf Av Af Hc. unfold arrow_args.
  rewrite span_all by (by rewrite !all_chars_app, Av, Af). cbn [fst].
  apply split_last_app; [done| |by destruct field].
  rewrite app_cons, app_cons, app_nil_l'. pose proof (split_last_none "->" nonempty _ Hc) as Hn.
  assert (Hp : String.prefix "->" field = false).
  { destruct field; [done|]. unfold Contains in Hc. cbn [Index] in Hc. by destruct (String.prefix _ _). }
  cbn [split_last]. rewrite Hn, Hp. done.
Qed.

Definition field_ok (value field : string) (t : string) : Prop :=
  all_chars re_nonspace value = true /\ all_chars re_nonspace field = true /\
  all_chars (other_than "(") t = true /\ Contains field "->" = false /\
  Contains t "resubmit:" = false.

Lemma parse_load value field :
  value <> "" -> field <> "" -> field_ok value field ("load:" +:+ value +:+ "->" +:+ field) ->
  parseAction ("load:" +:+ value +:+ "->" +:+ field) = Ok (Load value field).
Proof.
  intros Hv Hf (Av & Af & Hp & Hc & Hr). apply (parse_scanned "load:"); [done|done|].
  change (parseAction_rest ("load:" +:+ ?x)) with (parseAction_re ("load:" +:+ x)).
  unfold parseAction_re, resubmitRe, resubmitPortRe.
  rewrite (find_re_char (other_than "(")) by done. rewrite find_re_absent by done.
  unfold loadRe. by rewrite (find_re_here _ _ _ (value, field)) by (by apply arrow_args_app).
Qed.

Lemma parse_setField value field :
  value <> "" -> field <> "" -> field_ok value field ("set_field:" +:+ value +:+ "->" +:+ field) ->
  Contains ("set_field:" +:+ value +:+ "->" +:+ field) "load:" = false ->
  parseAction ("set_field:" +:+ value +:+ "->" +:+ field) = Ok (SetField value field).
Proof.
  intros Hv Hf (Av & Af & Hp & Hc & Hr) Hl. apply (parse_scanned "set_field:"); [done|done|].
  change (parseAction_rest ("set_field:" +:+ ?x)) with (parseAction_re ("set_field:" +:+ x)).
  unfold parseAction_re, resubmitRe, resubmitPortRe, loadRe.
  rewrite (find_re_char (other_than "(")) by done. rewrite !find_re_absent by done.
  unfold setFieldRe. by rewrite (find_re_here _ _ _ (value, field)) by (by apply arrow_args_app).
Qed.

(** The actions whose text the parser reads back: the free text of [ct] has no
    white space; the free text of [load] and [set_field] has no white space, no
    opening parenthesis, and no text of an earlier case; a [resubmit] has no
    negative number.  [set_tunnel] has no parser. *)
Definition parsable (a : Action) : Prop :=
  match a with
  | ctAction args => all_chars re_nonspace args = true
  | resubmitAction port table => 0 <= port /\ 0 <= table
  | loadSetFieldAction value field actionLoad =>
      field_ok value field ("load:" +:+ value +:+ "->" +:+ field)
  | loadSetFieldAction value field actionSetField =>
      field_ok value field ("set_field:" +:+ value +:+ "->" +:+ field) /\
      Contains ("set_field:" +:+ value +:+ "->" +:+ field) "load:" = false
  | setTunnelAction _ => False
  | _ => True
  end.

Lemma Action_reparses a t :
  Action_wf a -> parsable a -> Action_MarshalText a = Ok t -> parseAction t = Ok a.
Proof.
  destruct a as [s|args|d addr|d ip|d port|vid|port|id n size|port table|port|value field typ|tid];
    cbn [Action_wf parsable Action_MarshalText].
  - intros Hs _ [= <-]. unfold textActions in Hs.
    repeat (apply elem_of_cons in Hs as [->|Hs]; [reflexivity|]). by apply not_elem_of_nil in Hs.
  - intros _ Ha. unfold ctAction_MarshalText. destruct (String.eqb_spec args ""); [done|].
    intros [= <-]. by apply parse_ct.
  - intros [Hd Hb] _. unfold modDataLinkAction_MarshalText.
    destruct (Nat.eqb_spec (length addr) ethernetAddrLen) as [Hl|]; [|done]. cbn [negb].
    destruct Hd as [-> | ->]; intros [= <-]; apply parse_mod_dl; auto; set_solver.
  - intros [Hd Hip] _. unfold modNetworkAction_MarshalText. destruct ip as [ip|]; [|done].
    destruct Hip as [Hl Hb]. pose proof (f_equal (Nat.eqb) Hl) as _.
    assert (H4 : To4 ip = Some ip) by (unfold To4; by rewrite Hl).
    destruct Hd as [-> | ->]; intros [= <-].
    + rewrite (parse_mod_nw ip ModNetworkSource) by (done || set_solver). unfold ModNetworkSource. by rewrite H4.
    + rewrite (parse_mod_nw ip ModNetworkDestination) by (done || set_solver).
      unfold ModNetworkDestination. by rewrite H4.
  - intros [[-> | ->] Hp] _ [= <-]; [by apply parse_tp_src|by apply parse_tp_dst].
  - intros Hv _. unfold modVLANVIDAction_MarshalText. destruct (negb _); [done|].
    intros [= <-]. by apply parse_vlan.
  - intros Hp _. unfold outputAction_MarshalText. destruct (_ <? _); [done|].
    intros [= <-]. by apply parse_output.
  - intros (Hi & Hn & Hs) _. unfold conjunctionAction_MarshalText. destruct (_ >? _); [done|].
    intros [= <-]. unfold preConjunction. by apply parse_conjunction.
  - intros [Hp Ht] [Hp0 Ht0]. unfold resubmitAction_MarshalText. destruct (_ && _); [done|].
    intros [= <-]. by apply parse_resubmit.
  - intros Hp _. unfold resubmitPortAction_MarshalText. destruct (_ || _) eqn:Hr; [done|].
    bools. intros [= <-]. by apply parse_resubmitPort.
  - unfold loadSetFieldAction_MarshalText.
    destruct (String.eqb_spec value ""), (String.eqb_spec field ""); try done. cbn [orb].
    destruct typ; intros _.
    + intros [Hok Hl] [= <-]. by apply parse_setField.
    + intros Hok [= <-]. by apply parse_load.
  - by intros _ [].
Qed.

(** ** Cutting the text into actions *)

(** [closed d s]: read at depth [d], the ASCII text [s] closes every parenthesis
    it opens and those [d], never one more, and has a comma only inside
    parentheses. *)
Fixpoint closed (d : nat) (s : string) : bool :=
  match s with
  | EmptyString => (d =? 0)%nat
  | String c r =>
      ascii_char c && negb (code c =? 0) &&
      (if code c =? 40 then closed (S d) r
       else if code c =? 41 then match d with O => false | S d => closed d r end
       else if code c =? 44 then (0 <? d)%nat && closed d r
       else closed d r)
  end.

(** What may follow an action: nothing or a comma. *)
Definition after_action (t : string) : string :=
  match t with EmptyString => "" | String _ r => r end.

Lemma EncodeRune_ascii_chr c : ascii_char c = true -> EncodeRune (code c) = sing c.
Proof.
  unfold ascii_char, EncodeRune. intros H%Z.ltb_lt. pose proof (code_range c).
  destruct (Z.leb_spec 0 (code c)); [|lia]. destruct (Z.leb_spec (code c) 0x7F); [|lia].
  cbn [andb]. by rewrite chr_code.
Qed.

Lemma nonempty_app_r s c : nonempty (s +:+ sing c) = true.
Proof. by destruct s. Qed.

Lemma read_action_end buf t :
  nonempty buf = true -> (t = "" \/ exists r, t = String "," r) ->
  read_action 0 buf t 0 = RawAction buf (mkActionParser (after_action t) 0).
Proof.
  intros Hb [->|[r ->]]; [cbn; by rewrite Hb|]. cbn [read_action].
  rewrite DecodeRune_ascii by done. done.
Qed.

Lemma read_action_closed s d buf t :
  closed d s = true -> nonempty (buf +:+ s) = true ->
  (t = "" \/ exists r, t = String "," r) ->
  read_action 0 buf (s +:+ t) d = RawAction (buf +:+ s) (mkActionParser (after_action t) 0).
Proof.
  revert d buf. induction s as [|c s IH]; intros d buf Hc Hb Ht.
  - apply Nat.eqb_eq in Hc as ->. rewrite app_nil_r' in *. rewrite app_nil_l'.
    by apply read_action_end.
  - cbn [closed] in Hc. apply andb_true_iff in Hc as [[Ha Hz]%andb_true_iff Hc].
    apply negb_true_iff in Hz.
    assert (Hb' : nonempty ((buf +:+ sing c) +:+ s) = true).
    { rewrite app_assoc'. rewrite app_cons, app_nil_l'. by destruct buf. }
    assert (Happ : buf +:+ String c s = (buf +:+ sing c) +:+ s).
    { by rewrite app_assoc', app_cons, app_nil_l'. }
    rewrite app_cons. cbn [read_action]. rewrite DecodeRune_ascii by done. cbn [Nat.sub].
    rewrite EncodeRune_ascii_chr, Hz, Happ by done.
    destruct (Z.eqb_spec (code c) 40) as [->|].
    + cbn [Z.eqb Pos.eqb andb]. by apply IH.
    + destruct (Z.eqb_spec (code c) 41) as [->|].
      * cbn [Z.eqb Pos.eqb andb]. destruct d; [done|]. by apply IH.
      * destruct (Z.eqb_spec (code c) 44).
        -- apply andb_true_iff in Hc as [Hd Hc]. destruct d; [done|]. cbn [Nat.eqb andb]. by apply IH.
        -- cbn [andb]. by apply IH.
Qed.

(** Reading consumes the text: an action leaves strictly less of it. *)
Lemma read_action_length skip buf s d b p :
  read_action skip buf s d = RawAction b p ->
  (String.length (p_rest p) <= String.length s)%nat /\
  (nonempty buf = false -> String.length (p_rest p) < String.length s)%nat.
Proof.
  revert skip buf d. induction s as [|c s IH]; intros skip buf d; cbn [read_action].
  - destruct (nonempty buf); [|done]. intros [= <- <-]. cbn. split; [lia|done].
  - destruct skip as [|k].
    + destruct (DecodeRune (String c s)) as [ch n].
      assert (Hgo : forall k b' d', read_action k b' s d' = RawAction b p ->
        (String.length (p_rest p) <= String.length (String c s))%nat /\
        (nonempty buf = false -> (String.length (p_rest p) < String.length (String c s))%nat)).
      { intros k b' d' [H _]%IH. cbn [String.length]. split; [lia|intros _; lia]. }
      destruct (_ && _); [intros [= <- <-]; cbn; split; [lia|intros _; lia]|].
      destruct (ch =? 0).
      { destruct (nonempty buf); [|done]. intros [= <- <-]. cbn. split; [lia|done]. }
      destruct (ch =? 40); [apply Hgo|]. destruct (ch =? 41); [|apply Hgo].
      destruct d; [done|apply Hgo].
    + intros [H _]%IH. cbn [String.length]. split; [lia|intros _; lia].
Qed.

Lemma parser_parseAction_shorter p a r p' :
  parser_parseAction p = Ok (a, r, p') ->
  (String.length (p_rest p') < String.length (p_rest p))%nat /\ p_depth p' = 0%nat.
Proof.
  unfold parser_parseAction. destruct (read_action _ _ _ _) as [|b q|] eqn:Hr; [done| |done].
  destruct (Nat.ltb_spec 0 (p_depth q)); [done|]. intros (x & _ & [= _ _ <-])%bind_Ok_inv.
  apply read_action_length in Hr as [_ Hl]. split; [by apply Hl|lia].
Qed.

(** More fuel than text changes nothing. *)
Lemma Parse_fuel_enough k p :
  (String.length (p_rest p) < k)%nat -> Parse_fuel k p = Parse p.
Proof.
  assert (H : forall n k p, (String.length (p_rest p) <= n)%nat -> (n < k)%nat ->
    Parse_fuel k p = Parse_fuel (S n) p).
  { clear. induction n as [|n IH]; intros k p Hl Hk; (destruct k as [|k]; [lia|]);
      cbn [Parse_fuel]; destruct (parser_parseAction p) as [[[a r] p']|e|] eqn:Hp; try reflexivity;
      apply parser_parseAction_shorter in Hp as [Hs _]; [lia|].
    rewrite (IH k p'); [done|lia|lia]. }
  intros Hk. unfold Parse. by apply H.
Qed.

Lemma Parse_step p :
  Parse p = match parser_parseAction p with
            | Err io_EOF => Ok ([], [])
            | Err e => Err e
            | Panic w => Panic w
            | Ok (a, r, p') => '(actions, raw) ← Parse p'; Ok (a :: actions, r :: raw)
            end.
Proof.
  unfold Parse at 1. cbn [Parse_fuel].
  destruct (parser_parseAction p) as [[[a r] p']|e|] eqn:Hp; [|reflexivity..].
  apply parser_parseAction_shorter in Hp as [Hs _]. by rewrite Parse_fuel_enough.
Qed.

(** *** Closed texts *)

Definition neutral (c : ascii) : bool :=
  ascii_char c && negb (code c =? 0) && negb (code c =? 40) && negb (code c =? 41) && negb (code c =? 44).

Lemma closed_neutral p s d : all_chars neutral p = true -> closed d (p +:+ s) = closed d s.
Proof.
  induction p as [|c p IH]; [done|]. cbn [all_chars]. unfold neutral at 1.
  intros [Hc Hp]%andb_true_iff. bools. rewrite app_cons. cbn [closed].
  repeat match goal with
  | H : ascii_char c = true |- _ => rewrite H; clear H
  | H : code c <> ?n |- _ => apply Z.eqb_neq in H; rewrite H; clear H
  end. cbn [negb andb]. auto.
Qed.

Lemma closed_app p s d : closed d p = true -> closed 0 s = true -> closed d (p +:+ s) = true.
Proof.
  intros Hp Hs. revert d Hp. induction p as [|c p IH]; intros d Hp.
  - apply Nat.eqb_eq in Hp as ->. by rewrite app_nil_l'.
  - rewrite app_cons. cbn [closed] in *. apply andb_true_iff in Hp as [-> Hp]. cbn [andb].
    repeat case_match; try discriminate; auto. apply andb_true_iff in Hp as [-> Hp]. cbn [andb]. auto.
Qed.

Lemma neutral_range (f : ascii -> bool) :
  forallb (fun z => negb (f (chr z)) || neutral (chr z)) (List.map Z.of_nat (List.seq 0 256)) = true ->
  forall c, f c = true -> neutral c = true.
Proof.
  intros Hall c Hc.
  pose proof (forall_below 256 (fun z => negb (f (chr z)) || neutral (chr z)) Hall (code c) (code_range c)) as H.
  cbn beta in H. by rewrite chr_code, Hc in H.
Qed.

Lemma num_neutral s : all_chars num_char s = true -> all_chars neutral s = true.
Proof. apply all_chars_impl, neutral_range. vm_compute. reflexivity. Qed.

Lemma addr_neutral s : all_chars addr_char s = true -> all_chars neutral s = true.
Proof. apply all_chars_impl, neutral_range. vm_compute. reflexivity. Qed.

Lemma fmt_neutral n : all_chars neutral (fmt_d n) = true.
Proof. apply num_neutral, fmt_d_num. Qed.

Lemma opt_num_neutral n : all_chars neutral (opt_num n) = true.
Proof. unfold opt_num. destruct (n =? 0); [done|]. apply fmt_neutral. Qed.

Lemma closed_all p s : all_chars neutral p = true -> all_chars neutral s = true -> closed 0 (p +:+ s) = true.
Proof.
  intros Hp Hs. rewrite closed_neutral by done. rewrite <- (app_nil_r' s). by rewrite closed_neutral.
Qed.

(** The free text of an action closes its parentheses and shields its commas. *)
Definition text_closed (a : Action) : Prop :=
  match a with
  | ctAction args => closed 0 ("ct(" +:+ args +:+ ")") = true
  | loadSetFieldAction value field _ => closed 0 value = true /\ closed 0 field = true
  | _ => True
  end.

Lemma closed_paren p d s : all_chars neutral p = true -> closed d (p +:+ "(" +:+ s) = closed (S d) s.
Proof. intros Hp. by rewrite closed_neutral. Qed.

Lemma closed_comma d s : closed (S d) ("," +:+ s) = closed (S d) s.
Proof. done. Qed.

Lemma Action_closed a t :
  Action_wf a -> text_closed a -> Action_MarshalText a = Ok t -> closed 0 t = true.
Proof.
  destruct a as [s|args|d addr|d ip|d port|vid|port|id n size|port table|port|value field typ|tid];
    cbn [Action_wf text_closed Action_MarshalText].
  - intros Hs _ [= <-]. unfold textActions in Hs.
    repeat (apply elem_of_cons in Hs as [->|Hs]; [reflexivity|]). by apply not_elem_of_nil in Hs.
  - intros _ Hc. unfold ctAction_MarshalText. destruct (_ =? _)%string; [done|]. by intros [= <-].
  - intros [_ Hb] _. unfold modDataLinkAction_MarshalText. destruct (negb _); [done|].
    destruct (_ =? _)%string; intros [= <-]; apply closed_all;
      auto using addr_neutral, HardwareAddr_String_chars.
  - intros [_ Hip] _. unfold modNetworkAction_MarshalText. destruct ip as [ip|]; [|done].
    destruct Hip. destruct (_ =? _)%string; intros [= <-]; apply closed_all;
      auto using addr_neutral, IP4_String_chars.
  - intros _ _. unfold modTransportPortAction_MarshalText.
    destruct (_ =? _)%string; intros [= <-]; apply closed_all; auto using fmt_neutral.
  - intros _ _. unfold modVLANVIDAction_MarshalText. destruct (negb _); [done|].
    intros [= <-]. apply closed_all; auto using fmt_neutral.
  - intros _ _. unfold outputAction_MarshalText. destruct (_ <? _); [done|].
    intros [= <-]. apply closed_all; auto using fmt_neutral.
  - intros _ _. unfold conjunctionAction_MarshalText. destruct (_ >? _); [done|].
    intros [= <-]. rewrite closed_paren by done. rewrite (closed_neutral (fmt_d id)) by apply fmt_neutral.
    rewrite closed_comma, (closed_neutral (fmt_d n)) by apply fmt_neutral.
    rewrite (closed_neutral "/"), (closed_neutral (fmt_d size)) by (done || apply fmt_neutral). done.
  - intros _ _. unfold resubmitAction_MarshalText. destruct (_ && _); [done|]. intros [= <-].
    change (closed 0 ("resubmit" +:+ "(" +:+ opt_num port +:+ "," +:+ opt_num table +:+ ")") = true).
    rewrite closed_paren by done. rewrite (closed_neutral (opt_num port)) by apply opt_num_neutral.
    by rewrite closed_comma, (closed_neutral (opt_num table)) by apply opt_num_neutral.
  - intros _ _. unfold resubmitPortAction_MarshalText. destruct (_ || _); [done|].
    intros [= <-]. apply closed_all; [done|apply fmt_neutral].
  - intros _ [Hv Hf]. unfold loadSetFieldAction_MarshalText. destruct (_ || _); [done|].
    destruct typ; intros [= <-]; rewrite closed_neutral by done;
      (apply closed_app; [done|]); by rewrite closed_neutral.
  - intros Hn _ [= <-]. apply closed_all; [done|]. unfold fmt_sharp_x.
    apply num_neutral, sharp_num, FormatUint_xdigits. apply Hn.
Qed.

(** ** Theorems *)

Lemma parser_read_one s t :
  closed 0 s = true -> s <> "" -> (t = "" \/ exists r, t = String "," r) ->
  parser_parseAction (newActionParser (s +:+ t)) =
  act ← parseAction s; Ok (act, s, newActionParser (after_action t)).
Proof.
  intros Hc Hne Ht. unfold parser_parseAction. cbn [p_rest p_depth newActionParser].
  rewrite read_action_closed by (done || by destruct s). done.
Qed.

Lemma Parse_empty : Parse (newActionParser "") = Ok ([], []).
Proof. reflexivity. Qed.

Lemma Parse_texts acts ts :
  Forall2 (fun a t => parseAction t = Ok a /\ closed 0 t = true) acts ts ->
  Parse (newActionParser (Join ts ",")) = Ok (acts, ts).
Proof.
  induction 1 as [|a t acts ts [Hp Hc] Hl IH]; [apply Parse_empty|].
  assert (Hne : t <> "") by (intros ->; vm_compute in Hp; discriminate Hp).
  rewrite Parse_step. destruct ts as [|t' ts].
  - cbn [Join]. rewrite <- (app_nil_r' t) at 1. rewrite parser_read_one by auto.
    rewrite Hp. cbn [mbind go_bind after_action]. inversion Hl; subst. by rewrite Parse_empty.
  - rewrite Join_cons by done. rewrite parser_read_one by eauto.
    rewrite Hp. cbn [mbind go_bind after_action]. rewrite app_cons, app_nil_l'.
    cbn [after_action]. by rewrite IH.
Qed.



(** A single well-formed, [parsable] action is parsed back from its text. *)
Theorem parseAction_roundtrip a t :
  Action_wf a -> parsable a -> Action_MarshalText a = Ok t -> parseAction t = Ok a.
Proof. apply Action_reparses. Qed.

Lemma parseAction_roundtrip_witness : parseAction "conjunction(-5,1/2)" = Ok (Conjunction (-5) 1 2).
Proof.
  apply (parseAction_roundtrip (Conjunction (-5) 1 2)); [|exact I|reflexivity].
  repeat split; vm_compute; congruence.
Defined.

(** *** Safety of [parseAction] *)

Lemma scan_conjunction_safe : scan_safe scan_conjunction.
Proof. unfold scan_conjunction. repeat (apply scan_safe_bind; [auto with go|intros ?]). auto with go. Qed.

Lemma scan_conjunction_range s id n size r :
  scan_conjunction s = Ok ((id, n, size), r) -> in_i64 id /\ in_i64 n /\ in_i64 size.
Proof.
  unfold scan_conjunction. intros H. inv_scan H.
  apply scanInt_range in Hm0, Hm2, Hm4. injection H as <- <- <- _. auto.
Qed.

Lemma optAtoi_range s n : optAtoi s = Ok n -> in_i64 n.
Proof.
  unfold optAtoi. destruct (_ =? _)%string; [intros [= <-]; vm_compute; split; congruence|apply Atoi_range].
Qed.

Lemma optAtoi_no_panic s : is_Panic (optAtoi s) = false.
Proof. unfold optAtoi. destruct (_ =? _)%string; [done|apply Atoi_no_panic]. Qed.

Lemma parseAction_re_safe s :
  is_Panic (parseAction_re s) = false /\ forall a, parseAction_re s = Ok a -> Action_wf a.
Proof.
  unfold parseAction_re. destruct (resubmitRe s) as [[p t]|]; [|destruct (resubmitPortRe s);
    [|destruct (loadRe s) as [[]|]; [|destruct (setFieldRe s) as [[]|]]]].
  - split.
    + apply bind_no_panic; [apply optAtoi_no_panic|]. intros ? _.
      apply bind_no_panic; [apply optAtoi_no_panic|done].
    + intros a (x & Hx & (y & Hy & [= <-])%bind_Ok_inv)%bind_Ok_inv.
      apply optAtoi_range in Hx, Hy. done.
  - split; [apply bind_no_panic; [apply Atoi_no_panic|done]|].
    intros a (x & Hx & [= <-])%bind_Ok_inv. by apply Atoi_range in Hx.
  - split; [done|]. by intros a [= <-].
  - split; [done|]. by intros a [= <-].
  - done.
Qed.

Lemma parse_modDataLink_safe p s mk :
  (forall mac, Forall is_byte mac -> Action_wf (mk mac)) ->
  is_Panic (parse_modDataLink p s mk) = false /\
  forall a, parse_modDataLink p s mk = Ok a -> Action_wf a.
Proof.
  intros Hmk. unfold parse_modDataLink. split.
  - apply bind_no_panic; [apply Sscanf_safe; auto with go|]. intros ? _.
    apply bind_no_panic; [|done]. unfold ParseMAC, from_option_err. by repeat case_match.
  - intros a (x & _ & (y & [Hy _]%ParseMAC_spec & [= <-])%bind_Ok_inv)%bind_Ok_inv. auto.
Qed.

Lemma parse_modNetwork_safe p s d :
  d = source \/ d = destination ->
  let mk := fun ip => modNetworkAction d (To4 ip) in
  is_Panic (parse_modNetwork p s mk) = false /\
  forall a, parse_modNetwork p s mk = Ok a -> Action_wf a.
Proof.
  intros Hd mk. unfold parse_modNetwork. split.
  - apply bind_no_panic; [apply Sscanf_safe; auto with go|]. intros ? _. by destruct (_ ≫= To4).
  - intros a (x & _ & H)%bind_Ok_inv. destruct (ParseIP x ≫= To4) as [ip4|] eqn:Hp; [|done].
    injection H as <-. apply bind_Some in Hp as (v & Hv & H4). apply ParseIP_IP16 in Hv as [Hb Hl].
    destruct (To4_IP16 v ip4 Hl H4) as (b1 & b2 & b3 & b4 & -> & ->).
    cbn. split; [done|]. split; [done|]. unfold IPv4 in Hb. rewrite !Forall_cons in Hb.
    rewrite !Forall_cons. tauto.
Qed.

Lemma scanned_safe {A} p s (m : scan A) (mk : A -> Action) :
  scan_safe m -> (forall s a r, m s = Ok (a, r) -> Action_wf (mk a)) ->
  is_Panic (x ← Sscanf s (scan_lits p ≫= fun _ => m); Ok (mk x)) = false /\
  forall a, (x ← Sscanf s (scan_lits p ≫= fun _ => m); Ok (mk x)) = Ok a -> Action_wf a.
Proof.
  intros Hm Hw. split.
  - apply bind_no_panic; [apply Sscanf_safe; auto with go|done].
  - intros a (x & (r & Hx)%Sscanf_inv & [= <-])%bind_Ok_inv.
    inv_scan Hx. eauto.
Qed.

Lemma parseAction_rest_safe s :
  is_Panic (parseAction_rest s) = false /\ forall a, parseAction_rest s = Ok a -> Action_wf a.
Proof.
  unfold parseAction_rest.
  destruct (HasPrefix s _); [apply parse_modDataLink_safe; cbn; auto|].
  destruct (HasPrefix s _); [apply parse_modDataLink_safe; cbn; auto|].
  destruct (HasPrefix s _); [apply (parse_modNetwork_safe _ _ destination); auto|].
  destruct (HasPrefix s _); [apply (parse_modNetwork_safe _ _ source); auto|].
  destruct (HasPrefix s _).
  { apply scanned_safe; [auto with go|]. intros ? ? ? H%scanUint16_range. cbn. auto. }
  destruct (HasPrefix s _).
  { apply scanned_safe; [auto with go|]. intros ? ? ? H%scanUint16_range. cbn. auto. }
  destruct (HasPrefix s _).
  { apply scanned_safe; [auto with go|]. intros ? ? ? H%scanInt_range. done. }
  destruct (HasPrefix s _).
  { split.
    - apply bind_no_panic; [apply Sscanf_safe, scan_conjunction_safe|]. by intros [[? ?] ?] _.
    - intros a ([[x y] z] & (r & Hx)%Sscanf_inv & [= <-])%bind_Ok_inv.
      by apply scan_conjunction_range in Hx. }
  destruct (HasPrefix s _); [|apply parseAction_re_safe].
  apply scanned_safe; [auto with go|]. intros ? ? ? H%scanInt_range. done.
Qed.

Lemma parseAction_total s :
  is_Panic (parseAction s) = false /\ forall a, parseAction s = Ok a -> Action_wf a.
Proof.
  unfold parseAction.
  assert (Hname : forall n, n ∈ textActions ->
    is_Panic (Ok (textAction n)) = false /\ forall a, Ok (textAction n) = Ok a -> Action_wf a).
  { intros n Hn. split; [done|]. by intros a [= <-]. }
  unfold textActions in Hname. cbv zeta.
  repeat (destruct (_ =? _)%string; [apply Hname; repeat (apply list_elem_of_here || apply list_elem_of_further)|]).
  destruct (ctRe s); [|apply parseAction_rest_safe]. split; [done|]. by intros a [= <-].
Qed.

(** [parseAction] never panics, and every action it returns has its fields
    in the range of their Go types. *)
Theorem parseAction_safe s :
  is_Panic (parseAction s) = false /\ forall a, parseAction s = Ok a -> Action_wf a.
Proof. apply parseAction_total. Qed.

Lemma parser_parseAction_wf p a r q : parser_parseAction p = Ok (a, r, q) -> Action_wf a.
Proof.
  unfold parser_parseAction. destruct (read_action _ _ _ _); [done| |done].
  destruct (_ <? _)%nat; [done|]. intros (x & Hx%parseAction_total & [= <- _ _])%bind_Ok_inv. done.
Qed.

(** *** Unmatched parentheses *)

(** Read as bytes, no closing parenthesis comes before its opening one. *)
Fixpoint never_below (d : nat) (s : string) : bool :=
  match s with
  | EmptyString => true
  | String c r =>
      if code c =? 40 then never_below (S d) r
      else if code c =? 41 then match d with O => false | S d => never_below d r end
      else never_below d r
  end.

(** The bytes of a rune after the first are not ASCII. *)
Fixpoint high_bytes (k : nat) (s : string) : bool :=
  match k, s with
  | S k, String c r => (0x80 <=? code c) && high_bytes k r
  | _, _ => true
  end.

Lemma cont_in_high lo hi c : 0x80 <= lo -> cont_in lo hi c = true -> (0x80 <=? code c) = true.
Proof. unfold cont_in. intros Hlo H. bools. apply Z.leb_le. lia. Qed.

Lemma land_low (lo hi m v : Z) :
  forallb (fun z => negb ((lo <=? z) && (z <=? hi)) || (v <=? Z.land z m))
    (List.map Z.of_nat (List.seq 0 256)) = true ->
  forall c, lo <= code c <= hi -> v <= Z.land (code c) m.
Proof.
  intros Hall c Hc.
  pose proof (forall_below 256 _ Hall (code c) (code_range c)) as H. cbn beta in H.
  destruct (Z.leb_spec lo (code c)); [|lia]. destruct (Z.leb_spec (code c) hi); [|lia].
  cbn in H. by apply Z.leb_le.
Qed.

Lemma low6_bounds c : 0 <= low6 c.
Proof. unfold low6. apply Z.land_nonneg. right. lia. Qed.

(** A rune of several bytes is not ASCII, nor are its bytes after the first. *)
Lemma DecodeRune_high c s r n :
  DecodeRune (String c s) = (r, n) ->
  high_bytes (n - 1) s = true /\ (r < 0x80 -> r = code c /\ n = 1%nat).
Proof.
  cbn [DecodeRune].
  assert (Herr : forall r n, (RuneError, 1%nat) = (r, n) ->
    high_bytes (n - 1) s = true /\ (r < 0x80 -> r = code c /\ n = 1%nat)).
  { intros ? ? [= <- <-]. split; [done|]. unfold RuneError. lia. }
  destruct (Z.ltb_spec (code c) 0x80); [by intros [= <- <-]|].
  destruct (Z.ltb_spec (code c) 0xC2); [apply Herr|].
  destruct (Z.ltb_spec (code c) 0xE0).
  { destruct s as [|c1 s]; [apply Herr|]. destruct (cont_in _ _ c1) eqn:Hb1; [|apply Herr].
    intros [= <- <-]. cbn. rewrite (cont_in_high 0x80 0xBF _ ltac:(lia) Hb1). split; [done|].
    pose proof (land_low 0xC2 0xDF 0x1F 2 eq_refl c ltac:(lia)). pose proof (low6_bounds c1).
    rewrite Z.shiftl_mul_pow2 by lia. lia. }
  destruct (Z.ltb_spec (code c) 0xF0).
  { destruct s as [|c1 [|c2 s]]; [apply Herr..|]. destruct (_ && _) eqn:Hcc; [|apply Herr].
    apply andb_true_iff in Hcc as [Hb1 Hb2]. intros [= <- <-]. cbn [Nat.sub high_bytes].
    rewrite (cont_in_high 0x80 0xBF _ ltac:(lia) Hb2), (cont_in_high _ _ c1) with (2 := Hb1) by (case_match; lia).
    split; [done|]. pose proof (low6_bounds c1). pose proof (low6_bounds c2).
    rewrite !Z.shiftl_mul_pow2 by lia.
    destruct (Z.eqb_spec (code c) 0xE0) as [He|].
    - assert (Hc1 : 0xA0 <= code c1 <= 0xBF).
      { unfold cont_in in Hb1. bools. destruct (code c =? 0xED); lia. }
      pose proof (land_low 0xA0 0xBF 0x3F 0x20 eq_refl c1 Hc1). unfold low6 in *.
      assert (0 <= Z.land (code c) 0xF) by (apply Z.land_nonneg; right; lia). lia.
    - pose proof (land_low 0xE1 0xEF 0x0F 1 eq_refl c ltac:(lia)). lia. }
  destruct (Z.ltb_spec (code c) 0xF5); [|apply Herr].
  destruct s as [|c1 [|c2 [|c3 s]]]; [apply Herr..|]. destruct (_ && _) eqn:Hcc; [|apply Herr].
  apply andb_true_iff in Hcc as [[Hb1 Hb2]%andb_true_iff Hb3]. intros [= <- <-]. cbn [Nat.sub high_bytes].
  rewrite (cont_in_high 0x80 0xBF _ ltac:(lia) Hb2), (cont_in_high 0x80 0xBF _ ltac:(lia) Hb3),
    (cont_in_high _ _ c1) with (2 := Hb1) by (case_match; lia).
  split; [done|]. pose proof (low6_bounds c1). pose proof (low6_bounds c2). pose proof (low6_bounds c3).
  rewrite !Z.shiftl_mul_pow2 by lia.
  destruct (Z.eqb_spec (code c) 0xF0) as [He|].
  - assert (Hc1 : 0x90 <= code c1 <= 0xBF).
    { unfold cont_in in Hb1. bools. destruct (code c =? 0xF4); lia. }
    pose proof (land_low 0x90 0xBF 0x3F 0x10 eq_refl c1 Hc1). unfold low6 in *.
    assert (0 <= Z.land (code c) 0x7) by (apply Z.land_nonneg; right; lia). lia.
  - pose proof (land_low 0xF1 0xF4 0x07 1 eq_refl c ltac:(lia)). lia.
Qed.

Lemma read_action_balanced k buf s d :
  high_bytes k s = true -> never_below d s = true ->
  match read_action k buf s d with
  | PopEmpty => False
  | RawAction _ p => never_below (p_depth p) (p_rest p) = true
  | NoAction => True
  end.
Proof.
  revert k buf d. induction s as [|c s IH]; intros k buf d Hk Hs; cbn [read_action].
  - by destruct (nonempty buf).
  - destruct k as [|k].
    + destruct (DecodeRune (String c s)) as [r n] eqn:Hd.
      pose proof Hd as [Hh Hr]%DecodeRune_high. cbn [never_below] in Hs.
      assert (Hascii : forall x, x < 0x80 -> r = x -> code c = x /\ n = 1%nat).
      { intros x Hx ->. destruct (Hr Hx). auto. }
      destruct (Z.eqb_spec r 44) as [H44|_]; cbn [andb].
      { destruct (Hascii 44 ltac:(lia) H44) as [Hc ->]. rewrite Hc, H44 in *. cbn in Hs |- *.
        destruct (Nat.eqb_spec d 0); [done|]. by apply IH. }
      destruct (Z.eqb_spec r 0) as [H0|_].
      { destruct (Hascii 0 ltac:(lia) H0) as [Hc _]. rewrite Hc in Hs. by destruct (nonempty buf). }
      destruct (Z.eqb_spec r 40) as [H40|H40].
      { destruct (Hascii 40 ltac:(lia) H40) as [Hc ->]. rewrite Hc in Hs. by apply IH. }
      destruct (Z.eqb_spec r 41) as [H41|H41].
      { destruct (Hascii 41 ltac:(lia) H41) as [Hc ->]. rewrite Hc in Hs. destruct d; [done|]. by apply IH. }
      apply IH; [done|].
      assert (Hlow : code c < 0x80 -> r = code c).
      { intros Hlt%Z.ltb_lt. rewrite DecodeRune_ascii in Hd by done. by injection Hd. }
      assert (Hc : code c <> 40 /\ code c <> 41) by lia.
      destruct (Z.eqb_spec (code c) 40); [lia|]. by destruct (Z.eqb_spec (code c) 41); [lia|].
    + cbn [high_bytes] in Hk. apply andb_true_iff in Hk as [Hc%Z.leb_le Hk]. apply IH; [done|].
      cbn [never_below] in Hs. destruct (Z.eqb_spec (code c) 40); [lia|].
      by destruct (Z.eqb_spec (code c) 41); [lia|].
Qed.

Lemma Parse_balanced n p :
  (String.length (p_rest p) <= n)%nat -> never_below (p_depth p) (p_rest p) = true ->
  is_Panic (Parse p) = false /\
  forall acts raw, Parse p = Ok (acts, raw) -> Forall Action_wf acts /\ length acts = length raw.
Proof.
  revert p. induction n as [|n IH]; intros p Hn Hb; rewrite Parse_step;
    pose proof (parser_parseAction_shorter p) as Hshort;
    unfold parser_parseAction in *; pose proof (read_action_balanced 0 "" _ _ eq_refl Hb) as Hr;
    (destruct (read_action _ _ _ _) as [|b q|]; [|clear Hb|done]).
  1, 3: split; [done|]; intros ? ? [= <- <-]; auto.
  all: destruct (0 <? p_depth q)%nat; [done|]; destruct (parseAction_total b) as [Hnp Hwf];
    destruct (parseAction b) as [a|e|w];
      [|by destruct e; (split; [done|]); intros ? ? [=]; subst; auto|done];
    specialize (Hshort _ _ _ eq_refl) as [Hs Hd].
  { lia. }
  cbn [mbind go_bind]. destruct (IH q ltac:(lia) Hr) as [Hp Hl].
  destruct (Parse q) as [[acts raw]|e|w]; [|done|done]. split; [done|].
  intros ? ? [= <- <-]. destruct (Hl _ _ eq_refl) as [H1 H2].
  split; [by constructor; [apply Hwf|]|cbn; by f_equal].
Qed.

(** on a text where no closing parenthesis comes before its opening one,
    [Parse] does not panic; every action it returns is well formed, with one
    raw string for each. *)
Theorem Parse_safe s :
  never_below 0 s = true ->
  is_Panic (Parse (newActionParser s)) = false /\
  forall acts raw, Parse (newActionParser s) = Ok (acts, raw) ->
    Forall Action_wf acts /\ length acts = length raw.
Proof. intros H. by eapply Parse_balanced. Qed.

Lemma Parse_safe_witness : is_Panic (Parse (newActionParser "resubmit(1,2,drop")) = false.
Proof. apply (Parse_safe "resubmit(1,2,drop"). reflexivity. Defined.

Lemma read_action_pop s d buf t :
  closed d s = true -> read_action 0 buf (s +:+ String ")" t) d = PopEmpty.
Proof.
  revert d buf. induction s as [|c s IH]; intros d buf Hc.
  - apply Nat.eqb_eq in Hc as ->. rewrite app_nil_l'. cbn [read_action].
    by rewrite DecodeRune_ascii.
  - cbn [closed] in Hc. apply andb_true_iff in Hc as [[Ha Hz]%andb_true_iff Hc].
    apply negb_true_iff in Hz. rewrite app_cons. cbn [read_action].
    rewrite DecodeRune_ascii by done. cbn [Nat.sub]. rewrite Hz.
    destruct (Z.eqb_spec (code c) 40) as [->|]; [by apply IH|].
    destruct (Z.eqb_spec (code c) 41) as [->|]; [destruct d; [done|by apply IH]|].
    destruct (Z.eqb_spec (code c) 44); [|by apply IH].
    apply andb_true_iff in Hc as [Hd Hc]. destruct d; [done|]. by apply IH.
Qed.

(** a closing parenthesis without an opening one makes [Parse] panic, after
    any list of actions it accepts: [stack.pop] on the empty stack slices out
    of range, where an unmatched opening parenthesis is a returned error. *)
Theorem Parse_unmatched_panics acts ts s r :
  Forall2 (fun a t => parseAction t = Ok a /\ closed 0 t = true) acts ts -> closed 0 s = true ->
  is_Panic (Parse (newActionParser (Join (ts ++ [s +:+ ")" +:+ r]) ","))) = true.
Proof.
  intros Hl Hs. assert (Hlast : parser_parseAction (newActionParser (s +:+ ")" +:+ r)) =
                                Panic "slice bounds out of range").
  { unfold parser_parseAction. cbn [p_rest p_depth newActionParser].
    by rewrite (app_cons ")"), app_nil_l', read_action_pop. }
  induction Hl as [|a t acts ts [Hp Hc] Hl IH]; rewrite Parse_step.
  - cbn [app Join]. by rewrite Hlast.
  - assert (Hne : t <> "") by (intros ->; vm_compute in Hp; discriminate Hp).
    cbn [app]. rewrite Join_cons by (by destruct ts).
    rewrite parser_read_one by eauto. rewrite Hp. cbn [mbind go_bind].
    rewrite app_cons, app_nil_l'. cbn [after_action].
    by destruct (Parse _) as [[]| |].
Qed.

Lemma Parse_unmatched_panics_witness :
  is_Panic (Parse (newActionParser "output:1,resubmit(,2)),drop")) = true.
Proof.
  apply (Parse_unmatched_panics [Output 1] ["output:1"] "resubmit(,2)" ",drop"); [|reflexivity].
  repeat constructor.
Defined.
