(* ===== verification/ActionSplit.v ===== *)
(** * Reading actions is splitting at the commas outside parentheses

    The parser of [ActionParser] reads runes into a buffer with a stack of open
    parentheses, action after action.  On ASCII text that closes no parenthesis it
    did not open it is equivalent to cutting the text at the commas outside
    parentheses and parsing the pieces. *)

From S2P Require Import Prelude GoStrings GoConv GoScan Action ActionParser.

(** The pieces of a text read at depth [d]. *)
Fixpoint pieces (d : nat) (s : string) : list string :=
  match s with
  | EmptyString => [""]
  | String c r =>
      if (code c =? 44) && (d =? 0)%nat then "" :: pieces 0 r
      else cons_hd c (pieces (if code c =? 40 then S d else if code c =? 41 then pred d else d) r)
  end.

Fixpoint depth_after (d : nat) (s : string) : nat :=
  match s with
  | EmptyString => d
  | String c r => depth_after (if code c =? 40 then S d else if code c =? 41 then pred d else d) r
  end.

(** The pieces one after the other. An empty last piece is no action, and a last piece
    with an open parenthesis is refused. The end of input in an action passes for the
    end of the actions. *)
Fixpoint parse_pieces (opened : bool) (l : list string) : go (list Action * list string) :=
  match l with
  | [] => Ok ([], [])
  | p :: l' =>
      let last := match l' with [] => true | _ => false end in
      if last && (p =? "")%string then Ok ([], [])
      else if last && opened then Err (Errorf "invalid action: %q" [inl p])
      else match parseAction p with
           | Ok a => '(actions, raw) ← parse_pieces opened l'; Ok (a :: actions, p :: raw)
           | Err io_EOF => Ok ([], [])
           | Err e => Err e
           | Panic w => Panic w
           end
  end.

Definition plain_char (c : ascii) : bool := ascii_char c && negb (code c =? 0).

Example pieces_ex : pieces 0 "ct(commit,table=1),output:1," = ["ct(commit,table=1)"; "output:1"; ""].
Proof. vm_compute. reflexivity. Qed.

Lemma read_pieces s buf d :
  all_chars plain_char s = true -> never_below d s = true ->
  (exists p, pieces d s = [p] /\
     read_action 0 buf s d =
     if nonempty (buf +:+ p) then RawAction (buf +:+ p) (mkActionParser "" (depth_after d s)) else NoAction) \/
  (exists p r, pieces d s = p :: pieces 0 r /\ read_action 0 buf s d = RawAction (buf +:+ p) (mkActionParser r 0) /\
     (String.length r < String.length s)%nat /\ all_chars plain_char r = true /\ never_below 0 r = true /\
     depth_after 0 r = depth_after d s).
Proof.
  revert buf d. induction s as [|c s IH]; intros buf d Hp Hn.
  { left. exists "". rewrite app_nil_r'. done. }
  cbn [all_chars] in Hp. apply andb_true_iff in Hp as [Hc Hp]. unfold plain_char in Hc.
  apply andb_true_iff in Hc as [Ha Hz%negb_true_iff]. cbn [pieces depth_after read_action never_below] in *.
  rewrite DecodeRune_ascii, Hz, EncodeRune_ascii_chr by done. cbn [Nat.sub].
  destruct ((code c =? 44) && (d =? 0)%nat) eqn:Hcomma.
  { apply andb_true_iff in Hcomma as [H44%Z.eqb_eq ->%Nat.eqb_eq]. right. exists "", s. rewrite app_nil_r', H44 in *.
    cbn in Hn |- *. split_and!; try done. lia. }
  assert (Hgo : forall d', never_below d' s = true ->
    (exists p, cons_hd c (pieces d' s) = [p] /\
       read_action 0 (buf +:+ sing c) s d' =
       if nonempty (buf +:+ p) then RawAction (buf +:+ p) (mkActionParser "" (depth_after d' s)) else NoAction) \/
    (exists p r, cons_hd c (pieces d' s) = p :: pieces 0 r /\
       read_action 0 (buf +:+ sing c) s d' = RawAction (buf +:+ p) (mkActionParser r 0) /\
       (String.length r < S (String.length s))%nat /\ all_chars plain_char r = true /\ never_below 0 r = true /\
       depth_after 0 r = depth_after d' s)).
  { intros d' Hn'.
    destruct (IH (buf +:+ sing c) d' Hp Hn') as [(p & -> & ->)|(p & r & -> & -> & Hl & H1 & H2 & H3)];
      rewrite app_assoc', app_cons, app_nil_l'; [left|right].
    - by exists (String c p).
    - exists (String c p), r. split_and!; try done. lia. }
  destruct (Z.eqb_spec (code c) 40) as [H40|H40]; [by apply Hgo|].
  destruct (Z.eqb_spec (code c) 41) as [H41|H41]; [|by apply Hgo].
  destruct d as [|d]; [done|]. by apply Hgo.
Qed.

Lemma parse_pieces_unfold opened p l :
  parse_pieces opened (p :: l) =
  let last := match l with [] => true | _ => false end in
  if last && (p =? "")%string then Ok ([], [])
  else if last && opened then Err (Errorf "invalid action: %q" [inl p])
  else match parseAction p with
       | Ok a => '(actions, raw) ← parse_pieces opened l; Ok (a :: actions, p :: raw)
       | Err io_EOF => Ok ([], [])
       | Err e => Err e
       | Panic w => Panic w
       end.
Proof. done. Qed.

Lemma pieces_cons d s : exists p l, pieces d s = p :: l.
Proof.
  revert d. induction s as [|c s IH]; intros d; cbn [pieces]; [by eexists _, _|].
  case_match; [by eexists _, _|].
  destruct (IH (if code c =? 40 then S d else if code c =? 41 then pred d else d)) as (p & l & ->).
  by eexists _, _.
Qed.

Lemma Parse_fuel_pieces f s :
  (String.length s < f)%nat -> all_chars plain_char s = true -> never_below 0 s = true ->
  Parse_fuel f (newActionParser s) = parse_pieces (0 <? depth_after 0 s)%nat (pieces 0 s).
Proof.
  revert s. induction f as [|f IH]; intros s Hf Hp Hn; [lia|]. cbn [Parse_fuel].
  unfold parser_parseAction. cbn [p_rest p_depth newActionParser].
  destruct (read_pieces s "" 0 Hp Hn) as [(p & Hs & ->)|(p & r & Hs & -> & Hl & Hp' & Hn' & Hd)];
    rewrite Hs, app_nil_l', parse_pieces_unfold.
  - cbv zeta. cbn [andb]. destruct (String.eqb_spec p "") as [->|Hne]; [done|].
    assert (nonempty p = true) as -> by (by destruct p). cbn [p_depth].
    destruct (0 <? depth_after 0 s)%nat; [done|].
    destruct (parseAction p) as [a|[]|w]; try done. cbn [mbind go_bind].
    destruct f as [|f]; [destruct p; [done|]; destruct s; [by injection Hs|cbn in Hf; lia]|]. done.
  - destruct (pieces_cons 0 r) as (q & l & Hq). rewrite Hq. cbv zeta. cbn [andb p_depth]. change (0 <? 0)%nat with false. cbn iota.
    destruct (parseAction p) as [a|[]|w]; try done. cbn [mbind go_bind].
    rewrite <- Hq, <- Hd. by rewrite <- (IH r) by (done || lia).
Qed.

(** C11: The parser is equivalent to the reference on every ASCII text without NUL that
    closes no parenthesis it did not open: it yields the actions, the raw texts and
    the error of parsing, one by one, the pieces between the commas outside
    parentheses. *)
Theorem Parse_equivalent (s : string) :
  all_chars plain_char s = true -> never_below 0 s = true ->
  Parse (newActionParser s) = parse_pieces (0 <? depth_after 0 s)%nat (pieces 0 s).
Proof. intros Hp Hn. unfold Parse. cbn [p_rest newActionParser]. apply Parse_fuel_pieces; [lia|done|done]. Qed.

Lemma Parse_equivalent_witness :
  Parse (newActionParser "ct(commit,table=1),resubmit(1,2") = Err (Errorf "invalid action: %q" [inl "resubmit(1,2"]).
Proof.
  rewrite (Parse_equivalent "ct(commit,table=1),resubmit(1,2" eq_refl eq_refl). vm_compute. reflexivity.
Defined.
