(* ===== verification/Flow.v ===== *)
(** * Flows and match flows

    Models [ovs/flow.go] and [ovs/matchflow.go]: [Flow] with [MarshalText] and
    [UnmarshalText], [MatchFlow] with [MarshalText], and the conversion between
    the two.  [UnmarshalText] returns the receiver after the call; what a failed
    call has already stored in it is not modelled (no caller reads it). *)

From S2P Require Import Prelude GoStrings GoConv GoNet Names Match MatchParser GoScan Action ActionParser.

(** ** Data *)

(** A [Protocol] is a string. *)
Record Flow := mkFlow {
  Priority : Z; Protocol : string; InPort : Z; Matches : list Match;
  Table : Z; IdleTimeout : Z; Cookie : Z; Actions : list Action
}.

Record MatchFlow := mkMatchFlow {
  mf_Protocol : string; mf_InPort : Z; mf_Matches : list Match; mf_Table : Z;
  mf_Cookie : Z; mf_CookieMask : Z
}.

Definition zeroFlow : Flow := mkFlow 0 "" 0 [] 0 0 0 [].

Definition Protocols : list string :=
  ["arp"; "icmp"; "icmp6"; "ip"; "ipv6"; "tcp"; "tcp6"; "udp"; "udp6"].

Definition flowErr (str : string) (e : error) : error := FlowError str e.

(** ** Marshaling *)

Definition marshalFunctions {A} (fn : A -> go string) (l : list A) : go (list string) := mapM fn l.
Definition marshalActions (f : Flow) : go (list string) := marshalFunctions Action_MarshalText (Actions f).
Definition marshalMatches (f : Flow) : go (list string) := marshalFunctions Match_MarshalText (Matches f).

Definition port_text (port : Z) : string := if port =? PortLOCAL then portLOCAL else fmt_d port.

Definition Flow_MarshalText (f : Flow) : go string :=
  if (length (Actions f) =? 0)%nat then Err (flowErr "" errNoActions)
  else
    actions ← marshalActions f;
    matches ← marshalMatches f;
    if (1 <? length actions)%nat && existsb (fun a => (a =? actionDrop)%string) actions
    then Err (flowErr "" errActionsWithDrop)
    else Ok (priorityString +:+ fmt_d (Priority f)
      +:+ (if negb (Protocol f =? "")%string then "," +:+ Protocol f else "")
      +:+ (if negb (InPort f =? 0) then "," +:+ inPort +:+ "=" +:+ port_text (InPort f) else "")
      +:+ (if (0 <? length matches)%nat then "," +:+ Join matches "," else "")
      +:+ "," +:+ table +:+ "=" +:+ fmt_d (Table f)
      +:+ "," +:+ idleTimeout +:+ "=" +:+ fmt_d (IdleTimeout f)
      +:+ (if Cookie f >? 0 then "," +:+ cookie +:+ "=" +:+ paddedHexUint64 (Cookie f) else "")
      +:+ "," +:+ keyActions +:+ "=" +:+ Join actions ",").

Definition MatchFlow_MarshalText (f : MatchFlow) : go string :=
  matches ← marshalFunctions Match_MarshalText (mf_Matches f);
  let b :=
    (if negb (mf_Protocol f =? "")%string then mf_Protocol f +:+ "," else "")
    +:+ (if negb (mf_InPort f =? 0) then inPort +:+ "=" +:+ port_text (mf_InPort f) +:+ "," else "")
    +:+ (if (0 <? length matches)%nat then Join matches "," +:+ "," else "")
    +:+ (if mf_Cookie f >? 0
         then cookie +:+ "=" +:+ paddedHexUint64 (mf_Cookie f) +:+ "/"
              +:+ (if mf_CookieMask f =? 0 then "-1" else paddedHexUint64 (mf_CookieMask f)) +:+ ","
         else "")
    +:+ (if negb (mf_Table f =? AnyTable) then table +:+ "=" +:+ fmt_d (mf_Table f) else "") in
  let b := TrimChar b "," in
  if (b =? "")%string then Err (MatchFlowError "" errEmptyMatchFlow) else Ok b.

(** [Flow.MatchFlow]. *)
Definition Flow_MatchFlow (f : Flow) : MatchFlow :=
  mkMatchFlow (Protocol f) (InPort f) (Matches f) (Table f) (Cookie f) 0.

(** ** Unmarshaling *)

Definition set_Priority (f : Flow) (x : Z) : Flow :=
  mkFlow x (Protocol f) (InPort f) (Matches f) (Table f) (IdleTimeout f) (Cookie f) (Actions f).
Definition set_Protocol (f : Flow) (x : string) : Flow :=
  mkFlow (Priority f) x (InPort f) (Matches f) (Table f) (IdleTimeout f) (Cookie f) (Actions f).
Definition set_InPort (f : Flow) (x : Z) : Flow :=
  mkFlow (Priority f) (Protocol f) x (Matches f) (Table f) (IdleTimeout f) (Cookie f) (Actions f).
Definition set_Matches (f : Flow) (x : list Match) : Flow :=
  mkFlow (Priority f) (Protocol f) (InPort f) x (Table f) (IdleTimeout f) (Cookie f) (Actions f).
Definition set_Table (f : Flow) (x : Z) : Flow :=
  mkFlow (Priority f) (Protocol f) (InPort f) (Matches f) x (IdleTimeout f) (Cookie f) (Actions f).
Definition set_IdleTimeout (f : Flow) (x : Z) : Flow :=
  mkFlow (Priority f) (Protocol f) (InPort f) (Matches f) (Table f) x (Cookie f) (Actions f).
Definition set_Cookie (f : Flow) (x : Z) : Flow :=
  mkFlow (Priority f) (Protocol f) (InPort f) (Matches f) (Table f) (IdleTimeout f) x (Actions f).
Definition set_Actions (f : Flow) (x : list Action) : Flow :=
  mkFlow (Priority f) (Protocol f) (InPort f) (Matches f) (Table f) (IdleTimeout f) (Cookie f) x.

(** A number field: a failure is wrapped with the text that caused it. *)
Definition flow_num {A} (m : go A) (s : string) : go A :=
  match m with
  | Err e => Err (flowErr s e)
  | m => m
  end.

(** The switch on the trimmed key; [v] is the trimmed value. *)
Definition parse_key (f : Flow) (k v : string) : go Flow :=
  let key := TrimSpace k in
  if (key =? priority)%string then
    pri ← flow_num (ParseInt v 10 0) v; Ok (set_Priority f pri)
  else if (key =? cookie)%string then
    c ← flow_num (ParseUint v 0 64) v; Ok (set_Cookie f c)
  else if (key =? keyActions)%string then Ok f
  else if (key =? inPort)%string then
    if (TrimSpace v =? portLOCAL)%string then Ok (set_InPort f PortLOCAL)
    else port ← flow_num (ParseInt v 10 0) v; Ok (set_InPort f port)
  else if (key =? idleTimeout)%string then
    timeout ← flow_num (ParseInt v 10 0) v; Ok (set_IdleTimeout f timeout)
  else if (key =? table)%string then
    t ← flow_num (ParseInt v 10 0) v; Ok (set_Table f t)
  else if is_one_of key [duration; nPackets; nBytes; hardAge; idleAge] then Ok f
  else m ← parseMatch k v; Ok (set_Matches f (Matches f ++ [m])).

(** One comma-separated element of the matchers. *)
Definition parse_field (f : Flow) (s : string) : go Flow :=
  if negb (Contains s "=")
  then Ok (if negb (s =? "")%string then set_Protocol f s else f)
  else match Split s "=" with
       | [k; v] => parse_key f k (TrimSpace v)
       | _ => Ok f
       end.

Fixpoint parse_fields (f : Flow) (l : list string) : go Flow :=
  match l with
  | [] => Ok f
  | s :: l => f ← parse_field f s; parse_fields f l
  end.

Definition Flow_UnmarshalText (f : Flow) (s : string) : go Flow :=
  match Split s (keyActions +:+ "=") with
  | [m; a] =>
      if (a =? "")%string then Err (flowErr "" errNoActions)
      else
        let matchers := TrimSpace m in
        let actions := TrimSpace a in
        f ← parse_fields (set_Matches f []) (Split matchers ",");
        match Parse (newActionParser actions) with
        | Err _ => Err (flowErr actions errInvalidActions)
        | Panic w => Panic w
        | Ok (out, raw) =>
            if (1 <? length raw)%nat && existsb (fun a => (a =? actionDrop)%string) raw
            then Err (flowErr "" errActionsWithDrop)
            else Ok (set_Actions f out)
        end
  | _ => Err (flowErr "" errNoActions)
  end.

Example flow1 :
  (f ← Flow_UnmarshalText zeroFlow
         " cookie=0xa, duration=8.3s, table=4, n_packets=0, priority=100,ip,in_port=LOCAL,nw_src=192.0.2.1 actions=ct(commit,table=2),drop2";
   Flow_MarshalText f)
  = Err (flowErr "ct(commit,table=2),drop2" errInvalidActions).
Proof. vm_compute. reflexivity. Qed.
Example flow2 :
  (f ← Flow_UnmarshalText zeroFlow
         "priority=2005,ip,in_port=LOCAL,nw_src=192.0.2.1,ct_state=+est+trk table=4,cookie=10,actions=ct(commit,table=2),output:1";
   Flow_MarshalText f)
  = Ok "priority=2005,ip,in_port=LOCAL,nw_src=192.0.2.1,table=0,idle_timeout=0,cookie=0x000000000000000a,actions=ct(commit,table=2),output:1".
Proof. vm_compute. reflexivity. Qed.
Example matchflow1 :
  MatchFlow_MarshalText (mkMatchFlow "ip" PortLOCAL [NetworkSource "192.0.2.0/24"] AnyTable 1 0)
  = Ok "ip,in_port=LOCAL,nw_src=192.0.2.0/24,cookie=0x0000000000000001/-1".
Proof. vm_compute. reflexivity. Qed.
Example matchflow2 : MatchFlow_MarshalText (mkMatchFlow "" 0 [] AnyTable 0 0)
  = Err (MatchFlowError "" errEmptyMatchFlow).
Proof. vm_compute. reflexivity. Qed.

(** ** Round trip of flows *)

Lemma value_graphic s : value_text s = true -> all_chars graphic s = true.
Proof. apply all_chars_impl. unfold value_char. intros c H. by bools. Qed.

Lemma value_other s c : negb (value_char c) = true -> value_text s = true -> all_chars (other_than c) s = true.
Proof.
  intros Hc. apply all_chars_impl. intros d Hd. apply negb_true_iff, Ascii.eqb_neq.
  intros <-. by rewrite Hd in Hc.
Qed.

(** A field [k=v] reaches the switch with its key and value. *)
Lemma parse_field_kv f k v :
  value_text k = true -> value_text v = true ->
  parse_field f (k +:+ "=" +:+ v) = parse_key f k v.
Proof.
  intros Hk Hv. unfold parse_field.
  assert (Hc : Contains (k +:+ "=" +:+ v) "=" = true).
  { rewrite Contains_char. rewrite all_chars_app. cbn. by rewrite andb_false_r. }
  rewrite Hc. cbn [negb]. rewrite (app_cons "="), app_nil_l'.
  rewrite Split_char by (by apply value_other).
  rewrite Split_char_none by (by apply value_other).
  by rewrite TrimSpace_graphic by (by apply value_graphic).
Qed.

(** The keys that [parse_key] does not pass to [parseMatch]. *)
Definition flow_keys : list string :=
  [priority; cookie; keyActions; inPort; idleTimeout; table; duration; nPackets; nBytes; hardAge; idleAge].

Definition match_keys : list string :=
  [arpSHA; arpTHA; ndSLL; ndTLL; icmpType; nwProto; ctZone; tpSRC; tpDST; conjID; arpSPA; arpTPA;
   ctState; tcpFlags; dlSRC; dlDST; dlType; dlVLAN; ndTarget; ipv6SRC; ipv6DST; nwSRC; nwDST;
   vlanTCI; ctMark; tunID].

Lemma is_one_of_In k l : is_one_of k l = true <-> k ∈ l.
Proof.
  unfold is_one_of. rewrite existsb_exists. split.
  - intros (x & Hx & ->%String.eqb_eq). by apply list_elem_of_In.
  - intros H. exists k. split; [by apply list_elem_of_In|apply String.eqb_refl].
Qed.

Lemma parseMatch_key k v m : parseMatch k v = Ok m -> k ∈ match_keys.
Proof.
  unfold parseMatch. intros H.
  assert (Hsub : forall l, forallb (fun x => is_one_of x match_keys) l = true ->
                           is_one_of k l = true -> k ∈ match_keys).
  { intros l Hs Hl%is_one_of_In. rewrite forallb_forall in Hs.
    by apply is_one_of_In, Hs, list_elem_of_In. }
  repeat match type of H with
  | (if is_one_of k ?l then _ else _) = _ =>
      let E := fresh in destruct (is_one_of k l) eqn:E; [by apply (Hsub l)|clear E]
  end. done.
Qed.

Lemma match_key_not_flow k : k ∈ match_keys -> is_one_of k flow_keys = false.
Proof.
  intros Hk. assert (H : forallb (fun k => negb (is_one_of k flow_keys)) match_keys = true) by reflexivity.
  rewrite forallb_forall in H. apply negb_true_iff, H. by apply list_elem_of_In.
Qed.

Lemma parse_key_match f k v m :
  value_text k = true -> parseMatch k v = Ok m ->
  parse_key f k v = Ok (set_Matches f (Matches f ++ [m])).
Proof.
  intros Hk Hm. pose proof (match_key_not_flow k (parseMatch_key k v m Hm)) as Hn.
  unfold parse_key. rewrite TrimSpace_graphic by (by apply value_graphic).
  unfold is_one_of, flow_keys in Hn. cbn [existsb] in Hn.
  repeat match goal with
  | H : (_ || _) = false |- _ => apply orb_false_iff in H as [?H ?H]
  end.
  repeat match goal with H : (k =? _)%string = false |- _ => rewrite H end.
  unfold is_one_of. cbn [existsb].
  repeat match goal with H : (k =? _)%string = false |- _ => rewrite H; clear H end.
  cbn [orb]. by rewrite Hm.
Qed.

Lemma prefix_to_eq w a v :
  all_chars (other_than "=") w = true -> all_chars (other_than "=") a = true ->
  String.prefix (w +:+ "=") (a +:+ String "=" v) = (w =? a)%string.
Proof.
  revert a. induction w as [|c w IH]; intros a Hw Ha.
  - rewrite app_nil_l'. destruct a as [|d a]; [by destruct v|]. rewrite app_cons, prefix_sing.
    cbn [all_chars] in Ha. apply andb_true_iff in Ha as [Hd%negb_true_iff _]. by rewrite Hd.
  - cbn [all_chars] in Hw. apply andb_true_iff in Hw as [Hc%negb_true_iff Hw]. rewrite app_cons.
    destruct a as [|d a].
    + rewrite app_nil_l', prefix_cons. rewrite Ascii.eqb_sym in Hc. by rewrite Hc.
    + cbn [all_chars] in Ha. apply andb_true_iff in Ha as [_ Ha].
      rewrite app_cons, prefix_cons, IH by done. cbn [String.eqb]. by destruct (Ascii.eqb c d).
Qed.

Fixpoint ends_with (w k : string) : bool :=
  (w =? k)%string || match k with EmptyString => false | String _ r => ends_with w r end.

(** A text [w=] occurs in [k=v] only at the end of the key. *)
Lemma Contains_key w k v :
  w <> "" -> all_chars (other_than "=") w = true -> all_chars (other_than "=") k = true ->
  all_chars (other_than "=") v = true ->
  Contains (k +:+ String "=" v) (w +:+ "=") = ends_with w k.
Proof.
  intros Hne Hw Hk Hv. unfold Contains. induction k as [|c k IH].
  - rewrite app_nil_l'. cbn [Index ends_with].
    pose proof (prefix_to_eq w "" v Hw eq_refl) as Hp. rewrite app_nil_l' in Hp. rewrite Hp.
    assert (Hf : (w =? "")%string = false) by (by apply String.eqb_neq). rewrite Hf.
    pose proof (absent_char (other_than "=") (w +:+ "=") v Hv) as Ha. unfold Contains in Ha.
    rewrite all_chars_app, andb_false_r in Ha. specialize (Ha eq_refl).
    by destruct (Index v (w +:+ "=")).
  - rewrite app_cons. cbn [Index ends_with]. rewrite <- app_cons, prefix_to_eq by done.
    cbn [all_chars] in Hk. apply andb_true_iff in Hk as [_ Hk]. rewrite <- IH by done.
    destruct (w =? String c k)%string; [done|]. cbn [orb].
    by destruct (Index (k +:+ String "=" v) (w +:+ "=")).
Qed.

Definition marshal_keys : list string := match_keys ++ [priority; inPort; table; idleTimeout; cookie].

(** No field of a flow but [actions] holds the text [actions=]. *)
Lemma no_actions_kv k v :
  k ∈ marshal_keys -> value_text v = true -> Contains (k +:+ "=" +:+ v) "actions=" = false.
Proof.
  intros Hk Hv.
  assert (Hkeys : forallb (fun k => negb (ends_with keyActions k) && all_chars (other_than "=") k)
                    marshal_keys = true) by (vm_compute; reflexivity).
  rewrite forallb_forall in Hkeys. apply list_elem_of_In, Hkeys, andb_true_iff in Hk as [Hc%negb_true_iff He].
  rewrite (app_cons "="), app_nil_l'. change "actions=" with (keyActions +:+ "=").
  rewrite Contains_key; [done|done|done|done|by apply value_other].
Qed.

(** *** The text of a flow as a list of fields *)

Fixpoint commas (l : list string) : string :=
  match l with
  | [] => ""
  | s :: l => "," +:+ s +:+ commas l
  end.

Lemma commas_app l k : commas (l ++ k) = commas l +:+ commas k.
Proof.
  induction l as [|s l IH]; [done|]. cbn [app commas]. by rewrite IH, !app_assoc'.
Qed.

Lemma Join_commas s l : Join (s :: l) "," = s +:+ commas l.
Proof.
  revert s. induction l as [|s' l IH]; intros s; [by rewrite app_nil_r'|].
  rewrite Join_cons, IH by done. done.
Qed.

Definition field_kv (k v : string) : string := k +:+ "=" +:+ v.

Definition flow_fields (f : Flow) (matches : list string) : list string :=
  field_kv priority (fmt_d (Priority f))
  :: (if negb (Protocol f =? "")%string then [Protocol f] else [])
  ++ (if negb (InPort f =? 0) then [field_kv inPort (port_text (InPort f))] else [])
  ++ matches
  ++ [field_kv table (fmt_d (Table f)); field_kv idleTimeout (fmt_d (IdleTimeout f))]
  ++ (if Cookie f >? 0 then [field_kv cookie (paddedHexUint64 (Cookie f))] else []).

Lemma Flow_text f t :
  Flow_MarshalText f = Ok t ->
  exists actions matches,
    marshalActions f = Ok actions /\ marshalMatches f = Ok matches /\
    actions <> [] /\
    ((1 <? length actions)%nat && existsb (fun a => (a =? actionDrop)%string) actions) = false /\
    t = Join (flow_fields f matches) "," +:+ "," +:+ "actions=" +:+ Join actions ",".
Proof.
  unfold Flow_MarshalText. destruct (Nat.eqb_spec (length (Actions f)) 0) as [|Hlen]; [done|].
  intros (actions & Ha & H)%bind_Ok_inv. apply bind_Ok_inv in H as (matches & Hm & H).
  destruct (_ && _) eqn:Hd; [done|]. injection H as <-.
  exists actions, matches. split_and!; try done.
  - apply mapM_Ok_length in Ha. by intros ->.
  - unfold flow_fields. rewrite Join_commas, !commas_app.
    assert (Hmt : (if (0 <? length matches)%nat then "," +:+ Join matches "," else "") = commas matches).
    { destruct matches as [|m l]; [done|]. rewrite Join_commas. done. }
    rewrite Hmt. unfold field_kv, priorityString.
    destruct (negb (Protocol f =? "")%string), (negb (InPort f =? 0)), (Cookie f >? 0);
      cbn [commas]; rewrite ?app_nil_r', ?app_nil_l', ?app_assoc'; reflexivity.
Qed.

(** *** Well-formed flows *)

(** The free text of an action is graphic and holds no [actions=]. *)
Definition text_plain (a : Action) : Prop :=
  match a with
  | ctAction args => all_chars graphic args = true /\ Contains args "actions=" = false
  | loadSetFieldAction value field _ =>
      all_chars graphic value = true /\ all_chars graphic field = true /\
      Contains (value +:+ "->" +:+ field) "actions=" = false
  | _ => True
  end.

Definition Action_ok (a : Action) : Prop :=
  Action_wf a /\ parsable a /\ text_closed a /\ text_plain a.

Definition Match_ok (m : Match) : Prop := Match_wf m /\ Match_flags_ok m.

Definition Flow_ok (f : Flow) : Prop :=
  in_i64 (Priority f) /\ in_i64 (InPort f) /\ in_i64 (Table f) /\ in_i64 (IdleTimeout f) /\
  in_u 64 (Cookie f) /\ value_text (Protocol f) = true /\
  Forall Match_ok (Matches f) /\ Forall Action_ok (Actions f).

Lemma other_app c s t : all_chars (other_than c) s = true -> all_chars (other_than c) t = true ->
  all_chars (other_than c) (s +:+ t) = true.
Proof. intros Hs Ht. by rewrite all_chars_app, Hs, Ht. Qed.

Definition plain_text (t : string) : Prop :=
  all_chars graphic t = true /\ Contains t "actions=" = false.

Lemma plain_char f p s :
  all_chars graphic p = true -> all_chars (other_than "=") p = true ->
  (forall c, f c = true -> graphic c = true) -> (forall c, f c = true -> other_than "=" c = true) ->
  all_chars f s = true -> plain_text (p +:+ s).
Proof.
  intros Hg He Hfg Hfe Hs. split.
  - rewrite all_chars_app, Hg. by eapply all_chars_impl.
  - apply (absent_char (other_than "=")); [|done]. apply other_app; [done|]. by eapply all_chars_impl.
Qed.

Lemma num_graphic c : num_char c = true -> graphic c = true.
Proof.
  intros H. pose proof (forall_below 256 (fun z => negb (num_char (chr z)) || graphic (chr z))
    ltac:(vm_compute; reflexivity) (code c) (code_range c)) as Hc.
  cbn beta in Hc. by rewrite chr_code, H in Hc.
Qed.

Lemma plain_num p n :
  all_chars graphic p = true -> all_chars (other_than "=") p = true -> plain_text (p +:+ fmt_d n).
Proof.
  intros Hp He. apply (plain_char num_char); auto using num_graphic, fmt_d_num.
  intros c. by apply num_char_other.
Qed.

Lemma plain_addr p s :
  all_chars graphic p = true -> all_chars (other_than "=") p = true ->
  all_chars addr_char s = true -> plain_text (p +:+ s).
Proof.
  intros Hp He. apply (plain_char addr_char); auto using addr_graphic. intros c. by apply addr_other.
Qed.

Lemma plain_mid p c q : plain_text p -> plain_text q -> graphic c = true ->
  all_chars (other_than c) "actions=" = true -> plain_text (p +:+ String c q).
Proof.
  intros [Hp Cp] [Hq Cq] Hc Ho. split.
  - rewrite all_chars_app. cbn [all_chars]. by rewrite Hp, Hc, Hq.
  - by rewrite Contains_mid, Cp, Cq.
Qed.

(** The text of a well-formed action is plain. *)
Lemma Action_plain a t : Action_wf a -> text_plain a -> Action_MarshalText a = Ok t -> plain_text t.
Proof.
  assert (Hopt : forall n, plain_text (opt_num n)).
  { intros n. unfold opt_num. destruct (negb _); [|done]. by apply (plain_num "" n). }
  destruct a as [s|args|d addr|d ip|d port|vid|port|id n size|port table|port|value field typ|tid];
    cbn [Action_wf text_plain Action_MarshalText].
  - intros Hs _ [= <-]. unfold textActions in Hs.
    repeat (apply elem_of_cons in Hs as [->|Hs]; [by split|]). by apply not_elem_of_nil in Hs.
  - intros _ [Hg Hc]. unfold ctAction_MarshalText. destruct (_ =? _)%string; [done|]. intros [= <-].
    apply (plain_mid "ct" "(" (args +:+ ")")); [by split| |done|done].
    apply (plain_mid args ")" ""); by split.
  - intros [_ Hb] _. unfold modDataLinkAction_MarshalText. destruct (negb _); [done|].
    destruct (_ =? _)%string; intros [= <-]; apply plain_addr; auto using HardwareAddr_String_chars.
  - intros [_ Hip] _. unfold modNetworkAction_MarshalText. destruct ip as [ip|]; [|done].
    destruct Hip. destruct (_ =? _)%string; intros [= <-]; apply plain_addr; auto using IP4_String_chars.
  - intros _ _. unfold modTransportPortAction_MarshalText.
    destruct (_ =? _)%string; intros [= <-]; by apply plain_num.
  - intros _ _. unfold modVLANVIDAction_MarshalText. destruct (negb _); [done|].
    intros [= <-]. by apply plain_num.
  - intros _ _. unfold outputAction_MarshalText. destruct (_ <? _); [done|].
    intros [= <-]. by apply plain_num.
  - intros _ _. unfold conjunctionAction_MarshalText. destruct (_ >? _); [done|]. intros [= <-].
    apply (plain_mid preConjunction "("); [by split| |done|done].
    apply (plain_mid (fmt_d id) ","); [by apply (plain_num "")| |done|done].
    apply (plain_mid (fmt_d n) "/"); [by apply (plain_num "")| |done|done].
    apply (plain_mid (fmt_d size) ")" ""); [by apply (plain_num "")|by split|done|done].
  - intros _ _. unfold resubmitAction_MarshalText. destruct (_ && _); [done|]. intros [= <-].
    apply (plain_mid "resubmit" "("); [by split| |done|done].
    apply (plain_mid (opt_num port) ","); [apply Hopt| |done|done].
    apply (plain_mid (opt_num table) ")" ""); [apply Hopt|by split|done|done].
  - intros _ _. unfold resubmitPortAction_MarshalText. destruct (_ || _); [done|].
    intros [= <-]. by apply (plain_num "resubmit:").
  - intros _ (Hv & Hf & Hc). unfold loadSetFieldAction_MarshalText. destruct (_ || _); [done|].
    assert (Hp : plain_text (value +:+ "->" +:+ field)).
    { split; [|done]. rewrite !all_chars_app. by rewrite Hv, Hf. }
    destruct typ; intros [= <-].
    + by apply (plain_mid "set_field" ":" (value +:+ "->" +:+ field)).
    + by apply (plain_mid "load" ":" (value +:+ "->" +:+ field)).
  - intros Hn _ [= <-]. apply (plain_char num_char "set_tunnel:"); auto using num_graphic.
    + intros c. by apply num_char_other.
    + apply sharp_num, FormatUint_xdigits. apply Hn.
Qed.

Lemma plain_Join l :
  Forall plain_text l -> plain_text (Join l ",").
Proof.
  induction 1 as [|s l Hs Hl IH]; [by split|]. destruct l as [|s' l]; [done|].
  rewrite Join_cons by done. by apply (plain_mid s ",").
Qed.

(** An action whose text is read back, in a list of actions and after [actions=]; a
    flow whose actions are. *)
Definition Action_reads (a : Action) : Prop :=
  forall t, Action_MarshalText a = Ok t -> parseAction t = Ok a /\ closed 0 t = true /\ plain_text t.

Definition Flow_reads (f : Flow) : Prop :=
  in_i64 (Priority f) /\ in_i64 (InPort f) /\ in_i64 (Table f) /\ in_i64 (IdleTimeout f) /\
  in_u 64 (Cookie f) /\ value_text (Protocol f) = true /\
  Forall Match_ok (Matches f) /\ Forall Action_reads (Actions f).

Lemma Action_ok_reads a : Action_ok a -> Action_reads a.
Proof.
  intros (Hw & Hp & Hc & Ht) t Hm. split_and!; [by apply Action_reparses|by eapply Action_closed|by eapply Action_plain].
Qed.

Lemma Flow_ok_reads f : Flow_ok f -> Flow_reads f.
Proof.
  intros (H1 & H2 & H3 & H4 & H5 & H6 & H7 & H8). unfold Flow_reads. split_and!; try done.
  exact (Forall_impl _ _ _ H8 Action_ok_reads).
Qed.

(** *** The fields parse back *)

Lemma parse_fields_app f l k f' :
  parse_fields f l = Ok f' -> parse_fields f (l ++ k) = parse_fields f' k.
Proof.
  revert f. induction l as [|s l IH]; intros f; [by intros [= ->]|]. cbn [app parse_fields].
  destruct (parse_field f s); cbn [mbind go_bind]; [apply IH|done|done].
Qed.

Lemma parse_field_priority f n : in_i64 n -> parse_field f (field_kv priority (fmt_d n)) = Ok (set_Priority f n).
Proof.
  intros Hn. unfold field_kv. rewrite parse_field_kv by (done || apply num_value_text, fmt_d_num).
  unfold parse_key. change (TrimSpace priority) with priority. cbn [String.eqb].
  pose proof (ParseInt_FormatInt n Hn) as Hp. change (FormatInt n 10) with (fmt_d n) in Hp.
  by rewrite Hp.
Qed.

Lemma parse_field_table f n : in_i64 n -> parse_field f (field_kv table (fmt_d n)) = Ok (set_Table f n).
Proof.
  intros Hn. unfold field_kv. rewrite parse_field_kv by (done || apply num_value_text, fmt_d_num).
  unfold parse_key. change (TrimSpace table) with table.
  pose proof (ParseInt_FormatInt n Hn) as Hp. change (FormatInt n 10) with (fmt_d n) in Hp.
  cbn -[fmt_d ParseInt]. by rewrite Hp.
Qed.

Lemma parse_field_idle f n :
  in_i64 n -> parse_field f (field_kv idleTimeout (fmt_d n)) = Ok (set_IdleTimeout f n).
Proof.
  intros Hn. unfold field_kv. rewrite parse_field_kv by (done || apply num_value_text, fmt_d_num).
  unfold parse_key. change (TrimSpace idleTimeout) with idleTimeout.
  pose proof (ParseInt_FormatInt n Hn) as Hp. change (FormatInt n 10) with (fmt_d n) in Hp.
  cbn -[fmt_d ParseInt]. by rewrite Hp.
Qed.

Lemma fmt_d_not_LOCAL n : (fmt_d n =? portLOCAL)%string = false.
Proof.
  apply String.eqb_neq. intros H. pose proof (fmt_d_num n) as Hn. by rewrite H in Hn.
Qed.

Lemma parse_field_inPort f n :
  in_i64 n -> parse_field f (field_kv inPort (port_text n)) = Ok (set_InPort f n).
Proof.
  intros Hn. unfold field_kv, port_text. destruct (Z.eqb_spec n PortLOCAL) as [->|Hne].
  - by rewrite parse_field_kv.
  - rewrite parse_field_kv by (done || apply num_value_text, fmt_d_num).
    unfold parse_key. change (TrimSpace inPort) with inPort.
    rewrite (TrimSpace_graphic (fmt_d n)) by (apply value_graphic, num_value_text, fmt_d_num).
    rewrite fmt_d_not_LOCAL.
    pose proof (ParseInt_FormatInt n Hn) as Hp. change (FormatInt n 10) with (fmt_d n) in Hp.
    cbn -[fmt_d ParseInt]. by rewrite Hp.
Qed.

Lemma paddedHex_value n : 0 <= n -> value_text (paddedHexUint64 n) = true.
Proof. intros Hn. apply num_value_text. unfold paddedHexUint64, fmt_sharp_0x. by apply hex_num_text. Qed.

Lemma parse_field_cookie f n :
  in_u 64 n -> parse_field f (field_kv cookie (paddedHexUint64 n)) = Ok (set_Cookie f n).
Proof.
  intros Hn. unfold field_kv. rewrite parse_field_kv by (done || apply paddedHex_value, Hn).
  unfold parse_key. change (TrimSpace cookie) with cookie.
  pose proof (ParseUint_sharp_0x 16 n Hn) as Hp. fold (paddedHexUint64 n) in Hp.
  cbn -[paddedHexUint64 ParseUint]. by rewrite Hp.
Qed.

Lemma parse_field_protocol f p :
  value_text p = true -> p <> "" -> parse_field f p = Ok (set_Protocol f p).
Proof.
  intros Hv Hne. unfold parse_field. rewrite Contains_char, (value_other p "=") by done. cbn [negb].
  by apply String.eqb_neq in Hne as ->.
Qed.

Lemma parse_fields_matches f mts :
  Forall reparses mts ->
  exists ms, parse_fields f mts = Ok (set_Matches f (Matches f ++ ms)) /\
             Forall2 (fun m t => Match_MarshalText m = Ok t) ms mts.
Proof.
  intros H. revert f. induction H as [|t mts (k & v & m & -> & Hk & Hv & Hm & Ht) _ IH]; intros f.
  - exists []. rewrite app_nil_r. by destruct f.
  - destruct (IH (set_Matches f (Matches f ++ [m]))) as (ms & Hms & Hf). exists (m :: ms). split.
    + cbn [parse_fields]. rewrite parse_field_kv, (parse_key_match _ _ _ m) by done.
      cbn [mbind go_bind]. rewrite Hms. cbn [Matches set_Matches]. by rewrite <- app_assoc.
    + by constructor.
Qed.

(** *** Assembling the round trip *)

Lemma commas_snoc l : l <> [] -> Join l "," +:+ "," = Join (l ++ [""]) ",".
Proof.
  destruct l as [|s l]; [done|]. intros _. cbn [app]. rewrite !Join_commas, commas_app, app_assoc'. done.
Qed.

(** A field of a flow: a protocol, or a key of a flow and a value. *)
Definition flow_field (s : string) : Prop :=
  value_text s = true \/ exists k v, s = field_kv k v /\ k ∈ marshal_keys /\ value_text k = true /\ value_text v = true.

Lemma flow_field_graphic s : flow_field s -> all_chars graphic s = true.
Proof.
  intros [H|(k & v & -> & _ & Hk & Hv)]; [by apply value_graphic|].
  unfold field_kv. rewrite !all_chars_app. by rewrite (value_graphic k), (value_graphic v).
Qed.

Lemma flow_field_comma s : flow_field s -> all_chars (other_than ",") s = true.
Proof.
  intros [H|(k & v & -> & _ & Hk & Hv)]; [by apply value_other|].
  unfold field_kv. rewrite !all_chars_app. by rewrite (value_other k), (value_other v).
Qed.

Lemma flow_field_actions s : flow_field s -> Contains s "actions=" = false.
Proof.
  intros [H|(k & v & -> & Hk & _ & Hv)]; [|by apply no_actions_kv].
  apply (absent_char (other_than "=")); [by apply value_other|done].
Qed.

Lemma fields_plain l : Forall flow_field l -> plain_text (Join l ",").
Proof.
  intros H. apply plain_Join. eapply Forall_impl; [exact H|].
  intros s Hs. split; [by apply flow_field_graphic|by apply flow_field_actions].
Qed.

Lemma key_field k v : k ∈ marshal_keys -> value_text v = true -> flow_field (field_kv k v).
Proof.
  intros Hk Hv. right. exists k, v. split_and!; try done.
  assert (H : forallb value_text marshal_keys = true) by (vm_compute; reflexivity).
  rewrite forallb_forall in H. by apply H, list_elem_of_In.
Qed.

Lemma marshal_key k : is_one_of k marshal_keys = true -> k ∈ marshal_keys.
Proof. apply is_one_of_In. Qed.

Lemma port_text_value n : value_text (port_text n) = true.
Proof. unfold port_text. destruct (_ =? _); [done|]. apply num_value_text, fmt_d_num. Qed.

Lemma flow_fields_ok f mts :
  Flow_reads f -> Forall reparses mts -> Forall flow_field (flow_fields f mts).
Proof.
  intros (_ & _ & _ & _ & Hc & Hp & _) Hm. unfold flow_fields. constructor; [|rewrite !Forall_app; split_and!].
  - apply key_field; [by apply marshal_key|apply num_value_text, fmt_d_num].
  - destruct (negb _); [|constructor]. apply Forall_singleton. by left.
  - destruct (negb _); [apply Forall_singleton|constructor]. apply key_field; [by apply marshal_key|apply port_text_value].
  - eapply Forall_impl; [exact Hm|]. intros t (k & v & m & -> & Hk & Hv & Hpm & _).
    right. exists k, v. split_and!; try done. apply elem_of_app. left. by eapply parseMatch_key.
  - rewrite Forall_cons, Forall_singleton. split; (apply key_field; [by apply marshal_key|apply num_value_text, fmt_d_num]).
  - destruct (_ >? _); [apply Forall_singleton|constructor].
    apply key_field; [by apply marshal_key|]. apply paddedHex_value, Hc.
Qed.

Lemma parse_flow_fields f mts :
  Flow_reads f -> Forall reparses mts ->
  exists ms, Forall2 (fun m t => Match_MarshalText m = Ok t) ms mts /\
    parse_fields zeroFlow (flow_fields f mts ++ [""]) =
      Ok (mkFlow (Priority f) (Protocol f) (InPort f) ms (Table f) (IdleTimeout f) (Cookie f) []).
Proof.
  intros (Hpri & Hport & Htab & Hidle & Hc & Hproto & _) Hm.
  destruct (parse_fields_matches (mkFlow (Priority f) (Protocol f) (InPort f) [] 0 0 0 []) mts Hm)
    as (ms & Hms & Hf2).
  exists ms. split; [done|]. unfold flow_fields. cbn [app parse_fields].
  rewrite parse_field_priority by done. cbn [mbind go_bind]. rewrite <- !app_assoc.
  erewrite (parse_fields_app _ (if negb (Protocol f =? "")%string then [Protocol f] else []) _
    (mkFlow (Priority f) (Protocol f) 0 [] 0 0 0 [])).
  2: { destruct (String.eqb_spec (Protocol f) "") as [->|Hne]; [done|]. cbn [negb parse_fields].
       by rewrite parse_field_protocol. }
  erewrite (parse_fields_app _ (if negb (InPort f =? 0) then _ else []) _
    (mkFlow (Priority f) (Protocol f) (InPort f) [] 0 0 0 [])).
  2: { destruct (Z.eqb_spec (InPort f) 0) as [->|Hne]; [done|]. cbn [negb parse_fields].
       by rewrite parse_field_inPort. }
  rewrite (parse_fields_app _ mts _ _ Hms). cbn [set_Matches Matches app parse_fields].
  rewrite parse_field_table by done. cbn [mbind go_bind].
  rewrite parse_field_idle by done. cbn [mbind go_bind].
  erewrite (parse_fields_app _ (if Cookie f >? 0 then _ else []) _
    (mkFlow (Priority f) (Protocol f) (InPort f) ms (Table f) (IdleTimeout f) (Cookie f) [])).
  - done.
  - rewrite Z.gtb_ltb. destruct (Z.ltb_spec 0 (Cookie f)) as [Hpos|Hz].
    + cbn [parse_fields]. by rewrite parse_field_cookie.
    + assert (Hz0 : Cookie f = 0) by (unfold in_u in Hc; lia). by rewrite Hz0.
Qed.

Lemma Forall2_mapM {A} (fn : A -> go string) l ts :
  mapM fn l = Ok ts -> Forall2 (fun x t => fn x = Ok t) l ts.
Proof. apply mapM_Ok_Forall2. Qed.

Lemma marshalMatches_reparse f mts :
  Forall Match_ok (Matches f) -> marshalMatches f = Ok mts -> Forall reparses mts.
Proof.
  intros Hok H%Forall2_mapM. induction H as [|m t l ts Ht _ IH]; [constructor|].
  apply Forall_cons in Hok as [[Hw Hf] Hok]. constructor; [by eapply Match_reparses|auto].
Qed.

Lemma marshalActions_parse f ts :
  Forall Action_reads (Actions f) -> marshalActions f = Ok ts ->
  Parse (newActionParser (Join ts ",")) = Ok (Actions f, ts) /\ plain_text (Join ts ",").
Proof.
  intros Hok H%Forall2_mapM. split.
  - apply Parse_texts. induction H as [|a t l ts Ht _ IH]; [constructor|].
    apply Forall_cons in Hok as [Ha Hok]. destruct (Ha t Ht) as (Hp & Hc & _). constructor; auto.
  - apply plain_Join. induction H as [|a t l ts Ht _ IH]; [constructor|].
    apply Forall_cons in Hok as [Ha Hok]. destruct (Ha t Ht) as (_ & _ & Hp). constructor; auto.
Qed.

(** ** Theorems *)

Lemma unmarshal_text f mts ats :
  Flow_reads f -> Forall reparses mts -> ats <> [] -> Join ats "," <> "" ->
  Parse (newActionParser (Join ats ",")) = Ok (Actions f, ats) -> plain_text (Join ats ",") ->
  ((1 <? length ats)%nat && existsb (fun a => (a =? actionDrop)%string) ats) = false ->
  exists ms, Forall2 (fun m t => Match_MarshalText m = Ok t) ms mts /\
    Flow_UnmarshalText zeroFlow
      (Join (flow_fields f mts) "," +:+ "," +:+ "actions=" +:+ Join ats ",") = Ok (set_Matches f ms).
Proof.
  intros Hok Hm Hne Hne' Hp [Hg Hc] Hd.
  destruct (parse_flow_fields f mts Hok Hm) as (ms & Hms & Hfields).
  exists ms. split; [done|].
  pose proof (flow_fields_ok f mts Hok Hm) as Hff. pose proof (fields_plain _ Hff) as [Hfg Hfc].
  set (p := Join (flow_fields f mts) "," +:+ ",").
  assert (Hpg : all_chars graphic p = true) by (unfold p; by rewrite all_chars_app, Hfg).
  assert (Hpc : Contains p "actions=" = false).
  { unfold p. change (Join (flow_fields f mts) "," +:+ ",")
      with (Join (flow_fields f mts) "," +:+ String "," ""). by rewrite Contains_mid, Hfc. }
  rewrite <- app_assoc'. fold p. unfold Flow_UnmarshalText.
  change (keyActions +:+ "=") with "actions=".
  rewrite Split_first by (done || by apply clear_of_end).
  rewrite Split_none by done. apply String.eqb_neq in Hne'. rewrite Hne'. cbv zeta.
  rewrite !TrimSpace_graphic by done.
  assert (Hsplit : Split p "," = flow_fields f mts ++ [""]).
  { unfold p. rewrite commas_snoc by done. apply Split_Join; [by destruct (flow_fields f mts)|].
    apply Forall_app. split; [|by apply Forall_singleton].
    eapply Forall_impl; [exact Hff|]. apply flow_field_comma. }
  rewrite Hsplit. change (set_Matches zeroFlow []) with zeroFlow. rewrite Hfields. cbn [mbind go_bind].
  rewrite Hp, Hd. done.
Qed.

(** The text of such a flow is graphic, and is read back. *)
Lemma Flow_reads_back f t :
  Flow_reads f -> Flow_MarshalText f = Ok t ->
  all_chars graphic t = true /\
  exists ms, Flow_UnmarshalText zeroFlow t = Ok (set_Matches f ms) /\
    mapM Match_MarshalText ms = mapM Match_MarshalText (Matches f).
Proof.
  intros Hok Ht. destruct (Flow_text f t Ht) as (ats & mts & Ha & Hm & Hne & Hd & ->).
  pose proof Hok as (_ & _ & _ & _ & _ & _ & Hmok & Haok).
  destruct (marshalActions_parse f ats Haok Ha) as [Hp Hplain].
  pose proof (marshalMatches_reparse f mts Hmok Hm) as Hre.
  assert (Hj : Join ats "," <> "").
  { intros He. rewrite He in Hp. vm_compute in Hp. injection Hp as _ <-. done. }
  destruct (unmarshal_text f mts ats Hok Hre Hne Hj Hp Hplain Hd) as (ms & Hf2 & Hu).
  split.
  - pose proof (fields_plain _ (flow_fields_ok f mts Hok Hre)) as [Hfg _].
    rewrite !all_chars_app, Hfg. by destruct Hplain as [Hag _]; rewrite Hag.
  - exists ms. split; [done|]. apply mapM_Ok_Forall2 in Hf2. rewrite Hf2. symmetry. exact Hm.
Qed.

(** Equal but for the matches, whose texts are the same. *)
Definition same_flow (f g : Flow) : Prop :=
  exists ms, g = set_Matches f ms /\ mapM Match_MarshalText ms = mapM Match_MarshalText (Matches f).

#[export] Instance Flow_equiv : Equiv Flow := same_flow.

#[export] Instance same_flow_equivalence : Equivalence (≡@{Flow}).
Proof.
  split.
  - intros f. exists (Matches f). by destruct f.
  - intros f g (ms & -> & Hm). exists (Matches f). by destruct f.
  - intros f g h (ms & -> & Hm) (ns & -> & Hn). exists ns. split; [done|]. by rewrite Hn.
Qed.

(** What a flow prints, and what it selects, are the same for equivalent flows. *)
#[export] Instance Flow_MarshalText_proper : Proper ((≡) ==> (=)) Flow_MarshalText.
Proof.
  intros f g (ms & -> & H). unfold Flow_MarshalText, marshalMatches, marshalActions, marshalFunctions.
  cbn [set_Matches Matches Actions Priority Protocol InPort Table IdleTimeout Cookie]. by rewrite H.
Qed.

#[export] Instance Flow_MatchFlow_proper :
  Proper ((≡) ==> (=)) (fun f : Flow => MatchFlow_MarshalText (Flow_MatchFlow f)).
Proof.
  intros f g (ms & -> & H). unfold MatchFlow_MarshalText, Flow_MatchFlow, marshalFunctions.
  cbn [set_Matches Matches Protocol InPort Table Cookie mf_Matches mf_Protocol mf_InPort mf_Table mf_Cookie mf_CookieMask].
  by rewrite H.
Qed.

#[export] Program Instance Flow_unmarshaler : TextUnmarshaler Flow := {|
  UnmarshalText := Flow_UnmarshalText zeroFlow;
  text_of f t := Flow_reads f /\ Flow_MarshalText f = Ok t
|}.
Next Obligation.
  intros f t [Hf Ht]. destruct (Flow_reads_back f t Hf Ht) as (_ & ms & Hu & Hm).
  exists (set_Matches f ms). split; [done|]. by exists ms.
Qed.

Lemma Flow_reparses f t :
  Flow_ok f -> Flow_MarshalText f = Ok t ->
  all_chars graphic t = true /\
  exists ms, Flow_UnmarshalText zeroFlow t = Ok (set_Matches f ms) /\
    mapM Match_MarshalText ms = mapM Match_MarshalText (Matches f).
Proof. intros Hok%Flow_ok_reads. by apply Flow_reads_back. Qed.

(** C1: a well-formed flow that marshals is unmarshaled from its text into the
    same flow: priority, protocol, port, table, timeout, cookie and actions are
    equal, and the matches have the same texts, one by one. *)
Theorem Flow_roundtrip f t :
  Flow_ok f -> Flow_MarshalText f = Ok t ->
  exists ms, Flow_UnmarshalText zeroFlow t = Ok (set_Matches f ms) /\
    mapM Match_MarshalText ms = mapM Match_MarshalText (Matches f).
Proof. intros Hok Ht. apply (Flow_reparses f t Hok Ht). Qed.

(** The flow of the witnesses. *)
Definition sampleFlow : Flow :=
  mkFlow 2005 "ip" PortLOCAL [NetworkSource "192.0.2.1"; TransportDestinationPort 22] 45 30 10
    [ConnectionTracking "commit,exec(move:NXM_OF_IN_PORT[]->NXM_NX_REG0[])"; Resubmit 0 25].

Lemma sampleFlow_ok : Flow_ok sampleFlow.
Proof.
  unfold Flow_ok, in_i64, in_u. cbn [Priority InPort Table IdleTimeout Cookie Protocol sampleFlow].
  do 5 (split; [unfold PortLOCAL; lia|]). split; [reflexivity|]. cbn [Matches Actions]. split.
  - constructor; [split; [by left|done]|]. constructor; [|constructor]. split; [|done].
    cbn [Match_wf TransportDestinationPort]. unfold in_u. split; [by right|lia].
  - constructor; [|constructor; [|constructor]].
    + split; [done|]. split; [reflexivity|]. split; [reflexivity|]. split; reflexivity.
    + unfold Action_ok. cbn [Action_wf parsable text_closed text_plain Resubmit]. unfold in_i64. lia.
Qed.

Lemma Flow_roundtrip_witness :
  exists ms, Flow_UnmarshalText zeroFlow
    "priority=2005,ip,in_port=LOCAL,nw_src=192.0.2.1,tp_dst=22,table=45,idle_timeout=30,cookie=0x000000000000000a,actions=ct(commit,exec(move:NXM_OF_IN_PORT[]->NXM_NX_REG0[])),resubmit(,25)"
    = Ok (set_Matches sampleFlow ms) /\
    mapM Match_MarshalText ms = mapM Match_MarshalText (Matches sampleFlow).
Proof. apply (Flow_roundtrip sampleFlow); [apply sampleFlow_ok|vm_compute; reflexivity]. Defined.

(** *** Unmarshaling keeps the fields in range *)

Definition Flow_in_range (f : Flow) : Prop :=
  in_i64 (Priority f) /\ in_i64 (InPort f) /\ in_i64 (Table f) /\ in_i64 (IdleTimeout f) /\
  in_u 64 (Cookie f) /\ Forall Match_wf (Matches f) /\ Forall Action_wf (Actions f).

Lemma ParseInt0_range s k : ParseInt s 10 0 = Ok k -> in_i64 k.
Proof. exact (ParseInt_range s k). Qed.

Lemma flow_num_inv {A} (m : go A) s a : flow_num m s = Ok a -> m = Ok a.
Proof. by destruct m. Qed.

Lemma flow_num_no_panic {A} (m : go A) s : is_Panic m = false -> is_Panic (flow_num m s) = false.
Proof. by destruct m. Qed.

Ltac in_range :=
  intros; unfold Flow_in_range in *;
  cbn [set_Priority set_InPort set_Table set_IdleTimeout set_Cookie set_Protocol
       Priority InPort Table IdleTimeout Cookie Matches Actions];
  tauto.

Lemma parse_key_range f k v f' :
  Flow_in_range f -> parse_key f k v = Ok f' -> Flow_in_range f'.
Proof.
  intros (H1 & H2 & H3 & H4 & H5 & H6 & H7). unfold parse_key. cbv zeta.
  assert (Hnum : forall (g : Z -> Flow), (forall n, in_i64 n -> Flow_in_range (g n)) ->
    (n ← flow_num (ParseInt v 10 0) v; Ok (g n)) = Ok f' -> Flow_in_range f').
  { intros g Hg (n & Hn%flow_num_inv%ParseInt0_range & [= <-])%bind_Ok_inv. auto. }
  destruct (_ =? priority)%string; [apply Hnum; in_range|].
  destruct (_ =? cookie)%string.
  { intros (n & Hn%flow_num_inv & [= <-])%bind_Ok_inv. apply ParseUint_range in Hn; [|lia|lia].
    in_range. }
  destruct (_ =? keyActions)%string; [intros [= <-]; in_range|].
  destruct (_ =? inPort)%string.
  { destruct (_ =? portLOCAL)%string; [|apply Hnum; in_range].
    assert (in_i64 PortLOCAL) by (unfold in_i64, PortLOCAL; lia). intros [= <-]. in_range. }
  destruct (_ =? idleTimeout)%string; [apply Hnum; in_range|].
  destruct (_ =? table)%string; [apply Hnum; in_range|].
  destruct (is_one_of _ _); [intros [= <-]; in_range|].
  intros (m & Hm & [= <-])%bind_Ok_inv. apply parseMatch_total in Hm.
  unfold Flow_in_range. cbn [set_Matches Priority InPort Table IdleTimeout Cookie Matches Actions].
  do 5 (split; [done|]). split; [|done]. apply Forall_app. split; [done|by apply Forall_singleton].
Qed.

Lemma parse_fields_range f l f' :
  Flow_in_range f -> parse_fields f l = Ok f' -> Flow_in_range f'.
Proof.
  revert f. induction l as [|s l IH]; intros f Hf; cbn [parse_fields]; [by intros [= <-]|].
  intros (g & Hg & H)%bind_Ok_inv. apply (IH g); [|done]. clear IH H. revert Hg. unfold parse_field.
  destruct (negb (Contains s "=")).
  - intros [= <-]. by destruct (negb (s =? "")%string).
  - destruct (Split s "=") as [|k [|v [|]]]; try (by intros [= <-]). by apply parse_key_range.
Qed.

Lemma parse_key_no_panic f k v : is_Panic (parse_key f k v) = false.
Proof.
  unfold parse_key. cbv zeta.
  repeat match goal with |- is_Panic (if ?b then _ else _) = false => destruct b end; try reflexivity;
    (apply bind_no_panic; [|done]);
    first [ apply flow_num_no_panic; auto with go | apply parseMatch_total ].
Qed.

Lemma parse_fields_no_panic f l : is_Panic (parse_fields f l) = false.
Proof.
  revert f. induction l as [|s l IH]; intros f; [done|]. cbn [parse_fields].
  apply bind_no_panic; [|intros g _; apply IH]. unfold parse_field.
  destruct (negb _); [done|]. destruct (Split s "=") as [|k [|v [|]]]; try done. apply parse_key_no_panic.
Qed.

Lemma Parse_result s acts raw :
  Parse (newActionParser s) = Ok (acts, raw) -> Forall Action_wf acts.
Proof.
  remember (newActionParser s) as p eqn:Hp. clear Hp s.
  remember (String.length (p_rest p)) as n eqn:Hn. assert (Hle : (String.length (p_rest p) <= n)%nat) by lia.
  clear Hn. revert p acts raw Hle. induction n as [|n IH]; intros p acts raw Hle; rewrite Parse_step;
    pose proof (parser_parseAction_shorter p) as Hs; pose proof (parser_parseAction_wf p) as Hw;
    (destruct (parser_parseAction p) as [[[a r] q]|e|w];
      [|destruct e; intros [=]; subst; constructor|done]);
    destruct (Hs _ _ _ eq_refl) as [Hlt _]; [lia|].
  intros ([acts' raw'] & Hp & [= <- <-])%bind_Ok_inv. constructor; [by eapply Hw|].
  apply (IH q acts' raw'); [lia|done].
Qed.

(** C35: [UnmarshalText] never panics when the parentheses of the actions are never
    closed before they are opened, and whatever it accepts has every field in
    the range of its Go type: integers, cookie, fields of matches and actions. *)
Theorem Flow_UnmarshalText_safe f s :
  Flow_in_range f ->
  ((forall m a, Split s "actions=" = [m; a] -> never_below 0 (TrimSpace a) = true) ->
   is_Panic (Flow_UnmarshalText f s) = false) /\
  forall f', Flow_UnmarshalText f s = Ok f' -> Flow_in_range f'.
Proof.
  intros Hf. unfold Flow_UnmarshalText. change (keyActions +:+ "=") with "actions=".
  destruct (Split s "actions=") as [|m [|a [|]]]; try (by split).
  destruct (a =? "")%string; [by split|]. cbv zeta. split.
  - intros Hb. apply bind_no_panic; [apply parse_fields_no_panic|]. intros g _.
    destruct (Parse_balanced _ (newActionParser (TrimSpace a)) (le_n _) (Hb m a eq_refl)) as [Hp _].
    destruct (Parse _) as [[out raw]|e|w]; [by destruct (_ && _)|done|done].
  - intros f' (g & Hg & H)%bind_Ok_inv.
    assert (Hg' : Flow_in_range g) by (eapply parse_fields_range; [|exact Hg]; unfold Flow_in_range in *;
      cbn [set_Matches Priority InPort Table IdleTimeout Cookie Matches Actions]; intuition).
    destruct (Parse _) as [[out raw]|e|w] eqn:Hp; [|done|done]. destruct (_ && _); [done|].
    injection H as <-. apply Parse_result in Hp. unfold Flow_in_range in *.
    cbn [set_Actions Priority InPort Table IdleTimeout Cookie Matches Actions]. tauto.
Qed.

Lemma Flow_UnmarshalText_safe_witness :
  is_Panic (Flow_UnmarshalText zeroFlow "priority=1,actions=resubmit(,1)") = false.
Proof.
  apply (Flow_UnmarshalText_safe zeroFlow).
  - unfold Flow_in_range, in_i64, in_u. cbn. split_and!; (lia || constructor).
  - intros m a H. vm_compute in H. injection H as <- <-. vm_compute. reflexivity.
Defined.

(** A text with no [actions=] or with more than one, or with nothing after
    it, is refused as a flow without actions, whatever else it holds. *)
Theorem Flow_UnmarshalText_one_actions f s :
  length (Split s "actions=") <> 2%nat \/ (exists m, Split s "actions=" = [m; ""]) ->
  Flow_UnmarshalText f s = Err (FlowError "" errNoActions).
Proof.
  unfold Flow_UnmarshalText. change (keyActions +:+ "=") with "actions=".
  intros [H|[m ->]]; [|done]. by destruct (Split s "actions=") as [|m [|a [|]]].
Qed.

Lemma Flow_UnmarshalText_one_actions_witness :
  Flow_UnmarshalText zeroFlow "actions=drop,actions=drop" = Err (FlowError "" errNoActions).
Proof. apply Flow_UnmarshalText_one_actions. left. vm_compute. congruence. Defined.

(** What the code accepts without an action: white space only, or an action
    cut short after its colon, which ends the list silently. *)
Example flow_no_action1 : Flow_UnmarshalText zeroFlow "priority=1,actions= " = Ok (set_Priority zeroFlow 1).
Proof. vm_compute. reflexivity. Qed.
Example flow_no_action2 :
  Flow_UnmarshalText zeroFlow "priority=1,actions=output:,drop" = Ok (set_Priority zeroFlow 1).
Proof. vm_compute. reflexivity. Qed.
(** The protocol keeps the white space before it; a match key does too, and is
    then unknown. *)
Example flow_space1 :
  Protocol <$> Flow_UnmarshalText zeroFlow "idle_age=1, ip actions=drop" = Ok " ip".
Proof. vm_compute. reflexivity. Qed.
Example flow_space2 :
  is_Ok (Flow_UnmarshalText zeroFlow "idle_age=1, nw_src=10.0.0.1 actions=drop") = false.
Proof. vm_compute. reflexivity. Qed.
(** [drop] is told apart by case when it is not alone. *)
Example flow_drop_case :
  Actions <$> Flow_UnmarshalText zeroFlow "actions=DROP,output:1" = Ok [Drop; Output 1].
Proof. vm_compute. reflexivity. Qed.

(** ** Match flows *)

(** A text that neither starts nor ends with [c]. *)
Definition bounded_by_other (c : ascii) (s : string) : Prop :=
  exists a r n d, s = String a r /\ s = n +:+ sing d /\ other_than c a = true /\ other_than c d = true.

Lemma TrimChar_bounded c s : bounded_by_other c s -> TrimChar s c = s /\ TrimChar (s +:+ sing c) c = s.
Proof.
  intros (a & r & n & d & Hs & Hs' & Ha & Hd). apply negb_true_iff in Ha, Hd. unfold TrimChar.
  assert (Hl : forall t, trim_left_char c (s +:+ t) = s +:+ t).
  { intros t. rewrite Hs, app_cons. cbn [trim_left_char]. by rewrite Ha. }
  assert (Hr : trim_left_char c (String.rev s) = String.rev s).
  { rewrite Hs', rev_app'. change (String.rev (sing d)) with (sing d). rewrite app_cons, app_nil_l'.
    cbn [trim_left_char]. by rewrite Hd. }
  split.
  - pose proof (Hl "") as Hl0. rewrite app_nil_r' in Hl0. by rewrite Hl0, Hr, rev_rev.
  - rewrite Hl, rev_app'. change (String.rev (sing c)) with (sing c). rewrite app_cons, app_nil_l'.
    cbn [trim_left_char]. by rewrite Ascii.eqb_refl, Hr, rev_rev.
Qed.

Lemma bounded_other c s : s <> "" -> all_chars (other_than c) s = true -> bounded_by_other c s.
Proof.
  intros Hne Hs. destruct s as [|a r]; [done|].
  destruct (snoc_inv (String a r)) as [|(n & d & Hd)]; [done|].
  exists a, r, n, d. split_and!; try done.
  - cbn in Hs. by apply andb_true_iff in Hs as [? _].
  - rewrite Hd, all_chars_app in Hs. apply andb_true_iff in Hs as [_ Hs]. cbn in Hs.
    by rewrite andb_true_r in Hs.
Qed.

Lemma bounded_Join c l :
  l <> [] -> Forall (fun s => s <> "" /\ all_chars (other_than c) s = true) l -> bounded_by_other c (Join l (sing c)).
Proof.
  intros Hne H. induction H as [|s l [Hs Hc] Hl IH]; [done|].
  destruct l as [|s' l]; [by apply bounded_other|]. rewrite Join_cons by done.
  destruct (bounded_other c s Hs Hc) as (a & r & _ & _ & -> & _ & Ha & _).
  destruct IH as (_ & _ & n & d & _ & Hn & _ & Hd); [done|].
  exists a, (r +:+ sing c +:+ Join (s' :: l) (sing c)), (String a r +:+ sing c +:+ n), d.
  split_and!; [by rewrite app_cons| |done|done]. by rewrite Hn, !app_assoc'.
Qed.

Definition cookie_text (f : MatchFlow) : string :=
  paddedHexUint64 (mf_Cookie f) +:+ "/" +:+
  (if mf_CookieMask f =? 0 then "-1" else paddedHexUint64 (mf_CookieMask f)).

Definition matchflow_fields (f : MatchFlow) (matches : list string) : list string :=
  (if negb (mf_Protocol f =? "")%string then [mf_Protocol f] else [])
  ++ (if negb (mf_InPort f =? 0) then [field_kv inPort (port_text (mf_InPort f))] else [])
  ++ matches
  ++ (if mf_Cookie f >? 0 then [field_kv cookie (cookie_text f)] else [])
  ++ (if negb (mf_Table f =? AnyTable) then [field_kv table (fmt_d (mf_Table f))] else []).

Fixpoint terminated (l : list string) : string :=
  match l with
  | [] => ""
  | s :: l => s +:+ "," +:+ terminated l
  end.

Lemma terminated_app l k : terminated (l ++ k) = terminated l +:+ terminated k.
Proof. induction l as [|s l IH]; [done|]. cbn [app terminated]. by rewrite IH, !app_assoc'. Qed.

Lemma terminated_Join l : l <> [] -> terminated l = Join l "," +:+ ",".
Proof.
  induction l as [|s l IH]; [done|]. intros _. destruct l as [|s' l]; [done|].
  rewrite Join_cons by done. cbn [terminated] in *. by rewrite IH, !app_assoc'.
Qed.

Lemma Join_app_last l s : l <> [] -> Join (l ++ [s]) "," = terminated l +:+ s.
Proof.
  induction l as [|x l IH]; [done|]. intros _. destruct l as [|y l]; [cbn; by rewrite !app_assoc', app_nil_l'|].
  cbn [app]. rewrite Join_cons by done. cbn [app] in IH. rewrite IH by done. cbn [terminated].
  by rewrite !app_assoc'.
Qed.

Definition MatchFlow_ok (f : MatchFlow) : Prop :=
  value_text (mf_Protocol f) = true /\ in_u 64 (mf_Cookie f) /\ in_u 64 (mf_CookieMask f) /\
  Forall Match_ok (mf_Matches f).

Lemma kv_comma k v :
  all_chars (other_than ",") k = true -> all_chars (other_than ",") v = true ->
  field_kv k v <> "" /\ all_chars (other_than ",") (field_kv k v) = true.
Proof.
  intros Hk Hv. unfold field_kv. split; [by destruct k|]. by rewrite !all_chars_app, Hk, Hv.
Qed.

Lemma matchflow_fields_ok f mts :
  MatchFlow_ok f -> Forall reparses mts ->
  Forall (fun s => s <> "" /\ all_chars (other_than ",") s = true) (matchflow_fields f mts).
Proof.
  intros (Hp & Hc & Hk & _) Hm. unfold matchflow_fields. rewrite !Forall_app. split_and!.
  - destruct (String.eqb_spec (mf_Protocol f) ""); cbn [negb]; [constructor|].
    apply Forall_singleton. split; [done|by apply value_other].
  - destruct (negb _); [apply Forall_singleton|constructor].
    apply kv_comma; [done|]. apply value_other; [done|apply port_text_value].
  - eapply Forall_impl; [exact Hm|]. intros t (k & v & m & -> & Hkt & Hvt & _).
    apply kv_comma; by apply value_other.
  - destruct (_ >? _); [apply Forall_singleton|constructor]. apply kv_comma; [done|]. unfold cookie_text.
    rewrite !all_chars_app, (value_other (paddedHexUint64 (mf_Cookie f))) by (done || apply paddedHex_value, Hc).
    cbn [andb]. destruct (_ =? 0); [done|]. apply (value_other); [done|]. apply paddedHex_value, Hk.
  - destruct (negb _); [apply Forall_singleton|constructor].
    apply kv_comma; [done|]. apply value_other; [done|apply num_value_text, fmt_d_num].
Qed.

Lemma matchflow_raw f mts :
  let b :=
    (if negb (mf_Protocol f =? "")%string then mf_Protocol f +:+ "," else "")
    +:+ (if negb (mf_InPort f =? 0) then inPort +:+ "=" +:+ port_text (mf_InPort f) +:+ "," else "")
    +:+ (if (0 <? length mts)%nat then Join mts "," +:+ "," else "")
    +:+ (if mf_Cookie f >? 0
         then cookie +:+ "=" +:+ paddedHexUint64 (mf_Cookie f) +:+ "/"
              +:+ (if mf_CookieMask f =? 0 then "-1" else paddedHexUint64 (mf_CookieMask f)) +:+ ","
         else "")
    +:+ (if negb (mf_Table f =? AnyTable) then table +:+ "=" +:+ fmt_d (mf_Table f) else "") in
  b = Join (matchflow_fields f mts) "," \/
  (b = Join (matchflow_fields f mts) "," +:+ "," /\ matchflow_fields f mts <> []).
Proof.
  intros b. unfold matchflow_fields.
  set (pre := (if negb (mf_Protocol f =? "")%string then [mf_Protocol f] else [])
    ++ (if negb (mf_InPort f =? 0) then [field_kv inPort (port_text (mf_InPort f))] else [])
    ++ mts ++ (if mf_Cookie f >? 0 then [field_kv cookie (cookie_text f)] else [])).
  assert (Hb : b = terminated pre +:+ (if negb (mf_Table f =? AnyTable) then field_kv table (fmt_d (mf_Table f)) else "")).
  { unfold b, pre. rewrite !terminated_app, !app_assoc'.
    assert (Hmt : (if (0 <? length mts)%nat then Join mts "," +:+ "," else "") = terminated mts).
    { destruct mts as [|m l]; [done|]. symmetry. by apply terminated_Join. }
    rewrite Hmt. unfold field_kv, cookie_text.
    destruct (negb (mf_Protocol f =? "")%string), (negb (mf_InPort f =? 0)), (mf_Cookie f >? 0);
      cbn [terminated]; rewrite ?app_nil_r', ?app_nil_l', ?app_assoc'; reflexivity. }
  rewrite Hb, !app_assoc. clear b Hb. fold pre.
  replace (((_ ++ _) ++ mts) ++ _) with pre by (unfold pre; by rewrite !app_assoc).
  destruct (negb (mf_Table f =? AnyTable)).
  - left. destruct pre as [|s l]; [done|]. by rewrite Join_app_last.
  - rewrite app_nil_r, app_nil_r'. destruct pre as [|s l]; [by left|]. right.
    split; [by apply terminated_Join|done].
Qed.

(** A match flow marshals to its fields joined by commas, without a comma
    before the first or after the last; the cookie is matched exactly ([/-1])
    unless a mask is given; [AnyTable] is left out; and it is refused exactly
    when it has no field at all. *)
Theorem MatchFlow_MarshalText_fields f mts :
  MatchFlow_ok f -> mapM Match_MarshalText (mf_Matches f) = Ok mts ->
  MatchFlow_MarshalText f =
    match matchflow_fields f mts with
    | [] => Err (MatchFlowError "" errEmptyMatchFlow)
    | fields => Ok (Join fields ",")
    end.
Proof.
  intros Hok Hm. assert (Hre : Forall reparses mts).
  { destruct Hok as (_ & _ & _ & Hms). revert Hms. apply mapM_Ok_Forall2 in Hm.
    induction Hm as [|m t l ts Ht _ IH]; [constructor|].
    intros [[Hw Hf] Hok]%Forall_cons. constructor; [by eapply Match_reparses|auto]. }
  pose proof (matchflow_fields_ok f mts Hok Hre) as Hf.
  unfold MatchFlow_MarshalText, marshalFunctions. rewrite Hm. cbn [mbind go_bind].
  pose proof (matchflow_raw f mts) as Hraw. cbv zeta in Hraw |- *.
  assert (Htrim : forall b, b = Join (matchflow_fields f mts) "," \/
    (b = Join (matchflow_fields f mts) "," +:+ "," /\ matchflow_fields f mts <> []) ->
    TrimChar b "," = Join (matchflow_fields f mts) ",").
  { intros b. destruct (matchflow_fields f mts) as [|s l] eqn:E; [by intros [->|[_ ?]]|].
    destruct (TrimChar_bounded "," _ (bounded_Join "," (s :: l) ltac:(done) Hf)) as [H1 H2].
    intros [->|[-> _]]; [exact H1|exact H2]. }
  rewrite (Htrim _ Hraw). destruct (matchflow_fields f mts) as [|s l]; [done|].
  destruct (bounded_Join "," (s :: l) ltac:(done) Hf) as (a & r & _ & _ & -> & _). done.
Qed.

Lemma MatchFlow_MarshalText_fields_witness :
  MatchFlow_MarshalText (mkMatchFlow "ip" 0 [NetworkSource "192.0.2.0/24"] 3 1 255) =
  Ok "ip,nw_src=192.0.2.0/24,cookie=0x0000000000000001/0x00000000000000ff,table=3".
Proof.
  apply (MatchFlow_MarshalText_fields (mkMatchFlow "ip" 0 [NetworkSource "192.0.2.0/24"] 3 1 255)
           ["nw_src=192.0.2.0/24"]); [|vm_compute; reflexivity].
  split; [done|]. split; [cbn; unfold in_u; lia|]. split; [cbn; unfold in_u; lia|].
  constructor; [split; [by left|done]|constructor].
Defined.

(** *** Marshaling does not panic *)

Lemma Match_MarshalText_no_panic m : is_Panic (Match_MarshalText m) = false.
Proof.
  assert (H4 : forall k ip, is_Panic (matchIPv4AddressOrCIDR k ip) = false).
  { intros k ip. unfold matchIPv4AddressOrCIDR. by repeat case_match. }
  assert (H6 : forall k ip, is_Panic (matchIPv6AddressOrCIDR k ip) = false).
  { intros k ip. unfold matchIPv6AddressOrCIDR. by repeat case_match. }
  assert (Hh : forall k a, is_Panic (matchEthernetHardwareAddress k a) = false).
  { intros k a. unfold matchEthernetHardwareAddress. by case_match. }
  destruct m; cbn [Match_MarshalText]; unfold_marshal; try reflexivity; auto;
    try (case_match; by auto).
  - unfold dataLinkMatch_MarshalText. apply bind_no_panic; [apply ParseMAC_no_panic|]. intros hw _.
    destruct (negb _); [done|]. destruct (SplitN2 addr "/" !! 1%nat); [|done].
    apply bind_no_panic; [apply ParseMAC_no_panic|]. intros w _. by destruct (negb _).
  - unfold dataLinkVLANMatch_MarshalText. by repeat case_match.
  - unfold matchTransportPort. by case_match.
  - unfold vlanTCIMatch_MarshalText. by case_match.
  - unfold connectionTrackingMarkMatch_MarshalText. by case_match.
  - unfold tunnelIDMatch_MarshalText. by case_match.
Qed.

Lemma Action_MarshalText_no_panic a : is_Panic (Action_MarshalText a) = false.
Proof.
  destruct a; cbn [Action_MarshalText]; try reflexivity;
    unfold ctAction_MarshalText, modDataLinkAction_MarshalText, modNetworkAction_MarshalText,
      modTransportPortAction_MarshalText, modVLANVIDAction_MarshalText, outputAction_MarshalText,
      conjunctionAction_MarshalText, resubmitAction_MarshalText, resubmitPortAction_MarshalText,
      loadSetFieldAction_MarshalText; cbv zeta; by repeat case_match.
Qed.

Lemma Flow_MarshalText_no_panic f : is_Panic (Flow_MarshalText f) = false.
Proof.
  unfold Flow_MarshalText. case_match; [done|].
  apply bind_no_panic; [apply mapM_no_panic; intros; apply Action_MarshalText_no_panic|]. intros ats _.
  apply bind_no_panic; [apply mapM_no_panic; intros; apply Match_MarshalText_no_panic|]. intros mts _.
  by case_match.
Qed.

(** Only [Drop] has the text [drop]. *)
Lemma drop_text a : Action_MarshalText a = Ok actionDrop <-> a = Drop.
Proof.
  split; [|by intros ->]. destruct a; cbn [Action_MarshalText]; [by intros [= ->]|..];
    unfold ctAction_MarshalText, modDataLinkAction_MarshalText, modNetworkAction_MarshalText,
      modTransportPortAction_MarshalText, modVLANVIDAction_MarshalText, outputAction_MarshalText,
      conjunctionAction_MarshalText, resubmitAction_MarshalText, resubmitPortAction_MarshalText,
      loadSetFieldAction_MarshalText, setTunnelAction_MarshalText; cbv zeta; repeat case_match; try done; by rewrite !app_cons.
Qed.

Lemma drop_in_texts l ats :
  mapM Action_MarshalText l = Ok ats -> existsb (fun a => (a =? actionDrop)%string) ats = true <-> Drop ∈ l.
Proof.
  intros H%mapM_Ok_Forall2. rewrite existsb_exists. split.
  - intros (t & (i & Hi)%list_elem_of_In%list_elem_of_lookup & ->%String.eqb_eq).
    destruct (Forall2_lookup_r _ _ _ _ _ H Hi) as (a & Ha & ->%drop_text). by eapply list_elem_of_lookup_2.
  - intros (i & Hi)%list_elem_of_lookup. destruct (Forall2_lookup_l _ _ _ _ _ H Hi) as (t & Ht & [= <-]).
    exists actionDrop. split; [|done]. apply list_elem_of_In. by eapply list_elem_of_lookup_2.
Qed.

(** C39: Marshaling a flow fails exactly in these cases, each of which excludes the ones
    after it: there is no action; an action fails, and the error is that of the first
    one; all actions have a text and a match fails, likewise; all have a text, and [drop]
    is among several actions. It never panics. *)
Theorem Flow_MarshalText_errors f :
  (forall e, Flow_MarshalText f = Err e <->
     (Actions f = [] /\ e = FlowError "" errNoActions) \/
     first_failure Action_MarshalText (Actions f) e \/
     (Actions f <> [] /\ all_succeed Action_MarshalText (Actions f) /\ first_failure Match_MarshalText (Matches f) e) \/
     (all_succeed Action_MarshalText (Actions f) /\ all_succeed Match_MarshalText (Matches f) /\
      Drop ∈ Actions f /\ (1 < length (Actions f))%nat /\ e = FlowError "" errActionsWithDrop)) /\
  is_Panic (Flow_MarshalText f) = false.
Proof.
  split; [|apply Flow_MarshalText_no_panic]. intros e. rewrite <- !mapM_Err, <- !mapM_all_Ok.
  unfold Flow_MarshalText, marshalActions, marshalMatches, marshalFunctions.
  destruct (Actions f) as [|x l] eqn:Hacts; [cbn; split; [intros [= <-]; by left|]|].
  { intros [[_ ->]|[H|[[H _]|(_ & _ & H & _)]]]; [done|done|done|by apply elem_of_nil in H]. }
  change ((length (x :: l) =? 0)%nat) with false. cbv iota. rewrite <- Hacts.
  assert (Hne : Actions f <> []) by (by rewrite Hacts).
  destruct (mapM Action_MarshalText (Actions f)) as [ats|e1|w] eqn:Ha; cbn [mbind go_bind].
  - destruct (mapM Match_MarshalText (Matches f)) as [mts|e2|w] eqn:Hm; cbn [mbind go_bind].
    + rewrite (mapM_Ok_length _ _ _ Ha). pose proof (drop_in_texts _ _ Ha) as Hd.
      destruct (Nat.ltb_spec 1 (length (Actions f))) as [Hlen|Hlen]; cbn [andb].
      * destruct (existsb _ ats); (split; [|intros [[? _]|[[=]|[(_ & _ & [=])|(_ & _ & Hin & _ & He)]]]; try congruence]).
        -- intros [= <-]. right. right. right. split_and!; [by eexists|by eexists|by apply Hd|done|done].
        -- by rewrite He.
        -- done.
        -- by apply Hd in Hin.
      * split; [done|]. intros [[? _]|[[=]|[(_ & _ & [=])|(_ & _ & _ & ? & _)]]]; [congruence|lia].
    + split; [intros [= <-]; right; right; left; split_and!; [done|by eexists|done]|].
      intros [[? _]|[?|[(_ & _ & ?)|(_ & [? ?] & _)]]]; congruence.
    + split; [done|]. intros [[? _]|[?|[(_ & _ & ?)|(_ & [? ?] & _)]]]; congruence.
  - split; [intros [= <-]; right; left; done|]. intros [[? _]|[?|[(_ & [? ?] & _)|([? ?] & _)]]]; congruence.
  - split; [done|]. intros [[? _]|[?|[(_ & [? ?] & _)|([? ?] & _)]]]; congruence.
Qed.

Lemma MatchFlow_MarshalText_no_panic f : is_Panic (MatchFlow_MarshalText f) = false.
Proof.
  unfold MatchFlow_MarshalText.
  apply bind_no_panic; [apply mapM_no_panic; intros; apply Match_MarshalText_no_panic|]. intros mts _.
  cbv zeta. by case_match.
Qed.
