(* ===== verification/Normal.v ===== *)
(** * Normal forms

    What the parsers accept is more than what the printers write: an action may be
    surrounded by other text, a field by spaces, a number written in several ways.
    Here whatever text was accepted, printing what was parsed gives a text that parses
    to the same again: printing is a normal form of the accepted texts of
    [ovs/actionparser.go], [ovs/matchparser.go] and [ovs/flow.go]. *)

From S2P Require Import Prelude GoStrings GoConv GoNet GoQuote Names GoScan Match MatchParser Action ActionParser Flow.

(** ** Regular expressions on a part of a text *)

Lemma span_spec f s : s = fst (span f s) +:+ snd (span f s) /\ all_chars f (fst (span f s)) = true /\
  stops f (snd (span f s)).
Proof.
  induction s as [|c s IH]; [done|]. cbn [span]. destruct (f c) eqn:Hc.
  - destruct (span f s) as [a b]. cbn [fst snd] in *. destruct IH as (-> & Ha & Hb).
    cbn [all_chars]. rewrite Hc. by split_and!.
  - cbn. by rewrite Hc.
Qed.

(** What stops the reading of a text stops it also when the text ends there. *)
Lemma span_before f u rest :
  stops f rest -> span f (u +:+ rest) = (fst (span f u), snd (span f u) +:+ rest).
Proof.
  intros Hr. induction u as [|c u IH].
  - rewrite app_nil_l'. cbn [span fst snd]. destruct rest as [|d r]; [done|].
    cbn in *. by rewrite Hr.
  - rewrite app_cons. cbn [span]. destruct (f c); [|by cbn].
    rewrite IH. by destruct (span f u).
Qed.

Lemma find_re_Some {A} lit (m : string -> option A) s a :
  find_re lit m s = Some a -> exists p u, s = p +:+ lit +:+ u /\ m u = Some a.
Proof.
  assert (Hhere : forall s, (if String.prefix lit s then m (sdrop (String.length lit) s) else None) = Some a ->
    exists p u, s = p +:+ lit +:+ u /\ m u = Some a).
  { intros s'. destruct (String.prefix lit s') eqn:Hp; [|done]. apply prefix_spec in Hp as [u ->].
    rewrite sdrop_app. intros H. exists "", u. by rewrite app_nil_l'. }
  induction s as [|c s IH]; cbn [find_re]; intros H; destruct (if String.prefix _ _ then _ else _) eqn:Hh;
    try done; try (injection H as ->; by apply Hhere).
  destruct (IH H) as (p & u & -> & Hm). exists (String c p), u. by rewrite !app_cons.
Qed.

Lemma find_re_None {A} lit (m : string -> option A) p u :
  find_re lit m (p +:+ lit +:+ u) = None -> m u = None.
Proof.
  induction p as [|c p IH].
  - rewrite app_nil_l'. intros H. destruct (m u) as [a|] eqn:Hm; [|done].
    rewrite (find_re_here lit m u a Hm) in H. done.
  - rewrite app_cons. cbn [find_re]. destruct (if String.prefix _ _ then _ else _); [done|]. exact IH.
Qed.

(** A pattern that sees nothing past white space. *)
Definition local {A} (m : string -> option A) : Prop :=
  forall u rest, stops re_nonspace rest -> m u <> None -> m (u +:+ rest) <> None.

Lemma find_re_part {A} lit (m : string -> option A) p t rest :
  local m -> stops re_nonspace rest -> find_re lit m (p +:+ t +:+ rest) = None -> find_re lit m t = None.
Proof.
  intros Hm Hr H. destruct (find_re lit m t) as [a|] eqn:Ht; [|done].
  apply find_re_Some in Ht as (q & u & -> & Hu). exfalso.
  apply (Hm u rest Hr); [congruence|]. apply (find_re_None lit m (p +:+ q)).
  rewrite <- H. by rewrite !app_assoc'.
Qed.

Lemma stops_dec rest : stops re_nonspace rest -> stops is_dec rest.
Proof.
  destruct rest as [|c r]; [done|]. cbn. intros Hc.
  pose proof (forall_below 256 (fun z => negb (is_dec (chr z)) || re_nonspace (chr z))
    ltac:(vm_compute; reflexivity) (code c) (code_range c)) as H.
  cbn beta in H. rewrite chr_code, Hc in H. by destruct (is_dec c).
Qed.

Lemma ct_args_local : local ct_args.
Proof. intros u rest Hr. unfold ct_args. by rewrite span_before. Qed.

Lemma arrow_args_local : local arrow_args.
Proof. intros u rest Hr. unfold arrow_args. by rewrite span_before. Qed.

Lemma digits1_local : local digits1.
Proof.
  intros u rest Hr. unfold digits1. rewrite span_before by (by apply stops_dec). by destruct (span is_dec u).
Qed.

Lemma resubmit_args_local : local resubmit_args.
Proof.
  intros u rest Hr. unfold resubmit_args. rewrite span_before by (by apply stops_dec).
  destruct (span is_dec u) as [p s]. cbn [fst snd]. destruct s as [|c s]; [done|]. rewrite app_cons.
  destruct (Ascii.eqb_spec c ",") as [->|Hc].
  - rewrite span_before by (by apply stops_dec). destruct (span is_dec s) as [q v]. cbn [fst snd].
    destruct v as [|d v]; [done|]. rewrite app_cons. by destruct d as [[] [] [] [] [] [] [] []].
  - by destruct c as [[] [] [] [] [] [] [] []].
Qed.

Lemma split_last_Some sep ok s a b : split_last sep ok s = Some (a, b) -> s = a +:+ sep +:+ b.
Proof.
  revert a b. induction s as [|c s IH]; intros a b; [done|]. cbn [split_last].
  destruct (split_last sep ok s) as [[x y]|] eqn:Hs.
  - intros [= <- <-]. rewrite app_cons. by rewrite <- (IH x y eq_refl).
  - destruct (String.prefix sep s) eqn:Hp; [|done]. apply prefix_spec in Hp as [r ->]. cbn [andb].
    rewrite sdrop_app. destruct (ok r); [|done]. by intros [= <- <-].
Qed.

(** ** Actions *)

Definition arrow_lit (typ : loadSetFieldType) : string :=
  match typ with actionLoad => "load:" | actionSetField => "set_field:" end.

(** Where the parser found an action's free text, and what it did not find. *)
Definition found (s : string) (a : Action) : Prop :=
  match a with
  | ctAction args => all_chars re_nonspace args = true
  | resubmitAction port table => 0 <= port /\ 0 <= table
  | loadSetFieldAction value field typ =>
      ctRe s = None /\ resubmitRe s = None /\ resubmitPortRe s = None /\
      (typ = actionSetField -> loadRe s = None) /\
      exists p rest, s = p +:+ (arrow_lit typ +:+ value +:+ "->" +:+ field) +:+ rest /\
        stops re_nonspace rest /\ arrow_args (value +:+ "->" +:+ field) = Some (value, field)
  | setTunnelAction _ => False
  | _ => True
  end.

Lemma ct_args_nonspace u args : ct_args u = Some args -> all_chars re_nonspace args = true.
Proof.
  unfold ct_args. intros ([a b] & Hs & ->)%fmap_Some. apply split_last_Some in Hs.
  destruct (span_spec re_nonspace u) as (_ & Hall & _). rewrite Hs, all_chars_app in Hall.
  by apply andb_true_iff in Hall as [Ha _].
Qed.

Lemma arrow_args_found lit s value field :
  find_re lit arrow_args s = Some (value, field) ->
  exists p rest, s = p +:+ (lit +:+ value +:+ "->" +:+ field) +:+ rest /\ stops re_nonspace rest /\
    arrow_args (value +:+ "->" +:+ field) = Some (value, field).
Proof.
  intros (p & u & -> & Hu)%find_re_Some. destruct (span_spec re_nonspace u) as (Eu & Hall & Hst).
  exists p, (snd (span re_nonspace u)). unfold arrow_args in *. pose proof (split_last_Some _ _ _ _ _ Hu) as Hs.
  split_and!; [|done|].
  - rewrite Eu at 1. rewrite Hs. by rewrite !app_assoc'.
  - rewrite <- Hs, span_all by done. exact Hu.
Qed.

Lemma optAtoi_dec s n : all_chars is_dec s = true -> optAtoi s = Ok n -> 0 <= n.
Proof.
  unfold optAtoi, Atoi, parse_int. destruct s as [|c r]; [by intros _ [= <-]|]. cbn [String.eqb all_chars].
  intros [Hc _]%andb_true_iff. destruct (Ascii.eqb_spec c "-") as [->|_]; [done|]. cbn [orb negb andb].
  destruct (parse_uint _ 10 0) as [[]|un] eqn:Hu; [done..|]. apply parse_uint_range in Hu; [|lia|lia].
  destruct (_ <=? un); [done|]. intros [= <-]. lia.
Qed.

Lemma resubmit_args_dec u p t : resubmit_args u = Some (p, t) -> all_chars is_dec p = true /\ all_chars is_dec t = true.
Proof.
  unfold resubmit_args. destruct (span_spec is_dec u) as (_ & Hp & _). destruct (span is_dec u) as [p' s].
  cbn [fst] in Hp. destruct s as [|c s]; [done|]. destruct (Ascii.eqb_spec c ",") as [->|Hc];
    [|by destruct c as [[] [] [] [] [] [] [] []]].
  destruct (span_spec is_dec s) as (_ & Ht & _). destruct (span is_dec s) as [t' v]. cbn [fst] in Ht.
  destruct v as [|d v]; [done|]. destruct (Ascii.eqb_spec d ")") as [->|Hd];
    [|by destruct d as [[] [] [] [] [] [] [] []]]. by intros [= <- <-].
Qed.

Lemma parseAction_re_found s a : ctRe s = None -> parseAction_re s = Ok a -> found s a.
Proof.
  intros Hct. unfold parseAction_re. destruct (resubmitRe s) as [[p t]|] eqn:Hr.
  { intros (x & Hx & (y & Hy & [= <-])%bind_Ok_inv)%bind_Ok_inv.
    apply find_re_Some in Hr as (q & u & _ & [Dp Dt]%resubmit_args_dec). cbn. eauto using optAtoi_dec. }
  destruct (resubmitPortRe s) eqn:Hp; [by intros (x & _ & [= <-])%bind_Ok_inv|].
  destruct (loadRe s) as [[v f]|] eqn:Hl.
  { intros [= <-]. cbn [Load found]. split_and!; try done. by apply (arrow_args_found "load:"). }
  destruct (setFieldRe s) as [[v f]|] eqn:Hf; [|done]. intros [= <-]. cbn [SetField found].
  split_and!; try done. by apply (arrow_args_found "set_field:").
Qed.

Lemma parseAction_found s a : parseAction s = Ok a -> found s a.
Proof.
  unfold parseAction. cbv zeta.
  repeat (destruct (_ =? _)%string; [by intros [= <-]|]).
  destruct (ctRe s) as [args|] eqn:Hct.
  { intros [= <-]. apply find_re_Some in Hct as (p & u & _ & Hu). by apply (ct_args_nonspace u). }
  unfold parseAction_rest, parse_modDataLink, parse_modNetwork.
  repeat (destruct (HasPrefix s _); [clear Hct; intros H; inv_bind; try (by case_match; simplify_eq);
    by repeat match goal with x : (_ * _)%type |- _ => destruct x end; simplify_eq|]).
  by apply parseAction_re_found.
Qed.

(** The text of a found [load] or [set_field] action is read as it was found. *)
Lemma found_arrow s value field typ :
  found s (loadSetFieldAction value field typ) ->
  parseAction (arrow_lit typ +:+ value +:+ "->" +:+ field) = Ok (loadSetFieldAction value field typ).
Proof.
  intros (Hct & Hr & Hrp & Hl & p & rest & -> & Hst & Ha). set (t := value +:+ "->" +:+ field) in *.
  assert (E : parseAction (arrow_lit typ +:+ t) = match ctRe (arrow_lit typ +:+ t) with
    | Some args => Ok (ConnectionTracking args) | None => parseAction_re (arrow_lit typ +:+ t) end)
    by (destruct typ; by rewrite parseAction_prefix).
  rewrite E. unfold ctRe, parseAction_re, resubmitRe, resubmitPortRe in *.
  rewrite (find_re_part _ _ p _ rest ct_args_local Hst Hct).
  rewrite (find_re_part _ _ p _ rest resubmit_args_local Hst Hr).
  rewrite (find_re_part _ _ p _ rest digits1_local Hst Hrp).
  destruct typ; cbn [arrow_lit] in *.
  - unfold loadRe in *. rewrite (find_re_part _ _ p _ rest arrow_args_local Hst (Hl eq_refl)).
    unfold setFieldRe. by rewrite (find_re_here _ _ _ _ Ha).
  - unfold loadRe. by rewrite (find_re_here _ _ _ _ Ha).
Qed.

Lemma parseAction_again s a t :
  parseAction s = Ok a -> Action_MarshalText a = Ok t -> parseAction t = Ok a.
Proof.
  intros Hs Ht. pose proof (parseAction_found s a Hs) as Hf. pose proof (proj2 (parseAction_total s) a Hs) as Hw.
  destruct a as [x|args|d addr|d ip|d port|vid|port|id n size|port table|port|value field typ|tid];
    try (apply (Action_reparses _ t Hw); [exact Hf || exact I|exact Ht]).
  cbn [Action_MarshalText] in Ht. unfold loadSetFieldAction_MarshalText in Ht.
  destruct (_ || _); [done|]. apply found_arrow in Hf. by destruct typ; injection Ht as <-.
Qed.

(** C13: whatever text of an action was accepted, with whatever around it, the text that
    the parsed action prints is parsed into that action again. *)
Theorem parseAction_normal s a t :
  parseAction s = Ok a -> Action_MarshalText a = Ok t -> parseAction t = Ok a.
Proof. apply parseAction_again. Qed.

Lemma parseAction_normal_witness :
  parseAction "note:(set_field:a(b->c" = Ok (SetField "a(b" "c") /\ parseAction "set_field:a(b->c" = Ok (SetField "a(b" "c").
Proof.
  split; [vm_compute; reflexivity|].
  apply (parseAction_normal "note:(set_field:a(b->c" (SetField "a(b" "c")); vm_compute; reflexivity.
Defined.

(** ** Matches *)

Lemma parseMatch_flags k v m : value_text v = true -> parseMatch k v = Ok m -> Match_flags_ok m.
Proof.
  intros Hv. assert (Hf : forall mk, (forall l, Match_flags_ok (mk l) = flags_ok l) -> forall e,
    (if negb (String.length v mod 4 =? 0)%nat then Err e else Ok (mk (split_flags v))) = Ok m -> Match_flags_ok m).
  { intros mk Hmk e. destruct (Nat.eqb_spec (String.length v mod 4) 0) as [Hl|]; [|done]. intros [= <-].
    rewrite Hmk. unfold flags_ok. rewrite split_flags_join; [done|].
    apply (all_chars_impl _ _ _ value_ascii). exact Hv. }
  unfold parseMatch, parseMACMatch, parseIntMatch, parsePort, parseDataLinkVLAN, parseVLANTCI, parseCTMark, parseTunID.
  repeat (destruct (is_one_of k _); [try (intros H; inv_bind; repeat case_match; simplify_eq; done)|]); try done.
  - by apply (Hf ConnectionTrackingState).
  - by apply (Hf TCPFlags).
  - destruct (HasPrefix v hexPrefix); cbn [negb]; by intros (x & _ & [= <-])%bind_Ok_inv.
Qed.

(** Whatever value of a match was accepted, if it is free of separators and white
    space, the text that the parsed match prints is [key=value] again, and is parsed
    into a match with the same text. *)
Theorem parseMatch_normal k v m t :
  value_text v = true -> parseMatch k v = Ok m -> Match_MarshalText m = Ok t ->
  exists k' v' m', t = k' +:+ "=" +:+ v' /\ value_text v' = true /\
    parseMatch k' v' = Ok m' /\ Match_MarshalText m' = Ok t.
Proof.
  intros Hv Hm Ht. pose proof (proj2 (parseMatch_total k v) m Hm) as Hw.
  destruct (Match_reparses m t Hw (parseMatch_flags k v m Hv Hm) Ht) as (k' & v' & m' & ? & _ & ? & ? & ?).
  by exists k', v', m'.
Qed.

Lemma parseMatch_normal_witness :
  exists k' v' m', "tp_src=0xea60/0xffe0" = k' +:+ "=" +:+ v' /\ value_text v' = true /\
    parseMatch k' v' = Ok m' /\ Match_MarshalText m' = Ok "tp_src=0xea60/0xffe0".
Proof.
  apply (parseMatch_normal "tp_src" "0x0EA60/0xFFE0" (TransportSourceMaskedPort 60000 65504)); vm_compute; reflexivity.
Defined.

(** ** Flows *)

(** A field whose protocol or value is free of white space and of separators; there may
    be white space around a value. *)
Definition plain_field (s : string) : bool :=
  if Contains s "=" then match Split s "=" with [k; v] => value_text (TrimSpace v) | _ => true end
  else value_text s.

Definition fields_ok (f : Flow) : Prop := value_text (Protocol f) = true /\ Forall Match_flags_ok (Matches f).

Lemma parse_field_ok f s f' : plain_field s = true -> fields_ok f -> parse_field f s = Ok f' -> fields_ok f'.
Proof.
  unfold plain_field, parse_field. intros Hs [Hp Hm]. destruct (Contains s "="); cbn [negb].
  - destruct (Split s "=") as [|k [|v [|]]]; try (by intros [= <-]).
    unfold parse_key. cbv zeta.
    repeat (destruct (_ =? _)%string; [intros H; repeat case_match; inv_bind; try (by simplify_eq; split)|]).
    destruct (is_one_of _ _); [by intros [= <-]|]. intros (m & Hpm & [= <-])%bind_Ok_inv. split; [done|].
    cbn [set_Matches Matches]. apply Forall_app. split; [done|]. apply Forall_singleton.
    exact (parseMatch_flags k (TrimSpace v) m Hs Hpm).
  - intros [= <-]. destruct (negb _); by split.
Qed.

Lemma parse_fields_ok f l f' : Forall (fun s => plain_field s = true) l -> fields_ok f -> parse_fields f l = Ok f' -> fields_ok f'.
Proof.
  intros Hl. revert f. induction Hl as [|s l Hs _ IH]; intros f Hf; cbn [parse_fields]; [by intros [= <-]|].
  intros (g & Hg & H)%bind_Ok_inv. apply (IH g); [|done]. by eapply parse_field_ok.
Qed.

(** An action that was parsed, and whose free text is plain and closes its parentheses,
    is read back, wherever it was found. *)
Lemma parsed_reads s a :
  parseAction s = Ok a -> text_closed a -> text_plain a -> Action_reads a.
Proof.
  intros Hs Hc Hp t Ht. pose proof (proj2 (parseAction_total s) a Hs) as Hw.
  split_and!; [by eapply parseAction_again|by eapply Action_closed|by eapply Action_plain].
Qed.

Lemma Parse_parsed p acts raw :
  Parse p = Ok (acts, raw) -> Forall (fun a => exists s, parseAction s = Ok a) acts.
Proof.
  remember (String.length (p_rest p)) as n eqn:Hn. assert (Hle : (String.length (p_rest p) <= n)%nat) by lia.
  clear Hn. revert p acts raw Hle. induction n as [|n IH]; intros p acts raw Hle; rewrite Parse_step;
    (destruct (parser_parseAction p) as [[[a r] q]|e|w] eqn:Hp; [|destruct e; intros [=]; subst; constructor|done]);
    destruct (parser_parseAction_shorter _ _ _ _ Hp) as [Hlt _]; [lia|].
  intros ([acts' raw'] & Hq & [= <- <-])%bind_Ok_inv. constructor; [|apply (IH q acts' raw'); [lia|done]].
  unfold parser_parseAction in Hp. destruct (read_action _ _ _ _) as [|b q'|]; [done| |done].
  destruct (_ <? _)%nat; [done|]. apply bind_Ok_inv in Hp as (x & Hx & [= <- _ _]). by exists b.
Qed.

Lemma UnmarshalText_parts s f m a :
  Split s "actions=" = [m; a] -> Flow_UnmarshalText zeroFlow s = Ok f ->
  exists g raw, parse_fields zeroFlow (Split (TrimSpace m) ",") = Ok g /\
    Parse (newActionParser (TrimSpace a)) = Ok (Actions f, raw) /\ f = set_Actions g (Actions f).
Proof.
  intros Hs. unfold Flow_UnmarshalText. change (keyActions +:+ "=") with "actions=". rewrite Hs.
  destruct (a =? "")%string; [done|]. cbv zeta. intros (g & Hg & H)%bind_Ok_inv.
  destruct (Parse _) as [[out raw]|e|w] eqn:Hp; [|done|done]. destruct (_ && _); [done|].
  injection H as <-. by exists g, raw.
Qed.

(** A flow whose text was accepted is read back from what it prints. *)
Lemma accepted_reads s m a f :
  Split s "actions=" = [m; a] -> forallb plain_field (Split (TrimSpace m) ",") = true ->
  Flow_UnmarshalText zeroFlow s = Ok f ->
  Forall (fun x => text_closed x /\ text_plain x) (Actions f) -> Flow_reads f.
Proof.
  intros Hs Hpl Hf Hact. destruct (UnmarshalText_parts s f m a Hs Hf) as (g & raw & Hg & Hp & Ef).
  assert (Hz : Flow_in_range zeroFlow) by (repeat split; try constructor; vm_compute; congruence).
  pose proof (parse_fields_range zeroFlow _ _ Hz Hg) as (H1 & H2 & H3 & H4 & H5 & H6 & _).
  destruct (parse_fields_ok zeroFlow _ g ltac:(apply Forall_forall; intros x Hx%list_elem_of_In; by apply (proj1 (forallb_forall _ _) Hpl)) ltac:(split; [reflexivity|constructor]) Hg) as [H7 H8].
  unfold Flow_reads. rewrite Ef. cbn [set_Actions Priority InPort Table IdleTimeout Cookie Protocol Matches Actions].
  split_and!; try done.
  - apply Forall_and. by split.
  - apply Parse_parsed in Hp. rewrite Forall_forall in Hp, Hact. apply Forall_forall. intros x Hx.
    destruct (Hp x Hx) as [u Hu], (Hact x Hx) as [Hc Ht']. by eapply parsed_reads.
Qed.


Definition dumped : string :=
  " cookie=0xa, duration=8.3s, table=4, n_packets=7, priority=0100,ip,ct_state=+est+trk,tp_src=0xEA60/0xffe0 actions=load:0x1->NXM_NX_REG0[],output:007".
Definition dumpedFlow : Flow := match Flow_UnmarshalText zeroFlow dumped with Ok f => f | _ => zeroFlow end.
Definition dumpedText : string :=
  "priority=100,ip,ct_state=+est+trk,tp_src=0xea60/0xffe0,table=4,idle_timeout=0,cookie=0x000000000000000a,actions=load:0x1->NXM_NX_REG0[],output:7".


(** Without the last hypothesis it fails: an action found inside parentheses can carry
    one of them away, and the text that is printed then makes the parser panic. *)
Example found_in_parens :
  (f ← Flow_UnmarshalText zeroFlow "actions=note(load:1->NXM_NX_REG0[])";
   Flow_MarshalText f) = Ok "priority=0,table=0,idle_timeout=0,actions=load:1->NXM_NX_REG0[])" /\
  is_Panic (Flow_UnmarshalText zeroFlow "priority=0,table=0,idle_timeout=0,actions=load:1->NXM_NX_REG0[])") = true.
Proof. split; vm_compute; reflexivity. Qed.
