(* ===== verification/Stats.v ===== *)
(** * Statistics

    Models [ovs/table.go], [ovs/portstats.go] and [ovs/flowstats.go]: the parsers
    of the output of [ovs-ofctl dump-tables], [dump-ports] and [dump-aggregate].
    A parser returns the value that the call leaves in its receiver. *)

From stdpp Require Import gmap.
From S2P Require Import Prelude GoStrings GoConv Names.

(** ** Tables *)

Definition ErrInvalidTable : error := ErrorString "invalid openflow table".

Record Table := mkTable {
  ID : Z; Name : string; Wild : string; Max : Z; Active : Z; Lookup : Z; Matched : Z
}.

(** The loop over the key and value pairs: the first one is [wild], the others
    are numbers. *)
Fixpoint table_pairs (first : bool) (l : list string) : go (string * list Z) :=
  match l with
  | [] => Ok ("", [])
  | str :: l =>
      match Split (TrimSuffix str ",") "=" with
      | [_; v] =>
          if first
          then '(_, out) ← table_pairs false l; Ok (v, out)
          else n ← ParseUint v 10 64; '(w, out) ← table_pairs false l; Ok (w, n :: out)
      | _ => Err ErrInvalidTable
      end
  end.

(** [out[i]]; a slice index past the end panics. *)
Definition slice_get {A} (l : list A) (i : nat) : go A :=
  match l !! i with Some x => Ok x | None => Panic "index out of range" end.

Definition Table_UnmarshalText (s : string) : go Table :=
  let ss := Fields s in
  if negb (length ss =? 7)%nat && negb (length ss =? 8)%nat then Err ErrInvalidTable
  else
    s0 ← slice_get ss 0; s1 ← slice_get ss 1;
    id ← ParseInt (TrimSuffix s0 ":") 10 0;
    let idx := if negb (HasSuffix s1 ":") then 3%nat else 2%nat in
    '(wild, out) ← table_pairs true (drop idx ss);
    o0 ← slice_get out 0; o1 ← slice_get out 1; o2 ← slice_get out 2; o3 ← slice_get out 3;
    Ok (mkTable id (TrimSuffix s1 ":") wild (int64 o0) (int64 o1) o2 o3).

(** ** Port statistics *)

Definition ErrInvalidPortStats : error := ErrorString "invalid port statistics".

Record PortStatsReceive := mkPortStatsReceive {
  rx_Packets : Z; rx_Bytes : Z; rx_Dropped : Z; rx_Errors : Z; Frame : Z; Over : Z; CRC : Z
}.
Record PortStatsTransmit := mkPortStatsTransmit {
  tx_Packets : Z; tx_Bytes : Z; tx_Dropped : Z; tx_Errors : Z; Collisions : Z
}.
Record PortStats := mkPortStats {
  PortID : Z; Received : PortStatsReceive; Transmitted : PortStatsTransmit
}.

(** [map[string]map[string]uint64]: assigning through an absent key writes to a
    nil map, which panics; reading an absent key gives zero. *)
Abbreviation counters := (gmap string (gmap string Z)).

Definition counter_set (out : counters) (prefix key : string) (n : Z) : go counters :=
  match out !! prefix with
  | None => Panic "assignment to entry in nil map"
  | Some m => Ok (<[prefix := <[key := n]> m]> out)
  end.

Definition counter_get (out : counters) (prefix key : string) : Z :=
  default 0 (m ← out !! prefix; m !! key).

Fixpoint port_pairs (out : counters) (prefix : string) (l : list string) : go counters :=
  match l with
  | [] => Ok out
  | str :: l =>
      let str := TrimSuffix str "," in
      if (str =? "rx")%string then port_pairs out "rx" l
      else if (str =? "tx")%string then port_pairs out "tx" l
      else match Split str "=" with
           | [k; v] =>
               n ← (if (v =? "?")%string then Ok 0 else ParseUint v 10 64);
               out ← counter_set out prefix k n;
               port_pairs out prefix l
           | _ => Err ErrInvalidPortStats
           end
  end.

Definition PortStats_UnmarshalText (s : string) : go PortStats :=
  let ss := Fields s in
  if negb (length ss =? 16)%nat then Err ErrInvalidPortStats
  else
    s0 ← slice_get ss 0; s1 ← slice_get ss 1; s2 ← slice_get ss 2; s10 ← slice_get ss 10;
    if negb (s0 =? "port")%string then Err ErrInvalidPortStats
    else if negb (s2 =? "rx")%string then Err ErrInvalidPortStats
    else if negb (s10 =? "tx")%string then Err ErrInvalidPortStats
    else
      let portID := TrimSuffix s1 ":" in
      id ← (if (portID =? portLOCAL)%string then Ok PortLOCAL else ParseInt portID 10 0);
      out ← port_pairs (<["rx" := ∅]> (<["tx" := ∅]> ∅)) "" (drop 2 ss);
      let rx := counter_get out "rx" in
      let tx := counter_get out "tx" in
      Ok (mkPortStats id
            (mkPortStatsReceive (rx "pkts") (rx "bytes") (rx "drop") (rx "errs") (rx "frame")
               (rx "over") (rx "crc"))
            (mkPortStatsTransmit (tx "pkts") (tx "bytes") (tx "drop") (tx "errs") (tx "coll"))).

(** ** Flow statistics *)

Definition ErrInvalidFlowStats : error := ErrorString "invalid flow statistics".

Record FlowStats := mkFlowStats { PacketCount : Z; ByteCount : Z }.

Fixpoint flowstats_values (ss fields : list string) : go (list Z) :=
  match ss, fields with
  | s :: ss, field :: fields =>
      match Split s "=" with
      | [k; v] =>
          if negb (k =? field)%string then Err ErrInvalidFlowStats
          else n ← ParseUint v 10 64; ns ← flowstats_values ss fields; Ok (n :: ns)
      | _ => Err ErrInvalidFlowStats
      end
  | _, _ => Ok []
  end.

Definition FlowStats_UnmarshalText (s : string) : go FlowStats :=
  match Index s "packet_count" with
  | None => Err ErrInvalidFlowStats
  | Some idx =>
      let ss := Fields (sdrop idx s) in
      let fields := ["packet_count"; "byte_count"; "flow_count"] in
      if negb (length ss =? length fields)%nat then Err ErrInvalidFlowStats
      else
        values ← flowstats_values ss fields;
        v0 ← slice_get values 0; v1 ← slice_get values 1;
        Ok (mkFlowStats v0 v1)
  end.

Example table1 :
  Table_UnmarshalText "0: classifier: wild=0x3fffff, max=1000000, active=1
                 lookup=2, matched=3"
  = Ok (mkTable 0 "classifier" "0x3fffff" 1000000 1 2 3).
Proof. vm_compute. reflexivity. Qed.
Example table2 :
  Table_UnmarshalText "2: table2  : wild=0x3fffff, max=1000000, active=1 lookup=2, matched=3"
  = Ok (mkTable 2 "table2" "0x3fffff" 1000000 1 2 3).
Proof. vm_compute. reflexivity. Qed.
Example table3 :
  Table_UnmarshalText "2: table2 wild=0x3fffff, max=1000000, active=1 lookup=2, matched=3"
  = Panic "index out of range".
Proof. vm_compute. reflexivity. Qed.
Example portstats1 :
  PortStats_UnmarshalText "port LOCAL: rx pkts=1, bytes=2, drop=?, errs=3, frame=4, over=5, crc=6
           tx pkts=7, bytes=8, drop=9, errs=10, coll=11"
  = Ok (mkPortStats (-1) (mkPortStatsReceive 1 2 0 3 4 5 6) (mkPortStatsTransmit 7 8 9 10 11)).
Proof. vm_compute. reflexivity. Qed.
Example flowstats1 :
  FlowStats_UnmarshalText "NXST_AGGREGATE reply (xid=0x4): packet_count=642800 byte_count=141379644 flow_count=2"
  = Ok (mkFlowStats 642800 141379644).
Proof. vm_compute. reflexivity. Qed.

(** ** Round trips: the documented output, however it is spaced *)

Definition kv (k v : string) : string := k +:+ "=" +:+ v.

(** A counter or a key, without the characters the parsers cut at. *)
Definition cell_char (c : ascii) : bool :=
  graphic c && other_than "=" c && other_than "," c && other_than ":" c.
Definition cell (s : string) : Prop := s <> "" /\ all_chars cell_char s = true.

Lemma cell_other s d : cell_char d = false -> cell s -> all_chars (other_than d) s = true.
Proof.
  intros Hd [_ Hs]. eapply all_chars_impl; [|exact Hs]. intros c Hc.
  apply negb_true_iff, Ascii.eqb_neq. congruence.
Qed.

Lemma num_cell n : cell (fmt_d n).
Proof.
  split; [|].
  - unfold fmt_d, FormatInt. destruct (n <? 0); [done|]. apply FormatUint_nonempty.
  - eapply all_chars_impl; [|apply fmt_d_num]. intros c Hc.
    pose proof (forall_below 256 (fun z => negb (num_char (chr z)) || cell_char (chr z))
      ltac:(vm_compute; reflexivity) (code c) (code_range c)) as H.
    cbn beta in H. by rewrite chr_code, Hc in H.
Qed.

Lemma Split_kv k v : cell k -> cell v -> Split (kv k v) "=" = [k; v].
Proof.
  intros Hk Hv. unfold kv. rewrite app_cons, app_nil_l', Split_char by (by apply cell_other).
  by rewrite Split_char_none by (by apply cell_other).
Qed.

Lemma kv_no_comma k v : cell k -> cell v -> all_chars (other_than ",") (kv k v) = true.
Proof.
  intros Hk Hv. unfold kv. by rewrite !all_chars_app, (cell_other k), (cell_other v).
Qed.

(** With or without the comma that follows it in the output. *)
Definition opt_comma (b : bool) (s : string) : string := if b then s +:+ "," else s.

Lemma trim_opt_comma k v b : cell k -> cell v -> TrimSuffix (opt_comma b (kv k v)) "," = kv k v.
Proof.
  intros Hk Hv. destruct b; cbn [opt_comma]; [apply TrimSuffix_app|].
  by apply TrimSuffix_other, kv_no_comma.
Qed.

Lemma ParseUint_fmt_d n : in_u 64 n -> ParseUint (fmt_d n) 10 64 = Ok n.
Proof.
  intros [H0 H1]. unfold fmt_d, FormatInt. destruct (Z.ltb_spec n 0); [lia|].
  rewrite <- (zero_pad_0 (FormatUint n 10)). apply ParseUint_format; [lia|lia|].
  unfold maxUint. cbn. lia.
Qed.

(** *** Tables *)

Definition table_words (colon_apart : bool) (t : Table) : list string :=
  [fmt_d (ID t) +:+ ":"] ++
  (if colon_apart then [Name t; ":"] else [Name t +:+ ":"]) ++
  [kv "wild" (Wild t) +:+ ","; kv "max" (fmt_d (Max t)) +:+ ","; kv "active" (fmt_d (Active t));
   kv "lookup" (fmt_d (Lookup t)) +:+ ","; kv "matched" (fmt_d (Matched t))].

Definition Table_wf (t : Table) : Prop :=
  in_i64 (ID t) /\ cell (Name t) /\ cell (Wild t) /\ in_u 63 (Max t) /\ in_u 63 (Active t) /\
  in_u 64 (Lookup t) /\ in_u 64 (Matched t).

Lemma table_pairs_num k n b l out w :
  cell k -> in_u 64 n -> table_pairs false l = Ok (w, out) ->
  table_pairs false (opt_comma b (kv k (fmt_d n)) :: l) = Ok (w, n :: out).
Proof.
  intros Hk Hn Hl. cbn [table_pairs]. rewrite trim_opt_comma by (done || apply num_cell).
  rewrite Split_kv by (done || apply num_cell). rewrite ParseUint_fmt_d by done.
  cbn [mbind go_bind]. by rewrite Hl.
Qed.

Lemma table_pairs_all t :
  Table_wf t ->
  table_pairs true [kv "wild" (Wild t) +:+ ","; kv "max" (fmt_d (Max t)) +:+ ",";
    kv "active" (fmt_d (Active t)); kv "lookup" (fmt_d (Lookup t)) +:+ ",";
    kv "matched" (fmt_d (Matched t))] = Ok (Wild t, [Max t; Active t; Lookup t; Matched t]).
Proof.
  intros (_ & _ & Hw & Hmax & Hact & Hl & Hm).
  assert (H63 : forall n, in_u 63 n -> in_u 64 n) by (intros n Hn; eapply in_u_mono; [|exact Hn]; lia).
  assert (Hrest : table_pairs false [opt_comma true (kv "max" (fmt_d (Max t)));
    opt_comma false (kv "active" (fmt_d (Active t))); opt_comma true (kv "lookup" (fmt_d (Lookup t)));
    opt_comma false (kv "matched" (fmt_d (Matched t)))] = Ok ("", [Max t; Active t; Lookup t; Matched t])).
  { repeat (apply table_pairs_num; [done|by auto|]). done. }
  cbn [opt_comma] in Hrest. change (table_pairs true (?s :: ?l)) with
    (match Split (TrimSuffix s ",") "=" with
     | [_; v] => '(_, out) ← table_pairs false l; Ok (v, out)
     | _ => Err ErrInvalidTable
     end).
  rewrite TrimSuffix_app, Split_kv by done. by rewrite Hrest.
Qed.

Lemma Table_reads s b t :
  Table_wf t -> Fields s = table_words b t -> Table_UnmarshalText s = Ok t.
Proof.
  intros Hwf Hs. pose proof (table_pairs_all t Hwf) as Hp.
  destruct Hwf as (Hid & Hn & _ & Hmax & Hact & _).
  unfold Table_UnmarshalText. rewrite Hs. unfold table_words.
  pose proof (ParseInt_FormatInt (ID t) Hid) as Hpid. change (FormatInt (ID t) 10) with (fmt_d (ID t)) in Hpid.
  assert (Hi64 : forall n, in_u 63 n -> int64 n = n).
  { intros n Hu. apply int64_small. unfold in_i64, in_u in *. lia. }
  assert (Hno : HasSuffix (Name t) ":" = false) by (by apply HasSuffix_other, cell_other).
  destruct b; cbn [app length Nat.eqb negb andb slice_get lookup list_lookup mbind go_bind];
    rewrite (TrimSuffix_app (fmt_d (ID t))), Hpid; cbn [mbind go_bind].
  - rewrite Hno. cbn [negb drop]. rewrite Hp. cbn [mbind go_bind slice_get lookup list_lookup].
    rewrite TrimSuffix_other, !Hi64 by (done || by apply cell_other). by destruct t.
  - rewrite HasSuffix_app. cbn [negb drop]. rewrite Hp. cbn [mbind go_bind slice_get lookup list_lookup].
    rewrite TrimSuffix_app, !Hi64 by done. by destruct t.
Qed.

#[export] Instance Table_equiv : Equiv Table := (=).
#[export] Program Instance Table_unmarshaler : TextUnmarshaler Table := {|
  UnmarshalText := Table_UnmarshalText;
  text_of t s := Table_wf t /\ exists b, Fields s = table_words b t
|}.
Next Obligation. intros t s [Hw [b Hs]]. exists t. split; [by apply (Table_reads s b)|reflexivity]. Qed.

(** The words of a table's documented output, whether the name's colon is
    attached or apart, are parsed back into the table. *)
Theorem Table_roundtrip s b t :
  Table_wf t -> Fields s = table_words b t -> Table_UnmarshalText s = Ok t.
Proof. apply Table_reads. Qed.

Lemma Table_roundtrip_witness :
  Table_UnmarshalText "  0: classifier: wild=0x3fffff, max=1000000, active=0
                 lookup=0, matched=0"
  = Ok (mkTable 0 "classifier" "0x3fffff" 1000000 0 0 0).
Proof.
  apply (Table_roundtrip _ false); [|vm_compute; reflexivity].
  unfold Table_wf, in_i64, in_u, cell. cbn [ID Name Wild Max Active Lookup Matched].
  split_and!; (done || lia).
Defined.

(** *** The table parser's panic *)

Lemma table_pairs_length b l w out :
  table_pairs b l = Ok (w, out) -> length out = (length l - if b then 1 else 0)%nat.
Proof.
  revert b w out. induction l as [|s l IH]; intros b w out; cbn [table_pairs]; [by intros [= <- <-]|].
  destruct (Split _ "=") as [|k [|v [|]]]; try done. destruct b.
  - intros ([w' out'] & H & [= <- <-])%bind_Ok_inv. apply IH in H. cbn. lia.
  - intros (n & _ & ([w' out'] & H & [= <- <-])%bind_Ok_inv)%bind_Ok_inv. apply IH in H. cbn. lia.
Qed.

Lemma table_pairs_no_panic b l : is_Panic (table_pairs b l) = false.
Proof.
  revert b. induction l as [|s l IH]; intros b; [done|]. cbn [table_pairs].
  destruct (Split _ "=") as [|k [|v [|]]]; try done. destruct b.
  - apply bind_no_panic; [apply IH|]. by intros [].
  - apply bind_no_panic; [apply ParseUint_no_panic|]. intros ? _. apply bind_no_panic; [apply IH|]. by intros [].
Qed.

Lemma slice_get_in {A} (l : list A) i : (i < length l)%nat -> exists x, slice_get l i = Ok x.
Proof. intros H. unfold slice_get. apply lookup_lt_is_Some in H as [x ->]. eauto. Qed.

(** The conversion to numbers of the fields of a line. *)
Definition parses_as_table (ss : list string) (idx : nat) : Prop :=
  (exists s0 id, ss !! 0%nat = Some s0 /\ ParseInt (TrimSuffix s0 ":") 10 0 = Ok id) /\
  exists r, table_pairs true (drop idx ss) = Ok r.

(** [Table.UnmarshalText] panics exactly on a line of seven fields whose
    second field does not end in a colon, when the fields from the fourth on
    are all numbers: only three numbers are left for the four counters. *)
Theorem Table_panics s :
  is_Panic (Table_UnmarshalText s) = true <->
  exists s1, length (Fields s) = 7%nat /\ Fields s !! 1%nat = Some s1 /\
    HasSuffix s1 ":" = false /\ parses_as_table (Fields s) 3.
Proof.
  unfold Table_UnmarshalText. generalize (Fields s) as ss. clear s. intros ss.
  destruct ss as [|s0 [|s1 rest]]; [split; [done|by intros (? & ? & _)]..|].
  destruct (_ && _) eqn:Hlen.
  { split; [done|]. intros (? & Hl & _). by rewrite Hl in Hlen. }
  apply andb_false_iff in Hlen. rewrite !negb_false_iff, !Nat.eqb_eq in Hlen.
  cbn [slice_get lookup list_lookup mbind go_bind].
  destruct (ParseInt (TrimSuffix s0 ":") 10 0) as [id|e|w] eqn:Hid; cbn [mbind go_bind is_Panic].
  2: { split; [done|]. intros (? & _ & _ & _ & (x & i & [= <-] & Hx) & _). congruence. }
  2: { pose proof (ParseInt_no_panic (TrimSuffix s0 ":") 10 0) as Hnp. by rewrite Hid in Hnp. }
  set (idx := if negb (HasSuffix s1 ":") then 3%nat else 2%nat).
  pose proof (table_pairs_no_panic true (drop idx (s0 :: s1 :: rest))) as Hnp.
  destruct (table_pairs true (drop idx (s0 :: s1 :: rest))) as [[w out]|e|w] eqn:Htp; [|
    split; [done|]; intros (x & _ & [= <-] & Hs & _ & (r & Hr)); unfold idx in Htp; rewrite Hs in Htp;
      cbn [negb] in Htp; congruence|done].
  pose proof (table_pairs_length _ _ _ _ Htp) as Hl. rewrite length_drop in Hl.
  cbn [mbind go_bind]. split.
  - intros Hp. exists s1. destruct (HasSuffix s1 ":") eqn:Hs; unfold idx in *; cbn [negb] in *.
    + exfalso. destruct out as [|? [|? [|? [|? out]]]]; [cbn in Hl, Hlen; lia..|done].
    + split_and!; [|done|done|split; [by eauto|by eauto]]. destruct Hlen as [|H8]; [done|exfalso].
      destruct out as [|? [|? [|? [|? out]]]]; [cbn in Hl, H8; lia..|done].
  - intros (x & Hl7 & [= <-] & Hs & _). unfold idx in *. rewrite Hs in Hl. cbn [negb] in Hl.
    rewrite Hl7 in Hl. destruct out as [|? [|? [|? [|? out]]]]; cbn in Hl; (lia || done).
Qed.

(** *** Port statistics *)

(** A counter of the output: its key, its value, and whether a comma follows.
    A tunnel's unknown counter is printed [?]. *)
Record counter := mkCounter { c_key : string; c_val : option Z; c_comma : bool }.

Definition counter_word (c : counter) : string :=
  opt_comma (c_comma c) (kv (c_key c) (match c_val c with Some n => fmt_d n | None => "?" end)).

Definition counter_ok (c : counter) : Prop :=
  cell (c_key c) /\ match c_val c with Some n => in_u 64 n | None => True end.

Definition counted (m : gmap string Z) (l : list counter) : gmap string Z :=
  fold_left (fun m c => <[c_key c := default 0 (c_val c)]> m) l m.

Lemma kv_not_name k v n : all_chars (other_than "=") n = true -> (kv k v =? n)%string = false.
Proof.
  intros Hn. apply String.eqb_neq. intros <-. unfold kv in Hn. rewrite !all_chars_app in Hn.
  cbn in Hn. by rewrite andb_false_r in Hn.
Qed.

Lemma cell_question : cell "?".
Proof. by split. Qed.

Lemma cell_value o : cell (match o with Some n => fmt_d n | None => "?" end).
Proof. destruct o; [apply num_cell|apply cell_question]. Qed.

Lemma fmt_d_not_question n : (fmt_d n =? "?")%string = false.
Proof. apply String.eqb_neq. intros H. pose proof (fmt_d_num n) as Hn. by rewrite H in Hn. Qed.

Lemma port_pairs_run out p m l rest :
  out !! p = Some m -> Forall counter_ok l ->
  port_pairs out p (map counter_word l ++ rest) = port_pairs (<[p := counted m l]> out) p rest.
Proof.
  intros Hm Hl. revert out m Hm. induction Hl as [|c l [Hk Hv] _ IH]; intros out m Hm.
  - cbn. by rewrite insert_id.
  - cbn [map app port_pairs]. cbv zeta.
    assert (Ht : TrimSuffix (counter_word c) "," =
                 kv (c_key c) (match c_val c with Some n => fmt_d n | None => "?" end)).
    { apply trim_opt_comma; [done|apply cell_value]. }
    rewrite !Ht, !kv_not_name by done. rewrite Split_kv by (done || apply cell_value).
    assert (Hn : (if ((match c_val c with Some n => fmt_d n | None => "?" end) =? "?")%string then Ok 0
                  else ParseUint (match c_val c with Some n => fmt_d n | None => "?" end) 10 64)
                 = Ok (default 0 (c_val c))).
    { destruct (c_val c); [|done]. rewrite fmt_d_not_question. by apply ParseUint_fmt_d. }
    rewrite Hn. cbn [mbind go_bind]. unfold counter_set. rewrite Hm. cbn [mbind go_bind].
    rewrite (IH _ (<[c_key c := default 0 (c_val c)]> m)) by (by rewrite lookup_insert_eq).
    by rewrite insert_insert_eq.
Qed.

Definition port_name (id : Z) : string := if id =? PortLOCAL then portLOCAL else fmt_d id.

Definition rx_keys : list string := ["pkts"; "bytes"; "drop"; "errs"; "frame"; "over"; "crc"].
Definition tx_keys : list string := ["pkts"; "bytes"; "drop"; "errs"; "coll"].

(** The words of the documented output, for the values of the twelve counters. *)
Definition portstats_words (id : Z) (rx tx : list counter) : list string :=
  ["port"; port_name id +:+ ":"; "rx"] ++ map counter_word rx ++ ["tx"] ++ map counter_word tx.

Lemma portstats_pairs rx tx :
  Forall counter_ok rx -> Forall counter_ok tx ->
  port_pairs (<["rx" := ∅]> (<["tx" := ∅]> ∅)) "" (["rx"] ++ map counter_word rx ++ ["tx"] ++ map counter_word tx)
  = Ok (<["tx" := counted ∅ tx]> (<["rx" := counted ∅ rx]> (<["rx" := ∅]> (<["tx" := ∅]> ∅)))).
Proof.
  intros Hrx Htx. cbn [app port_pairs]. change (TrimSuffix "rx" ",") with "rx". cbn [String.eqb Ascii.eqb Bool.eqb].
  rewrite (port_pairs_run _ "rx" ∅) by (done || by rewrite lookup_insert_eq).
  cbn [app port_pairs]. change (TrimSuffix "tx" ",") with "tx". cbn [String.eqb Ascii.eqb Bool.eqb].
  rewrite <- (app_nil_r (map counter_word tx)).
  rewrite (port_pairs_run _ "tx" ∅); [done| |done].
  rewrite lookup_insert_ne by done. rewrite lookup_insert_ne by done. by rewrite lookup_insert_eq.
Qed.

(** What the parser reads in a direction: the last value given for the key, zero
    for [?] and for a key that is not there. *)
Definition reading (l : list counter) (k : string) : Z := default 0 (counted ∅ l !! k).

Definition portstats_of (id : Z) (rx tx : list counter) : PortStats := mkPortStats id
  (mkPortStatsReceive (reading rx "pkts") (reading rx "bytes") (reading rx "drop") (reading rx "errs")
     (reading rx "frame") (reading rx "over") (reading rx "crc"))
  (mkPortStatsTransmit (reading tx "pkts") (reading tx "bytes") (reading tx "drop") (reading tx "errs")
     (reading tx "coll")).

Lemma PortStats_reads s id rx tx :
  Fields s = portstats_words id rx tx -> in_i64 id ->
  Forall counter_ok rx -> Forall counter_ok tx ->
  length rx = 7%nat -> length tx = 5%nat -> PortStats_UnmarshalText s = Ok (portstats_of id rx tx).
Proof.
  intros Hs Hid Hrx Htx Lrx Ltx. unfold PortStats_UnmarshalText. rewrite Hs.
  assert (Hlen : length (portstats_words id rx tx) = 16%nat).
  { unfold portstats_words. rewrite !length_app, !length_map, Lrx, Ltx. done. }
  rewrite Hlen. cbn [Nat.eqb negb].
  assert (H10 : portstats_words id rx tx !! 10%nat = Some "tx").
  { unfold portstats_words. rewrite lookup_app_r by (cbn; lia). cbn [length Nat.sub].
    rewrite lookup_app_r by (rewrite length_map; lia). by rewrite length_map, Lrx. }
  assert (Hget : forall i x, portstats_words id rx tx !! i = Some x ->
    slice_get (portstats_words id rx tx) i = Ok x) by (intros i x Hi; unfold slice_get; by rewrite Hi).
  rewrite (Hget 0%nat "port"), (Hget 1%nat (port_name id +:+ ":")), (Hget 2%nat "rx"), (Hget 10%nat "tx")
    by done.
  cbn [mbind go_bind String.eqb Ascii.eqb Bool.eqb negb].
  rewrite TrimSuffix_app.
  assert (Hport : (if (port_name id =? portLOCAL)%string then Ok PortLOCAL else ParseInt (port_name id) 10 0) = Ok id).
  { unfold port_name. destruct (Z.eqb_spec id PortLOCAL) as [->|]; [done|].
    assert (Hne : (fmt_d id =? portLOCAL)%string = false).
    { apply String.eqb_neq. intros H. pose proof (fmt_d_num id) as Hn. by rewrite H in Hn. }
    rewrite Hne. apply (ParseInt_FormatInt id Hid). }
  rewrite Hport. cbn [mbind go_bind].
  change (drop 2 (portstats_words id rx tx)) with (["rx"] ++ map counter_word rx ++ ["tx"] ++ map counter_word tx).
  rewrite portstats_pairs by done. cbn [mbind go_bind]. unfold counter_get.
  rewrite lookup_insert_eq, (lookup_insert_ne _ "tx" "rx"), lookup_insert_eq by done. done.
Qed.

#[export] Instance PortStats_equiv : Equiv PortStats := (=).
#[export] Program Instance PortStats_unmarshaler : TextUnmarshaler PortStats := {|
  UnmarshalText := PortStats_UnmarshalText;
  text_of p s := exists id rx tx, p = portstats_of id rx tx /\ Fields s = portstats_words id rx tx /\
    in_i64 id /\ Forall counter_ok rx /\ Forall counter_ok tx /\ length rx = 7%nat /\ length tx = 5%nat
|}.
Next Obligation.
  intros p s (id & rx & tx & -> & H1 & H2 & H3 & H4 & H5 & H6). eexists. split; [by apply PortStats_reads|reflexivity].
Qed.

(** The words of a port's documented output, whatever the commas, are parsed
    into its port number and counters; an unknown counter [?] is read as zero. *)
Theorem PortStats_parse s id rx tx :
  Fields s = portstats_words id rx tx -> in_i64 id ->
  Forall counter_ok rx -> Forall counter_ok tx ->
  length rx = 7%nat -> length tx = 5%nat ->
  PortStats_UnmarshalText s = Ok (mkPortStats id
    (mkPortStatsReceive (reading rx "pkts") (reading rx "bytes") (reading rx "drop") (reading rx "errs")
       (reading rx "frame") (reading rx "over") (reading rx "crc"))
    (mkPortStatsTransmit (reading tx "pkts") (reading tx "bytes") (reading tx "drop") (reading tx "errs")
       (reading tx "coll"))).
Proof. apply PortStats_reads. Qed.

Lemma PortStats_parse_witness :
  PortStats_UnmarshalText "  port  1: rx pkts=1, bytes=2, drop=?, errs=3, frame=4, over=5, crc=6
           tx pkts=7, bytes=8, drop=9, errs=10, coll=11"
  = Ok (mkPortStats 1 (mkPortStatsReceive 1 2 0 3 4 5 6) (mkPortStatsTransmit 7 8 9 10 11)).
Proof.
  set (c := fun k n => mkCounter k (Some n) true).
  apply (PortStats_parse _ 1
    [c "pkts" 1; c "bytes" 2; mkCounter "drop" None true; c "errs" 3; c "frame" 4; c "over" 5; mkCounter "crc" (Some 6) false]
    [c "pkts" 7; c "bytes" 8; c "drop" 9; c "errs" 10; mkCounter "coll" (Some 11) false]).
  - vm_compute. reflexivity.
  - unfold in_i64. lia.
  - repeat (constructor; [split; [by split|cbn; unfold in_u; lia || done]|]). constructor.
  - repeat (constructor; [split; [by split|cbn; unfold in_u; lia || done]|]). constructor.
  - reflexivity.
  - reflexivity.
Defined.

(** *** No panic in the port and flow statistics *)

Definition has_both (out : counters) : Prop := is_Some (out !! "rx") /\ is_Some (out !! "tx").

Lemma counter_set_ok out p k n :
  has_both out -> p = "rx" \/ p = "tx" -> exists out', counter_set out p k n = Ok out' /\ has_both out'.
Proof.
  intros [Hr Ht] Hp. unfold counter_set.
  assert (Hin : is_Some (out !! p)) by (by destruct Hp as [-> | ->]). destruct Hin as [m Hm].
  rewrite Hm. eexists. split; [done|]. unfold has_both.
  destruct Hp as [-> | ->]; rewrite lookup_insert_eq, lookup_insert_ne by done; split; eauto.
Qed.

Lemma port_pairs_no_panic out p l :
  has_both out -> p = "rx" \/ p = "tx" -> is_Panic (port_pairs out p l) = false.
Proof.
  revert out p. induction l as [|s l IH]; intros out p Ho Hp; [done|]. cbn [port_pairs]. cbv zeta.
  destruct (_ =? "rx")%string; [by apply IH; [|left]|].
  destruct (_ =? "tx")%string; [by apply IH; [|right]|].
  destruct (Split _ "=") as [|k [|v [|]]]; try done.
  apply bind_no_panic; [destruct (_ =? _)%string; [done|apply ParseUint_no_panic]|]. intros n _.
  destruct (counter_set_ok out p k n Ho Hp) as (out' & -> & Ho'). by apply IH.
Qed.

(** The parsers of port and flow statistics never panic, on any text: a map
    is written only under [rx] and [tx], and the slices read exist. *)
Theorem Stats_no_panic s :
  is_Panic (PortStats_UnmarshalText s) = false /\ is_Panic (FlowStats_UnmarshalText s) = false.
Proof.
  split.
  - unfold PortStats_UnmarshalText. generalize (Fields s) as ss. intros ss.
    destruct (Nat.eqb_spec (length ss) 16) as [Hl|]; [|done]. cbn [negb].
    destruct ss as [|s0 [|s1 [|s2 rest]]]; try done.
    destruct (slice_get_in (s0 :: s1 :: s2 :: rest) 10 ltac:(lia)) as [s10 Hs10]. rewrite Hs10.
    cbn [slice_get lookup list_lookup mbind go_bind drop].
    destruct (negb (s0 =? "port")%string); [done|].
    destruct (String.eqb_spec s2 "rx") as [->|]; [|done]. cbn [negb].
    destruct (negb (s10 =? "tx")%string); [done|].
    apply bind_no_panic; [destruct (_ =? _)%string; [done|apply ParseInt_no_panic]|]. intros id _.
    cbn [port_pairs]. change (TrimSuffix "rx" ",") with "rx". cbn [String.eqb Ascii.eqb Bool.eqb].
    apply bind_no_panic; [|done]. apply port_pairs_no_panic; [|by left]. split; vm_compute; eauto.
  - unfold FlowStats_UnmarshalText. destruct (Index s "packet_count") as [i|]; [|done]. cbv zeta.
    destruct (Fields (sdrop i s)) as [|a [|b [|c [|]]]]; try done. cbn [length Nat.eqb negb].
    assert (Hv : forall ss fs, is_Panic (flowstats_values ss fs) = false).
    { induction ss as [|x ss IH]; intros [|f fs]; try done. cbn [flowstats_values].
      destruct (Split x "=") as [|k [|v [|]]]; try done. destruct (negb _); [done|].
      apply bind_no_panic; [apply ParseUint_no_panic|]. intros n _. by apply bind_no_panic. }
    assert (Hlen : forall ss fs vs, length ss = length fs -> flowstats_values ss fs = Ok vs -> length vs = length fs).
    { induction ss as [|x ss IH]; intros [|f fs] vs Hl H; try discriminate Hl; cbn [flowstats_values] in H.
      - by injection H as <-.
      - destruct (Split x "=") as [|k [|v [|]]]; try done. destruct (negb _); [done|].
        apply bind_Ok_inv in H as (n & _ & (ns & Hns & [= <-])%bind_Ok_inv). cbn. f_equal.
        apply (IH fs); [by injection Hl|done]. }
    apply bind_no_panic; [apply Hv|]. intros vs Hvs. apply Hlen in Hvs; [|done].
    destruct vs as [|v0 [|v1 vs]]; [done..|]. done.
Qed.

(** The aggregate statistics are read from the words that follow the first
    [packet_count], in the documented order, whatever comes before. *)
Theorem FlowStats_parse s i p b f :
  Index s "packet_count" = Some i ->
  Fields (sdrop i s) = [kv "packet_count" (fmt_d p); kv "byte_count" (fmt_d b); kv "flow_count" (fmt_d f)] ->
  in_u 64 p -> in_u 64 b -> in_u 64 f ->
  FlowStats_UnmarshalText s = Ok (mkFlowStats p b).
Proof.
  intros Hi Hs Hp Hb Hf. unfold FlowStats_UnmarshalText. rewrite Hi, Hs. cbn [length Nat.eqb negb].
  cbn [flowstats_values]. rewrite !Split_kv by first [by split | apply num_cell].
  rewrite !ParseUint_fmt_d by done. done.
Qed.

Lemma FlowStats_parse_witness :
  FlowStats_UnmarshalText "NXST_AGGREGATE reply (xid=0x4): packet_count=642800 byte_count=141379644 flow_count=2"
  = Ok (mkFlowStats 642800 141379644).
Proof.
  apply (FlowStats_parse _ 32 642800 141379644 2); [vm_compute; reflexivity..| | |]; unfold in_u; lia.
Defined.
