(* ===== verification/Client.v ===== *)
(** * The client: options and command execution

    Models [ovs/client.go] and [ovs/ovs.go]: the [Client] with its options,
    [exec] and [pipe], and [IsPortNotExist].  The functions that run processes
    ([ExecFunc], [PipeFunc]) are fields of the client, as in the code; they act
    on a state [W] of the system that the development leaves open.  [shellExec]
    and [shellPipe], which only call [os/exec], are arguments of [New].  Debug
    logging is not modelled. *)

From S2P Require Import Prelude GoStrings GoConv Names.

(** ** Commands: computations on the system's state *)

Definition cmd (W A : Type) : Type := W -> W * go A.

#[export] Instance cmd_ret W : MRet (cmd W) := fun A a w => (w, Ok a).
#[export] Instance cmd_bind W : MBind (cmd W) := fun A B f m w =>
  match m w with
  | (w, Ok a) => f a w
  | (w, Err e) => (w, Err e)
  | (w, Panic p) => (w, Panic p)
  end.

Lemma cmd_bind_Ok {W A B} (m : cmd W A) (f : A -> cmd W B) w w' a :
  m w = (w', Ok a) -> (m ≫= f) w = f a w'.
Proof. intros H. unfold mbind, cmd_bind. by rewrite H. Qed.

Definition lift {W A} (m : go A) : cmd W A := fun w => (w, m).

(** ** Data *)

(** The combined output ([None] is a nil slice) and the error. *)
Definition ExecFunc W := string -> list string -> W -> W * (option string * option error).
Definition PipeFunc W := string -> string -> list string -> W -> W * (option string * option error).

Record Client W := mkClient {
  flags : list string; ofctlFlags : list string; debug : bool; sudo : bool;
  execFunc : ExecFunc W; pipeFunc : PipeFunc W
}.
Arguments mkClient {W}.
Arguments flags {W}.
Arguments ofctlFlags {W}.
Arguments debug {W}.
Arguments sudo {W}.
Arguments execFunc {W}.
Arguments pipeFunc {W}.

(** An [OptionFunc] changes the client it is given. *)
Definition OptionFunc W := Client W -> Client W.

Section client.
Context {W : Type}.
Implicit Types c : Client W.

(** ** Options *)

Definition add_flags (fs : list string) : OptionFunc W := fun c =>
  mkClient (flags c ++ fs) (ofctlFlags c) (debug c) (sudo c) (execFunc c) (pipeFunc c).
Definition add_ofctlFlags (fs : list string) : OptionFunc W := fun c =>
  mkClient (flags c) (ofctlFlags c ++ fs) (debug c) (sudo c) (execFunc c) (pipeFunc c).

(** Values for [FlowFormat] and [ProtocolVersions]. *)
Definition FlowFormats : list string := ["NXM+table_id"; "OXM-OpenFlow14"].
Definition ProtocolNames : list string :=
  ["OpenFlow10"; "OpenFlow11"; "OpenFlow12"; "OpenFlow13"; "OpenFlow14"; "OpenFlow15"].

Definition Timeout (seconds : Z) : OptionFunc W := add_flags ["--timeout=" +:+ fmt_d seconds].
Definition Debug (enable : bool) : OptionFunc W := fun c =>
  mkClient (flags c) (ofctlFlags c) enable (sudo c) (execFunc c) (pipeFunc c).
Definition Exec (fn : ExecFunc W) : OptionFunc W := fun c =>
  mkClient (flags c) (ofctlFlags c) (debug c) (sudo c) fn (pipeFunc c).
Definition Pipe (fn : PipeFunc W) : OptionFunc W := fun c =>
  mkClient (flags c) (ofctlFlags c) (debug c) (sudo c) (execFunc c) fn.
Definition FlowFormat (format : string) : OptionFunc W := add_ofctlFlags ["--flow-format=" +:+ format].
Definition ProtocolVersions (versions : list string) : OptionFunc W :=
  add_ofctlFlags ["--protocols=" +:+ Join versions ","].
Definition SetSSLParam (pkey cert cacert : string) : OptionFunc W :=
  add_ofctlFlags ["--private-key=" +:+ pkey; "--certificate=" +:+ cert; "--ca-cert=" +:+ cacert].
Definition Sudo : OptionFunc W := fun c =>
  mkClient (flags c) (ofctlFlags c) (debug c) true (execFunc c) (pipeFunc c).

Definition New (shellExec : ExecFunc W) (shellPipe : PipeFunc W) (options : list (OptionFunc W)) : Client W :=
  fold_left (fun c o => o c) options (mkClient [] [] false false shellExec shellPipe).

(** ** Running commands *)

(** The command line: recurring flags before the arguments, then [sudo]. *)
Definition with_sudo c (cmd : string) (fs : list string) : string * list string :=
  if sudo c then ("sudo", cmd :: fs) else (cmd, fs).

Definition command_line c (cmd : string) (args : list string) : string * list string :=
  with_sudo c cmd (flags c ++ args).

(** A nil output reads as the empty one everywhere it is used. *)
Definition exec c (cmd : string) (args : list string) : Client.cmd W string := fun w =>
  let (cmd, fs) := command_line c cmd args in
  let '(w, (out, err)) := execFunc c cmd fs w in
  let out := TrimSpace <$> out in
  match err with
  | Some e => (w, Err (OvsError out e))
  | None => (w, Ok (default "" out))
  end.

Definition pipe c (stdin cmd : string) (args : list string) : Client.cmd W unit := fun w =>
  let (cmd, fs) := command_line c cmd args in
  let '(w, (out, err)) := pipeFunc c stdin cmd fs w in
  match err with
  | Some e => (w, Err (PipeError out e))
  | None => (w, Ok tt)
  end.
End client.

(** ** [ovs.go] *)

(** [Error] is the interface's method: the text of an error value. *)
Definition IsPortNotExist (Error : error -> string) (err : error) : bool :=
  match err with
  | OvsError out e =>
      HasPrefix (default "" out) "ovs-vsctl: no port named " && (Error e =? "exit status 1")%string
  | _ => false
  end.

(** ** Commands that record what is run

    An instance of the system's state for examples: every command line with its
    input, oldest first, answered from a script. *)
Record call := mkCall { call_cmd : string; call_args : list string; call_stdin : option string }.

Record recorder := mkRecorder { calls : list call; answers : list (option string * option error) }.

Definition record (cl : call) (r : recorder) : recorder * (option string * option error) :=
  match answers r with
  | [] => (mkRecorder (calls r ++ [cl]) [], (None, None))
  | a :: l => (mkRecorder (calls r ++ [cl]) l, a)
  end.

Definition rec_exec : ExecFunc recorder := fun cmd args => record (mkCall cmd args None).
Definition rec_pipe : PipeFunc recorder := fun stdin cmd args => record (mkCall cmd args (Some stdin)).

Definition rec_client (options : list (OptionFunc recorder)) : Client recorder :=
  New rec_exec rec_pipe options.

Example exec1 :
  exec (rec_client [Sudo; Timeout 2]) "ovs-vsctl" ["list-br"]
    (mkRecorder [] [(Some " br0 ", None)])
  = (mkRecorder [mkCall "sudo" ["ovs-vsctl"; "--timeout=2"; "list-br"] None] [], Ok "br0").
Proof. vm_compute. reflexivity. Qed.
