(* ===== verification/Shell.v ===== *)
(** * Running a command with input

    Models [shellExec] and [shellPipe] of [ovs/client.go] on the operations of package
    [os/exec] on a command, which are an argument: each runs in the state [W] of the
    system and may fail. *)

From S2P Require Import Prelude GoStrings Client.

(** The operations of an [*exec.Cmd] and of the pipes it makes. *)
Record Cmd W := mkCmd {
  StdoutPipe : W -> W * option error;
  StderrPipe : W -> W * option error;
  StdinPipe : W -> W * option error;
  Start : W -> W * option error;
  CopyStdin : string -> W -> W * option error;   (** [io.Copy(wc, stdin)] *)
  CloseStdin : W -> W * option error;
  ReadAll : W -> W * (string + error);           (** both outputs, one after the other *)
  Wait : W -> W * option error;
  CombinedOutput : W -> W * (option string * option error)
}.
Arguments StdoutPipe {W}. Arguments StderrPipe {W}. Arguments StdinPipe {W}. Arguments Start {W}.
Arguments CopyStdin {W}. Arguments CloseStdin {W}. Arguments ReadAll {W}. Arguments Wait {W}.
Arguments CombinedOutput {W}.

Section shell.
Context {W : Type} (Command : string -> list string -> Cmd W).

Definition shellExec : ExecFunc W := fun cmd args => CombinedOutput (Command cmd args).

(** An operation whose error ends the function. *)
Definition check (m : W -> W * option error) (k : W -> W * (option string * option error))
    (w : W) : W * (option string * option error) :=
  let '(w, err) := m w in
  match err with
  | Some e => (w, (None, Some e))
  | None => k w
  end.

Definition shellPipe : PipeFunc W := fun stdin cmd args =>
  let command := Command cmd args in
  check (StdoutPipe command) (
  check (StderrPipe command) (
  check (StdinPipe command) (
  check (Start command) (
  check (CopyStdin command stdin) (
  check (CloseStdin command) (fun w =>
  let '(w, r) := ReadAll command w in
  match r with
  | inr e => (w, (None, Some e))
  | inl b => let '(w, err) := Wait command w in (w, (Some b, err))
  end)))))).
End shell.

(** ** The order of the operations *)

Inductive op := OpStdoutPipe | OpStderrPipe | OpStdinPipe | OpStart | OpCopy (stdin : string) | OpClose | OpReadAll | OpWait.

#[export] Instance op_eq_dec : EqDecision op.
Proof. solve_decision. Defined.

Definition pipe_ops (stdin : string) : list op :=
  [OpStdoutPipe; OpStderrPipe; OpStdinPipe; OpStart; OpCopy stdin; OpClose; OpReadAll; OpWait].

(** A command that records its operations, and fails as a table says. *)
Definition rec_cmd (fails : op -> option error) (out : string) : Cmd (list op) :=
  let run o w := (w ++ [o], fails o) in
  mkCmd _ (run OpStdoutPipe) (run OpStderrPipe) (run OpStdinPipe) (run OpStart)
    (fun stdin => run (OpCopy stdin)) (run OpClose)
    (fun w => (w ++ [OpReadAll], match fails OpReadAll with Some e => inr e | None => inl out end))
    (run OpWait) (fun w => (w, (Some out, None))).

(** The operations up to the first that fails, and its error. *)
Fixpoint until_failure (fails : op -> option error) (l : list op) : list op * option error :=
  match l with
  | [] => ([], None)
  | o :: l =>
      match fails o with
      | Some e => ([o], Some e)
      | None => let (done, err) := until_failure fails l in (o :: done, err)
      end
  end.

(** [shellPipe] makes the pipes, starts the command, writes the whole input and
    closes it before it reads any output, and waits for the command last; it stops at
    the first operation that fails and returns its error, so that a command whose
    input or output failed is never waited for. Output is returned exactly when all
    of it was read. *)
Theorem shellPipe_order (fails : op -> option error) (out stdin cmd : string) (args : list string) :
  let '(ops, (b, err)) := shellPipe (fun _ _ => rec_cmd fails out) stdin cmd args [] in
  (ops, err) = until_failure fails (pipe_ops stdin) /\
  (b = Some out <-> OpWait ∈ ops) /\ (OpWait ∉ ops -> b = None).
Proof.
  unfold shellPipe, check, pipe_ops. cbn [rec_cmd StdoutPipe StderrPipe StdinPipe Start CopyStdin CloseStdin ReadAll Wait until_failure app].
  assert (Hn : forall (l : list op) (e : error), bool_decide (OpWait ∈ l) = false ->
    (None = Some out <-> OpWait ∈ l) /\ (OpWait ∉ l -> None = None :> option string)).
  { intros l e Hl. apply bool_decide_eq_false in Hl. split; [split; [done|by intros []%Hl]|done]. }
  repeat match goal with
  | |- context [match fails ?o with _ => _ end] =>
      let e := fresh "e" in destruct (fails o) as [e|];
      [split; [reflexivity|]; (apply (Hn _ e); reflexivity) |]
  end.
  split; [by destruct (fails OpWait)|].
  assert (Hw : OpWait ∈ [OpStdoutPipe; OpStderrPipe; OpStdinPipe; OpStart; OpCopy stdin; OpClose; OpReadAll; OpWait]).
  { do 7 right. left. }
  split; [done|]. by intros [].
Qed.
