(* ===== verification/Pipes.v ===== *)
(** * Running a command with input, between two processes

    [Shell] models [shellPipe] of [ovs/client.go] as a sequence of operations that
    succeed or fail.  Here the same operations, from the start of the command on, run
    beside the command, connected by three pipes that hold [cap] bytes each: a write to
    a full pipe waits, and so does a read from an empty one whose writer is still
    there.  The command is any program that reads its input and writes to its two
    outputs, a byte at a time; it is an argument. *)

From stdpp Require Import relations.
From S2P Require Import Prelude GoStrings.

(** What a command does next, in a state [S]: its read gets a byte, or [None] at the
    end of the input; its exit status is the error [Wait] returns. *)
Inductive command S :=
| CRead (k : option ascii -> S)
| COut (c : ascii) (s : S)
| CErr (c : ascii) (s : S)
| CExit (status : option error).
Arguments CRead {S}.
Arguments COut {S}.
Arguments CErr {S}.
Arguments CExit {S}.

(** Where [shellPipe] is: at [io.Copy] with the rest of the input, before [wc.Close],
    at [ioutil.ReadAll] in the first and in the second output, with what it has read,
    at [command.Wait], and returned. *)
Inductive pipe_pc :=
| PCopy (rest : list ascii)
| PReadOut (read : list ascii)
| PReadErr (read : list ascii)
| PWait (read : list ascii)
| PReturned (out : option (list ascii)) (err : option error).

Section pipes.
Context {S : Type} (program : S -> command S) (cap : nat).
(** What a write to a pipe whose reader has exited returns. *)
Context (EPIPE : error).

(** The command is in a state, or has exited; the input is closed once [shellPipe] has
    left [PCopy], the outputs once the command has exited. *)
Record processes := mkProcesses {
  pc : pipe_pc; cmd_state : S + option error;
  inp : list ascii; out : list ascii; err : list ascii
}.

Definition closed (p : pipe_pc) : Prop := match p with PCopy _ => False | _ => True end.

Inductive pipe_step : processes -> processes -> Prop :=
| copy_byte c rest s i o e : (length i < cap)%nat ->
    pipe_step (mkProcesses (PCopy (c :: rest)) (inl s) i o e) (mkProcesses (PCopy rest) (inl s) (i ++ [c]) o e)
| copy_broken c rest st i o e :
    pipe_step (mkProcesses (PCopy (c :: rest)) (inr st) i o e) (mkProcesses (PReturned None (Some EPIPE)) (inr st) i o e)
| close_input x i o e :
    pipe_step (mkProcesses (PCopy []) x i o e) (mkProcesses (PReadOut []) x i o e)
| read_out r x i c o e :
    pipe_step (mkProcesses (PReadOut r) x i (c :: o) e) (mkProcesses (PReadOut (r ++ [c])) x i o e)
| end_out r st i e :
    pipe_step (mkProcesses (PReadOut r) (inr st) i [] e) (mkProcesses (PReadErr r) (inr st) i [] e)
| read_err r x i o c e :
    pipe_step (mkProcesses (PReadErr r) x i o (c :: e)) (mkProcesses (PReadErr (r ++ [c])) x i o e)
| end_err r st i o :
    pipe_step (mkProcesses (PReadErr r) (inr st) i o []) (mkProcesses (PWait r) (inr st) i o [])
| wait r st i o e :
    pipe_step (mkProcesses (PWait r) (inr st) i o e) (mkProcesses (PReturned (Some r) st) (inr st) i o e)
| command_read p s k c i o e : program s = CRead k ->
    pipe_step (mkProcesses p (inl s) (c :: i) o e) (mkProcesses p (inl (k (Some c))) i o e)
| command_eof p s k o e : program s = CRead k -> closed p ->
    pipe_step (mkProcesses p (inl s) [] o e) (mkProcesses p (inl (k None)) [] o e)
| command_out p s c s' i o e : program s = COut c s' -> (length o < cap)%nat ->
    pipe_step (mkProcesses p (inl s) i o e) (mkProcesses p (inl s') i (o ++ [c]) e)
| command_err p s c s' i o e : program s = CErr c s' -> (length e < cap)%nat ->
    pipe_step (mkProcesses p (inl s) i o e) (mkProcesses p (inl s') i o (e ++ [c]))
| command_exit p s st i o e : program s = CExit st ->
    pipe_step (mkProcesses p (inl s) i o e) (mkProcesses p (inr st) i o e).

(** When the command has started. *)
Definition started (stdin : list ascii) (s : S) : processes := mkProcesses (PCopy stdin) (inl s) [] [] [].

(** ** A command that reads its input to the end

    [runs eof b s i o e st n]: alone, on the input [i], the command writes [o] and
    [e] and exits with [st] after [n] steps; [eof] tells that it has seen the end of
    its input, before which it writes exactly [b] more bytes to its output. *)
Inductive runs : bool -> nat -> S -> list ascii -> list ascii -> list ascii -> option error -> nat -> Prop :=
| runs_exit s st : program s = CExit st -> runs true 0 s [] [] [] st 1
| runs_read b s k c i o e st n : program s = CRead k ->
    runs false b (k (Some c)) i o e st n -> runs false b s (c :: i) o e st (1 + n)
| runs_end s k eof o e st n : program s = CRead k ->
    runs true 0 (k None) [] o e st n -> runs eof 0 s [] o e st (1 + n)
| runs_out b s c s' i o e st n : program s = COut c s' ->
    runs false b s' i o e st n -> runs false (1 + b) s i (c :: o) e st (1 + n)
| runs_out_eof s c s' i o e st n : program s = COut c s' ->
    runs true 0 s' i o e st n -> runs true 0 s i (c :: o) e st (1 + n)
| runs_err eof b s c s' i o e st n : program s = CErr c s' ->
    runs eof b s' i o e st n -> runs eof b s i o (c :: e) st (1 + n).

Lemma runs_eof_inp b s i o e st n : runs true b s i o e st n -> i = [] /\ b = 0%nat.
Proof. remember true as eof. induction 1; by auto. Qed.

(** ** The invariant *)

(** The bytes the parent has not copied, what it has read of each output, given all
    that is written to the first, and the steps it has left. *)
Definition uncopied (p : pipe_pc) : list ascii := match p with PCopy rest => rest | _ => [] end.

Section invariant.
Context (O E : list ascii) (st : option error).

(** What the two have left to do: in every state the command goes on as it would
    alone, on what is in its pipe and what is not copied yet, and what was read, what
    is in the pipes and what is still to be written make up the whole outputs. *)
Definition parent_ok (p : pipe_pc) (exited : bool) (o e o' e' : list ascii) : Prop :=
  match p with
  | PCopy _ => O = o ++ o' /\ E = e ++ e' /\ exited = false
  | PReadOut r => O = r ++ o ++ o' /\ E = e ++ e'
  | PReadErr r => O ++ E = r ++ e /\ o = [] /\ exited = true
  | PWait r => O ++ E = r /\ o = [] /\ e = [] /\ exited = true
  | PReturned r x => r = Some (O ++ E) /\ x = st /\ exited = true
  end.

Inductive good : nat -> processes -> Prop :=
| good_running eof b n p s i o e o' e' :
    runs eof b s (i ++ uncopied p) o' e' st n ->
    parent_ok p false o e o' e' ->
    (if eof then closed p else (length o + b <= cap)%nat \/ closed p) ->
    good n (mkProcesses p (inl s) i o e)
| good_exited p i o e :
    parent_ok p true o e [] [] -> good 0 (mkProcesses p (inr st) i o e).

(** The steps [shellPipe] has left. *)
Definition left_of (p : pipe_pc) : nat :=
  match p with
  | PCopy rest => length rest + 1 + (length O + length E + 3)
  | PReadOut r => (length O - length r) + (length E + 3)
  | PReadErr r => (length O + length E - length r) + 2
  | PWait _ => 1
  | PReturned _ _ => 0
  end.

(** A step of [shellPipe] itself. *)
Lemma parent_step n p q x i j o e o1 e1 :
  good n (mkProcesses p x i o e) -> i ++ uncopied p = j ++ uncopied q ->
  (closed p -> closed q) -> (length o1 <= length o \/ closed q)%nat ->
  (forall ex o' e', ex = (match x with inl _ => false | inr _ => true end) ->
     (ex = true -> o' = [] /\ e' = []) -> parent_ok p ex o e o' e' ->
     parent_ok q ex o1 e1 o' e' /\ (left_of q < left_of p)%nat) ->
  exists m, good m (mkProcesses q x j o1 e1) /\ (m + left_of q < n + left_of p)%nat.
Proof.
  intros Hg Hi Hcl Ho Hok. inversion Hg as [eof b ? ? s ? ? ? o' e' Hr Hp Hc|? ? ? ? Hp]; subst.
  - destruct (Hok false o' e' eq_refl) as [Hq Hlt]; [done..|].
    exists n. split; [|lia]. apply (good_running eof b n q s j o1 e1 o' e'); [by rewrite <- Hi|done|].
    destruct eof; [auto|]. destruct Hc as [Hc|Hc]; [|right; auto]. destruct Ho; [left; lia|by right].
  - destruct (Hok true [] [] eq_refl) as [Hq Hlt]; [done..|].
    exists 0%nat. split; [|lia]. by apply good_exited.
Qed.

(** A step of the command. *)
Lemma command_step n p s s' i j o e o1 e1 :
  good n (mkProcesses p (inl s) i o e) ->
  (forall eof b o' e', runs eof b s (i ++ uncopied p) o' e' st n -> parent_ok p false o e o' e' ->
     (if eof then closed p else (length o + b <= cap)%nat \/ closed p) ->
     exists eof' b' n' o'' e'', runs eof' b' s' (j ++ uncopied p) o'' e'' st n' /\ parent_ok p false o1 e1 o'' e'' /\
       (if eof' then closed p else (length o1 + b' <= cap)%nat \/ closed p) /\ (n' < n)%nat) ->
  exists m, good m (mkProcesses p (inl s') j o1 e1) /\ (m + left_of p < n + left_of p)%nat.
Proof.
  intros Hg H. inversion Hg as [eof b ? ? ? ? ? ? o' e' Hr Hp Hc|]; subst.
  destruct (H eof b o' e' Hr Hp Hc) as (eof' & b' & n' & o'' & e'' & Hr' & Hp' & Hc' & Hn).
  exists n'. split; [by apply (good_running eof' b' n' p s' j o1 e1 o'' e'')|lia].
Qed.

(** The command's step is the one it takes alone; while it runs, [shellPipe] copies or
    reads the first output. *)
Ltac parent_cases p Hp := destruct p; cbn in *; try done; try (exfalso; decompose [and] Hp; discriminate).
Ltac run_inv := intros eof b o' e' Hr Hp Hc; inversion Hr; subst; try congruence.

Lemma step_good n x y :
  good n x -> pipe_step x y -> exists m, good m y /\ (m + left_of (pc y) < n + left_of (pc x))%nat.
Proof.
  intros Hg Hs. destruct Hs; cbn [pc].
  - apply (parent_step _ _ _ _ _ _ _ _ _ _ Hg); cbn; [by rewrite <- app_assoc|done|lia|]. intros. split; [done|lia].
  - inversion Hg; subst. by match goal with H : parent_ok _ _ _ _ _ _ |- _ => destruct H as (_ & _ & ?) end.
  - apply (parent_step _ _ _ _ _ _ _ _ _ _ Hg); cbn; [done..| |]; [by left|].
    intros ex o' e' _ _ (-> & -> & ->). split; [done|lia].
  - apply (parent_step _ _ _ _ _ _ _ _ _ _ Hg); cbn; [done..| |]; [by right|].
    intros ex o' e' _ _ (-> & ->). rewrite <- app_assoc, !length_app. cbn. split; [done|lia].
  - apply (parent_step _ _ _ _ _ _ _ _ _ _ Hg); cbn; [done..| |]; [by right|].
    intros ex o' e' -> He (-> & ->). destruct (He eq_refl) as [-> ->]. rewrite !app_nil_r. split; [done|lia].
  - apply (parent_step _ _ _ _ _ _ _ _ _ _ Hg); cbn; [done..| |]; [by right|].
    intros ex o' e' _ _ (Hoe & -> & ->). apply (f_equal length) in Hoe as Hl. rewrite !length_app in *. cbn in Hl.
    rewrite <- app_assoc. cbn. split; [done|lia].
  - apply (parent_step _ _ _ _ _ _ _ _ _ _ Hg); cbn; [done..| |]; [by right|].
    intros ex o' e' _ _ (-> & -> & ->). rewrite app_nil_r. split; [done|lia].
  - apply (parent_step _ _ _ _ _ _ _ _ _ _ Hg); cbn; [done..| |]; [by right|].
    intros ex o' e' -> _ (-> & -> & -> & _). split; [|lia]. inversion Hg; subst. done.
  - apply (command_step _ _ _ _ _ _ _ _ _ _ Hg). run_inv. rewrite H in *.
    match goal with H : CRead _ = CRead _ |- _ => injection H as -> end.
    by eexists false, _, _, _, _; split_and!; [done|done|done|lia].
  - apply (command_step _ _ _ _ _ _ _ _ _ _ Hg). assert (Hu : uncopied p = []) by (by destruct p). rewrite Hu. run_inv.
    rewrite H in *. match goal with H : CRead _ = CRead _ |- _ => injection H as -> end.
    eexists true, 0%nat, _, _, _; split_and!; [done|done|done|lia].
  - apply (command_step _ _ _ _ _ _ _ _ _ _ Hg). run_inv; rewrite H in *;
      match goal with H : COut _ _ = COut _ _ |- _ => injection H as -> -> end.
    + eexists false, _, _, _, _; split_and!; [done| |rewrite length_app; cbn; destruct Hc; [left; lia|by right]|lia].
      parent_cases p Hp; by rewrite <- ?app_assoc.
    + eexists true, _, _, _, _; split_and!; [done| |done|lia].
      parent_cases p Hp; by rewrite <- ?app_assoc.
  - apply (command_step _ _ _ _ _ _ _ _ _ _ Hg). run_inv; rewrite H in *.
    match goal with H : CErr _ _ = CErr _ _ |- _ => injection H as -> -> end.
    eexists _, _, _, _, _; split_and!; [done| |done|lia].
    parent_cases p Hp; by rewrite <- ?app_assoc.
  - inversion Hg as [eof b ? ? ? ? ? ? o' e' Hr Hp Hc|]; subst. inversion Hr; subst; try congruence.
    rewrite H in *. match goal with H : CExit _ = CExit _ |- _ => injection H as -> end.
    exists 0%nat. split; [|lia]. apply good_exited. parent_cases p Hp.
Qed.

Lemma exited_ready p o e i :
  parent_ok p true o e [] [] -> red pipe_step (mkProcesses p (inr st) i o e) \/ p = PReturned (Some (O ++ E)) st.
Proof.
  destruct p as [rest|r|r|r|r x]; cbn.
  - by intros (_ & _ & ?).
  - intros _. left. destruct o; eexists; constructor.
  - intros (_ & -> & _). left. destruct e; eexists; constructor.
  - intros _. left. eexists. constructor.
  - intros (-> & -> & _). by right.
Qed.

(** As long as the errors fit into their pipe, one of the two can go on. *)
Lemma good_ready n x :
  (0 < cap)%nat -> (length E <= cap)%nat -> good n x -> red pipe_step x \/ pc x = PReturned (Some (O ++ E)) st.
Proof.
  intros Hcap HE [eof b n' p s i o e o' e' Hr Hp Hc|p i o e Hp]; [|by apply exited_ready].
  left. assert (Herr : forall c l, e' = c :: l -> (length e < cap)%nat).
  { intros c l ->. parent_cases p Hp.
    - destruct Hp as (_ & Hp & _). rewrite Hp, length_app in HE. cbn in HE. lia.
    - destruct Hp as (_ & Hp). rewrite Hp, length_app in HE. cbn in HE. lia. }
  parent_cases p Hp.
  - inversion Hr; subst.
    + by cbn in Hc.
    + destruct i as [|c' i]; [|eexists; by eapply command_read].
      destruct rest as [|c' rest]; [done|]. eexists. apply copy_byte. cbn. lia.
    + destruct rest as [|c rest]; [eexists; apply close_input|]. by destruct i.
    + eexists. eapply command_out; [done|]. destruct Hc as [Hc|Hc]; [lia|by cbn in Hc].
    + by cbn in Hc.
    + eexists. eapply command_err; [done|]. by eapply Herr.
  - destruct o as [|c o]; [|eexists; apply read_out]. cbn in Hr. rewrite app_nil_r in Hr. inversion Hr; subst.
    + eexists. by apply command_exit.
    + eexists. by eapply command_read.
    + eexists. by eapply command_eof.
    + eexists. eapply command_out; [done|]. cbn. lia.
    + eexists. eapply command_out; [done|]. cbn. lia.
    + eexists. eapply command_err; [done|]. by eapply Herr.
Qed.

(** The second output is read only after the command has exited, so what it writes
    there has to fit. *)
Definition errors_fit (x : processes) : Prop :=
  (length (err x) <= cap)%nat /\
  match cmd_state x with inl _ => True | inr _ => (length E <= cap)%nat end.

Lemma step_errors_fit n x y : good n x -> pipe_step x y -> errors_fit x -> errors_fit y.
Proof.
  intros Hg Hs. unfold errors_fit. destruct Hs; cbn; try done; try (intros [? ?]; split; [lia|done]).
  - intros [He _]. rewrite length_app. cbn. split; [lia|done].
  - intros [He _]. split; [done|]. inversion Hg as [eof b ? ? ? ? ? ? o' e' Hr Hp Hc|]; subst.
    inversion Hr; subst; try congruence. parent_cases p Hp.
    destruct Hp as [_ ->]. by rewrite app_nil_r.
Qed.

Lemma steps_good k n x y :
  good n x -> errors_fit x -> nsteps pipe_step k x y ->
  exists m, good m y /\ errors_fit y /\ (k + m + left_of (pc y) <= n + left_of (pc x))%nat.
Proof.
  intros Hg Hf Hs. revert n Hg Hf. induction Hs as [x|k x y z Hxy Hyz IH]; intros n Hg Hf; [exists n; split_and!; [done|done|lia]|].
  destruct (step_good n x y Hg Hxy) as (m & Hm & Hlt).
  destruct (IH m Hm (step_errors_fit n x y Hg Hxy Hf)) as (m' & Hm' & Hf' & Hle). exists m'. split_and!; [done..|lia].
Qed.

(** C32: [shellPipe] on a command that reads its input to the end, before that writes
    no more to its output than the pipe holds, and alone writes [O] and [E] and
    exits with [st]. The two processes always stop, after a bounded number of steps.
    If [E] fits into its pipe, then however their steps interleave they stop only when
    [shellPipe] has returned [O] followed by [E], and the exit status. If it does not,
    [shellPipe] never returns: it waits for the end of the first output while the
    command waits for room in the second. *)
Theorem shellPipe_returns n b s stdin :
  (0 < cap)%nat -> (b <= cap)%nat -> runs false b s stdin O E st n ->
  forall k x, nsteps pipe_step k (started stdin s) x ->
  (k <= n + length stdin + length O + length E + 4)%nat /\
  if decide (length E <= cap)%nat
  then nf pipe_step x -> pc x = PReturned (Some (O ++ E)) st
  else forall r z, pc x <> PReturned r z.
Proof.
  intros Hcap Hb Hr k x Hk.
  assert (Hg : good n (started stdin s)).
  { apply (good_running false b n _ s [] [] [] O E); [done|by cbn|]. left. cbn. lia. }
  destruct (steps_good k n _ x Hg) as (m & Hm & [_ Hf] & Hle); [by split; [cbn; lia|]|done|].
  split; [cbn in Hle; lia|]. destruct (decide (length E <= cap)%nat) as [HE|HE].
  - intros Hnf. by destruct (good_ready m x Hcap HE Hm).
  - intros rd z Hpc. destruct Hm as [eof b' n' p s' i o e o' e' Hr' Hp Hc|p i o e Hp]; cbn in *; [|by apply HE].
    subst p. by destruct Hp as (_ & _ & ?).
Qed.
End invariant.
End pipes.

(** ** Examples and witnesses *)

(** Reads everything, then writes two given texts and exits. *)
Definition sink (s : bool * (list ascii * list ascii)) : command (bool * (list ascii * list ascii)) :=
  match s with
  | (false, r) => CRead (fun c => match c with Some _ => (false, r) | None => (true, r) end)
  | (true, (c :: o, e)) => COut c (true, (o, e))
  | (true, ([], c :: e)) => CErr c (true, ([], e))
  | (true, ([], [])) => CExit None
  end.

Lemma runs_sink i o e : runs sink false 0 (false, (o, e)) i o e None (length i + length o + length e + 2).
Proof.
  induction i as [|c i IH]; [|by eapply runs_read; [reflexivity|]].
  assert (H : runs sink true 0 (true, (o, e)) [] o e None (length o + length e + 1)).
  { induction o as [|c o IH]; [|by eapply runs_out_eof; [reflexivity|]].
    induction e as [|c e IH]; [by apply runs_exit|by eapply runs_err; [reflexivity|]]. }
  replace (length (@nil ascii) + length o + length e + 2)%nat with (1 + (length o + length e + 1))%nat by (cbn; lia).
  by eapply runs_end; [reflexivity|].
Qed.

Lemma shellPipe_returns_witness :
  (forall k x, nsteps (pipe_step sink 4 io_EOF) k (started ["i"; "n"]%char (false, (["o"; "u"; "t"]%char, ["e"]%char))) x ->
    nf (pipe_step sink 4 io_EOF) x -> pc x = PReturned (Some ["o"; "u"; "t"; "e"]%char) None) /\
  (forall k x, nsteps (pipe_step sink 4 io_EOF) k (started [] (false, ([], ["e"; "r"; "r"; "o"; "r"]%char))) x ->
    forall r z, pc x <> PReturned r z).
Proof.
  split; intros k x Hk.
  - apply (shellPipe_returns sink 4 io_EOF ["o"; "u"; "t"]%char ["e"]%char None _ 0 _ ["i"; "n"]%char
      ltac:(lia) ltac:(lia) (runs_sink _ _ _) k x Hk).
  - apply (shellPipe_returns sink 4 io_EOF [] ["e"; "r"; "r"; "o"; "r"]%char None _ 0 _ []
      ltac:(lia) ltac:(lia) (runs_sink _ _ _) k x Hk).
Defined.
