(* ===== verification/OpenFlow.v ===== *)
(** * Flows and statistics through [ovs-ofctl]

    Models [ovs/openflow.go]: adding and deleting flows, flow bundles and their
    transactions, and the parsers of the dumps. *)

From S2P Require Import Prelude GoStrings GoConv GoNet Names Match MatchParser GoScan.
From S2P Require Import Action ActionParser Flow Stats Client.

Definition errMultipleValues : error := ErrorString "multiple values returned".
Definition errNotCommitted : error := ErrorString "flow bundle not committed, discarding flows".

(** ** Transactions *)

Inductive directive := dirAdd | dirDelete.

Definition directive_text (d : directive) : string :=
  match d with dirAdd => "add" | dirDelete => "delete" end.

Definition flowDirective : Type := directive * string.

Record FlowTransaction := mkFlowTransaction {
  flows : list flowDirective; committed : bool; tx_err : option error
}.

Definition newTransaction : FlowTransaction := mkFlowTransaction [] false None.

(** [push] stops at the first value that does not marshal; the values before it
    stay on the transaction. *)
Fixpoint push (d : directive) (texts : list (go string)) (tx : FlowTransaction) : FlowTransaction :=
  match texts with
  | [] => tx
  | t :: l =>
      match t with
      | Ok fb => push d l (mkFlowTransaction (flows tx ++ [(d, fb)]) (committed tx) (tx_err tx))
      | Err e => mkFlowTransaction (flows tx) (committed tx) (Some e)
      | Panic _ => tx
      end
  end.

Definition Add (fs : list Flow) (tx : FlowTransaction) : FlowTransaction :=
  match tx_err tx with
  | Some _ => tx
  | None => push dirAdd (map Flow_MarshalText fs) tx
  end.

Definition Delete (fs : list MatchFlow) (tx : FlowTransaction) : FlowTransaction :=
  match tx_err tx with
  | Some _ => tx
  | None => push dirDelete (map MatchFlow_MarshalText fs) tx
  end.

Definition Commit (tx : FlowTransaction) : FlowTransaction * option error :=
  match tx_err tx with
  | Some e => (tx, Some e)
  | None => (mkFlowTransaction (flows tx) true (tx_err tx), None)
  end.

Definition Discard (err : error) (tx : FlowTransaction) : FlowTransaction * error :=
  (mkFlowTransaction [] (committed tx) (tx_err tx),
   ErrorfErr "discarding add flow transaction: %v" err).

(** ** Scanning output

    [bufio.Scanner] with [ScanLines]: the lines without their newline and one
    carriage return before it; a line of 65536 bytes or more stops the scan. *)
Definition MaxScanTokenSize : Z := 65536.
Definition ErrTooLong : error := ErrorString "bufio.Scanner: token too long".

Definition dropCR (s : string) : string := TrimSuffix s (sing "013").

Fixpoint keep_short (l : list string) : list string * option error :=
  match l with
  | [] => ([], None)
  | s :: l => if MaxScanTokenSize <=? Z.of_nat (String.length s) then ([], Some ErrTooLong)
              else let (ls, e) := keep_short l in (dropCR s :: ls, e)
  end.

(** The pieces between newlines; an empty last one is not a line. *)
Definition drop_last_empty (l : list string) : list string :=
  match last l with
  | Some s => if (s =? "")%string then removelast l else l
  | None => l
  end.

Definition ScanLines (s : string) : list string * option error :=
  keep_short (drop_last_empty (Split s (sing "010"))).

(** What a dump returns: the values of the lines before the first failure, and
    the failure.  [fn] may pass over a line. *)
Definition dump (A : Type) : Type := go (list A * option error).

Definition dump_cons {A} (o : option A) (d : dump A) : dump A :=
  '(l, e) ← d; Ok (match o with Some a => a :: l | None => l end, e).

Fixpoint each_line {A} (fn : string -> go (option A)) (l : list string) (err : option error) : dump A :=
  match l with
  | [] => Ok ([], err)
  | b :: l =>
      match fn b with
      | Ok o => dump_cons o (each_line fn l err)
      | Err e => Ok ([], Some e)
      | Panic w => Panic w
      end
  end.

Definition parseEachLine {A} (s prefix : string) (fn : string -> go (option A)) : dump A :=
  let (lines, err) := ScanLines s in
  match lines with
  | [] => Ok ([], Some io_ErrUnexpectedEOF)
  | first :: lines =>
      if negb (HasPrefix first prefix) then Ok ([], Some io_ErrUnexpectedEOF)
      else each_line fn lines err
  end.

(** Two lines at a time, three when the banner announces OpenFlow 1.x. *)
Fixpoint each_pair {A} (fn : string -> go (option A)) (hasDuration : bool) (l : list string)
    (err : option error) : dump A :=
  match l with
  | [] => Ok ([], err)
  | [_] => Ok ([], Some io_ErrUnexpectedEOF)
  | b1 :: b2 :: l =>
      let continue_with l :=
        match fn (b1 +:+ b2) with
        | Ok o => dump_cons o (each_pair fn hasDuration l err)
        | Err e => Ok ([], Some e)
        | Panic w => Panic w
        end in
      if hasDuration then
        match l with
        | [] => Ok ([], Some io_ErrUnexpectedEOF)
        | _ :: l => continue_with l
        end
      else continue_with l
  end.

Definition parseEach {A} (s prefix : string) (fn : string -> go (option A)) : dump A :=
  let (lines, err) := ScanLines s in
  match lines with
  | [] => Ok ([], Some io_ErrUnexpectedEOF)
  | first :: lines =>
      if negb (HasPrefix first prefix) then Ok ([], Some io_ErrUnexpectedEOF)
      else each_pair fn (Contains first "(OF1.") lines err
  end.

(** ** The service *)

Definition dumpPortsPrefix := "OFPST_PORT reply".
Definition dumpTablesPrefix := "OFPST_TABLE reply".
Definition dumpFlowsPrefix := "NXST_FLOW reply".

(** The functions given to the line parsers. *)
Definition table_line (b : string) : go (option Stats.Table) :=
  t ← Table_UnmarshalText b;
  Ok (if (Active t =? 0) && (Lookup t =? 0) && (Matched t =? 0) then None else Some t).

Definition flow_line (b : string) : go (option Flow) :=
  if HasPrefix b dumpFlowsPrefix then Ok None else Some <$> Flow_UnmarshalText zeroFlow b.

Definition port_line (b : string) : go (option PortStats) := Some <$> PortStats_UnmarshalText b.

Section service.
Context {W : Type} (c : Client W).

Definition o_exec (args : list string) : cmd W string := exec c "ovs-ofctl" args.
Definition o_pipe (stdin : string) (args : list string) : cmd W unit := pipe c stdin "ovs-ofctl" args.

Definition AddFlow (bridge : string) (flow : Flow) : cmd W unit :=
  fb ← lift (Flow_MarshalText flow);
  _ ← o_exec (["add-flow"] ++ ofctlFlags c ++ [bridge; fb]);
  mret tt.

(** The text piped to [ovs-ofctl]. *)
Definition bundle_line (d : flowDirective) : string :=
  directive_text (fst d) +:+ " " +:+ snd d +:+ sing "010".
Definition bundle (l : list flowDirective) : string := Join (map bundle_line l) "".

(** The caller's function works on the transaction, and may run commands too. *)
Definition AddFlowBundle (bridge : string)
    (fn : FlowTransaction -> W -> W * (FlowTransaction * option error)) : cmd W unit := fun w =>
  let '(w, (tx, err)) := fn newTransaction w in
  match err with
  | Some e => (w, Err e)
  | None =>
      if negb (committed tx) then (w, Err errNotCommitted)
      else o_pipe (bundle (flows tx)) (["--bundle"; "add-flow"] ++ ofctlFlags c ++ [bridge; "-"]) w
  end.

(** A nil [MatchFlow] is [None]. *)
Definition DelFlows (bridge : string) (flow : option MatchFlow) : cmd W unit :=
  match flow with
  | None => _ ← o_exec ["del-flows"; bridge]; mret tt
  | Some flow =>
      fb ← lift (MatchFlow_MarshalText flow);
      _ ← o_exec ["del-flows"; bridge; fb]; mret tt
  end.

(** Values for the action of [ModPort]. *)
Definition PortActions : list string :=
  ["up"; "down"; "stp"; "no-stp"; "receive"; "no-receive"; "receive-stp"; "no-receive-stp"; "forward"; "no-forward";
   "flood"; "no-flood"; "packet-in"; "no-packet-in"].

Definition ModPort (bridge port action : string) : cmd W unit :=
  _ ← o_exec ["mod-port"; bridge; port; action]; mret tt.

Definition dumpPorts (bridge port : string) : cmd W (list PortStats * option error) :=
  let args := ofctlFlags c ++ ["dump-ports"; bridge] in
  out ← o_exec (if negb (port =? "")%string then args ++ [port] else args);
  lift (parseEach out dumpPortsPrefix port_line).

Definition DumpPort (bridge port : string) : cmd W PortStats :=
  '(stats, err) ← dumpPorts bridge port;
  match err with
  | Some e => lift (Err e)
  | None => match stats with [s] => mret s | _ => lift (Err errMultipleValues) end
  end.

Definition DumpPorts (bridge : string) : cmd W (list PortStats * option error) := dumpPorts bridge "".

Definition DumpTables (bridge : string) : cmd W (list Stats.Table * option error) :=
  out ← o_exec ["dump-tables"; bridge];
  lift (parseEach out dumpTablesPrefix table_line).

Definition DumpFlows (bridge : string) : cmd W (list Flow * option error) :=
  out ← o_exec ["dump-flows"; bridge];
  lift (parseEachLine out dumpFlowsPrefix flow_line).

Definition dumpAggregate (bridge : string) (flow : MatchFlow) : cmd W FlowStats :=
  flowText ← lift (MatchFlow_MarshalText flow);
  out ← o_exec (ofctlFlags c ++ ["dump-aggregate"; bridge; flowText]);
  lift (FlowStats_UnmarshalText out).

Definition DumpAggregate (bridge : string) (flow : MatchFlow) : cmd W FlowStats := dumpAggregate bridge flow.
End service.

Definition run_tx (ops : list (FlowTransaction -> FlowTransaction)) (tx : FlowTransaction) : FlowTransaction :=
  fold_left (fun tx op => op tx) ops tx.

(** The usual function of [AddFlowBundle]: some operations, then [Commit]. *)
Definition tx_then_commit {W} (ops : list (FlowTransaction -> FlowTransaction))
    (tx : FlowTransaction) (w : W) : W * (FlowTransaction * option error) :=
  (w, Commit (run_tx ops tx)).

Definition sampleAdd : Flow := mkFlow 10 "ip" 0 [] 0 0 0 [Drop].

Example bundle1 :
  AddFlowBundle (rec_client [ProtocolVersions ["OpenFlow14"]]) "br0"
    (tx_then_commit [Add [sampleAdd]; Delete [mkMatchFlow "" 0 [] AnyTable 1 0]]) (mkRecorder [] [])
  = (mkRecorder [mkCall "ovs-ofctl" ["--bundle"; "add-flow"; "--protocols=OpenFlow14"; "br0"; "-"]
       (Some "add priority=10,ip,table=0,idle_timeout=0,actions=drop
delete cookie=0x0000000000000001/-1
")] [], Ok tt).
Proof. vm_compute. reflexivity. Qed.
Example dumpflows1 :
  fmap (fun p => map Priority (fst p)) (snd (DumpFlows (rec_client []) "br0" (mkRecorder []
    [(Some "NXST_FLOW reply (xid=0x4):
 cookie=0x0, duration=9215.748s, table=0, n_packets=6, n_bytes=480, idle_age=9206, priority=820,in_port=LOCAL actions=mod_vlan_vid:10,output:1
", None)]))) = Ok [820].
Proof. vm_compute. reflexivity. Qed.
Example dumptables1 :
  snd (DumpTables (rec_client []) "br0" (mkRecorder []
    [(Some "OFPST_TABLE reply (OF1.4) (xid=0x2):
  0: classifier:
   wild=0x3fffff, max=1000000, active=1 lookup=2, matched=3
   third
", None)])) = Ok ([mkTable 0 "classifier" "0x3fffff" 1000000 1 2 3], None).
Proof. vm_compute. reflexivity. Qed.

(** ** Transactions: what a bundle sends *)

(** The operations of a caller on a transaction before it commits. *)
Inductive tx_op := OpAdd (fs : list Flow) | OpDelete (fs : list MatchFlow).

Definition apply_op (op : tx_op) : FlowTransaction -> FlowTransaction :=
  match op with OpAdd fs => Add fs | OpDelete fs => Delete fs end.

(** The abstract view: every operation marshals its flows, in order, and the
    first failure is the outcome. *)
Definition op_directives (op : tx_op) : go (list flowDirective) :=
  match op with
  | OpAdd fs => mapM (fun f => t ← Flow_MarshalText f; Ok (dirAdd, t)) fs
  | OpDelete fs => mapM (fun f => t ← MatchFlow_MarshalText f; Ok (dirDelete, t)) fs
  end.

Fixpoint all_directives (ops : list tx_op) : go (list flowDirective) :=
  match ops with
  | [] => Ok []
  | op :: ops => l ← op_directives op; k ← all_directives ops; Ok (l ++ k)
  end.

Lemma push_spec {A} (fn : A -> go string) d l tx :
  (forall x, is_Panic (fn x) = false) ->
  match mapM (fun x => t ← fn x; Ok (d, t)) l with
  | Ok ds => push d (map fn l) tx = mkFlowTransaction (flows tx ++ ds) (committed tx) (tx_err tx)
  | Err e => tx_err (push d (map fn l) tx) = Some e /\ committed (push d (map fn l) tx) = committed tx
  | Panic _ => False
  end.
Proof.
  intros Hnp. revert tx. induction l as [|x l IH]; intros tx.
  - cbn. rewrite app_nil_r. by destruct tx.
  - cbn [map push mapM]. specialize (Hnp x) as Hx. cbn. destruct (fn x) as [t|e|w]; [|done|done].
    specialize (IH (mkFlowTransaction (flows tx ++ [(d, t)]) (committed tx) (tx_err tx))).
    cbn. destruct (mapM _ l) as [ds|e|w]; cbn in *; [|done|done].
    rewrite IH. by rewrite <- app_assoc.
Qed.

(** A failed transaction stays failed, with its first error, uncommitted. *)
Lemma apply_op_failed op tx e : tx_err tx = Some e -> apply_op op tx = tx.
Proof. intros H. destruct op; cbn; unfold Add, Delete; by rewrite H. Qed.

Lemma run_failed ops tx e : tx_err tx = Some e -> run_tx (map apply_op ops) tx = tx.
Proof.
  intros H. induction ops as [|op ops IH]; [done|]. cbn. by rewrite (apply_op_failed op tx e).
Qed.

Lemma op_spec op tx :
  tx_err tx = None ->
  match op_directives op with
  | Ok ds => apply_op op tx = mkFlowTransaction (flows tx ++ ds) (committed tx) None
  | Err e => tx_err (apply_op op tx) = Some e /\ committed (apply_op op tx) = committed tx
  | Panic _ => False
  end.
Proof.
  intros Hn. destruct op as [fs|fs]; cbn [op_directives apply_op]; unfold Add, Delete; rewrite Hn.
  - pose proof (push_spec Flow_MarshalText dirAdd fs tx Flow_MarshalText_no_panic) as H.
    destruct (mapM _ fs); [by rewrite H, Hn|done|done].
  - pose proof (push_spec MatchFlow_MarshalText dirDelete fs tx MatchFlow_MarshalText_no_panic) as H.
    destruct (mapM _ fs); [by rewrite H, Hn|done|done].
Qed.

Lemma run_spec ops tx :
  tx_err tx = None ->
  match all_directives ops with
  | Ok ds => run_tx (map apply_op ops) tx = mkFlowTransaction (flows tx ++ ds) (committed tx) None
  | Err e => tx_err (run_tx (map apply_op ops) tx) = Some e /\
             committed (run_tx (map apply_op ops) tx) = committed tx
  | Panic _ => False
  end.
Proof.
  revert tx. induction ops as [|op ops IH]; intros tx Hn.
  - cbn. rewrite app_nil_r, <- Hn. by destruct tx.
  - cbn [all_directives map run_tx fold_left]. pose proof (op_spec op tx Hn) as Hop.
    destruct (op_directives op) as [ds|e|w]; cbn [mbind go_bind]; [| |done].
    + rewrite Hop. specialize (IH (mkFlowTransaction (flows tx ++ ds) (committed tx) None) eq_refl).
      destruct (all_directives ops) as [ks|e|w]; cbn [mbind go_bind] in *; [|done|done].
      unfold run_tx in IH. rewrite IH. cbn. by rewrite <- app_assoc.
    + destruct Hop as [He Hc]. change (fold_left _ (map apply_op ops) (apply_op op tx))
        with (run_tx (map apply_op ops) (apply_op op tx)). by rewrite (run_failed ops _ e).
Qed.

(** C10: a bundle is all or nothing. When the caller's function performs additions
    and deletions and then commits, either every flow marshals and exactly one
    command is run, whose input is one line per flow, in the order given; or the
    first flow that does not marshal gives the result and no command is run. *)
Theorem AddFlowBundle_atomic {W} (c : Client W) bridge ops w :
  AddFlowBundle c bridge (tx_then_commit (map apply_op ops)) w =
    match all_directives ops with
    | Ok ds => o_pipe c (bundle ds) (["--bundle"; "add-flow"] ++ ofctlFlags c ++ [bridge; "-"]) w
    | Err e => (w, Err e)
    | Panic p => (w, Panic p)
    end.
Proof.
  unfold AddFlowBundle, tx_then_commit, Commit.
  pose proof (run_spec ops newTransaction eq_refl) as H.
  destruct (all_directives ops) as [ds|e|p]; [|by destruct H as [-> _]|done].
  by rewrite H.
Qed.

(** ** Transactions: what any caller can do *)

(** The methods of a transaction, as a caller may use them. *)
Inductive tx_method := MOp (op : tx_op) | MCommit | MDiscard (err : error).

Definition call_method (m : tx_method) (tx : FlowTransaction) : FlowTransaction :=
  match m with
  | MOp op => apply_op op tx
  | MCommit => fst (Commit tx)
  | MDiscard e => fst (Discard e tx)
  end.

Definition run_methods (ms : list tx_method) (tx : FlowTransaction) : FlowTransaction :=
  fold_left (fun tx m => call_method m tx) ms tx.

(** The states a new transaction can reach. *)
Inductive reachable : FlowTransaction -> Prop :=
| reach_new : reachable newTransaction
| reach_call m tx : reachable tx -> reachable (call_method m tx).

Lemma reachable_run ms tx : reachable tx -> reachable (run_methods ms tx).
Proof.
  revert tx. induction ms as [|m ms IH]; intros tx H; [done|]. cbn. apply IH. by constructor.
Qed.

(** A line that stands for a flow. *)
Definition marshaled (d : flowDirective) : Prop :=
  match fst d with
  | dirAdd => exists f, Flow_MarshalText f = Ok (snd d)
  | dirDelete => exists f, MatchFlow_MarshalText f = Ok (snd d)
  end.

Lemma push_marshaled {A} (fn : A -> go string) d l tx :
  (forall x t, fn x = Ok t -> marshaled (d, t)) ->
  Forall marshaled (flows tx) -> Forall marshaled (flows (push d (map fn l) tx)).
Proof.
  intros Hfn. revert tx. induction l as [|x l IH]; intros tx H; [done|].
  cbn. destruct (fn x) as [t|e|w] eqn:Hx; [|done|done]. apply IH. cbn.
  apply Forall_app. split; [done|]. apply Forall_singleton. by eapply Hfn.
Qed.

Lemma apply_op_marshaled op tx : Forall marshaled (flows tx) -> Forall marshaled (flows (apply_op op tx)).
Proof.
  intros H. destruct op as [fs|fs]; cbn; unfold Add, Delete; (destruct (tx_err tx); [done|]).
  - apply push_marshaled; [|done]. intros x t Hx. by exists x.
  - apply push_marshaled; [|done]. intros x t Hx. by exists x.
Qed.

Lemma reachable_marshaled tx : reachable tx -> Forall marshaled (flows tx).
Proof.
  induction 1 as [|m tx _ IH]; [constructor|].
  destruct m as [op| |e]; cbn; [by apply apply_op_marshaled| |constructor].
  unfold Commit. by destruct (tx_err tx).
Qed.

Lemma push_committed d l tx : committed (push d l tx) = committed tx.
Proof. revert tx. induction l as [|[t|e|w] l IH]; intros tx; cbn; [done|by rewrite IH|done|done]. Qed.

Lemma apply_op_committed op tx : committed (apply_op op tx) = committed tx.
Proof. destruct op; cbn; unfold Add, Delete; (destruct (tx_err tx); [done|]); apply push_committed. Qed.

(** The first error stays. *)
Lemma call_method_failed m tx e : tx_err tx = Some e -> tx_err (call_method m tx) = Some e.
Proof.
  intros H. destruct m as [op| |e']; cbn; [by rewrite (apply_op_failed op tx e)|..].
  - unfold Commit. by rewrite H.
  - done.
Qed.

Lemma run_methods_failed ms tx e :
  tx_err tx = Some e -> tx_err (run_methods ms tx) = Some e /\ committed (run_methods ms tx) = committed tx.
Proof.
  revert tx. induction ms as [|m ms IH]; intros tx H; [done|].
  change (run_methods (m :: ms) tx) with (run_methods ms (call_method m tx)).
  destruct (IH (call_method m tx)) as [He Hc]; [by apply call_method_failed|]. split; [done|].
  rewrite Hc. destruct m as [op| |e']; cbn; [apply apply_op_committed| |done].
  unfold Commit. by rewrite H.
Qed.

Lemma call_method_committed m tx :
  committed (call_method m tx) = match m with
                                 | MCommit => match tx_err tx with None => true | Some _ => committed tx end
                                 | _ => committed tx
                                 end.
Proof.
  destruct m as [op| |e]; cbn; [apply apply_op_committed| |done]. unfold Commit. by destruct (tx_err tx).
Qed.

Lemma run_committed ms tx :
  committed (run_methods ms tx) = true <->
  committed tx = true \/
  exists before after, ms = before ++ MCommit :: after /\ tx_err (run_methods before tx) = None.
Proof.
  revert tx. induction ms as [|m ms IH]; intros tx.
  - cbn. split; [by left|]. intros [H|([|] & after & [=] & _)]; done.
  - change (run_methods (m :: ms) tx) with (run_methods ms (call_method m tx)). rewrite IH, call_method_committed. split.
    + intros [H|(b & a & -> & He)].
      * destruct m as [op| |e]; [by left| |by left]. destruct (tx_err tx) eqn:Ht; [by left|].
        right. by exists [], ms.
      * right. by exists (m :: b), a.
    + intros [H|(b & a & Hms & He)].
      * left. destruct m as [op| |e]; [done| |done]. by destruct (tx_err tx).
      * destruct b as [|m' b]; injection Hms as -> ->.
        -- left. cbn in He. by rewrite He.
        -- right. by exists b, a.
Qed.

(** C21: whatever sequence of its methods a caller runs on a transaction, its first
    error is kept, later additions and deletions change nothing, [Commit] returns
    that error, and the transaction is committed exactly when a [Commit] was called
    at a moment without error. *)
Theorem FlowTransaction_lifecycle ms :
  let tx := run_methods ms newTransaction in
  (forall e, tx_err tx = Some e ->
     (forall op, apply_op op tx = tx) /\ Commit tx = (tx, Some e) /\
     forall later, tx_err (run_methods (ms ++ later) newTransaction) = Some e /\
                   committed (run_methods (ms ++ later) newTransaction) = committed tx) /\
  (committed tx = true <->
   exists before after, ms = before ++ MCommit :: after /\
     tx_err (run_methods before newTransaction) = None) /\
  Forall marshaled (flows tx).
Proof.
  intros tx. split_and!.
  - intros e He. split_and!.
    + intros op. by eapply apply_op_failed.
    + unfold Commit. by rewrite He.
    + intros later. unfold run_methods. rewrite fold_left_app. by apply (run_methods_failed later tx e).
  - unfold tx. rewrite run_committed. split; [intros [[=]|H]; done|by right].
  - apply reachable_marshaled, reachable_run. constructor.
Qed.

(** The caller's function, when it only uses the transaction's methods: which
    methods it calls, and what it returns, may depend on the system's state. *)
Definition uses_methods {W} (fn : FlowTransaction -> W -> W * (FlowTransaction * option error)) : Prop :=
  forall tx w, exists ms, fst (snd (fn tx w)) = run_methods ms tx.

(** For any function that works through the transaction's methods, however it
    orders them and whatever it returns, the command is run only after a successful
    [Commit] and a nil return, and then every line of its input is a directive
    followed by the text of a flow that marshaled; otherwise nothing is run and an
    error is returned. *)
Theorem AddFlowBundle_guarded {W} (c : Client W) bridge fn w :
  uses_methods fn ->
  let '(w1, (tx, err)) := fn newTransaction w in
  (exists ds, err = None /\ committed tx = true /\ Forall marshaled ds /\
     AddFlowBundle c bridge fn w =
       o_pipe c (bundle ds) (["--bundle"; "add-flow"] ++ ofctlFlags c ++ [bridge; "-"]) w1) \/
  (exists e, (err = Some e \/ err = None /\ committed tx = false /\ e = errNotCommitted) /\
     AddFlowBundle c bridge fn w = (w1, Err e)).
Proof.
  intros Hfn. destruct (Hfn newTransaction w) as [ms Hms]. unfold AddFlowBundle.
  destruct (fn newTransaction w) as [w1 [tx [e|]]].
  - right. exists e. split; [by left|done].
  - destruct (committed tx) eqn:Hc; cbn [negb].
    + left. exists (flows tx). split_and!; [done..| |done].
      cbn in Hms. subst tx. apply reachable_marshaled, reachable_run. constructor.
    + right. exists errNotCommitted. split; [by right|done].
Qed.

Lemma tx_then_commit_methods {W} ops : uses_methods (tx_then_commit (W := W) (map apply_op ops)).
Proof.
  intros tx w. exists (map MOp ops ++ [MCommit]). cbn. unfold run_methods. rewrite fold_left_app. cbn. f_equal.
  unfold run_tx. generalize tx. induction ops as [|op ops IH]; intros tx'; [done|]. cbn. apply IH.
Qed.

Lemma AddFlowBundle_guarded_witness :
  AddFlowBundle (rec_client []) "br0" (tx_then_commit (map apply_op [OpAdd [mkFlow 10 "ip" 0 [] 0 0 0 []]]))
    (mkRecorder [] []) = (mkRecorder [] [], Err (FlowError "" errNoActions)).
Proof.
  pose proof (AddFlowBundle_guarded (rec_client []) "br0" _ (mkRecorder [] [])
    (tx_then_commit_methods [OpAdd [mkFlow 10 "ip" 0 [] 0 0 0 []]])) as H.
  destruct H as [(ds & Hn & _)|(e & [He|(Hn & _)] & H)]; [discriminate Hn| |discriminate Hn].
  rewrite H. injection He as <-. reflexivity.
Defined.

(** A commit does not close a transaction: what is added later is sent too, and an
    error raised later is neither returned nor stops the command. *)
Definition commit_then_add (tx : FlowTransaction) (w : recorder) : recorder * (FlowTransaction * option error) :=
  let (tx, err) := Commit tx in
  (w, (Add [sampleAdd; mkFlow 10 "ip" 0 [] 0 0 0 []; sampleAdd] tx, err)).

Example bundle_late_error :
  AddFlowBundle (rec_client []) "br0" commit_then_add (mkRecorder [] [])
  = (mkRecorder [mkCall "ovs-ofctl" ["--bundle"; "add-flow"; "br0"; "-"]
       (Some "add priority=10,ip,table=0,idle_timeout=0,actions=drop
")] [], Ok tt)
  /\ tx_err (fst (snd (commit_then_add newTransaction (mkRecorder [] [])))) = Some (FlowError "" errNoActions).
Proof. split; vm_compute; reflexivity. Qed.

(** ** Scanning: lines and records *)

Definition LF : string := sing "010".

(** A line the scanner gives back as it is. *)
Definition plain_line (s : string) : Prop :=
  all_chars (other_than "010") s = true /\ all_chars (other_than "013") s = true /\
  Z.of_nat (String.length s) < MaxScanTokenSize.

Lemma keep_short_plain ls : Forall plain_line ls -> keep_short ls = (ls, None).
Proof.
  induction 1 as [|s ls (_ & Hcr & Hlen) _ IH]; [done|]. cbn [keep_short].
  apply Z.leb_gt in Hlen. rewrite Hlen, IH. unfold dropCR. by rewrite TrimSuffix_other.
Qed.

Lemma ScanLines_Join ls :
  ls <> [] -> Forall plain_line ls -> last ls <> Some "" -> ScanLines (Join ls LF) = (ls, None).
Proof.
  intros Hne Hp Hl. unfold ScanLines, LF. rewrite Split_Join; [|done|].
  - unfold drop_last_empty. destruct (last ls) as [s|] eqn:Hs; [|by apply keep_short_plain].
    destruct (String.eqb_spec s ""); [by subst|]. by apply keep_short_plain.
  - eapply Forall_impl; [exact Hp|]. by intros s [H _].
Qed.

(** The lines of a record: two, or three when the banner announces OpenFlow 1.x. *)
Definition record_lines (hasDuration : bool) (r : string * string * string) : list string :=
  let '(b1, b2, b3) := r in if hasDuration then [b1; b2; b3] else [b1; b2].

Definition record_text (r : string * string * string) : string := fst (fst r) +:+ snd (fst r).

Lemma each_pair_records {A} (fn : string -> go (option A)) (h : bool) recs (rest : list string) :
  (length rest < if h then 3 else 2)%nat ->
  each_pair fn h (concat (map (record_lines h) recs) ++ rest) None
  = each_line fn (map record_text recs) (if decide (rest = []) then None else Some io_ErrUnexpectedEOF).
Proof.
  intros Hr. induction recs as [|[[b1 b2] b3] recs IH].
  - cbn. destruct rest as [|r1 [|r2 [|r3 rest]]]; try done; destruct h; cbn in *; (done || lia).
  - destruct h; cbn [map concat record_lines app each_pair each_line]; rewrite <- ?IH; done.
Qed.

(** The records of a dump are parsed one by one, in order: two lines each, or
    three with the last dropped when the banner announces OpenFlow 1.x. A record
    cut short at the end gives an unexpected end of file after the values before
    it, and a dump without the banner gives no value. *)
Theorem parseEach_records {A} (fn : string -> go (option A)) prefix banner recs (rest : list string) :
  let h := Contains banner "(OF1." in
  let lines := banner :: concat (map (record_lines h) recs) ++ rest in
  Forall plain_line lines -> last lines <> Some "" ->
  (length rest < if h then 3 else 2)%nat ->
  parseEach (Join lines LF) prefix fn =
    if HasPrefix banner prefix then
      each_line fn (map record_text recs) (if decide (rest = []) then None else Some io_ErrUnexpectedEOF)
    else Ok ([], Some io_ErrUnexpectedEOF).
Proof.
  intros h lines Hp Hl Hr. unfold parseEach. rewrite ScanLines_Join by done. unfold lines.
  destruct (HasPrefix banner prefix); [|done]. by apply each_pair_records.
Qed.

Lemma plain_line_dec s :
  all_chars (other_than "010") s && all_chars (other_than "013") s &&
  (Z.of_nat (String.length s) <? MaxScanTokenSize) = true -> plain_line s.
Proof. intros H. bools. by repeat split. Qed.

Lemma parseEach_records_witness :
  fmap (M := go) (fun p => (map PacketCount (fst p), snd p))
    (parseEach (Join ["NXST_AGGREGATE (OF1.4)"; "packet_count=1 "; "byte_count=2 flow_count=3"; "x"; "y"] LF)
      "NXST" (fun b => Some <$> FlowStats_UnmarshalText b))
  = Ok ([1], Some io_ErrUnexpectedEOF).
Proof.
  pose proof (parseEach_records (fun b => Some <$> FlowStats_UnmarshalText b) "NXST" "NXST_AGGREGATE (OF1.4)"
    [("packet_count=1 ", "byte_count=2 flow_count=3", "x")] ["y"]) as H.
  cbn [map concat app record_lines] in H. change (Contains "NXST_AGGREGATE (OF1.4)" "(OF1.") with true in H.
  cbn [app] in H. rewrite H.
  - vm_compute. reflexivity.
  - repeat constructor; apply plain_line_dec; reflexivity.
  - cbn. discriminate.
  - cbn. lia.
Defined.

(** The banner and the records of a dump, as [exec] returns them. *)
Definition dump_lines (banner : string) (recs : list (string * string * string)) : list string :=
  banner :: concat (map (record_lines (Contains banner "(OF1.")) recs).

Definition dump_ok (prefix banner : string) (recs : list (string * string * string)) : Prop :=
  HasPrefix banner prefix = true /\ Forall plain_line (dump_lines banner recs) /\
  last (dump_lines banner recs) <> Some "".

Lemma parseEach_dump {A} (fn : string -> go (option A)) prefix banner recs :
  dump_ok prefix banner recs ->
  parseEach (Join (dump_lines banner recs) LF) prefix fn = each_line fn (map record_text recs) None.
Proof.
  intros (Hb & Hp & Hl). unfold parseEach. rewrite ScanLines_Join by done. unfold dump_lines.
  rewrite Hb. cbn [negb]. rewrite <- (app_nil_r (concat _)), each_pair_records; [done|].
  cbn. destruct (Contains _ _); lia.
Qed.

(** *** Dumps of any type whose texts are read back *)

Section records.
Context {A : Type} `{TextUnmarshaler A}.

(** The function given to a line parser reads the texts, and keeps the values that
    [keep] tells, equivalent ones alike. *)
Definition keeps_texts (fn : string -> go (option A)) (keep : A -> bool) : Prop :=
  forall a b s, text_of a s -> UnmarshalText s = Ok b -> a ≡ b ->
    fn s = Ok (if keep a then Some b else None).

Lemma each_line_reads fn keep l ss err :
  keeps_texts fn keep -> Forall2 text_of l ss ->
  exists out, each_line fn ss err = Ok (out, err) /\ Forall2 (≡) (filter (fun a => keep a = true) l) out.
Proof.
  intros Hfn. induction 1 as [|a s l ss Hs _ (out & He & Ho)]; [exists []; by split|].
  destruct (text_reads a s Hs) as (b & Hb & Hab). cbn [each_line]. rewrite (Hfn a b s Hs Hb Hab), He, filter_cons.
  destruct (keep a); cbn; [|by exists out]. exists (b :: out). split; [done|by constructor].
Qed.

Lemma texts_read l ss :
  Forall2 text_of l ss -> exists out, Forall2 (≡) l out /\ Forall2 (fun s b => UnmarshalText s = Ok b) ss out.
Proof.
  induction 1 as [|a s l ss Hs _ (out & H1 & H2)]; [exists []; by split|].
  destruct (text_reads a s Hs) as (b & Hb & Hab). exists (b :: out). split; by constructor.
Qed.

Lemma parseEach_reads fn keep prefix banner recs l :
  keeps_texts fn keep -> dump_ok prefix banner recs -> Forall2 text_of l (map record_text recs) ->
  exists out, parseEach (Join (dump_lines banner recs) LF) prefix fn = Ok (out, None) /\
    Forall2 (≡) (filter (fun a => keep a = true) l) out.
Proof. intros Hfn Hd Hl. rewrite parseEach_dump by done. by apply each_line_reads. Qed.

Lemma parseEachLine_reads fn keep prefix banner ss l :
  keeps_texts fn keep -> HasPrefix banner prefix = true -> Forall plain_line (banner :: ss) ->
  last (banner :: ss) <> Some "" -> Forall2 text_of l ss ->
  exists out, parseEachLine (Join (banner :: ss) LF) prefix fn = Ok (out, None) /\
    Forall2 (≡) (filter (fun a => keep a = true) l) out.
Proof.
  intros Hfn Hb Hp Hne Hl. unfold parseEachLine. rewrite ScanLines_Join by done. rewrite Hb. cbn [negb].
  by apply each_line_reads.
Qed.
End records.

Lemma keep_all {A} (l : list A) : filter (fun _ => true = true) l = l.
Proof. induction l as [|x l IH]; [done|]. rewrite filter_cons. cbn. by rewrite IH. Qed.

(** *** The dumps *)

Definition table_record (r : string * string * string) (t : Stats.Table) : Prop := text_of t (record_text r).

Definition table_used (t : Stats.Table) : bool :=
  negb ((Active t =? 0) && (Lookup t =? 0) && (Matched t =? 0)).

Lemma records_texts {A} `{TextUnmarshaler A} recs (l : list A) :
  Forall2 (fun r a => text_of a (record_text r)) recs l -> Forall2 text_of l (map record_text recs).
Proof. induction 1; constructor; done. Qed.

(** [DumpTables] returns the tables of the output, in order, without the
    tables that hold no flow and have seen no packet. *)
Theorem DumpTables_used {W} (c : Client W) bridge w w' banner recs ts :
  o_exec c ["dump-tables"; bridge] w = (w', Ok (Join (dump_lines banner recs) LF)) ->
  dump_ok dumpTablesPrefix banner recs -> Forall2 table_record recs ts ->
  DumpTables c bridge w = (w', Ok (filter (fun t => table_used t = true) ts, None)).
Proof.
  intros Hx Hd Hr. unfold DumpTables. rewrite (cmd_bind_Ok _ _ w w' _ Hx). unfold lift.
  destruct (parseEach_reads table_line table_used dumpTablesPrefix banner recs ts) as (out & -> & Ho);
    [|done|by apply records_texts|by apply list_eq_Forall2 in Ho as <-].
  intros t u s _ Hu <-. cbn in Hu. unfold table_line, table_used. rewrite Hu. cbn [mbind go_bind]. by destruct (_ && _).
Qed.

Definition port_record (r : string * string * string) (p : PortStats) : Prop := text_of p (record_text r).

(** The arguments of a dump of ports: the port only when one is named. *)
Definition dump_ports_args {W} (c : Client W) (bridge port : string) : list string :=
  ofctlFlags c ++ "dump-ports" :: bridge :: (if (port =? "")%string then [] else [port]).

Lemma dumpPorts_reads {W} (c : Client W) bridge port w w' banner recs ps :
  o_exec c (dump_ports_args c bridge port) w = (w', Ok (Join (dump_lines banner recs) LF)) ->
  dump_ok dumpPortsPrefix banner recs -> Forall2 port_record recs ps ->
  dumpPorts c bridge port w = (w', Ok (ps, None)).
Proof.
  intros Hx Hd Hr. unfold dumpPorts. cbv zeta. unfold dump_ports_args in Hx.
  assert (Ha : (if negb (port =? "")%string then (ofctlFlags c ++ ["dump-ports"; bridge]) ++ [port]
                else ofctlFlags c ++ ["dump-ports"; bridge])
    = ofctlFlags c ++ "dump-ports" :: bridge :: (if (port =? "")%string then [] else [port])).
  { destruct (port =? "")%string; cbn [negb]; [done|]. by rewrite <- app_assoc. }
  rewrite Ha, (cmd_bind_Ok _ _ w w' _ Hx). unfold lift.
  destruct (parseEach_reads port_line (fun _ => true) dumpPortsPrefix banner recs ps) as (out & -> & Ho);
    [|done|by apply records_texts|rewrite keep_all in Ho; by apply list_eq_Forall2 in Ho as <-].
  intros p q s _ Hq _. cbn in Hq. unfold port_line. by rewrite Hq.
Qed.

(** [DumpPorts] returns every port of the output in order, and [DumpPort] the
    port it names, which must be the only one of its output. *)
Theorem DumpPort_single {W} (c : Client W) bridge port w w' banner recs ps :
  o_exec c (dump_ports_args c bridge port) w = (w', Ok (Join (dump_lines banner recs) LF)) ->
  dump_ok dumpPortsPrefix banner recs -> Forall2 port_record recs ps ->
  DumpPort c bridge port w = (w', match ps with [p] => Ok p | _ => Err errMultipleValues end) /\
  (port = "" -> DumpPorts c bridge w = (w', Ok (ps, None))).
Proof.
  intros Hx Hd Hr. pose proof (dumpPorts_reads c bridge port w w' banner recs ps Hx Hd Hr) as H. split.
  - unfold DumpPort. rewrite (cmd_bind_Ok _ _ w w' _ H). by destruct ps as [|p [|q ps]].
  - intros ->. exact H.
Qed.

Lemma graphic_other c s : graphic c = false -> all_chars graphic s = true -> all_chars (other_than c) s = true.
Proof.
  intros Hc. apply all_chars_impl. intros d Hd. unfold other_than.
  destruct (Ascii.eqb_spec c d) as [->|]; [by rewrite Hd in Hc|done].
Qed.

Lemma graphic_plain_line s :
  all_chars graphic s = true -> Z.of_nat (String.length s) < MaxScanTokenSize -> plain_line s.
Proof. intros Hg Hl. split_and!; [by apply graphic_other..|done]. Qed.

Lemma graphic_no_banner s : all_chars graphic s = true -> HasPrefix s dumpFlowsPrefix = false.
Proof.
  intros Hg. unfold HasPrefix. destruct (String.prefix dumpFlowsPrefix s) eqn:H; [|done].
  apply prefix_spec in H as [r ->]. by rewrite all_chars_app in Hg.
Qed.

(** The texts of flows are lines of a dump. *)
Lemma flow_text_line (f : Flow) t : text_of f t -> all_chars graphic t = true /\ t <> "".
Proof.
  intros [Hf Ht]. destruct (Flow_reads_back f t Hf Ht) as (Hg & ms & Hu & _). split; [done|].
  intros ->. vm_compute in Hu. discriminate.
Qed.

Lemma flow_texts_graphic (fs : list Flow) ts :
  Forall2 text_of fs ts -> Forall (fun t => all_chars graphic t = true /\ t <> "") ts.
Proof. induction 1 as [|f t fs ts Ht _ IH]; constructor; [by eapply flow_text_line|done]. Qed.

Lemma flow_line_keeps : keeps_texts flow_line (fun _ => true).
Proof.
  intros f g t Ht Hg _. unfold flow_line. rewrite graphic_no_banner by (by eapply flow_text_line).
  cbn in Hg. by rewrite Hg.
Qed.

Lemma flow_texts (fs : list Flow) ts : Forall Flow_ok fs -> mapM Flow_MarshalText fs = Ok ts -> Forall2 text_of fs ts.
Proof.
  intros Hok H%mapM_Ok_Forall2. induction H as [|f t fs ts Ht _ IH]; [constructor|].
  apply Forall_cons in Hok as [Hf Hok]. constructor; [|auto]. split; [by apply Flow_ok_reads|done].
Qed.

(** C29: what [ovs-ofctl dump-flows] prints for well-formed flows is read back into
    them: after the banner, one line per flow, in the order of the output. *)
Theorem DumpFlows_roundtrip {W} (c : Client W) bridge w w' banner fs ts :
  o_exec c ["dump-flows"; bridge] w = (w', Ok (Join (banner :: ts) LF)) ->
  HasPrefix banner dumpFlowsPrefix = true -> plain_line banner ->
  Forall Flow_ok fs -> mapM Flow_MarshalText fs = Ok ts ->
  Forall (fun t => Z.of_nat (String.length t) < MaxScanTokenSize) ts ->
  exists gs, DumpFlows c bridge w = (w', Ok (gs, None)) /\ Forall2 same_flow fs gs.
Proof.
  intros Hx Hb Hp Hok Hm Hlen. pose proof (flow_texts fs ts Hok Hm) as Ht.
  pose proof (flow_texts_graphic fs ts Ht) as Hg.
  destruct (parseEachLine_reads flow_line (fun _ => true) dumpFlowsPrefix banner ts fs) as (gs & Hgs & Hs);
    [exact flow_line_keeps|done| | |done|].
  - constructor; [done|]. apply Forall_forall. intros t Hin. rewrite Forall_forall in Hg, Hlen.
    apply graphic_plain_line; [by apply Hg|by apply Hlen].
  - intros He. apply last_Some_elem_of, elem_of_cons in He as [He|He]; [by subst banner|].
    rewrite Forall_forall in Hg. by destruct (Hg "" He).
  - rewrite keep_all in Hs. exists gs. split; [|exact Hs]. unfold DumpFlows.
    rewrite (cmd_bind_Ok _ _ w w' _ Hx). unfold lift. by rewrite Hgs.
Qed.

Lemma DumpFlows_roundtrip_witness :
  let out := "NXST_FLOW reply (xid=0x4):" +:+ LF +:+
    "priority=2005,ip,in_port=LOCAL,nw_src=192.0.2.1,tp_dst=22,table=45,idle_timeout=30,cookie=0x000000000000000a,actions=ct(commit,exec(move:NXM_OF_IN_PORT[]->NXM_NX_REG0[])),resubmit(,25)" in
  exists gs, DumpFlows (rec_client []) "br0" (mkRecorder [] [(Some (out +:+ LF), None)])
    = (mkRecorder [mkCall "ovs-ofctl" ["dump-flows"; "br0"] None] [], Ok (gs, None)) /\
    Forall2 same_flow [sampleFlow] gs.
Proof.
  refine (DumpFlows_roundtrip (rec_client []) "br0" _ _ "NXST_FLOW reply (xid=0x4):" [sampleFlow]
    ["priority=2005,ip,in_port=LOCAL,nw_src=192.0.2.1,tp_dst=22,table=45,idle_timeout=30,cookie=0x000000000000000a,actions=ct(commit,exec(move:NXM_OF_IN_PORT[]->NXM_NX_REG0[])),resubmit(,25)"]
    _ _ _ _ _ _).
  - vm_compute. reflexivity.
  - reflexivity.
  - apply plain_line_dec. vm_compute. reflexivity.
  - constructor; [exact sampleFlow_ok|constructor].
  - vm_compute. reflexivity.
  - repeat constructor.
Defined.

Definition table_out : string :=
  Join ["OFPST_TABLE reply (OF1.4) (xid=0x2):"; "  0: classifier:"; " wild=0x3fffff, max=1000000, active=1 lookup=2, matched=3"; " third";
        "  1: t1:"; " wild=0x3fffff, max=1000000, active=0 lookup=0, matched=0"; " third"] LF.

Lemma DumpTables_used_witness :
  DumpTables (rec_client []) "br0" (mkRecorder [] [(Some table_out, None)])
  = (mkRecorder [mkCall "ovs-ofctl" ["dump-tables"; "br0"] None] [],
     Ok ([mkTable 0 "classifier" "0x3fffff" 1000000 1 2 3], None)).
Proof.
  rewrite (DumpTables_used (rec_client []) "br0" _
    (mkRecorder [mkCall "ovs-ofctl" ["dump-tables"; "br0"] None] [])
    "OFPST_TABLE reply (OF1.4) (xid=0x2):"
    [("  0: classifier:", " wild=0x3fffff, max=1000000, active=1 lookup=2, matched=3", " third");
     ("  1: t1:", " wild=0x3fffff, max=1000000, active=0 lookup=0, matched=0", " third")]
    [mkTable 0 "classifier" "0x3fffff" 1000000 1 2 3; mkTable 1 "t1" "0x3fffff" 1000000 0 0 0]).
  - reflexivity.
  - vm_compute. reflexivity.
  - split_and!; [reflexivity| |vm_compute; discriminate].
    repeat constructor; apply plain_line_dec; vm_compute; reflexivity.
  - constructor; [|constructor; [|constructor]]; (split; [|exists false; vm_compute; reflexivity]);
      unfold Table_wf, in_i64, in_u, cell; cbn [ID Name Wild Max Active Lookup Matched]; split_and!; (done || lia).
Defined.

Lemma DumpPort_single_witness :
  let out := Join ["OFPST_PORT reply (xid=0x2): 1 ports";
      "  port  1: rx pkts=1, bytes=2, drop=?, errs=3, frame=4, over=5, crc=6";
      "           tx pkts=7, bytes=8, drop=9, errs=10, coll=11"] LF in
  DumpPort (rec_client []) "br0" "1" (mkRecorder [] [(Some out, None)])
  = (mkRecorder [mkCall "ovs-ofctl" ["dump-ports"; "br0"; "1"] None] [],
     Ok (mkPortStats 1 (mkPortStatsReceive 1 2 0 3 4 5 6) (mkPortStatsTransmit 7 8 9 10 11))).
Proof.
  set (n := fun k v => mkCounter k (Some v) true).
  set (rx := [n "pkts" 1; n "bytes" 2; mkCounter "drop" None true; n "errs" 3; n "frame" 4; n "over" 5;
              mkCounter "crc" (Some 6) false]).
  set (tx := [n "pkts" 7; n "bytes" 8; n "drop" 9; n "errs" 10; mkCounter "coll" (Some 11) false]).
  intros out. destruct (DumpPort_single (rec_client []) "br0" "1" (mkRecorder [] [(Some out, None)])
    (mkRecorder [mkCall "ovs-ofctl" ["dump-ports"; "br0"; "1"] None] [])
    "OFPST_PORT reply (xid=0x2): 1 ports"
    [("  port  1: rx pkts=1, bytes=2, drop=?, errs=3, frame=4, over=5, crc=6",
      "           tx pkts=7, bytes=8, drop=9, errs=10, coll=11", "")] [portstats_of 1 rx tx]) as [H _].
  - vm_compute. reflexivity.
  - split_and!; [reflexivity| |vm_compute; discriminate].
    repeat constructor; apply plain_line_dec; vm_compute; reflexivity.
  - constructor; [|constructor]. exists 1, rx, tx. split_and!; [done|vm_compute; reflexivity|unfold in_i64; lia| | |done|done].
    + repeat (constructor; [split; [by split|cbn; unfold in_u; lia || done]|]). constructor.
    + repeat (constructor; [split; [by split|cbn; unfold in_u; lia || done]|]). constructor.
  - rewrite H. vm_compute. reflexivity.
Defined.

(** ** What a bundle's reader sees *)

Definition directive_line (d : flowDirective) : string := directive_text (fst d) +:+ " " +:+ snd d.

Lemma Join_terminated ls : Join (map (fun s => s +:+ LF) ls) "" = Join (ls ++ [""]) LF.
Proof.
  induction ls as [|s ls IH]; [done|]. cbn [map app]. rewrite (Join_cons s (ls ++ [""])) by (by destruct ls).
  rewrite <- IH. destruct ls as [|s' ls]; [by rewrite app_nil_r'|].
  cbn [map]. rewrite Join_cons by done. by rewrite app_nil_l', app_assoc'.
Qed.

Lemma bundle_Join ds : bundle ds = Join (map directive_line ds ++ [""]) LF.
Proof.
  unfold bundle. rewrite <- Join_terminated, map_map. f_equal. apply map_ext. intros d.
  unfold bundle_line, directive_line. by rewrite !app_assoc'.
Qed.

Lemma ScanLines_bundle ds :
  Forall (fun d => plain_line (directive_line d)) ds -> ScanLines (bundle ds) = (map directive_line ds, None).
Proof.
  intros H. apply Forall_map in H. rewrite bundle_Join. unfold ScanLines, LF. rewrite Split_Join.
  - unfold drop_last_empty. rewrite last_snoc. cbn. rewrite removelast_last. by apply keep_short_plain.
  - by destruct (map directive_line ds).
  - apply Forall_app. split; [|by constructor]. eapply Forall_impl; [exact H|]. by intros s [Hs _].
Qed.

Lemma add_directives fs ts :
  mapM Flow_MarshalText fs = Ok ts -> all_directives [OpAdd fs] = Ok (map (pair dirAdd) ts).
Proof.
  intros H. cbn [all_directives].
  assert (Hm : op_directives (OpAdd fs) = Ok (map (pair dirAdd) ts)).
  { cbn [op_directives]. apply mapM_Ok_Forall2 in H. apply mapM_Ok_Forall2.
    induction H as [|f t fs ts Hf _ IH]; constructor; [by rewrite Hf|done]. }
  rewrite Hm. cbn [mbind go_bind]. by rewrite app_nil_r.
Qed.

(** The input of a bundle of flows whose texts are read back. *)
Lemma bundle_texts {W} (c : Client W) bridge (fs : list Flow) ts w :
  Forall2 text_of fs ts ->
  Forall (fun t => Z.of_nat (String.length t) + 4 < MaxScanTokenSize) ts ->
  exists stdin,
    AddFlowBundle c bridge (tx_then_commit [Add fs]) w =
      o_pipe c stdin (["--bundle"; "add-flow"] ++ ofctlFlags c ++ [bridge; "-"]) w /\
    ScanLines stdin = (map (fun t => "add " +:+ t) ts, None) /\
    exists gs, Forall2 (≡) fs gs /\ Forall2 (fun t g => Flow_UnmarshalText zeroFlow t = Ok g) ts gs.
Proof.
  intros Ht Hlen. exists (bundle (map (pair dirAdd) ts)). split_and!.
  - assert (Hm : mapM Flow_MarshalText fs = Ok ts).
    { apply mapM_Ok_Forall2, (Forall2_impl _ _ _ _ Ht). by intros f t [_ H]. }
    pose proof (run_spec [OpAdd fs] newTransaction eq_refl) as H. rewrite (add_directives fs ts Hm) in H.
    unfold AddFlowBundle, tx_then_commit, Commit. change [Add fs] with (map apply_op [OpAdd fs]). by rewrite H.
  - rewrite ScanLines_bundle; [by rewrite map_map|]. apply Forall_map.
    pose proof (flow_texts_graphic fs ts Ht) as Hg. revert Hlen. clear Ht.
    induction Hg as [|t ts [Hg _] _ IH]; intros Hlen; [constructor|].
    apply Forall_cons in Hlen as [Hl Hlen]. constructor; [|auto]. unfold directive_line. cbn [fst snd directive_text].
    split_and!; [rewrite !all_chars_app, (graphic_other _ t) by done; reflexivity..|].
    rewrite !app_length'. cbn [String.length]. lia.
  - exact (texts_read fs ts Ht).
Qed.

(** The input of the command of a bundle of well-formed flows, cut into lines,
    is one [add] line per flow, in order, and each text parses back into its flow. *)
Theorem AddFlowBundle_input {W} (c : Client W) bridge fs ts w :
  Forall Flow_ok fs -> mapM Flow_MarshalText fs = Ok ts ->
  Forall (fun t => Z.of_nat (String.length t) + 4 < MaxScanTokenSize) ts ->
  exists stdin,
    AddFlowBundle c bridge (tx_then_commit [Add fs]) w =
      o_pipe c stdin (["--bundle"; "add-flow"] ++ ofctlFlags c ++ [bridge; "-"]) w /\
    ScanLines stdin = (map (fun t => "add " +:+ t) ts, None) /\
    exists gs, Forall2 same_flow fs gs /\ Forall2 (fun t g => Flow_UnmarshalText zeroFlow t = Ok g) ts gs.
Proof. intros Hok Hm. apply bundle_texts. by apply flow_texts. Qed.

Lemma AddFlowBundle_input_witness :
  let t := "priority=2005,ip,in_port=LOCAL,nw_src=192.0.2.1,tp_dst=22,table=45,idle_timeout=30,cookie=0x000000000000000a,actions=ct(commit,exec(move:NXM_OF_IN_PORT[]->NXM_NX_REG0[])),resubmit(,25)" in
  exists stdin,
    AddFlowBundle (rec_client []) "br0" (tx_then_commit [Add [sampleFlow]]) (mkRecorder [] []) =
      o_pipe (rec_client []) stdin ["--bundle"; "add-flow"; "br0"; "-"] (mkRecorder [] []) /\
    ScanLines stdin = (["add " +:+ t], None).
Proof.
  intros t. destruct (AddFlowBundle_input (rec_client []) "br0" [sampleFlow] [t] (mkRecorder [] []))
    as (stdin & H1 & H2 & _).
  - constructor; [exact sampleFlow_ok|constructor].
  - vm_compute. reflexivity.
  - repeat constructor.
  - exists stdin. split; [exact H1|exact H2].
Defined.
