(* ===== verification/Mirror.v ===== *)
(** * Dumped flows, added again

    [DumpFlows] and [AddFlowBundle] of [ovs/openflow.go] together: the flows of one
    bridge, as [ovs-ofctl] prints them with its statistics, are added to another. *)

From S2P Require Import Prelude GoStrings Names Client Match Action ActionParser Flow Normal OpenFlow.

(** A line of a dump whose fields are free of white space but around their values. *)
Definition plain_flow (s : string) : bool :=
  match Split s "actions=" with
  | [m; _] => forallb plain_field (Split (TrimSpace m) ",")
  | _ => false
  end.

(** The free text of the actions is plain and closes its parentheses. *)
Definition plain_actions (f : Flow) : Prop := Forall (fun a => text_closed a /\ text_plain a) (Actions f).

Lemma plain_flow_reads s f :
  plain_flow s = true -> Flow_UnmarshalText zeroFlow s = Ok f -> plain_actions f -> Flow_reads f.
Proof.
  unfold plain_flow. destruct (Split s "actions=") as [|m [|a [|]]] eqn:Hs; try done.
  intros Hp Hf Ha. by eapply accepted_reads.
Qed.

(** Each dumped flow comes from a line. *)
Lemma each_line_from lines fs err e :
  each_line flow_line lines err = Ok (fs, e) ->
  Forall (fun f => exists s, s ∈ lines /\ HasPrefix s dumpFlowsPrefix = false /\
                             Flow_UnmarshalText zeroFlow s = Ok f) fs.
Proof.
  revert fs. induction lines as [|s lines IH]; intros fs; cbn [each_line]; [by intros [= <- _]|].
  unfold flow_line at 1. destruct (HasPrefix s dumpFlowsPrefix) eqn:Hp.
  - intros ([l e'] & Hl & [= <- <-])%bind_Ok_inv. apply (Forall_impl _ _ _ (IH l Hl)).
    intros f (s' & Hs' & H). exists s'. split; [by right|done].
  - destruct (Flow_UnmarshalText zeroFlow s) as [f|x|p] eqn:Hf; cbn [fmap go_fmap]; [|by intros [= <- _]|done].
    intros ([l e'] & Hl & [= <- <-])%bind_Ok_inv. constructor.
    + exists s. split_and!; [left|done|done].
    + apply (Forall_impl _ _ _ (IH l Hl)). intros g (s' & Hs' & H). exists s'. split; [by right|done].
Qed.

Lemma DumpFlows_from {W} (c : Client W) bridge w w' out fs :
  o_exec c ["dump-flows"; bridge] w = (w', Ok out) -> DumpFlows c bridge w = (w', Ok (fs, None)) ->
  Forall (fun f => exists s, s ∈ fst (ScanLines out) /\ HasPrefix s dumpFlowsPrefix = false /\
                             Flow_UnmarshalText zeroFlow s = Ok f) fs.
Proof.
  intros Hx. unfold DumpFlows. rewrite (cmd_bind_Ok _ _ _ _ _ Hx). unfold lift, parseEachLine. intros [= H].
  destruct (ScanLines out) as [[|b lines] err]; [done|]. destruct (negb _); [done|].
  apply each_line_from in H. apply (Forall_impl _ _ _ H). intros f (s & Hs & Hf). exists s. split; [by right|done].
Qed.

(** C30: the flows that a dump returned, whatever statistics the lines carried and
    however they were spelled, if their fields and the free text of their actions are
    plain and if all of them can be printed, in lines the scanner takes: one bundle adds
    them to another bridge. Its input, cut into lines, is one [add] line per dumped flow,
    in order, and each text is read back into an equivalent flow. *)
Theorem dumped_flows_add_again {W} (c c' : Client W) bridge bridge' w w' out fs ts w2 :
  o_exec c ["dump-flows"; bridge] w = (w', Ok out) ->
  DumpFlows c bridge w = (w', Ok (fs, None)) ->
  Forall (fun s => HasPrefix s dumpFlowsPrefix || plain_flow s = true) (fst (ScanLines out)) ->
  Forall plain_actions fs ->
  mapM Flow_MarshalText fs = Ok ts ->
  Forall (fun t => Z.of_nat (String.length t) + 4 < MaxScanTokenSize) ts ->
  exists stdin,
    AddFlowBundle c' bridge' (tx_then_commit [Add fs]) w2 =
      o_pipe c' stdin (["--bundle"; "add-flow"] ++ ofctlFlags c' ++ [bridge'; "-"]) w2 /\
    ScanLines stdin = (map (fun t => "add " +:+ t) ts, None) /\
    exists gs, Forall2 (≡) fs gs /\ Forall2 (fun t g => Flow_UnmarshalText zeroFlow t = Ok g) ts gs.
Proof.
  intros Hx Hd Hl Ha Hm Hlen. apply bundle_texts; [|done].
  pose proof (DumpFlows_from c bridge w w' out fs Hx Hd) as Hfrom. rewrite Forall_forall in Hl.
  apply mapM_Ok_Forall2 in Hm. clear Hd Hlen. induction Hm as [|f t fs ts Ht _ IH]; [constructor|].
  apply Forall_cons in Hfrom as [(s & Hs & Hp & Hf) Hfrom]. apply Forall_cons in Ha as [Ha Has].
  constructor; [|auto]. split; [|done]. specialize (Hl s Hs). rewrite Hp in Hl. by eapply plain_flow_reads.
Qed.

Definition mirrored : string :=
  Join ["NXST_FLOW reply (xid=0x4):";
        " cookie=0x0, duration=9215.748s, table=0, n_packets=6, n_bytes=480, idle_age=9206, priority=820,in_port=LOCAL actions=mod_vlan_vid:10,output:1"] LF.
Definition mirroredFlow : Flow := mkFlow 820 "" PortLOCAL [] 0 0 0 [ModVLANVID 10; Output 1].

Lemma dumped_flows_add_again_witness :
  exists stdin,
    AddFlowBundle (rec_client []) "br1" (tx_then_commit [Add [mirroredFlow]]) (mkRecorder [] []) =
      o_pipe (rec_client []) stdin ["--bundle"; "add-flow"; "br1"; "-"] (mkRecorder [] []) /\
    ScanLines stdin =
      (["add priority=820,in_port=LOCAL,table=0,idle_timeout=0,actions=mod_vlan_vid:10,output:1"], None).
Proof.
  destruct (dumped_flows_add_again (rec_client []) (rec_client []) "br0" "br1"
    (mkRecorder [] [(Some mirrored, None)]) (mkRecorder [mkCall "ovs-ofctl" ["dump-flows"; "br0"] None] [])
    mirrored [mirroredFlow] ["priority=820,in_port=LOCAL,table=0,idle_timeout=0,actions=mod_vlan_vid:10,output:1"]
    (mkRecorder [] [])) as (stdin & H1 & H2 & _).
  - vm_compute. reflexivity.
  - vm_compute. reflexivity.
  - apply Forall_forall. intros s Hs%list_elem_of_In. revert s Hs. apply forallb_forall. vm_compute. reflexivity.
  - repeat constructor.
  - vm_compute. reflexivity.
  - repeat constructor.
  - exists stdin. split; [exact H1|exact H2].
Defined.
