(* ===== verification/VSwitch.v ===== *)
(** * Bridges, ports and interfaces through [ovs-vsctl]

    Models [ovs/vswitch.go]. *)

From stdpp Require Import gmap.
From S2P Require Import Prelude GoStrings GoConv GoQuote GoJson Names Client.

Definition DefaultIngressRatePolicing : Z := -1.
Definition DefaultIngressBurstPolicing : Z := -1.

Definition FailModes : list string := ["standalone"; "secure"].
Definition InterfaceTypes : list string := ["gre"; "internal"; "patch"; "stt"; "vxlan"].

(** ** Options *)

Record BridgeOptions := mkBridgeOptions { bridge_protocols : list string }.

Definition BridgeOptions_slice (o : BridgeOptions) : list string :=
  match bridge_protocols o with
  | [] => []
  | ps => ["protocols=" +:+ Join ps ","]
  end.

Record InterfaceOptions := mkInterfaceOptions {
  if_Type : string; Peer : string; IngressRatePolicing : Z; IngressBurstPolicing : Z;
  RemoteIP : string; Key : string
}.

Definition InterfaceOptions_slice (i : InterfaceOptions) : list string :=
  let s := if negb (if_Type i =? "")%string then ["type=" +:+ if_Type i] else [] in
  let s := if negb (Peer i =? "")%string then s ++ ["options:peer=" +:+ Peer i] else s in
  let s := if IngressRatePolicing i =? DefaultIngressRatePolicing then s ++ ["ingress_policing_rate=0"]
           else if 0 <? IngressRatePolicing i
                then s ++ ["ingress_policing_rate=" +:+ fmt_d (IngressRatePolicing i)]
                else s in
  let s := if IngressBurstPolicing i =? DefaultIngressBurstPolicing then s ++ ["ingress_policing_burst=0"]
           else if 0 <? IngressBurstPolicing i
                then s ++ ["ingress_policing_burst=" +:+ fmt_d (IngressBurstPolicing i)]
                else s in
  let s := if negb (RemoteIP i =? "")%string then s ++ ["options:remote_ip=" +:+ RemoteIP i] else s in
  if negb (Key i =? "")%string then s ++ ["options:key=" +:+ Key i] else s.

(** ** The service *)

Section service.
Context {W : Type} (c : Client W).

Definition v_exec (args : list string) : cmd W string := exec c "ovs-vsctl" args.

Definition AddBridge (bridge : string) : cmd W unit :=
  _ ← v_exec ["--may-exist"; "add-br"; bridge]; mret tt.
Definition AddPort (bridge port : string) : cmd W unit :=
  _ ← v_exec ["--may-exist"; "add-port"; bridge; port]; mret tt.
Definition DeleteBridge (bridge : string) : cmd W unit :=
  _ ← v_exec ["--if-exists"; "del-br"; bridge]; mret tt.
Definition DeletePort (bridge port : string) : cmd W unit :=
  _ ← v_exec ["--if-exists"; "del-port"; bridge; port]; mret tt.

Definition ListPorts (bridge : string) : cmd W (list string) :=
  output ← v_exec ["list-ports"; bridge]; mret (Split (TrimSpace output) (sing "010")).
Definition ListBridges : cmd W (list string) :=
  output ← v_exec ["list-br"]; mret (Split (TrimSpace output) (sing "010")).

Definition PortToBridge (port : string) : cmd W string := v_exec ["port-to-br"; port].

Definition GetFailMode (bridge : string) : cmd W string := v_exec ["get-fail-mode"; bridge].
Definition SetFailMode (bridge mode : string) : cmd W unit :=
  _ ← v_exec ["set-fail-mode"; bridge; mode]; mret tt.

Definition SetController (bridge address : string) : cmd W unit :=
  _ ← v_exec ["set-controller"; bridge; address]; mret tt.
Definition GetController (bridge : string) : cmd W string :=
  address ← v_exec ["get-controller"; bridge]; mret (TrimSpace address).

Definition Get_Bridge (bridge : string) : cmd W BridgeOptions :=
  out ← v_exec ["--format=json"; "get"; "bridge"; bridge; "protocols"];
  match Unmarshal dec_strings out [] with
  | (_, Some err) => lift (Err err)
  | (protocols, None) => mret (mkBridgeOptions protocols)
  end.

Definition Set_Bridge (bridge : string) (options : BridgeOptions) : cmd W unit :=
  _ ← v_exec (["set"; "bridge"; bridge] ++ BridgeOptions_slice options); mret tt.
Definition Set_Interface (ifi : string) (options : InterfaceOptions) : cmd W unit :=
  _ ← v_exec (["set"; "interface"; ifi] ++ InterfaceOptions_slice options); mret tt.
End service.

Example set_interface1 :
  Set_Interface (rec_client [Timeout 1]) "eth0" (mkInterfaceOptions "patch" "p0" (-1) 100 "" "k=v") (mkRecorder [] [])
  = (mkRecorder [mkCall "ovs-vsctl" ["--timeout=1"; "set"; "interface"; "eth0"; "type=patch"; "options:peer=p0";
      "ingress_policing_rate=0"; "ingress_policing_burst=100"; "options:key=k=v"] None] [], Ok tt).
Proof. vm_compute. reflexivity. Qed.

(** ** What the options set

    The reading of the arguments of [ovs-vsctl set]: each is [column=value], cut at
    its first equals sign; a later one overrides. *)
Definition setting (arg : string) : option (string * string) :=
  match SplitN2 arg "=" with [k; v] => Some (k, v) | _ => None end.

Definition settings (args : list string) : gmap string string :=
  list_to_map (reverse (omap setting args)).

Lemma setting_kv k v : all_chars (other_than "=") k = true -> setting (k +:+ String "=" v) = Some (k, v).
Proof. intros Hk. unfold setting. by rewrite SplitN2_first. Qed.

Definition nonempty (s : string) : option string := if (s =? "")%string then None else Some s.

(** A policing value: [-1] asks for the default, zero and less leave it alone. *)
Definition policing (n : Z) : option string :=
  if n =? -1 then Some "0" else if 0 <? n then Some (fmt_d n) else None.

Definition option_arg (k : string) (v : option string) : list string :=
  match v with Some v => [k +:+ String "=" v] | None => [] end.

Lemma slice_args o :
  InterfaceOptions_slice o =
    option_arg "type" (nonempty (if_Type o)) ++ option_arg "options:peer" (nonempty (Peer o)) ++
    option_arg "ingress_policing_rate" (policing (IngressRatePolicing o)) ++
    option_arg "ingress_policing_burst" (policing (IngressBurstPolicing o)) ++
    option_arg "options:remote_ip" (nonempty (RemoteIP o)) ++ option_arg "options:key" (nonempty (Key o)).
Proof.
  unfold InterfaceOptions_slice, nonempty, policing, DefaultIngressRatePolicing, DefaultIngressBurstPolicing.
  destruct (if_Type o =? "")%string, (Peer o =? "")%string, (IngressRatePolicing o =? -1), (IngressBurstPolicing o =? -1),
    (0 <? IngressRatePolicing o), (0 <? IngressBurstPolicing o), (RemoteIP o =? "")%string, (Key o =? "")%string;
    reflexivity.
Qed.

Definition interface_columns : list string :=
  ["type"; "options:peer"; "ingress_policing_rate"; "ingress_policing_burst"; "options:remote_ip"; "options:key"].

Definition column_value (o : InterfaceOptions) (column : string) : option string :=
  if (column =? "type")%string then nonempty (if_Type o)
  else if (column =? "options:peer")%string then nonempty (Peer o)
  else if (column =? "ingress_policing_rate")%string then policing (IngressRatePolicing o)
  else if (column =? "ingress_policing_burst")%string then policing (IngressBurstPolicing o)
  else if (column =? "options:remote_ip")%string then nonempty (RemoteIP o)
  else if (column =? "options:key")%string then nonempty (Key o)
  else None.

Lemma slice_column_args o :
  InterfaceOptions_slice o = concat (map (fun k => option_arg k (column_value o k)) interface_columns).
Proof. rewrite slice_args. cbn [map interface_columns concat]. by rewrite app_nil_r. Qed.

(** Arguments with distinct columns set each column once. *)
Lemma option_arg_setting k v :
  all_chars (other_than "=") k = true -> omap setting (option_arg k v) = match v with Some v => [(k, v)] | None => [] end.
Proof. intros Hk. destruct v as [v|]; [|done]. cbn. by rewrite setting_kv. Qed.

Lemma settings_columns (val : string -> option string) ks :
  NoDup ks -> Forall (fun k => all_chars (other_than "=") k = true) ks ->
  forall k, settings (concat (map (fun k => option_arg k (val k)) ks)) !! k = if decide (k ∈ ks) then val k else None.
Proof.
  intros Hnd Hk k. unfold settings.
  set (kvs := omap setting (concat (map (fun k => option_arg k (val k)) ks))).
  assert (Hkvs : kvs = omap (fun k => (fun v => (k, v)) <$> val k) ks).
  { unfold kvs. clear Hnd. induction Hk as [|x ks Hx _ IH]; [done|].
    cbn [map concat]. rewrite omap_app, IH, option_arg_setting by done. cbn. by destruct (val x). }
  assert (Hin : forall k v, (k, v) ∈ kvs <-> k ∈ ks /\ val k = Some v).
  { intros k' v. rewrite Hkvs, list_elem_of_omap. split.
    - intros (x & Hx & Hv). destruct (val x) eqn:E; [|done]. by injection Hv as <- <-.
    - intros [Hx Hv]. exists k'. by rewrite Hv. }
  assert (Hfst : NoDup (reverse kvs).*1).
  { rewrite fmap_reverse, reverse_Permutation, Hkvs. clear -Hnd.
    induction Hnd as [|x ks Hx _ IH]; [constructor|]. cbn. destruct (val x); cbn; [|done].
    constructor; [|done]. intros ((k & v) & -> & (y & Hy & Hv)%list_elem_of_omap)%list_elem_of_fmap.
    cbn in *. destruct (val y); [|done]. by injection Hv as <- _. }
  destruct (decide (k ∈ ks)) as [Hk'|Hk'].
  - destruct (val k) as [v|] eqn:Hv.
    + apply elem_of_list_to_map; [done|]. rewrite elem_of_reverse. by apply Hin.
    + apply not_elem_of_list_to_map. intros ((k' & v) & -> & H)%list_elem_of_fmap.
      rewrite elem_of_reverse in H. apply Hin in H as [_ H]. cbn in *. congruence.
  - apply not_elem_of_list_to_map. intros ((k' & v) & -> & H)%list_elem_of_fmap.
    rewrite elem_of_reverse in H. by apply Hin in H as [H _].
Qed.

(** Setting an interface runs one [set interface] command, whose arguments set
    exactly the columns of the options given: a text when it is not empty, whatever
    it contains, a policing value when it is positive, zero when it is the default
    [-1], and no column else. *)
Theorem Set_Interface_columns {W} (c : Client W) ifi o :
  exists args,
    (forall w, Set_Interface c ifi o w = (_ ← v_exec c ("set" :: "interface" :: ifi :: args); mret tt) w) /\
    forall column, settings args !! column = column_value o column.
Proof.
  exists (InterfaceOptions_slice o). split; [done|]. intros column.
  rewrite slice_column_args, settings_columns.
  - case_decide as Hc; [done|]. unfold column_value.
    repeat match goal with
    | |- context [(column =? ?k)%string] =>
        destruct (String.eqb_spec column k) as [->|_];
        [exfalso; apply Hc, (bool_decide_unpack _); vm_compute; exact I|]
    end.
    done.
  - unfold interface_columns. apply (bool_decide_unpack _). vm_compute. exact I.
  - unfold interface_columns. repeat constructor.
Qed.

(** ** Lists of names *)

Definition name_line (s : string) : Prop := s <> "" /\ all_chars graphic s = true.

Lemma names_tidy ls : ls <> [] -> Forall name_line ls -> tidy (Join ls (sing "010")).
Proof.
  intros Hne Hl. right.
  assert (Hf : exists c m, graphic c = true /\ Join ls (sing "010") = String c m).
  { destruct Hl as [|s ls [Hs Hg] _]; [done|]. destruct s as [|c s]; [done|].
    apply andb_true_iff in Hg as [Hc _]. exists c.
    destruct ls as [|s' ls]; [by exists s|]. rewrite Join_cons, app_cons by done. by eexists. }
  assert (Hb : exists d n, graphic d = true /\ Join ls (sing "010") = n +:+ sing d).
  { clear Hf. induction Hl as [|s ls [Hs Hg] Hl IH]; [done|]. destruct ls as [|s' ls].
    - destruct (snoc_inv s) as [->|(n & d & ->)]; [done|]. exists d, n. split; [|done].
      rewrite all_chars_app in Hg. apply andb_true_iff in Hg as [_ Hd]. cbn in Hd. by rewrite andb_true_r in Hd.
    - destruct IH as (d & n & Hd & Hn); [done|]. rewrite Join_cons, Hn by done.
      exists d, (s +:+ sing "010" +:+ n). by rewrite !app_assoc'. }
  destruct Hf as (c & m & Hc & Hm), Hb as (d & n & Hd & Hn). by exists c, m, d, n.
Qed.

(** The names that [ovs-vsctl] prints one per line are returned in order; but
    from an empty output the list is not empty: it holds one empty name. *)
Theorem ListPorts_names {W} (c : Client W) bridge w w' names :
  v_exec c ["list-ports"; bridge] w = (w', Ok (Join names (sing "010"))) -> Forall name_line names ->
  ListPorts c bridge w = (w', Ok (match names with [] => [""] | _ => names end)).
Proof.
  intros Hx Hn. unfold ListPorts. rewrite (cmd_bind_Ok _ _ w w' _ Hx). unfold mret, cmd_ret. f_equal. f_equal.
  destruct names as [|n names]; [reflexivity|]. rewrite TrimSpace_tidy by by apply names_tidy.
  apply Split_Join; [done|]. eapply Forall_impl; [exact Hn|]. intros s [_ Hg].
  eapply all_chars_impl; [|exact Hg]. intros d Hd. unfold other_than.
  by destruct (Ascii.eqb_spec "010" d) as [<-|].
Qed.

Lemma ListPorts_names_witness :
  ListPorts (rec_client []) "br0" (mkRecorder [] [(Some ("eth0" +:+ sing "010" +:+ "eth1" +:+ sing "010"), None)])
  = (mkRecorder [mkCall "ovs-vsctl" ["list-ports"; "br0"] None] [], Ok ["eth0"; "eth1"]).
Proof.
  rewrite (ListPorts_names (rec_client []) "br0" _ (mkRecorder [mkCall "ovs-vsctl" ["list-ports"; "br0"] None] [])
    ["eth0"; "eth1"]); [reflexivity|vm_compute; reflexivity|].
  repeat constructor; done.
Defined.

Example list_ports_empty :
  snd (ListPorts (rec_client []) "br0" (mkRecorder [] [(Some "", None)])) = Ok [""].
Proof. reflexivity. Qed.

(** ** The protocols of a bridge *)

(** When the command prints a JSON array of strings, [Get.Bridge] returns exactly
    these protocols, whatever characters they are made of; output that is not JSON,
    or whose elements are not strings, is an error. *)
Theorem Get_Bridge_protocols {W} (c : Client W) bridge w w' out :
  v_exec c ["--format=json"; "get"; "bridge"; bridge; "protocols"] w = (w', Ok out) ->
  (forall ps, json_ok (JArr (map JStr ps)) = true -> out = Marshal (JArr (map JStr ps)) ->
     Get_Bridge c bridge w = (w', Ok (mkBridgeOptions ps))) /\
  (parse out = None -> Get_Bridge c bridge w = (w', Err errSyntax)) /\
  (forall l, json_ok (JArr l) = true -> out = Marshal (JArr l) ->
     Forall (fun j => kind j <> "string" /\ kind j <> "null") l -> l <> [] ->
     exists e, Get_Bridge c bridge w = (w', Err e)).
Proof.
  intros Hx. unfold Get_Bridge. rewrite (cmd_bind_Ok _ _ w w' _ Hx). unfold Unmarshal. split; [|split].
  - intros ps Hok ->. rewrite parse_Marshal by done. unfold dec_strings, dec_slice. by rewrite dec_elems_strings.
  - by intros ->.
  - intros l Hok -> Hl Hne. rewrite parse_Marshal by done. destruct l as [|j l]; [done|].
    apply Forall_inv in Hl as [H1 H2]. unfold dec_strings, dec_slice. cbn [dec_elems].
    destruct (dec_elems "" dec_string l _) as [xs es]. by destruct j; try done; eexists.
Qed.

Lemma Get_Bridge_protocols_witness :
  Get_Bridge (rec_client []) "br0"
    (mkRecorder [] [(Some (Marshal (JArr (map JStr ["OpenFlow10"; "OpenFlow13"])) +:+ sing "010"), None)])
  = (mkRecorder [mkCall "ovs-vsctl" ["--format=json"; "get"; "bridge"; "br0"; "protocols"] None] [],
     Ok (mkBridgeOptions ["OpenFlow10"; "OpenFlow13"])).
Proof.
  refine (proj1 (Get_Bridge_protocols (rec_client []) "br0" _
    (mkRecorder [mkCall "ovs-vsctl" ["--format=json"; "get"; "bridge"; "br0"; "protocols"] None] [])
    (Marshal (JArr (map JStr ["OpenFlow10"; "OpenFlow13"]))) _) ["OpenFlow10"; "OpenFlow13"] _ _);
  vm_compute; reflexivity.
Defined.

(** ** A port that does not exist *)

(** The error of a failed [PortToBridge] wraps the command's error and trimmed
    output, and [IsPortNotExist] holds of it exactly when the output begins as
    [ovs-vsctl] reports a missing port and the process ended with status 1. *)
Theorem PortToBridge_not_exist {W} (c : Client W) (Error : error -> string) port w w' out e :
  (let (cmd, args) := command_line c "ovs-vsctl" ["port-to-br"; port] in execFunc c cmd args w) = (w', (Some out, Some e)) ->
  exists e', PortToBridge c port w = (w', Err e') /\
    (IsPortNotExist Error e' = true <->
     HasPrefix (TrimSpace out) "ovs-vsctl: no port named " = true /\ Error e = "exit status 1").
Proof.
  intros Hx. exists (OvsError (Some (TrimSpace out)) e). split.
  - unfold PortToBridge, v_exec, exec. destruct (command_line _ _ _) as [cmd args]. rewrite Hx. done.
  - cbn. rewrite andb_true_iff. by rewrite String.eqb_eq.
Qed.

Lemma PortToBridge_not_exist_witness :
  let Error e := match e with ErrorString s => s | _ => "" end in
  exists e', PortToBridge (rec_client []) "eth9" (mkRecorder []
      [(Some "ovs-vsctl: no port named eth9", Some (ErrorString "exit status 1"))])
    = (mkRecorder [mkCall "ovs-vsctl" ["port-to-br"; "eth9"] None] [], Err e') /\ IsPortNotExist Error e' = true.
Proof.
  intros Error.
  destruct (PortToBridge_not_exist (rec_client []) Error "eth9" (mkRecorder []
      [(Some "ovs-vsctl: no port named eth9", Some (ErrorString "exit status 1"))])
      (mkRecorder [mkCall "ovs-vsctl" ["port-to-br"; "eth9"] None] [])
      "ovs-vsctl: no port named eth9" (ErrorString "exit status 1")) as (e' & Hp & He).
  - reflexivity.
  - exists e'. split; [exact Hp|]. apply He. split; reflexivity.
Defined.
