(* ===== verification/Sharing.v ===== *)
(** * One client, several callers

    [Client.exec], [Client.pipe], [dumpPorts] and [dumpAggregate] build their
    arguments with [append(shared, args...)], where [shared] is a slice of the
    client ([c.flags] or [o.c.ofctlFlags]).  When that slice has spare capacity the
    append writes into its backing array, which every caller shares.  This file
    models the backing array, the callers' steps and their interleavings. *)

From stdpp Require Import relations.
From S2P Require Import Prelude GoStrings Client.

Section sharing.
Context (shared : list string) (capacity : nat).

(** Where one caller is in [append(shared, args...)] and the use of its result. *)
Inductive stage :=
| Start
| Writing (k : nat)          (** [k] arguments are in the shared array *)
| Fresh                      (** the append allocated an array of its own *)
| Reading (acc : list string) (** the elements of the result read so far *)
| Done (result : list string).

Record caller := mkCaller { args : list string; at_stage : stage }.

(** The backing array, [capacity] cells, and the callers. *)
Record store := mkStore { cells : list string; callers : list caller }.

Definition fits (a : list string) : bool := (length shared + length a <=? capacity)%nat.

(** One step of a caller on the array. *)
Definition caller_step (mem : list string) (t : caller) : list string * caller :=
  let goes s := mkCaller (args t) s in
  match at_stage t with
  | Start => (mem, goes (if fits (args t) then Writing 0 else Fresh))
  | Writing k =>
      match args t !! k with
      | Some a => (<[(length shared + k)%nat := a]> mem, goes (Writing (S k)))
      | None => (mem, goes (Reading []))
      end
  | Fresh => (mem, goes (Done (take (length shared) mem ++ args t)))
  | Reading acc =>
      if (length acc <? length shared + length (args t))%nat then
        match mem !! length acc with
        | Some a => (mem, goes (Reading (acc ++ [a])))
        | None => (mem, t)
        end
      else (mem, goes (Done acc))
  | Done _ => (mem, t)
  end.

Inductive step : store -> store -> Prop :=
| step_caller i t mem cs mem' t' :
    cs !! i = Some t -> caller_step mem t = (mem', t') ->
    step (mkStore mem cs) (mkStore mem' (<[i := t']> cs)).

(** The array holds the shared slice and whatever its spare cells hold. *)
Inductive start_state : store -> Prop :=
| start_with mem cs :
    length mem = capacity -> take (length shared) mem = shared -> (length shared <= capacity)%nat ->
    Forall (fun t => at_stage t = Start) cs -> start_state (mkStore mem cs).

(** The schedule as a list of caller numbers, to run examples. *)
Definition run_one (s : store) (i : nat) : store :=
  match callers s !! i with
  | Some t => let (mem', t') := caller_step (cells s) t in mkStore mem' (<[i := t']> (callers s))
  | None => s
  end.
Definition run_schedule (s : store) (l : list nat) : store := fold_left run_one l s.

Lemma run_schedule_rtc s l : rtc step s (run_schedule s l).
Proof.
  revert s. induction l as [|i l IH]; intros s; [constructor|]. cbn. fold (run_schedule (run_one s i) l).
  unfold run_one. destruct s as [mem cs]. cbn. destruct (cs !! i) as [t|] eqn:Ht; [|apply IH].
  destruct (caller_step mem t) as [mem' t'] eqn:Hs. eapply rtc_l; [by econstructor|apply IH].
Qed.

(** ** Invariants *)

(** The cells of the shared slice are never written. *)
Definition mem_ok (mem : list string) : Prop :=
  length mem = capacity /\ take (length shared) mem = shared.

(** What holds of any caller: what it has read begins with the shared slice. *)
Definition stage_ok (t : caller) : Prop :=
  match at_stage t with
  | Writing k => fits (args t) = true /\ (k <= length (args t))%nat
  | Reading acc => fits (args t) = true /\ (length acc <= length shared + length (args t))%nat /\
                   take (length shared) acc = take (length acc) shared
  | Done r => length r = (length shared + length (args t))%nat /\ take (length shared) r = shared
  | _ => True
  end.

Lemma take_insert_after (mem : list string) k a :
  take (length shared) (<[(length shared + k)%nat := a]> mem) = take (length shared) mem.
Proof. apply take_insert_ge. lia. Qed.

Lemma caller_step_ok mem t mem' t' :
  mem_ok mem -> (length shared <= capacity)%nat -> stage_ok t -> caller_step mem t = (mem', t') ->
  mem_ok mem' /\ stage_ok t' /\ args t' = args t.
Proof.
  intros Hm Hc Hs H. pose proof Hm as [Hl Ht]. destruct t as [a s]. unfold caller_step in H. unfold stage_ok in Hs.
  cbn [args at_stage] in *.
  destruct s as [|k| |acc|r].
  - injection H as <- <-. split_and!; [done| |done]. unfold stage_ok. cbn.
    destruct (fits a) eqn:Hf; [|done]. split; [done|lia].
  - destruct Hs as [Hf Hk]. destruct (a !! k) as [x|] eqn:Hx; injection H as <- <-.
    + split_and!; [split; [by rewrite length_insert|by rewrite take_insert_after]| |done].
      cbn. apply lookup_lt_Some in Hx. split; [done|cbn; lia].
    + split_and!; [done| |done]. cbn. split_and!; [done|lia|by rewrite firstn_nil].
  - injection H as <- <-. split_and!; [done| |done]. cbn. rewrite Ht. rewrite length_app. split; [done|].
    by rewrite take_app_length.
  - destruct Hs as (Hf & Hlen & Hp).
    destruct (Nat.ltb_spec (length acc) (length shared + length a)) as [Hlt|Hge].
    + destruct (mem !! length acc) as [x|] eqn:Hx; injection H as <- <-; [|by split_and!].
      split_and!; [done| |done]. cbn. rewrite length_app. cbn. split_and!; [done|lia|].
      destruct (decide (length acc < length shared)%nat) as [Hin|Hout].
      * rewrite take_ge in Hp by lia. rewrite take_ge by (rewrite length_app; cbn; lia).
        assert (Hsx : shared !! length acc = Some x) by (rewrite <- Ht, lookup_take_lt by lia; done).
        replace (length acc + 1)%nat with (S (length acc)) by lia. rewrite (take_S_r _ _ x Hsx). by rewrite Hp at 1.
      * rewrite take_app_le by lia. rewrite Hp. rewrite !take_ge by lia. done.
    + injection H as <- <-. split_and!; [done| |done]. cbn. split; [lia|].
      rewrite Hp. apply take_ge. lia.
  - injection H as <- <-. by split_and!.
Qed.

(** *** Every state: what a caller has read begins with the shared slice *)

Definition state_ok (s : store) : Prop := mem_ok (cells s) /\ Forall stage_ok (callers s).

Lemma step_ok s s' :
  (length shared <= capacity)%nat -> step s s' -> state_ok s ->
  state_ok s' /\ args <$> callers s' = args <$> callers s.
Proof.
  intros Hc [i t mem cs mem' t' Hi Hs] [Hm Hall]. cbn in *.
  pose proof (Forall_lookup_1 _ _ _ _ Hall Hi) as Ht.
  destruct (caller_step_ok mem t mem' t' Hm Hc Ht Hs) as (Hm' & Ht' & Ha). split.
  - split; [done|]. cbn. by apply Forall_insert.
  - rewrite list_fmap_insert, Ha. apply list_insert_id. by rewrite list_lookup_fmap, Hi.
Qed.

Lemma rtc_ok s s' :
  (length shared <= capacity)%nat -> rtc step s s' -> state_ok s ->
  state_ok s' /\ args <$> callers s' = args <$> callers s.
Proof.
  intros Hc. induction 1 as [s|s u v Hsu _ IH]; [done|]. intros Hs.
  destruct (step_ok s u Hc Hsu Hs) as [Hu Ha]. destruct (IH Hu) as [Hv Hb]. split; [done|]. by rewrite Hb.
Qed.

Lemma start_ok s : start_state s -> state_ok s /\ (length shared <= capacity)%nat.
Proof.
  intros [mem cs Hl Ht Hc Hs]. split; [|done]. split; [done|]. cbn.
  eapply Forall_impl; [exact Hs|]. intros t Hst. unfold stage_ok. by rewrite Hst.
Qed.

(** *** One caller that writes in place *)

Definition own_ok (mem : list string) (t : caller) : Prop :=
  match at_stage t with
  | Writing k => take (length shared + k) mem = shared ++ take k (args t)
  | Reading acc => take (length shared + length (args t)) mem = shared ++ args t /\
                   acc = take (length acc) (shared ++ args t)
  | Done r => r = shared ++ args t
  | _ => True
  end.

Lemma caller_step_own mem t mem' t' :
  mem_ok mem -> stage_ok t -> own_ok mem t -> caller_step mem t = (mem', t') -> own_ok mem' t'.
Proof.
  intros [Hl Ht] Hs Ho H. destruct t as [a s]. unfold caller_step in H. unfold stage_ok, own_ok in Hs, Ho.
  cbn [args at_stage] in *. destruct s as [|k| |acc|r].
  - injection H as <- <-. unfold own_ok. cbn. destruct (fits a); [|done].
    by rewrite Nat.add_0_r, take_0, app_nil_r.
  - destruct Hs as [Hf Hk]. unfold fits in Hf. apply Nat.leb_le in Hf.
    destruct (a !! k) as [x|] eqn:Hx; injection H as <- <-; unfold own_ok; cbn [args at_stage].
    + pose proof (lookup_lt_Some _ _ _ Hx) as Hlt. rewrite Nat.add_succ_r.
      rewrite (take_S_r _ _ x) by (apply list_lookup_insert_eq; lia).
      rewrite take_insert_ge, Ho by lia. rewrite (take_S_r a k x Hx). by rewrite app_assoc.
    + apply lookup_ge_None in Hx. assert (k = length a) as -> by lia.
      rewrite Ho, take_ge by lia. by split.
  - injection H as <- <-. unfold own_ok. cbn. by rewrite Ht.
  - destruct Ho as [Hm Ha]. destruct Hs as (_ & Hlen & _). destruct (Nat.ltb_spec (length acc) (length shared + length a)) as [Hlt|Hge].
    + destruct (mem !! length acc) as [x|] eqn:Hx; injection H as <- <-; unfold own_ok; cbn [args at_stage]; [|done].
      split; [done|]. rewrite length_app. cbn [length]. rewrite Nat.add_1_r.
      assert (Hsx : (shared ++ a) !! length acc = Some x) by (rewrite <- Hm, lookup_take_lt by lia; done).
      by rewrite (take_S_r _ _ x Hsx), <- Ha.
    + injection H as <- <-. unfold own_ok. cbn. rewrite Ha. apply take_ge. rewrite length_app. lia.
  - injection H as <- <-. done.
Qed.

(** A caller whose arguments do not fit leaves the array alone. *)
Lemma caller_step_apart mem t mem' t' :
  stage_ok t -> fits (args t) = false -> caller_step mem t = (mem', t') -> mem' = mem.
Proof.
  intros Hs Hf H. destruct t as [a [|k| |acc|r]]; unfold caller_step in H; cbn [args at_stage] in *;
    try (injection H as <- _; done).
  - destruct Hs as [Hf' _]. cbn in Hf'. congruence.
  - destruct Hs as [Hf' _]. cbn in Hf'. congruence.
Qed.

Definition alone (i : nat) (s : store) : Prop :=
  forall j t, j <> i -> callers s !! j = Some t -> fits (args t) = false.

Lemma step_own i s s' :
  step s s' -> state_ok s -> alone i s ->
  (forall t, callers s !! i = Some t -> own_ok (cells s) t) ->
  forall t, callers s' !! i = Some t -> own_ok (cells s') t.
Proof.
  intros [j u mem cs mem' u' Hj Hs] [Hm Hall] Hal Hown t Ht. cbn in *.
  pose proof (Forall_lookup_1 _ _ _ _ Hall Hj) as Hu.
  destruct (decide (j = i)) as [->|Hne].
  - rewrite list_lookup_insert_eq in Ht by (by eapply lookup_lt_Some). injection Ht as <-.
    eapply caller_step_own; eauto.
  - rewrite list_lookup_insert_ne in Ht by done.
    rewrite (caller_step_apart mem u mem' u' Hu (Hal j u Hne Hj) Hs). by apply Hown.
Qed.

Lemma alone_args i s s' : args <$> callers s' = args <$> callers s -> alone i s -> alone i s'.
Proof.
  intros Ha Hal j t Hne Hj. assert (H : (args <$> callers s) !! j = Some (args t))
    by (by rewrite <- Ha, list_lookup_fmap, Hj).
  rewrite list_lookup_fmap in H. destruct (callers s !! j) as [u|] eqn:Hu; [|done].
  injection H as <-. by eapply Hal.
Qed.

Lemma rtc_own i s s' :
  (length shared <= capacity)%nat -> rtc step s s' -> state_ok s -> alone i s ->
  (forall t, callers s !! i = Some t -> own_ok (cells s) t) ->
  forall t, callers s' !! i = Some t -> own_ok (cells s') t.
Proof.
  intros Hc. induction 1 as [s|s u v Hsu _ IH]; [done|]. intros Hs Hal Hown.
  destruct (step_ok s u Hc Hsu Hs) as [Hu Ha]. apply IH; [done|by eapply alone_args|].
  by eapply step_own.
Qed.

Lemma start_own i s : start_state s -> forall t, callers s !! i = Some t -> own_ok (cells s) t.
Proof.
  intros [mem cs _ _ _ Hs] t Ht. apply (Forall_lookup_1 _ _ _ _ Hs) in Ht. unfold own_ok. by rewrite Ht.
Qed.

(** *** Callers finish *)

(** Steps a caller still needs, at most. *)
Definition steps_left (t : caller) : nat :=
  match at_stage t with
  | Start => length shared + 2 * length (args t) + 4
  | Writing k => length shared + 2 * length (args t) - k + 3
  | Reading acc => length shared + length (args t) - length acc + 1
  | Fresh => 1
  | Done _ => 0
  end.

Lemma caller_step_left mem t mem' t' :
  mem_ok mem -> stage_ok t -> caller_step mem t = (mem', t') ->
  (steps_left t' <= steps_left t - 1)%nat.
Proof.
  intros [Hl _] Hs H. destruct t as [a s]. unfold caller_step in H. unfold stage_ok in Hs.
  cbn [args at_stage] in *. destruct s as [|k| |acc|r].
  - injection H as _ <-. unfold steps_left. cbn [args at_stage]. destruct (fits a); lia.
  - destruct Hs as [_ Hk]. destruct (a !! k) as [x|] eqn:Hx; injection H as _ <-; unfold steps_left;
      cbn [args at_stage length]; [apply lookup_lt_Some in Hx|]; lia.
  - injection H as _ <-. unfold steps_left. cbn [args at_stage]. lia.
  - destruct Hs as (Hf & Hlen & _). unfold fits in Hf. apply Nat.leb_le in Hf.
    destruct (Nat.ltb_spec (length acc) (length shared + length a)) as [Hlt|Hge].
    + destruct (lookup_lt_is_Some_2 mem (length acc)) as [x Hx]; [lia|]. rewrite Hx in H.
      injection H as _ <-. unfold steps_left. cbn [args at_stage]. rewrite length_app. cbn [length]. lia.
    + injection H as _ <-. unfold steps_left. cbn [args at_stage]. lia.
  - injection H as _ <-. unfold steps_left. cbn [args at_stage]. lia.
Qed.

Lemma run_one_ok s j : (length shared <= capacity)%nat -> state_ok s -> state_ok (run_one s j).
Proof.
  intros Hc Hs. destruct (rtc_ok s (run_one s j) Hc (run_schedule_rtc s [j]) Hs) as [H _]. exact H.
Qed.

(** Turns of [i] in a schedule. *)
Definition turns (i : nat) (l : list nat) : nat := length (filter (fun j => j = i) l).

Lemma run_schedule_left i s l t :
  (length shared <= capacity)%nat -> state_ok s -> callers s !! i = Some t ->
  exists t', callers (run_schedule s l) !! i = Some t' /\ (steps_left t' <= steps_left t - turns i l)%nat.
Proof.
  intros Hc. revert s t. induction l as [|j l IH]; intros s t Hs Ht.
  - exists t. split; [done|]. cbn. lia.
  - change (run_schedule s (j :: l)) with (run_schedule (run_one s j) l).
    pose proof (run_one_ok s j Hc Hs) as Hs'. unfold turns. rewrite filter_cons.
    assert (Hex : exists u, callers (run_one s j) !! i = Some u /\
      (steps_left u <= steps_left t - if decide (j = i) then 1 else 0)%nat).
    { unfold run_one in *. destruct s as [mem cs]. cbn in *. destruct (cs !! j) as [u|] eqn:Hj.
      - destruct (caller_step mem u) as [mem' u'] eqn:Hu. cbn. destruct Hs as [Hm Hall]. cbn in *.
        destruct (decide (j = i)) as [->|Hne].
        + rewrite Ht in Hj. injection Hj as <-. exists u'. split.
          * apply list_lookup_insert_eq. by eapply lookup_lt_Some.
          * eapply caller_step_left; [exact Hm| |exact Hu]. by eapply Forall_lookup_1.
        + exists t. rewrite list_lookup_insert_ne by done. split; [done|lia].
      - exists t. split; [done|]. destruct (decide (j = i)) as [->|]; [congruence|lia]. }
    destruct Hex as (u & Hu & Hle). destruct (IH (run_one s j) u Hs' Hu) as (t' & Ht' & Hle').
    exists t'. split; [done|]. unfold turns in Hle'. destruct (decide (j = i)); cbn [length]; lia.
Qed.

Lemma steps_left_done t : steps_left t = O -> exists r, at_stage t = Done r.
Proof. unfold steps_left. destruct (at_stage t); intros; try lia. by eexists. Qed.
End sharing.

(** C31: callers that use one client at the same time cannot disturb its recurring
    flags: however their steps interleave, every command line is [sudo] and the
    program as configured, the flags of the client, then as many arguments as the
    caller gave; and they are the caller's own arguments when no other caller's fit
    in the spare capacity of the slice, in particular when it has none. *)
Theorem exec_isolated {W} (c : Client W) capacity cmd s s' i t r :
  start_state (flags c) capacity s -> rtc (step (flags c) capacity) s s' ->
  callers s' !! i = Some t -> at_stage t = Done r ->
  (exists given, length given = length (args t) /\ with_sudo c cmd r = command_line c cmd given) /\
  (alone (flags c) capacity i s -> with_sudo c cmd r = command_line c cmd (args t)).
Proof.
  intros Hst Hr Ht Hd. destruct (start_ok _ _ _ Hst) as [Hs Hc]. split.
  - destruct (rtc_ok _ _ s s' Hc Hr Hs) as [[_ Hall] _].
    apply (Forall_lookup_1 _ _ _ _ Hall) in Ht. unfold stage_ok in Ht. rewrite Hd in Ht.
    destruct Ht as [Hl Hp]. exists (drop (length (flags c)) r). split; [rewrite length_drop; lia|].
    unfold command_line. f_equal. by rewrite <- (take_drop (length (flags c)) r) at 1; rewrite Hp.
  - intros Hal. pose proof (rtc_own _ _ i s s' Hc Hr Hs Hal (start_own _ _ i s Hst) t Ht) as Ho.
    unfold own_ok in Ho. rewrite Hd in Ho. by subst r.
Qed.

(** a caller that gets enough turns finishes, whatever the others do: with [n]
    shared elements and [k] arguments, [n + 2k + 4] turns are enough. *)
Theorem exec_finishes {W} (c : Client W) capacity s i t l :
  start_state (flags c) capacity s -> callers s !! i = Some t ->
  (length (flags c) + 2 * length (args t) + 4 <= turns i l)%nat ->
  exists t' r, callers (run_schedule (flags c) capacity s l) !! i = Some t' /\ at_stage t' = Done r.
Proof.
  intros Hst Ht Hl. destruct (start_ok _ _ _ Hst) as [Hs Hc].
  destruct (run_schedule_left _ _ i s l t Hc Hs Ht) as (t' & Ht' & Hle).
  destruct Hst as [mem cs _ _ _ Hall]. apply (Forall_lookup_1 _ _ _ _ Hall) in Ht as Hstart.
  unfold steps_left at 2 in Hle. rewrite Hstart in Hle.
  destruct (steps_left_done (flags c) t') as [r Hr]; [lia|]. by exists t', r.
Qed.

(** *** Instances *)

Definition one_flag : Client recorder := rec_client [Timeout 5].
Definition two_callers (mem : list string) : store :=
  mkStore mem [mkCaller ["list-br"] Start; mkCaller ["del-br"; "br0"] Start].

Lemma one_flag_start : start_state (flags one_flag) 1 (two_callers ["--timeout=5"]).
Proof. constructor; [reflexivity|reflexivity|vm_compute; lia|repeat constructor]. Qed.

Lemma exec_isolated_witness :
  with_sudo one_flag "ovs-vsctl" ["--timeout=5"; "del-br"; "br0"] = command_line one_flag "ovs-vsctl" ["del-br"; "br0"].
Proof.
  destruct (exec_isolated one_flag 1 "ovs-vsctl" (two_callers ["--timeout=5"])
    (run_schedule (flags one_flag) 1 (two_callers ["--timeout=5"]) [0; 1; 0; 1]%nat) 1
    (mkCaller ["del-br"; "br0"] (Done ["--timeout=5"; "del-br"; "br0"])) ["--timeout=5"; "del-br"; "br0"]) as [_ H].
  - exact one_flag_start.
  - apply run_schedule_rtc.
  - vm_compute. reflexivity.
  - reflexivity.
  - apply H. intros j t Hj Ht. destruct j as [|[|j]]; [|done|done]. by injection Ht as <-.
Defined.

Lemma exec_finishes_witness :
  exists t' r, callers (run_schedule (flags one_flag) 1 (two_callers ["--timeout=5"]) (repeat 1 9)%nat) !! 1%nat = Some t'
    /\ at_stage t' = Done r.
Proof.
  apply (exec_finishes one_flag 1 (two_callers ["--timeout=5"]) 1 (mkCaller ["del-br"; "br0"] Start)).
  - exact one_flag_start.
  - reflexivity.
  - vm_compute. lia.
Defined.

(** With spare capacity the callers disturb each other: the first runs the second's
    command. *)
Example exec_shared :
  callers (run_schedule ["--timeout=1"; "--timeout=2"; "--timeout=3"] 4
    (mkStore ["--timeout=1"; "--timeout=2"; "--timeout=3"; ""]
       [mkCaller ["list-br"] Start; mkCaller ["show"] Start])
    [0; 1; 0; 1; 0; 0; 0; 0; 0; 0; 0]%nat) !! 0%nat
  = Some (mkCaller ["list-br"] (Done ["--timeout=1"; "--timeout=2"; "--timeout=3"; "show"])).
Proof. vm_compute. reflexivity. Qed.
