(* ===== verification/Kernel.v ===== *)
(** * The kernel's constants

    Models [ovsnl/internal/ovsh/const.go]: the names and versions of the generic
    netlink families, the flags, and the enumerations of commands and attributes.  Each
    block of constants is an inductive type whose values are numbered by a coercion;
    the class [Enumeration] states that the numbers are those from zero on, each once,
    which the C compiler gives to an [enum]. *)

From stdpp Require Import finite.
From S2P Require Import Prelude GoStrings.

(** ** Enumerations *)

Class Enumeration (A : Type) := {
  number : A -> Z;
  elements : list A;
  elements_number : map number elements = seqZ 0 (Z.of_nat (length elements));
  elements_all (a : A) : a ∈ elements
}.

(** An enumeration whose last constant, which is no value of it, counts the others. *)
Class Limited (A : Type) `{Enumeration A} := {
  limit : Z;
  limit_card : limit = Z.of_nat (length elements)
}.

Section enumeration.
Context {A : Type} `{Enumeration A}.

(** The value with a number. *)
Definition of_number (z : Z) : option A := if z <? 0 then None else elements !! Z.to_nat z.

Lemma number_lookup i a : elements !! i = Some a -> number a = Z.of_nat i.
Proof.
  intros Hi. assert (Hm : map number elements !! i = Some (number a)) by (by rewrite list_lookup_fmap, Hi).
  rewrite elements_number, lookup_seqZ in Hm. lia.
Qed.

Lemma of_number_number a : of_number (number a) = Some a.
Proof.
  destruct (list_elem_of_lookup_1 _ _ (elements_all a)) as [i Hi]. unfold of_number.
  rewrite (number_lookup i a Hi), Nat2Z.id. by destruct (Z.ltb_spec (Z.of_nat i) 0); [lia|].
Qed.

Lemma number_of_number z a : of_number z = Some a -> number a = z.
Proof.
  unfold of_number. destruct (Z.ltb_spec z 0); [done|]. intros Hi%number_lookup. lia.
Qed.

#[export] Instance number_inj : Inj (=) (=) number.
Proof. intros a b Hab. pose proof (of_number_number a) as Ha. rewrite Hab, of_number_number in Ha. by injection Ha. Qed.

#[export] Instance enumeration_eq_dec : EqDecision A.
Proof. refine (fun a b => cast_if (decide (number a = number b))); [by apply number_inj|congruence]. Defined.

#[export] Program Instance enumeration_finite : Finite A := {| enum := elements |}.
Next Obligation. apply (NoDup_fmap_1 number). change (number <$> elements) with (map number elements).
  rewrite elements_number. apply NoDup_seqZ. Qed.
Next Obligation. apply elements_all. Qed.

Lemma of_number_range z : is_Some (of_number z) <-> 0 <= z < Z.of_nat (length elements).
Proof.
  unfold of_number. destruct (Z.ltb_spec z 0) as [Hz|Hz].
  - split; [by intros []|lia].
  - rewrite lookup_lt_is_Some. lia.
Qed.
End enumeration.

(** Gives the numbers and the values in their order. *)
Ltac enumeration f l :=
  refine {| number := f; elements := l |}; [reflexivity|intros []; repeat constructor].

(** ** Families, versions and flags *)

Definition DatapathFamily := "ovs_datapath".
Definition DatapathMcgroup := "ovs_datapath".
Definition DatapathVersion : Z := 2.
Definition DpVerFeatures : Z := 2.
Definition DpFUnaligned : Z := Z.shiftl 1 0.
Definition DpFVportPids : Z := Z.shiftl 1 1.
Definition PacketFamily := "ovs_packet".
Definition PacketVersion : Z := 1.
Definition VportFamily := "ovs_vport".
Definition VportMcgroup := "ovs_vport".
Definition VportVersion : Z := 1.
Definition FlowFamily := "ovs_flow".
Definition FlowMcgroup := "ovs_flow".
Definition FlowVersion : Z := 1.
Definition CtLabelsLen32 : Z := 4.

(** The states of connection tracking. *)
Definition CsFNew : Z := 0x01.
Definition CsFEstablished : Z := 0x02.
Definition CsFRelated : Z := 0x04.
Definition CsFReplyDir : Z := 0x08.
Definition CsFInvalid : Z := 0x10.
Definition CsFTracked : Z := 0x20.
Definition CsFSrcNat : Z := 0x40.
Definition CsFDstNat : Z := 0x80.
Definition CsFNatMask : Z := Z.lor CsFSrcNat CsFDstNat.

(** What a unique flow identifier leaves out. *)
Definition UfidFOmitKey : Z := Z.shiftl 1 0.
Definition UfidFOmitMask : Z := Z.shiftl 1 1.
Definition UfidFOmitActions : Z := Z.shiftl 1 2.

(** ** The enumerations *)

Inductive ovsDatapathCmd := DpCmdUnspec | DpCmdNew | DpCmdDel | DpCmdGet | DpCmdSet.
Definition ovsDatapathCmd_code (a : ovsDatapathCmd) : Z :=
  match a with DpCmdUnspec => 0 | DpCmdNew => 1 | DpCmdDel => 2 | DpCmdGet => 3 | DpCmdSet => 4 end.
Coercion ovsDatapathCmd_code : ovsDatapathCmd >-> Z.
#[export] Instance ovsDatapathCmd_enumeration : Enumeration ovsDatapathCmd.
Proof. enumeration ovsDatapathCmd_code [DpCmdUnspec; DpCmdNew; DpCmdDel; DpCmdGet; DpCmdSet]. Defined.

Inductive ovsDatapathAttr := DpAttrUnspec | DpAttrName | DpAttrUpcallPid | DpAttrStats |
  DpAttrMegaflowStats | DpAttrUserFeatures | DpAttrPad.
Definition ovsDatapathAttr_code (a : ovsDatapathAttr) : Z :=
  match a with DpAttrUnspec => 0 | DpAttrName => 1 | DpAttrUpcallPid => 2 | DpAttrStats => 3 |
    DpAttrMegaflowStats => 4 | DpAttrUserFeatures => 5 | DpAttrPad => 6 end.
Coercion ovsDatapathAttr_code : ovsDatapathAttr >-> Z.
Definition __DpAttrMax : Z := 7.
Definition DpAttrMax : Z := __DpAttrMax - 1.
#[export] Instance ovsDatapathAttr_enumeration : Enumeration ovsDatapathAttr.
Proof. enumeration ovsDatapathAttr_code [DpAttrUnspec; DpAttrName; DpAttrUpcallPid; DpAttrStats;
  DpAttrMegaflowStats; DpAttrUserFeatures; DpAttrPad]. Defined.
#[export] Instance ovsDatapathAttr_limited : Limited ovsDatapathAttr := {| limit := __DpAttrMax; limit_card := eq_refl |}.

Inductive ovsPacketCmd := PacketCmdUnspec | PacketCmdMiss | PacketCmdAction | PacketCmdExecute.
Definition ovsPacketCmd_code (a : ovsPacketCmd) : Z :=
  match a with PacketCmdUnspec => 0 | PacketCmdMiss => 1 | PacketCmdAction => 2 | PacketCmdExecute => 3 end.
Coercion ovsPacketCmd_code : ovsPacketCmd >-> Z.
#[export] Instance ovsPacketCmd_enumeration : Enumeration ovsPacketCmd.
Proof. enumeration ovsPacketCmd_code [PacketCmdUnspec; PacketCmdMiss; PacketCmdAction;
  PacketCmdExecute]. Defined.

Inductive ovsPacketAttr := PacketAttrUnspec | PacketAttrPacket | PacketAttrKey | PacketAttrActions |
  PacketAttrUserdata | PacketAttrEgressTunKey | PacketAttrUnused1 | PacketAttrUnused2 | PacketAttrProbe |
  PacketAttrMru | PacketAttrLen.
Definition ovsPacketAttr_code (a : ovsPacketAttr) : Z :=
  match a with PacketAttrUnspec => 0 | PacketAttrPacket => 1 | PacketAttrKey => 2 |
    PacketAttrActions => 3 | PacketAttrUserdata => 4 | PacketAttrEgressTunKey => 5 |
    PacketAttrUnused1 => 6 | PacketAttrUnused2 => 7 | PacketAttrProbe => 8 | PacketAttrMru => 9 |
    PacketAttrLen => 10 end.
Coercion ovsPacketAttr_code : ovsPacketAttr >-> Z.
Definition __PacketAttrMax : Z := 11.
Definition PacketAttrMax : Z := __PacketAttrMax - 1.
#[export] Instance ovsPacketAttr_enumeration : Enumeration ovsPacketAttr.
Proof. enumeration ovsPacketAttr_code [PacketAttrUnspec; PacketAttrPacket; PacketAttrKey;
  PacketAttrActions; PacketAttrUserdata; PacketAttrEgressTunKey; PacketAttrUnused1; PacketAttrUnused2;
  PacketAttrProbe; PacketAttrMru; PacketAttrLen]. Defined.
#[export] Instance ovsPacketAttr_limited : Limited ovsPacketAttr := {| limit := __PacketAttrMax; limit_card := eq_refl |}.

Inductive ovsVportCmd := VportCmdUnspec | VportCmdNew | VportCmdDel | VportCmdGet | VportCmdSet.
Definition ovsVportCmd_code (a : ovsVportCmd) : Z :=
  match a with VportCmdUnspec => 0 | VportCmdNew => 1 | VportCmdDel => 2 | VportCmdGet => 3 |
    VportCmdSet => 4 end.
Coercion ovsVportCmd_code : ovsVportCmd >-> Z.
#[export] Instance ovsVportCmd_enumeration : Enumeration ovsVportCmd.
Proof. enumeration ovsVportCmd_code [VportCmdUnspec; VportCmdNew; VportCmdDel; VportCmdGet;
  VportCmdSet]. Defined.

Inductive ovsVportType := VportTypeUnspec | VportTypeNetdev | VportTypeInternal | VportTypeGre |
  VportTypeVxlan | VportTypeGeneve.
Definition ovsVportType_code (a : ovsVportType) : Z :=
  match a with VportTypeUnspec => 0 | VportTypeNetdev => 1 | VportTypeInternal => 2 | VportTypeGre => 3 |
    VportTypeVxlan => 4 | VportTypeGeneve => 5 end.
Coercion ovsVportType_code : ovsVportType >-> Z.
Definition __VportTypeMax : Z := 6.
Definition VportTypeMax : Z := __VportTypeMax - 1.
#[export] Instance ovsVportType_enumeration : Enumeration ovsVportType.
Proof. enumeration ovsVportType_code [VportTypeUnspec; VportTypeNetdev; VportTypeInternal; VportTypeGre;
  VportTypeVxlan; VportTypeGeneve]. Defined.
#[export] Instance ovsVportType_limited : Limited ovsVportType := {| limit := __VportTypeMax; limit_card := eq_refl |}.

Inductive ovsVportAttr := VportAttrUnspec | VportAttrPortNo | VportAttrType | VportAttrName |
  VportAttrOptions | VportAttrUpcallPid | VportAttrStats | VportAttrPad.
Definition ovsVportAttr_code (a : ovsVportAttr) : Z :=
  match a with VportAttrUnspec => 0 | VportAttrPortNo => 1 | VportAttrType => 2 | VportAttrName => 3 |
    VportAttrOptions => 4 | VportAttrUpcallPid => 5 | VportAttrStats => 6 | VportAttrPad => 7 end.
Coercion ovsVportAttr_code : ovsVportAttr >-> Z.
Definition __VportAttrMax : Z := 8.
Definition VportAttrMax : Z := __VportAttrMax - 1.
#[export] Instance ovsVportAttr_enumeration : Enumeration ovsVportAttr.
Proof. enumeration ovsVportAttr_code [VportAttrUnspec; VportAttrPortNo; VportAttrType; VportAttrName;
  VportAttrOptions; VportAttrUpcallPid; VportAttrStats; VportAttrPad]. Defined.
#[export] Instance ovsVportAttr_limited : Limited ovsVportAttr := {| limit := __VportAttrMax; limit_card := eq_refl |}.

Inductive ovsVxlanExt := VxlanExtUnspec | VxlanExtGbp.
Definition ovsVxlanExt_code (a : ovsVxlanExt) : Z :=
  match a with VxlanExtUnspec => 0 | VxlanExtGbp => 1 end.
Coercion ovsVxlanExt_code : ovsVxlanExt >-> Z.
Definition __VxlanExtMax : Z := 2.
Definition VxlanExtMax : Z := __VxlanExtMax - 1.
#[export] Instance ovsVxlanExt_enumeration : Enumeration ovsVxlanExt.
Proof. enumeration ovsVxlanExt_code [VxlanExtUnspec; VxlanExtGbp]. Defined.
#[export] Instance ovsVxlanExt_limited : Limited ovsVxlanExt := {| limit := __VxlanExtMax; limit_card := eq_refl |}.

Inductive ovsTunnelAttr := TunnelAttrUnspec | TunnelAttrDstPort | TunnelAttrExtension.
Definition ovsTunnelAttr_code (a : ovsTunnelAttr) : Z :=
  match a with TunnelAttrUnspec => 0 | TunnelAttrDstPort => 1 | TunnelAttrExtension => 2 end.
Coercion ovsTunnelAttr_code : ovsTunnelAttr >-> Z.
Definition __TunnelAttrMax : Z := 3.
Definition TunnelAttrMax : Z := __TunnelAttrMax - 1.
#[export] Instance ovsTunnelAttr_enumeration : Enumeration ovsTunnelAttr.
Proof. enumeration ovsTunnelAttr_code [TunnelAttrUnspec; TunnelAttrDstPort; TunnelAttrExtension]. Defined.
#[export] Instance ovsTunnelAttr_limited : Limited ovsTunnelAttr := {| limit := __TunnelAttrMax; limit_card := eq_refl |}.

Inductive ovsFlowCmd := FlowCmdUnspec | FlowCmdNew | FlowCmdDel | FlowCmdGet | FlowCmdSet.
Definition ovsFlowCmd_code (a : ovsFlowCmd) : Z :=
  match a with FlowCmdUnspec => 0 | FlowCmdNew => 1 | FlowCmdDel => 2 | FlowCmdGet => 3 |
    FlowCmdSet => 4 end.
Coercion ovsFlowCmd_code : ovsFlowCmd >-> Z.
#[export] Instance ovsFlowCmd_enumeration : Enumeration ovsFlowCmd.
Proof. enumeration ovsFlowCmd_code [FlowCmdUnspec; FlowCmdNew; FlowCmdDel; FlowCmdGet; FlowCmdSet]. Defined.

Inductive ovsKeyAttr := KeyAttrUnspec | KeyAttrEncap | KeyAttrPriority | KeyAttrInPort | KeyAttrEthernet |
  KeyAttrVlan | KeyAttrEthertype | KeyAttrIpv4 | KeyAttrIpv6 | KeyAttrTcp | KeyAttrUdp | KeyAttrIcmp |
  KeyAttrIcmpv6 | KeyAttrArp | KeyAttrNd | KeyAttrSkbMark | KeyAttrTunnel | KeyAttrSctp | KeyAttrTcpFlags |
  KeyAttrDpHash | KeyAttrRecircId | KeyAttrMpls | KeyAttrCtState | KeyAttrCtZone | KeyAttrCtMark |
  KeyAttrCtLabels | KeyAttrCtOrigTupleIpv4 | KeyAttrCtOrigTupleIpv6.
Definition ovsKeyAttr_code (a : ovsKeyAttr) : Z :=
  match a with KeyAttrUnspec => 0 | KeyAttrEncap => 1 | KeyAttrPriority => 2 | KeyAttrInPort => 3 |
    KeyAttrEthernet => 4 | KeyAttrVlan => 5 | KeyAttrEthertype => 6 | KeyAttrIpv4 => 7 | KeyAttrIpv6 => 8 |
    KeyAttrTcp => 9 | KeyAttrUdp => 10 | KeyAttrIcmp => 11 | KeyAttrIcmpv6 => 12 | KeyAttrArp => 13 |
    KeyAttrNd => 14 | KeyAttrSkbMark => 15 | KeyAttrTunnel => 16 | KeyAttrSctp => 17 |
    KeyAttrTcpFlags => 18 | KeyAttrDpHash => 19 | KeyAttrRecircId => 20 | KeyAttrMpls => 21 |
    KeyAttrCtState => 22 | KeyAttrCtZone => 23 | KeyAttrCtMark => 24 | KeyAttrCtLabels => 25 |
    KeyAttrCtOrigTupleIpv4 => 26 | KeyAttrCtOrigTupleIpv6 => 27 end.
Coercion ovsKeyAttr_code : ovsKeyAttr >-> Z.
Definition __KeyAttrMax : Z := 28.
Definition KeyAttrMax : Z := __KeyAttrMax - 1.
#[export] Instance ovsKeyAttr_enumeration : Enumeration ovsKeyAttr.
Proof. enumeration ovsKeyAttr_code [KeyAttrUnspec; KeyAttrEncap; KeyAttrPriority; KeyAttrInPort;
  KeyAttrEthernet; KeyAttrVlan; KeyAttrEthertype; KeyAttrIpv4; KeyAttrIpv6; KeyAttrTcp; KeyAttrUdp;
  KeyAttrIcmp; KeyAttrIcmpv6; KeyAttrArp; KeyAttrNd; KeyAttrSkbMark; KeyAttrTunnel; KeyAttrSctp;
  KeyAttrTcpFlags; KeyAttrDpHash; KeyAttrRecircId; KeyAttrMpls; KeyAttrCtState; KeyAttrCtZone;
  KeyAttrCtMark; KeyAttrCtLabels; KeyAttrCtOrigTupleIpv4; KeyAttrCtOrigTupleIpv6]. Defined.
#[export] Instance ovsKeyAttr_limited : Limited ovsKeyAttr := {| limit := __KeyAttrMax; limit_card := eq_refl |}.

Inductive ovsTunnelKeyAttr := TunnelKeyAttrId | TunnelKeyAttrIpv4Src | TunnelKeyAttrIpv4Dst |
  TunnelKeyAttrTos | TunnelKeyAttrTtl | TunnelKeyAttrDontFragment | TunnelKeyAttrCsum | TunnelKeyAttrOam |
  TunnelKeyAttrGeneveOpts | TunnelKeyAttrTpSrc | TunnelKeyAttrTpDst | TunnelKeyAttrVxlanOpts |
  TunnelKeyAttrIpv6Src | TunnelKeyAttrIpv6Dst | TunnelKeyAttrPad.
Definition ovsTunnelKeyAttr_code (a : ovsTunnelKeyAttr) : Z :=
  match a with TunnelKeyAttrId => 0 | TunnelKeyAttrIpv4Src => 1 | TunnelKeyAttrIpv4Dst => 2 |
    TunnelKeyAttrTos => 3 | TunnelKeyAttrTtl => 4 | TunnelKeyAttrDontFragment => 5 |
    TunnelKeyAttrCsum => 6 | TunnelKeyAttrOam => 7 | TunnelKeyAttrGeneveOpts => 8 |
    TunnelKeyAttrTpSrc => 9 | TunnelKeyAttrTpDst => 10 | TunnelKeyAttrVxlanOpts => 11 |
    TunnelKeyAttrIpv6Src => 12 | TunnelKeyAttrIpv6Dst => 13 | TunnelKeyAttrPad => 14 end.
Coercion ovsTunnelKeyAttr_code : ovsTunnelKeyAttr >-> Z.
Definition __TunnelKeyAttrMax : Z := 15.
Definition TunnelKeyAttrMax : Z := __TunnelKeyAttrMax - 1.
#[export] Instance ovsTunnelKeyAttr_enumeration : Enumeration ovsTunnelKeyAttr.
Proof. enumeration ovsTunnelKeyAttr_code [TunnelKeyAttrId; TunnelKeyAttrIpv4Src; TunnelKeyAttrIpv4Dst;
  TunnelKeyAttrTos; TunnelKeyAttrTtl; TunnelKeyAttrDontFragment; TunnelKeyAttrCsum; TunnelKeyAttrOam;
  TunnelKeyAttrGeneveOpts; TunnelKeyAttrTpSrc; TunnelKeyAttrTpDst; TunnelKeyAttrVxlanOpts;
  TunnelKeyAttrIpv6Src; TunnelKeyAttrIpv6Dst; TunnelKeyAttrPad]. Defined.
#[export] Instance ovsTunnelKeyAttr_limited : Limited ovsTunnelKeyAttr := {| limit := __TunnelKeyAttrMax; limit_card := eq_refl |}.

Inductive ovsFragType := FragTypeNone | FragTypeFirst | FragTypeLater.
Definition ovsFragType_code (a : ovsFragType) : Z :=
  match a with FragTypeNone => 0 | FragTypeFirst => 1 | FragTypeLater => 2 end.
Coercion ovsFragType_code : ovsFragType >-> Z.
Definition __FragTypeMax : Z := 3.
Definition FragTypeMax : Z := __FragTypeMax - 1.
#[export] Instance ovsFragType_enumeration : Enumeration ovsFragType.
Proof. enumeration ovsFragType_code [FragTypeNone; FragTypeFirst; FragTypeLater]. Defined.
#[export] Instance ovsFragType_limited : Limited ovsFragType := {| limit := __FragTypeMax; limit_card := eq_refl |}.

Inductive ovsFlowAttr := FlowAttrUnspec | FlowAttrKey | FlowAttrActions | FlowAttrStats |
  FlowAttrTcpFlags | FlowAttrUsed | FlowAttrClear | FlowAttrMask | FlowAttrProbe | FlowAttrUfid |
  FlowAttrUfidFlags | FlowAttrPad.
Definition ovsFlowAttr_code (a : ovsFlowAttr) : Z :=
  match a with FlowAttrUnspec => 0 | FlowAttrKey => 1 | FlowAttrActions => 2 | FlowAttrStats => 3 |
    FlowAttrTcpFlags => 4 | FlowAttrUsed => 5 | FlowAttrClear => 6 | FlowAttrMask => 7 |
    FlowAttrProbe => 8 | FlowAttrUfid => 9 | FlowAttrUfidFlags => 10 | FlowAttrPad => 11 end.
Coercion ovsFlowAttr_code : ovsFlowAttr >-> Z.
Definition __FlowAttrMax : Z := 12.
Definition FlowAttrMax : Z := __FlowAttrMax - 1.
#[export] Instance ovsFlowAttr_enumeration : Enumeration ovsFlowAttr.
Proof. enumeration ovsFlowAttr_code [FlowAttrUnspec; FlowAttrKey; FlowAttrActions; FlowAttrStats;
  FlowAttrTcpFlags; FlowAttrUsed; FlowAttrClear; FlowAttrMask; FlowAttrProbe; FlowAttrUfid;
  FlowAttrUfidFlags; FlowAttrPad]. Defined.
#[export] Instance ovsFlowAttr_limited : Limited ovsFlowAttr := {| limit := __FlowAttrMax; limit_card := eq_refl |}.

Inductive ovsSampleAttr := SampleAttrUnspec | SampleAttrProbability | SampleAttrActions.
Definition ovsSampleAttr_code (a : ovsSampleAttr) : Z :=
  match a with SampleAttrUnspec => 0 | SampleAttrProbability => 1 | SampleAttrActions => 2 end.
Coercion ovsSampleAttr_code : ovsSampleAttr >-> Z.
Definition __SampleAttrMax : Z := 3.
Definition SampleAttrMax : Z := __SampleAttrMax - 1.
#[export] Instance ovsSampleAttr_enumeration : Enumeration ovsSampleAttr.
Proof. enumeration ovsSampleAttr_code [SampleAttrUnspec; SampleAttrProbability; SampleAttrActions]. Defined.
#[export] Instance ovsSampleAttr_limited : Limited ovsSampleAttr := {| limit := __SampleAttrMax; limit_card := eq_refl |}.

Inductive ovsUserspaceAttr := UserspaceAttrUnspec | UserspaceAttrPid | UserspaceAttrUserdata |
  UserspaceAttrEgressTunPort | UserspaceAttrActions.
Definition ovsUserspaceAttr_code (a : ovsUserspaceAttr) : Z :=
  match a with UserspaceAttrUnspec => 0 | UserspaceAttrPid => 1 | UserspaceAttrUserdata => 2 |
    UserspaceAttrEgressTunPort => 3 | UserspaceAttrActions => 4 end.
Coercion ovsUserspaceAttr_code : ovsUserspaceAttr >-> Z.
Definition __UserspaceAttrMax : Z := 5.
Definition UserspaceAttrMax : Z := __UserspaceAttrMax - 1.
#[export] Instance ovsUserspaceAttr_enumeration : Enumeration ovsUserspaceAttr.
Proof. enumeration ovsUserspaceAttr_code [UserspaceAttrUnspec; UserspaceAttrPid; UserspaceAttrUserdata;
  UserspaceAttrEgressTunPort; UserspaceAttrActions]. Defined.
#[export] Instance ovsUserspaceAttr_limited : Limited ovsUserspaceAttr := {| limit := __UserspaceAttrMax; limit_card := eq_refl |}.

Inductive ovsHashAlg := HashAlgL4.
Definition ovsHashAlg_code (a : ovsHashAlg) : Z :=
  match a with HashAlgL4 => 0 end.
Coercion ovsHashAlg_code : ovsHashAlg >-> Z.
#[export] Instance ovsHashAlg_enumeration : Enumeration ovsHashAlg.
Proof. enumeration ovsHashAlg_code [HashAlgL4]. Defined.

Inductive ovsCtAttr := CtAttrUnspec | CtAttrCommit | CtAttrZone | CtAttrMark | CtAttrLabels |
  CtAttrHelper | CtAttrNat | CtAttrForceCommit | CtAttrEventmask.
Definition ovsCtAttr_code (a : ovsCtAttr) : Z :=
  match a with CtAttrUnspec => 0 | CtAttrCommit => 1 | CtAttrZone => 2 | CtAttrMark => 3 |
    CtAttrLabels => 4 | CtAttrHelper => 5 | CtAttrNat => 6 | CtAttrForceCommit => 7 |
    CtAttrEventmask => 8 end.
Coercion ovsCtAttr_code : ovsCtAttr >-> Z.
Definition __CtAttrMax : Z := 9.
Definition CtAttrMax : Z := __CtAttrMax - 1.
#[export] Instance ovsCtAttr_enumeration : Enumeration ovsCtAttr.
Proof. enumeration ovsCtAttr_code [CtAttrUnspec; CtAttrCommit; CtAttrZone; CtAttrMark; CtAttrLabels;
  CtAttrHelper; CtAttrNat; CtAttrForceCommit; CtAttrEventmask]. Defined.
#[export] Instance ovsCtAttr_limited : Limited ovsCtAttr := {| limit := __CtAttrMax; limit_card := eq_refl |}.

Inductive ovsNatAttr := NatAttrUnspec | NatAttrSrc | NatAttrDst | NatAttrIpMin | NatAttrIpMax |
  NatAttrProtoMin | NatAttrProtoMax | NatAttrPersistent | NatAttrProtoHash | NatAttrProtoRandom.
Definition ovsNatAttr_code (a : ovsNatAttr) : Z :=
  match a with NatAttrUnspec => 0 | NatAttrSrc => 1 | NatAttrDst => 2 | NatAttrIpMin => 3 |
    NatAttrIpMax => 4 | NatAttrProtoMin => 5 | NatAttrProtoMax => 6 | NatAttrPersistent => 7 |
    NatAttrProtoHash => 8 | NatAttrProtoRandom => 9 end.
Coercion ovsNatAttr_code : ovsNatAttr >-> Z.
Definition __NatAttrMax : Z := 10.
Definition NatAttrMax : Z := __NatAttrMax - 1.
#[export] Instance ovsNatAttr_enumeration : Enumeration ovsNatAttr.
Proof. enumeration ovsNatAttr_code [NatAttrUnspec; NatAttrSrc; NatAttrDst; NatAttrIpMin; NatAttrIpMax;
  NatAttrProtoMin; NatAttrProtoMax; NatAttrPersistent; NatAttrProtoHash; NatAttrProtoRandom]. Defined.
#[export] Instance ovsNatAttr_limited : Limited ovsNatAttr := {| limit := __NatAttrMax; limit_card := eq_refl |}.

Inductive ovsActionAttr := ActionAttrUnspec | ActionAttrOutput | ActionAttrUserspace | ActionAttrSet |
  ActionAttrPushVlan | ActionAttrPopVlan | ActionAttrSample | ActionAttrRecirc | ActionAttrHash |
  ActionAttrPushMpls | ActionAttrPopMpls | ActionAttrSetMasked | ActionAttrCt | ActionAttrTrunc |
  ActionAttrPushEth | ActionAttrPopEth.
Definition ovsActionAttr_code (a : ovsActionAttr) : Z :=
  match a with ActionAttrUnspec => 0 | ActionAttrOutput => 1 | ActionAttrUserspace => 2 |
    ActionAttrSet => 3 | ActionAttrPushVlan => 4 | ActionAttrPopVlan => 5 | ActionAttrSample => 6 |
    ActionAttrRecirc => 7 | ActionAttrHash => 8 | ActionAttrPushMpls => 9 | ActionAttrPopMpls => 10 |
    ActionAttrSetMasked => 11 | ActionAttrCt => 12 | ActionAttrTrunc => 13 | ActionAttrPushEth => 14 |
    ActionAttrPopEth => 15 end.
Coercion ovsActionAttr_code : ovsActionAttr >-> Z.
Definition __ActionAttrMax : Z := 16.
Definition ActionAttrMax : Z := __ActionAttrMax - 1.
#[export] Instance ovsActionAttr_enumeration : Enumeration ovsActionAttr.
Proof. enumeration ovsActionAttr_code [ActionAttrUnspec; ActionAttrOutput; ActionAttrUserspace;
  ActionAttrSet; ActionAttrPushVlan; ActionAttrPopVlan; ActionAttrSample; ActionAttrRecirc; ActionAttrHash;
  ActionAttrPushMpls; ActionAttrPopMpls; ActionAttrSetMasked; ActionAttrCt; ActionAttrTrunc;
  ActionAttrPushEth; ActionAttrPopEth]. Defined.
#[export] Instance ovsActionAttr_limited : Limited ovsActionAttr := {| limit := __ActionAttrMax; limit_card := eq_refl |}.

(** ** Facts *)

(** The numbers that an enumeration with a limit has are those up to its maximum. *)
Theorem limited_numbers {A} `{Limited A} z : is_Some (of_number (A := A) z) <-> 0 <= z <= limit - 1.
Proof. rewrite of_number_range, limit_card. lia. Qed.

(** Each flag is a bit of its own. *)
Lemma flag_bits :
  map (fun f => Z.shiftl 1 f) (seqZ 0 8) =
    [CsFNew; CsFEstablished; CsFRelated; CsFReplyDir; CsFInvalid; CsFTracked; CsFSrcNat; CsFDstNat] /\
  map (fun f => Z.shiftl 1 f) (seqZ 0 3) = [UfidFOmitKey; UfidFOmitMask; UfidFOmitActions] /\
  map (fun f => Z.shiftl 1 f) (seqZ 0 2) = [DpFUnaligned; DpFVportPids].
Proof. vm_compute. by split_and!. Qed.
