(* ===== verification/Ovsnl.v ===== *)
(** * Datapaths over generic netlink

    Models [ovsnl/client.go] and [ovsnl/datapath.go]: the setting up of a client
    from the families of the kernel, the headers and the parsing of datapath and
    packet messages.  The netlink packages are third-party code: the connection's
    operations, [netlink.UnmarshalAttributes], [nlenc.String] and [nlenc.Uint32]
    are arguments of the definitions that use them.  The unsafe casts read words in
    the byte order of the host, which is an argument too. *)

From S2P Require Import Prelude GoStrings Client Kernel.

(** ** Bytes and words *)

Inductive endian := Little | Big.

(** The value of bytes, least significant first, and the [n] bytes of a value. *)
Definition le_value (b : list Z) : Z := foldr (fun x n => x + 256 * n) 0 b.

Fixpoint le_bytes (n : nat) (x : Z) : list Z :=
  match n with
  | O => []
  | S n => x mod 256 :: le_bytes n (x / 256)
  end.

Definition int32 (x : Z) : Z := (x + 2 ^ 31) mod 2 ^ 32 - 2 ^ 31.
Definition in_i32 (x : Z) : Prop := - 2 ^ 31 <= x < 2 ^ 31.

(** The slice [b[off : off+len]]. *)
Definition bytes_at (off len : nat) (b : list Z) : list Z := take len (drop off b).

Section layout.
Context (host : endian).

Definition word (b : list Z) : Z := le_value (match host with Little => b | Big => reverse b end).
Definition word_bytes (n : nat) (x : Z) : list Z :=
  match host with Little => le_bytes n x | Big => reverse (le_bytes n x) end.

(** ** Structures *)

Record Header := mkHeader { Ifindex : Z }.

Definition sizeofHeader : nat := 4.
Definition sizeofDPStats : nat := 32.
Definition sizeofDPMegaflowStats : nat := 32.

Definition headerBytes (h : Header) : list Z := word_bytes 4 (u32 (Ifindex h)).

Definition parseHeader (b : list Z) : go Header :=
  if (length b <? sizeofHeader)%nat
  then Err (Errorf "not enough data for OVS message header: %d bytes" [inr (Z.of_nat (length b))])
  else Ok (mkHeader (int32 (word (bytes_at 0 4 b)))).

Record DatapathStats := mkDatapathStats { Hit : Z; Missed : Z; Lost : Z; Flows : Z }.
Record DatapathMegaflowStats := mkDatapathMegaflowStats { MaskHits : Z; Masks : Z }.

Definition errSize (what : string) (want got : nat) : error :=
  Errorf what [inr (Z.of_nat want); inr (Z.of_nat got)].

Definition parseDPStats (b : list Z) : go DatapathStats :=
  if negb (sizeofDPStats =? length b)%nat
  then Err (errSize "unexpected datapath stats structure size, want %d, got %d" sizeofDPStats (length b))
  else Ok (mkDatapathStats (word (bytes_at 0 8 b)) (word (bytes_at 8 8 b))
             (word (bytes_at 16 8 b)) (word (bytes_at 24 8 b))).

Definition parseDPMegaflowStats (b : list Z) : go DatapathMegaflowStats :=
  if negb (sizeofDPMegaflowStats =? length b)%nat
  then Err (errSize "unexpected datapath megaflow stats structure size, want %d, got %d"
              sizeofDPMegaflowStats (length b))
  else Ok (mkDatapathMegaflowStats (word (bytes_at 0 8 b)) (word (bytes_at 8 4 b))).

(** ** Features *)

Fixpoint feature_names (i : Z) (names : list string) (f : Z) (s : string) : string :=
  match names with
  | [] => s
  | name :: names =>
      feature_names (i + 1) names f
        (if negb (Z.land f (Z.shiftl 1 i) =? 0)
         then (if negb (s =? "")%string then s +:+ "|" else s) +:+ name
         else s)
  end.

Definition DatapathFeatures_String (f : Z) : string :=
  let s := feature_names 0 ["unaligned"; "vportpids"] f "" in
  if (s =? "")%string then "0" else s.

Definition DatapathFeaturesUnaligned : Z := DpFUnaligned.
Definition DatapathFeaturesVPortPIDs : Z := DpFVportPids.

(** ** Messages *)

Record Datapath := mkDatapath {
  Index : Z; dp_Name : string; Features : Z; Stats : DatapathStats; MegaflowStats : DatapathMegaflowStats
}.
Record Packet := mkPacket { pkt_Index : Z; pkt_Packet : string }.

(** An attribute and a message, as the netlink packages define them. *)
Record Attribute := mkAttribute { Type_ : Z; Data : list Z }.
Record Message := mkMessage { Command : Z; Version : Z; msg_Data : list Z }.

Context (UnmarshalAttributes : list Z -> go (list Attribute)).
Context (nlenc_String : list Z -> string) (nlenc_Uint32 : list Z -> go Z).

Definition newDatapath (index : Z) : Datapath :=
  mkDatapath index "" 0 (mkDatapathStats 0 0 0 0) (mkDatapathMegaflowStats 0 0).

Definition datapath_attr (dp : Datapath) (a : Attribute) : go Datapath :=
  if Type_ a =? DpAttrName then
    Ok (mkDatapath (Index dp) (nlenc_String (Data a)) (Features dp) (Stats dp) (MegaflowStats dp))
  else if Type_ a =? DpAttrUserFeatures then
    f ← nlenc_Uint32 (Data a); Ok (mkDatapath (Index dp) (dp_Name dp) f (Stats dp) (MegaflowStats dp))
  else if Type_ a =? DpAttrStats then
    s ← parseDPStats (Data a); Ok (mkDatapath (Index dp) (dp_Name dp) (Features dp) s (MegaflowStats dp))
  else if Type_ a =? DpAttrMegaflowStats then
    s ← parseDPMegaflowStats (Data a); Ok (mkDatapath (Index dp) (dp_Name dp) (Features dp) (Stats dp) s)
  else Ok dp.

Fixpoint datapath_attrs (dp : Datapath) (l : list Attribute) : go Datapath :=
  match l with
  | [] => Ok dp
  | a :: l => dp ← datapath_attr dp a; datapath_attrs dp l
  end.

Definition parseDatapath (m : Message) : go Datapath :=
  h ← parseHeader (msg_Data m);
  attrs ← UnmarshalAttributes (drop sizeofHeader (msg_Data m));
  datapath_attrs (newDatapath (Ifindex h)) attrs.

Definition parseDatapaths (msgs : list Message) : go (list Datapath) := mapM parseDatapath msgs.

Definition packet_attr (pkt : Packet) (a : Attribute) : Packet :=
  if Type_ a =? DpAttrName then mkPacket (pkt_Index pkt) (nlenc_String (Data a)) else pkt.

Definition parsePacket (m : Message) : go Packet :=
  h ← parseHeader (msg_Data m);
  attrs ← UnmarshalAttributes (drop sizeofHeader (msg_Data m));
  Ok (fold_left packet_attr attrs (mkPacket (Ifindex h) "")).

Definition parsePackets (msgs : list Message) : go (list Packet) := mapM parsePacket msgs.

(** ** The client *)

Record Family := mkFamily { fam_ID : Z; fam_Version : Z; fam_Name : string }.

(** A nil service is [None]; a service is its family. *)
Record nlClient := mkNlClient { client_Datapath : option Family; client_Packet : option Family }.

Definition ErrNotExist : error := ErrorString "file does not exist".

Definition initFamily (c : nlClient) (f : Family) : go nlClient :=
  if (fam_Name f =? DatapathFamily)%string then Ok (mkNlClient (Some f) (client_Packet c))
  else if (fam_Name f =? PacketFamily)%string then Ok (mkNlClient (client_Datapath c) (Some f))
  else if (fam_Name f =? FlowFamily)%string || (fam_Name f =? VportFamily)%string then Ok c
  else Err (Errorf "unrecognized OVS generic netlink family: %q" [inl (fam_Name f)]).

Fixpoint init_families (c : nlClient) (gotf : Z) (l : list Family) : go (nlClient * Z) :=
  match l with
  | [] => Ok (c, gotf)
  | f :: l =>
      if negb (HasPrefix (fam_Name f) "ovs_") then init_families c gotf l
      else c ← initFamily c f; init_families c (gotf + 1) l
  end.

Definition wantf : Z := 4.

Definition init (c : nlClient) (families : list Family) : go nlClient :=
  '(c, gotf) ← init_families c 0 families;
  if gotf =? 0 then Err ErrNotExist
  else if negb (gotf =? wantf)
  then Err (Errorf "expected %d OVS generic netlink families, but found %d" [inr wantf; inr gotf])
  else Ok c.

(** *** With the connection *)

Context {W : Type} (ListFamilies : cmd W (list Family)) (CloseConn : cmd W unit).
Context (Execute : Message -> Z -> Z -> cmd W (list Message)).

Definition newClient : cmd W nlClient := fun w =>
  match ListFamilies w with
  | (w, Ok families) =>
      match init (mkNlClient None None) families with
      | Ok client => (w, Ok client)
      | Err e => (fst (CloseConn w), Err e)
      | Panic p => (w, Panic p)
      end
  | (w, Err e) => (fst (CloseConn w), Err e)
  | (w, Panic p) => (w, Panic p)
  end.

(** [New], where [Dial] is [genetlink.Dial]. *)
Definition New (Dial : cmd W unit) : cmd W nlClient := _ ← Dial; newClient.

Definition Close : cmd W unit := CloseConn.

(** [netlink.HeaderFlagsRequest | netlink.HeaderFlagsDump]. *)
Context (flags : Z).

Definition request (command : Z) (f : Family) : Message :=
  mkMessage command (u8 (fam_Version f)) (headerBytes (mkHeader 0)).

Definition List_ (f : Family) : cmd W (list Datapath) :=
  msgs ← Execute (request DpCmdGet f) (fam_ID f) flags; lift (parseDatapaths msgs).

Definition PktList (f : Family) : cmd W (list Packet) :=
  msgs ← Execute (request PacketCmdAction f) (fam_ID f) flags; lift (parsePackets msgs).
End layout.

Example features_constants :
  map DatapathFeatures_String [DatapathFeaturesUnaligned; DatapathFeaturesVPortPIDs] = ["unaligned"; "vportpids"].
Proof. reflexivity. Qed.
Example features1 : map DatapathFeatures_String [0; 1; 2; 3; 8] = ["0"; "unaligned"; "vportpids"; "unaligned|vportpids"; "0"].
Proof. reflexivity. Qed.
Example header1 : map (parseHeader Little) [headerBytes Little (mkHeader (-5)); [1; 2; 3]; [1; 2; 0; 0; 9]]
  = [Ok (mkHeader (-5)); Err (Errorf "not enough data for OVS message header: %d bytes" [inr 3]); Ok (mkHeader 513)].
Proof. reflexivity. Qed.

(** ** Words and structures *)

Lemma le_value_bytes n x : le_value (le_bytes n x) = x mod 256 ^ Z.of_nat n.
Proof.
  revert x. induction n as [|n IH]; intros x; [by rewrite Z.mod_1_r|].
  cbn [le_bytes]. unfold le_value in *. cbn [foldr]. rewrite IH.
  rewrite Nat2Z.inj_succ, Z.pow_succ_r by lia. rewrite Z.rem_mul_r by lia. lia.
Qed.

Lemma le_bytes_length n x : length (le_bytes n x) = n.
Proof. revert x. induction n as [|n IH]; intros x; [done|]. cbn. by rewrite IH. Qed.

Lemma word_bytes_length host n x : length (word_bytes host n x) = n.
Proof. destruct host; cbn; rewrite ?length_reverse; apply le_bytes_length. Qed.

Lemma word_roundtrip host n x : 0 <= x < 256 ^ Z.of_nat n -> word host (word_bytes host n x) = x.
Proof.
  intros Hx. assert (H : word host (word_bytes host n x) = x mod 256 ^ Z.of_nat n).
  { unfold word, word_bytes. destruct host; rewrite ?reverse_involutive; apply le_value_bytes. }
  rewrite H. by apply Z.mod_small.
Qed.

Lemma int32_u32 x : in_i32 x -> int32 (u32 x) = x.
Proof.
  unfold in_i32, int32, u32, uint. intros Hx. rewrite Zplus_mod_idemp_l, Z.mod_small; lia.
Qed.

Lemma bytes_at_head b c len : length b = len -> bytes_at 0 len (b ++ c) = b.
Proof. intros <-. unfold bytes_at. rewrite drop_0. apply take_app_length. Qed.

Lemma bytes_at_all b len : length b = len -> bytes_at 0 len b = b.
Proof. intros H. by rewrite <- (app_nil_r b) at 1; apply bytes_at_head. Qed.

Lemma bytes_at_skip a x off len :
  (length a <= off)%nat -> bytes_at off len (a ++ x) = bytes_at (off - length a) len x.
Proof. intros H. unfold bytes_at. by rewrite drop_app_ge. Qed.

Lemma parseHeader_bytes host i rest :
  in_i32 i -> parseHeader host (headerBytes host (mkHeader i) ++ rest) = Ok (mkHeader i).
Proof.
  intros Hi. unfold parseHeader. rewrite length_app. unfold headerBytes. rewrite word_bytes_length.
  cbn [Ifindex]. destruct (Nat.ltb_spec (4 + length rest) sizeofHeader) as [H|_]; [unfold sizeofHeader in H; lia|].
  rewrite bytes_at_head by apply word_bytes_length. rewrite word_roundtrip, int32_u32; [done|done|]. apply (uint_range 32). lia.
Qed.

(** The bytes of the kernel's structures; the padding is what it is. *)
Definition stats_bytes (host : endian) (s : DatapathStats) : list Z :=
  word_bytes host 8 (Hit s) ++ word_bytes host 8 (Missed s) ++ word_bytes host 8 (Lost s) ++ word_bytes host 8 (Flows s).
Definition megaflow_bytes (host : endian) (s : DatapathMegaflowStats) (pad : list Z) : list Z :=
  word_bytes host 8 (MaskHits s) ++ word_bytes host 4 (Masks s) ++ pad.

Definition DatapathStats_wf (s : DatapathStats) : Prop :=
  in_u 64 (Hit s) /\ in_u 64 (Missed s) /\ in_u 64 (Lost s) /\ in_u 64 (Flows s).
Definition DatapathMegaflowStats_wf (s : DatapathMegaflowStats) : Prop := in_u 64 (MaskHits s) /\ in_u 32 (Masks s).

Lemma parseDPStats_bytes host s : DatapathStats_wf s -> parseDPStats host (stats_bytes host s) = Ok s.
Proof.
  intros (H1 & H2 & H3 & H4). destruct s as [h m l f]. cbn [Hit Missed Lost Flows] in *.
  unfold parseDPStats, stats_bytes. cbn [Hit Missed Lost Flows].
  rewrite !length_app, !word_bytes_length. cbn [Nat.add Nat.eqb negb sizeofDPStats].
  pose proof (word_bytes_length host 8) as L.
  repeat first [rewrite bytes_at_head by apply L
               |rewrite bytes_at_skip by (rewrite L; lia); rewrite L; cbn [Nat.sub]].
  rewrite bytes_at_all by apply L.
  by rewrite !word_roundtrip.
Qed.

Lemma parseDPMegaflowStats_bytes host s pad :
  DatapathMegaflowStats_wf s -> length pad = 20%nat ->
  parseDPMegaflowStats host (megaflow_bytes host s pad) = Ok s.
Proof.
  intros (H1 & H2) Hp. destruct s as [h m]. cbn [MaskHits Masks] in *.
  unfold parseDPMegaflowStats, megaflow_bytes. cbn [MaskHits Masks].
  rewrite !length_app, !word_bytes_length, Hp. cbn [Nat.add Nat.eqb negb sizeofDPMegaflowStats].
  pose proof (word_bytes_length host) as L.
  repeat first [rewrite bytes_at_head by apply L
               |rewrite bytes_at_skip by (rewrite L; lia); rewrite L; cbn [Nat.sub]].
  by rewrite !word_roundtrip.
Qed.

(** ** Datapath messages *)

Definition has_attr (t : Z) (l : list Attribute) : bool := existsb (fun a => Type_ a =? t) l.

Section messages.
Context (host : endian) (UnmarshalAttributes : list Z -> go (list Attribute)).
Context (nlenc_String : list Z -> string) (nlenc_Uint32 : list Z -> go Z).

(** The attribute carries the datapath's value, if it is one the parser knows. *)
Definition attr_of (dp : Datapath) (a : Attribute) : Prop :=
  (Type_ a = DpAttrName -> nlenc_String (Data a) = dp_Name dp) /\
  (Type_ a = DpAttrUserFeatures -> nlenc_Uint32 (Data a) = Ok (Features dp)) /\
  (Type_ a = DpAttrStats -> Data a = stats_bytes host (Stats dp)) /\
  (Type_ a = DpAttrMegaflowStats ->
     exists pad, length pad = 20%nat /\ Data a = megaflow_bytes host (MegaflowStats dp) pad).

Definition Datapath_wf (dp : Datapath) : Prop :=
  in_i32 (Index dp) /\ DatapathStats_wf (Stats dp) /\ DatapathMegaflowStats_wf (MegaflowStats dp).

(** The datapath with the parts that have no attribute left as they were. *)
Definition with_attrs (acc dp : Datapath) (l : list Attribute) : Datapath :=
  mkDatapath (Index acc)
    (if has_attr DpAttrName l then dp_Name dp else dp_Name acc)
    (if has_attr DpAttrUserFeatures l then Features dp else Features acc)
    (if has_attr DpAttrStats l then Stats dp else Stats acc)
    (if has_attr DpAttrMegaflowStats l then MegaflowStats dp else MegaflowStats acc).

Lemma datapath_attr_of dp acc a :
  Datapath_wf dp -> attr_of dp a ->
  datapath_attr host nlenc_String nlenc_Uint32 acc a = Ok (with_attrs acc dp [a]).
Proof.
  intros (_ & Hs & Hm) (H1 & H2 & H3 & H4). unfold datapath_attr, with_attrs, has_attr. cbn [existsb].
  rewrite !orb_false_r. destruct (Z.eqb_spec (Type_ a) DpAttrName) as [E|_]; [by rewrite E, (H1 E)|].
  destruct (Z.eqb_spec (Type_ a) DpAttrUserFeatures) as [E|_]; [by rewrite E, (H2 E)|].
  destruct (Z.eqb_spec (Type_ a) DpAttrStats) as [E|_].
  { rewrite E, (H3 E). by rewrite parseDPStats_bytes. }
  destruct (Z.eqb_spec (Type_ a) DpAttrMegaflowStats) as [E|_].
  { destruct (H4 E) as (pad & Hp & ->). by rewrite parseDPMegaflowStats_bytes. }
  by destruct acc.
Qed.

Lemma with_attrs_cons acc dp a l : with_attrs (with_attrs acc dp [a]) dp l = with_attrs acc dp (a :: l).
Proof.
  unfold with_attrs, has_attr. cbn [existsb Index dp_Name Features Stats MegaflowStats].
  rewrite !orb_false_r. f_equal; by destruct (_ =? _), (existsb _ l).
Qed.

Lemma datapath_attrs_of dp acc l :
  Datapath_wf dp -> Forall (attr_of dp) l ->
  datapath_attrs host nlenc_String nlenc_Uint32 acc l = Ok (with_attrs acc dp l).
Proof.
  intros Hw Hl. revert acc. induction Hl as [|a l Ha _ IH]; intros acc; [by destruct acc|].
  cbn [datapath_attrs]. rewrite (datapath_attr_of dp acc a Hw Ha). cbn [mbind go_bind].
  by rewrite IH, with_attrs_cons.
Qed.

(** A message for a datapath: its header, then bytes that hold attributes. *)
Definition describes (dp : Datapath) (l : list Attribute) (m : Message) : Prop :=
  Datapath_wf dp /\ Forall (attr_of dp) l /\
  exists body, msg_Data m = headerBytes host (mkHeader (Index dp)) ++ body /\ UnmarshalAttributes body = Ok l.

Lemma parseDatapath_describes dp l m :
  describes dp l m ->
  parseDatapath host UnmarshalAttributes nlenc_String nlenc_Uint32 m = Ok (with_attrs (newDatapath (Index dp)) dp l).
Proof.
  intros (Hw & Hl & body & Hm & Hu). unfold parseDatapath. rewrite Hm. pose proof Hw as (Hi & _).
  rewrite parseHeader_bytes by done. cbn [mbind go_bind Ifindex].
  rewrite drop_app_length' by (symmetry; apply word_bytes_length). rewrite Hu. cbn [mbind go_bind].
  by apply datapath_attrs_of.
Qed.

Definition all_attrs (l : list Attribute) : Prop :=
  has_attr DpAttrName l = true /\ has_attr DpAttrUserFeatures l = true /\
  has_attr DpAttrStats l = true /\ has_attr DpAttrMegaflowStats l = true.

(** C37: messages that describe datapaths, in whatever order and with whatever
    unknown attributes among them, are parsed into these datapaths, in either byte
    order; what has no attribute is zero. A message too short for its header makes
    the whole dump fail. *)
Theorem parseDatapaths_messages msgs dps ls :
  Forall2 (fun m dl => describes (fst dl) (snd dl) m) msgs (zip dps ls) -> length dps = length ls ->
  parseDatapaths host UnmarshalAttributes nlenc_String nlenc_Uint32 msgs =
    Ok (zip_with (fun dp l => with_attrs (newDatapath (Index dp)) dp l) dps ls) /\
  (Forall all_attrs ls ->
   parseDatapaths host UnmarshalAttributes nlenc_String nlenc_Uint32 msgs = Ok dps) /\
  forall m rest, (length (msg_Data m) < sizeofHeader)%nat ->
    is_Ok (parseDatapaths host UnmarshalAttributes nlenc_String nlenc_Uint32 (msgs ++ m :: rest)) = false.
Proof.
  intros H Hlen.
  assert (Hp : parseDatapaths host UnmarshalAttributes nlenc_String nlenc_Uint32 msgs =
    Ok (zip_with (fun dp l => with_attrs (newDatapath (Index dp)) dp l) dps ls)).
  { apply mapM_Ok_Forall2. revert msgs H. clear Hlen. revert ls.
    induction dps as [|dp dps IH]; intros [|l ls] msgs H; cbn in *; inversion H; subst; constructor; [|by apply IH].
    by apply parseDatapath_describes. }
  split_and!; [exact Hp| |].
  - intros Hall. rewrite Hp. f_equal. clear -Hall Hlen. revert ls Hall Hlen.
    induction dps as [|dp dps IH]; intros [|l ls] Hall Hlen; try done. cbn.
    apply Forall_cons in Hall as [(H1 & H2 & H3 & H4) Hall]. rewrite IH by (done || by injection Hlen).
    f_equal. unfold with_attrs. rewrite H1, H2, H3, H4. by destruct dp.
  - intros m rest Hm. destruct (parseDatapaths _ _ _ _ (msgs ++ m :: rest)) as [out| |] eqn:E; [|done|done].
    apply mapM_Ok_Forall2 in E. apply Forall2_app_inv_l in E as (k1 & k2 & _ & E & _).
    inversion E as [|? y ? ? Hy]; subst. unfold parseDatapath, parseHeader in Hy.
    apply Nat.ltb_lt in Hm. by rewrite Hm in Hy.
Qed.
End messages.

(** ** Packet messages *)

Section packets.
Context (host : endian) (UnmarshalAttributes : list Z -> go (list Attribute)) (nlenc_String : list Z -> string).

(** The attribute of the packet family that carries the packet; the last one counts. *)
Definition packet_text (l : list Attribute) : string :=
  default "" ((fun a => nlenc_String (Data a)) <$> last (filter (fun a => Type_ a = PacketAttrPacket) l)).

Lemma packet_attrs_last l pkt :
  fold_left (packet_attr nlenc_String) l pkt =
  mkPacket (pkt_Index pkt)
    (default (pkt_Packet pkt) ((fun a => nlenc_String (Data a)) <$> last (filter (fun a => Type_ a = PacketAttrPacket) l))).
Proof.
  revert pkt. induction l as [|a l IH] using rev_ind; intros pkt; [by destruct pkt|].
  rewrite fold_left_app, filter_app. cbn [fold_left]. rewrite IH. unfold packet_attr.
  change (ovsDatapathAttr_code DpAttrName) with (ovsPacketAttr_code PacketAttrPacket).
  rewrite filter_cons, filter_nil. destruct (Z.eqb_spec (Type_ a) PacketAttrPacket) as [E|E].
  - rewrite decide_True by done. by rewrite last_snoc.
  - rewrite decide_False by done. by rewrite app_nil_r.
Qed.

(** Messages of the packet family are parsed into packets with the interface of their
    header and the text of their packet attribute: the constant of datapaths that
    [parsePackets] compares with has the number of the one of packets. *)
Theorem parsePackets_messages (ps : list (Z * list Attribute)) msgs :
  Forall2 (fun '(i, l) m => in_i32 i /\ exists body,
    msg_Data m = headerBytes host (mkHeader i) ++ body /\ UnmarshalAttributes body = Ok l) ps msgs ->
  parsePackets host UnmarshalAttributes nlenc_String msgs = Ok (map (fun '(i, l) => mkPacket i (packet_text l)) ps).
Proof.
  intros H. apply mapM_Ok_Forall2. induction H as [|[i l] m ps msgs (Hi & body & Hm & Hu) _ IH]; [constructor|].
  cbn [map]. constructor; [|exact IH]. unfold parsePacket. rewrite Hm, parseHeader_bytes by done.
  cbn [mbind go_bind Ifindex]. rewrite drop_app_length' by (symmetry; apply word_bytes_length).
  rewrite Hu. cbn [mbind go_bind]. by rewrite packet_attrs_last.
Qed.
End packets.

(** ** Families *)

Definition ovs_family (f : Family) : bool := HasPrefix (fam_Name f) "ovs_".
Definition ovs_names : list string := [DatapathFamily; PacketFamily; FlowFamily; VportFamily].
Definition known_family (f : Family) : Prop := fam_Name f ∈ ovs_names.

(** The service of a family name: the last family that has it. *)
Definition service (name : string) (old : option Family) (l : list Family) : option Family :=
  fold_left (fun o f => if (fam_Name f =? name)%string then Some f else o) l old.

Lemma initFamily_known c f :
  known_family f -> initFamily c f = Ok (mkNlClient (service DatapathFamily (client_Datapath c) [f])
                                                    (service PacketFamily (client_Packet c) [f])).
Proof.
  intros Hk. unfold initFamily, service. cbn [fold_left]. unfold known_family, ovs_names in Hk.
  rewrite !elem_of_cons in Hk. destruct Hk as [->|[->|[->|[->|Hk]]]]; cbn; try by destruct c.
  by apply not_elem_of_nil in Hk.
Qed.

Lemma initFamily_unknown c f : ~ known_family f ->
  initFamily c f = Err (Errorf "unrecognized OVS generic netlink family: %q" [inl (fam_Name f)]).
Proof.
  intros Hk. unfold known_family, ovs_names in Hk. rewrite !elem_of_cons in Hk. unfold initFamily.
  repeat match goal with
  | |- context [(fam_Name f =? ?k)%string] =>
      destruct (String.eqb_spec (fam_Name f) k) as [E|_]; [exfalso; tauto|]
  end.
  done.
Qed.

Definition ovs_families (l : list Family) : list Family := List.filter ovs_family l.

Lemma init_families_cons c n f l :
  init_families c n (f :: l) =
    if ovs_family f then c ← initFamily c f; init_families c (n + 1) l else init_families c n l.
Proof. cbn [init_families]. unfold ovs_family. by destruct (HasPrefix _ _). Qed.

Lemma init_families_known c n l :
  Forall known_family (ovs_families l) ->
  init_families c n l =
    Ok (mkNlClient (service DatapathFamily (client_Datapath c) (ovs_families l))
                   (service PacketFamily (client_Packet c) (ovs_families l)),
        n + Z.of_nat (length (ovs_families l))).
Proof.
  revert c n. induction l as [|f l IH]; intros c n.
  - intros _. cbn. rewrite Z.add_0_r. by destruct c.
  - rewrite init_families_cons. unfold ovs_families. cbn [List.filter]. fold (ovs_families l).
    destruct (ovs_family f); [|apply IH]. intros [Hk Hl]%Forall_cons.
    rewrite initFamily_known by done. cbn [mbind go_bind]. rewrite IH by done.
    cbn [client_Datapath client_Packet]. unfold service. cbn [fold_left length]. f_equal. f_equal. lia.
Qed.

Lemma init_families_unknown c n l f :
  In f (ovs_families l) -> ~ known_family f -> exists name,
  init_families c n l = Err (Errorf "unrecognized OVS generic netlink family: %q" [inl name]).
Proof.
  revert c n. induction l as [|g l IH]; intros c n; [done|]. rewrite init_families_cons.
  unfold ovs_families. cbn [List.filter]. fold (ovs_families l).
  destruct (ovs_family g); [|apply IH]. intros Hin Hf.
  destruct (decide (fam_Name g ∈ ovs_names)) as [Hk|Hk].
  - rewrite initFamily_known by done. cbn [mbind go_bind]. apply IH; [|done]. by destruct Hin as [->|].
  - rewrite initFamily_unknown by done. by eexists.
Qed.

Lemma init_no_panic c l : is_Panic (init c l) = false.
Proof.
  assert (H : forall c n, is_Panic (init_families c n l) = false).
  { induction l as [|f l IH]; intros c' n; [done|]. cbn [init_families]. destruct (negb _); [done|].
    apply bind_no_panic; [|done]. unfold initFamily. by repeat destruct (_ =? _)%string. }
  unfold init. apply bind_no_panic; [done|]. intros [c' n] _. by destruct (n =? 0), (n =? wantf).
Qed.

(** The service of a name is a family with that name, if there is one. *)
Lemma service_spec name old l :
  match service name old l with
  | Some f => In f l /\ fam_Name f = name \/ old = Some f
  | None => True
  end.
Proof.
  unfold service. revert old. induction l as [|g l IH]; intros old; cbn [fold_left].
  - destruct old; [by right|done].
  - specialize (IH (if (fam_Name g =? name)%string then Some g else old)).
    destruct (fold_left _ l _) as [f|]; [|done].
    destruct IH as [[H1 H2]|IH]; [left; split; [by right|done]|].
    destruct (String.eqb_spec (fam_Name g) name) as [E|_]; [|by right].
    injection IH as ->. left. split; [by left|done].
Qed.

Lemma service_some name old l : In name (map fam_Name l) -> is_Some (service name old l).
Proof.
  unfold service. revert old. induction l as [|g l IH]; intros old; [done|]. cbn [fold_left map].
  intros [H|H]; [|by apply IH]. rewrite H, String.eqb_refl. clear -l.
  assert (Hs : forall o : option Family, is_Some o ->
    is_Some (fold_left (fun o f => if (fam_Name f =? name)%string then Some f else o) l o)).
  { induction l as [|h l IHl]; intros o Ho; [done|]. cbn. apply IHl. by destruct (_ =? _)%string. }
  apply Hs. by eexists.
Qed.

(** Four distinct known names are all the known names. *)
Lemma four_names l :
  NoDup l -> length l = 4%nat -> Forall (fun n => n ∈ ovs_names) l -> forall n, n ∈ ovs_names -> In n l.
Proof.
  intros Hnd Hlen Hall n Hn.
  assert (Hp : l ≡ₚ ovs_names).
  { apply submseteq_length_Permutation; [|by rewrite Hlen].
    apply NoDup_submseteq; [done|]. intros x Hx. rewrite Forall_forall in Hall. by apply Hall. }
  apply list_elem_of_In. by rewrite Hp.
Qed.

(** A client is set up exactly when the kernel has four families with the
    [ovs_] prefix, all known; if their names differ, it then has its datapath and
    packet services, each on the kernel's family of that name. Every failure, and
    only a failure, closes the connection. *)
Theorem newClient_services {W} (ListFamilies : cmd W (list Family)) (CloseConn : cmd W unit) w w1 fams :
  ListFamilies w = (w1, Ok fams) ->
  let ovs := ovs_families fams in
  (length ovs = 4%nat /\ Forall known_family ovs -> exists c,
     newClient ListFamilies CloseConn w = (w1, Ok c) /\
     (NoDup (map fam_Name ovs) -> exists d p, c = mkNlClient (Some d) (Some p) /\
        In d fams /\ fam_Name d = DatapathFamily /\ In p fams /\ fam_Name p = PacketFamily)) /\
  (~ (length ovs = 4%nat /\ Forall known_family ovs) -> exists e,
     newClient ListFamilies CloseConn w = (fst (CloseConn w1), Err e) /\
     (ovs = [] -> e = ErrNotExist)).
Proof.
  intros Hw ovs. unfold newClient, init. rewrite Hw. split.
  - intros [Hlen Hk]. rewrite init_families_known by done. fold ovs. rewrite Hlen. cbn [mbind go_bind client_Datapath client_Packet].
    eexists. split; [reflexivity|]. intros Hnd.
    assert (Hin : forall n, n ∈ ovs_names -> In n (map fam_Name ovs)).
    { apply four_names; [done|by rewrite length_map|]. apply Forall_map. exact Hk. }
    assert (Hs : forall n, n ∈ ovs_names -> exists f, service n None ovs = Some f /\ In f fams /\ fam_Name f = n).
    { intros n Hn. destruct (service_some n None ovs (Hin n Hn)) as [f Hf]. exists f.
      pose proof (service_spec n None ovs) as H. rewrite Hf in H.
      destruct H as [[H1 H2]|H]; [|done]. split_and!; [done| |done].
      by apply filter_In in H1 as [H1 _]. }
    destruct (Hs DatapathFamily) as (d & Hd & H1 & H2); [apply (bool_decide_unpack _); vm_compute; exact I|].
    destruct (Hs PacketFamily) as (p & Hp & H3 & H4); [apply (bool_decide_unpack _); vm_compute; exact I|].
    rewrite Hd, Hp. by exists d, p.
  - intros Hno. destruct (decide (Forall (fun f => fam_Name f ∈ ovs_names) ovs)) as [Hk|Hk].
    + rewrite init_families_known by done. fold ovs. cbn [mbind go_bind].
      assert (Hlen : length ovs <> 4%nat) by (intros E; by apply Hno).
      destruct (Z.eqb_spec (0 + Z.of_nat (length ovs)) 0) as [H0|H0]; [by eexists|].
      destruct (Z.eqb_spec (0 + Z.of_nat (length ovs)) wantf) as [H4|H4]; [unfold wantf in H4; lia|].
      eexists. split; [reflexivity|]. intros E. rewrite E in H0. by cbn in H0.
    + apply not_Forall_Exists in Hk; [|apply _]. apply Exists_exists in Hk as (f & Hf & Hn).
      apply list_elem_of_In in Hf.
      destruct (init_families_unknown (mkNlClient None None) 0 fams f Hf Hn) as [name He]. rewrite He.
      eexists. split; [reflexivity|]. intros E. unfold ovs in *. by rewrite E in Hf.
Qed.

(** ** Instances

    The netlink attributes of a little-endian host: a length and a type of two
    bytes each, then the data, padded to four bytes. *)
Fixpoint nla_parse (fuel : nat) (b : list Z) : go (list Attribute) :=
  match fuel, b with
  | _, [] => Ok []
  | S fuel, l0 :: l1 :: t0 :: t1 :: rest =>
      let len := Z.to_nat (l0 + 256 * l1) in
      if (len <? 4)%nat || (length b <? len)%nat then Err (ErrorString "invalid attribute")
      else let padded := ((len + 3) / 4 * 4)%nat in
           l ← nla_parse fuel (drop padded b);
           Ok (mkAttribute (t0 + 256 * t1) (take (len - 4) rest) :: l)
  | _, _ => Err (ErrorString "invalid attribute")
  end.
Definition nla_UnmarshalAttributes (b : list Z) : go (list Attribute) := nla_parse (length b) b.

(** A text up to its terminating NUL, and a word of exactly four bytes. *)
Fixpoint c_string (b : list Z) : string :=
  match b with
  | [] => ""
  | x :: b => if x =? 0 then "" else String (chr x) (c_string b)
  end.
Definition le_Uint32 (b : list Z) : go Z :=
  if (length b =? 4)%nat then Ok (le_value b) else Panic "unexpected length".

Definition sampleDatapath : Datapath :=
  mkDatapath 1 "ovs-system" 2 (mkDatapathStats 10 20 30 40) (mkDatapathMegaflowStats 50 60).

Definition sampleAttrs : list Attribute :=
  [mkAttribute DpAttrUserFeatures [2; 0; 0; 0]; mkAttribute 99 [7];
   mkAttribute DpAttrName [111; 118; 115; 45; 115; 121; 115; 116; 101; 109; 0];
   mkAttribute DpAttrStats (stats_bytes Little (Stats sampleDatapath));
   mkAttribute DpAttrMegaflowStats (megaflow_bytes Little (MegaflowStats sampleDatapath) (repeat 0 20))].

Definition nla_bytes (a : Attribute) : list Z :=
  let len := (4 + length (Data a))%nat in
  le_bytes 2 (Z.of_nat len) ++ le_bytes 2 (Type_ a) ++ Data a ++ repeat 0 ((len + 3) / 4 * 4 - len).

Definition sampleMessage : Message :=
  mkMessage 1 2 (headerBytes Little (mkHeader 1) ++ concat (map nla_bytes sampleAttrs)).

Lemma parseDatapaths_messages_witness :
  parseDatapaths Little nla_UnmarshalAttributes c_string le_Uint32 [sampleMessage] = Ok [sampleDatapath].
Proof.
  destruct (parseDatapaths_messages Little nla_UnmarshalAttributes c_string le_Uint32
    [sampleMessage] [sampleDatapath] [sampleAttrs]) as (_ & H & _).
  - constructor; [|constructor]. split_and!.
    + repeat split; vm_compute; congruence.
    + repeat constructor; try discriminate; intros _; exists (repeat 0 20); split; reflexivity.
    + eexists. split; [reflexivity|]. vm_compute. reflexivity.
  - reflexivity.
  - apply H. repeat constructor.
Defined.

Definition sampleFamilies : list Family :=
  [mkFamily 16 2 "nlctrl"; mkFamily 20 2 "ovs_datapath"; mkFamily 21 1 "ovs_vport"; mkFamily 22 1 "ovs_packet";
   mkFamily 23 1 "ovs_flow"].

Lemma newClient_services_witness :
  newClient (fun w : bool => (w, Ok sampleFamilies)) (fun _ => (true, Ok tt)) false
  = (false, Ok (mkNlClient (Some (mkFamily 20 2 "ovs_datapath")) (Some (mkFamily 22 1 "ovs_packet")))).
Proof.
  destruct (newClient_services (fun w : bool => (w, Ok sampleFamilies)) (fun _ => (true, Ok tt)) false false
    sampleFamilies eq_refl) as [H _].
  destruct H as (c & H1 & _).
  - split; [reflexivity|]. unfold known_family.
    apply (bool_decide_unpack _). vm_compute. exact I.
  - rewrite H1. vm_compute in H1. injection H1 as <-. reflexivity.
Defined.

(** A features attribute of another size makes the parser panic, while statistics of
    another size are an error. *)
Example features_size :
  parseDatapaths Little nla_UnmarshalAttributes c_string le_Uint32
    [mkMessage 1 2 (headerBytes Little (mkHeader 1) ++ nla_bytes (mkAttribute DpAttrUserFeatures [1; 2]))]
  = Panic "unexpected length" /\
  is_Ok (parseDatapaths Little nla_UnmarshalAttributes c_string le_Uint32
    [mkMessage 1 2 (headerBytes Little (mkHeader 1) ++ nla_bytes (mkAttribute DpAttrStats [1; 2]))]) = false.
Proof. split; reflexivity. Qed.

Lemma parsePackets_messages_witness :
  parsePackets Little nla_UnmarshalAttributes c_string
    [mkMessage 2 1 (headerBytes Little (mkHeader 7) ++ nla_bytes (mkAttribute PacketAttrPacket [65; 66; 0]))]
  = Ok [mkPacket 7 "AB"].
Proof.
  rewrite (parsePackets_messages Little nla_UnmarshalAttributes c_string
    [(7, [mkAttribute PacketAttrPacket [65; 66; 0]])]); [reflexivity|].
  constructor; [|constructor]. split; [unfold in_i32; lia|]. eexists. split; [reflexivity|vm_compute; reflexivity].
Defined.

(** A packet is cut at its first zero byte when it is read as a text. *)
Example packet_cut :
  parsePackets Little nla_UnmarshalAttributes c_string
    [mkMessage 2 1 (headerBytes Little (mkHeader 7) ++ nla_bytes (mkAttribute PacketAttrPacket [65; 0; 66; 67]))]
  = Ok [mkPacket 7 "A"].
Proof. vm_compute. reflexivity. Qed.
