(* ===== verification/Layout.v ===== *)
(** * The memory layout of the kernel's structures

    Models [ovsnl/internal/ovsh/struct.go]: the structures as lists of typed fields,
    the offsets and sizes that Go gives them, on platforms that align a [uint64] to
    four bytes or to eight, and the casts between a structure and its bytes, which
    [ovsnl/client.go] and [ovsnl/datapath.go] make through unsafe pointers. *)

From S2P Require Import Prelude GoStrings Client Kernel Ovsnl.

(** ** Types and structures *)

Inductive prim := Int32 | Uint32 | Uint64.

Definition prim_size (t : prim) : nat := match t with Int32 | Uint32 => 4 | Uint64 => 8 end.

(** The alignment of a [uint64]: 4 on 386 and arm, 8 on the others. *)
Class Platform := { align64 : nat; align64_cases : align64 = 4%nat \/ align64 = 8%nat }.

Definition struct := list (string * prim).

Definition HeaderFields : struct := [("Ifindex", Int32)].
Definition DPStatsFields : struct :=
  [("Hit", Uint64); ("Missed", Uint64); ("Lost", Uint64); ("Flows", Uint64)].
Definition DPMegaflowStatsFields : struct :=
  [("Mask_hit", Uint64); ("Masks", Uint32); ("Pad0", Uint32); ("Pad1", Uint64); ("Pad2", Uint64)].
Definition VportStatsFields : struct :=
  [("Rx_packets", Uint64); ("Tx_packets", Uint64); ("Rx_bytes", Uint64); ("Tx_bytes", Uint64);
   ("Rx_errors", Uint64); ("Tx_errors", Uint64); ("Rx_dropped", Uint64); ("Tx_dropped", Uint64)].
Definition FlowStatsFields : struct := [("Packets", Uint64); ("Bytes", Uint64)].

Section platform.
Context `{Platform}.

Definition prim_align (t : prim) : nat := match t with Int32 | Uint32 => 4 | Uint64 => align64 end.

(** The least multiple of [a] from [n] on. *)
Definition round_up (n a : nat) : nat := (n + a - 1) / a * a.

(** The offset of each field when the first free byte is at [off], and the end. *)
Fixpoint offsets (off : nat) (s : struct) : list nat :=
  match s with
  | [] => []
  | (_, t) :: s => let o := round_up off (prim_align t) in o :: offsets (o + prim_size t) s
  end.

Fixpoint fields_end (off : nat) (s : struct) : nat :=
  match s with
  | [] => off
  | (_, t) :: s => fields_end (round_up off (prim_align t) + prim_size t) s
  end.

Definition struct_align (s : struct) : nat := foldr (fun f a => Nat.max (prim_align (snd f)) a) 1%nat s.

(** [unsafe.Sizeof]. *)
Definition sizeof (s : struct) : nat := round_up (fields_end 0 s) (struct_align s).

(** ** Casts *)

Context (host : endian).

Definition load (t : prim) (b : list Z) : Z :=
  match t with Int32 => int32 (word host b) | Uint32 | Uint64 => word host b end.

Definition store (t : prim) (x : Z) : list Z :=
  word_bytes host (prim_size t) (match t with Int32 => u32 x | Uint32 | Uint64 => x end).

Definition in_prim (t : prim) (x : Z) : Prop :=
  match t with Int32 => in_i32 x | Uint32 => in_u 32 x | Uint64 => in_u 64 x end.

(** What the structure at the first byte of [b] holds: each field is read at its offset. *)
Definition cast (s : struct) (b : list Z) : list (string * Z) :=
  zip_with (fun '(n, t) o => (n, load t (bytes_at o (prim_size t) b))) s (offsets 0 s).

Definition sel (n : string) (v : list (string * Z)) : Z :=
  match find (fun f => (fst f =? n)%string) v with Some (_, x) => x | None => 0 end.

(** The bytes of a structure, with whatever the memory held in its padding. *)
Fixpoint fields_bytes (off : nat) (s : struct) (vs : list Z) (mem : list Z) : list Z :=
  match s, vs with
  | (_, t) :: s, x :: vs =>
      let o := round_up off (prim_align t) in
      bytes_at off (o - off) mem ++ store t x ++ fields_bytes (o + prim_size t) s vs mem
  | _, _ => drop off mem
  end.

Definition struct_bytes (s : struct) (vs : list Z) (mem : list Z) : list Z := fields_bytes 0 s vs mem.
End platform.

(** The two kinds of platforms. *)
#[export] Instance Bits32 : Platform := {| align64 := 4; align64_cases := or_introl eq_refl |}.
#[export] Instance Bits64 : Platform := {| align64 := 8; align64_cases := or_intror eq_refl |}.

(** A field after a shorter one is where the platform aligns it. *)
Example offsets1 :
  let s := [("A", Uint32); ("B", Uint64); ("C", Uint32)] in
  (@offsets Bits32 0 s, @sizeof Bits32 s) = ([0; 4; 12], 16)%nat /\
  (@offsets Bits64 0 s, @sizeof Bits64 s) = ([0; 8; 16], 24)%nat.
Proof. by split. Qed.
Example cast1 : @cast Bits64 Little [("A", Int32); ("B", Uint64)]
    ([254; 255; 255; 255; 9; 9; 9; 9] ++ [1; 2; 0; 0; 0; 0; 0; 0]) = [("A", -2); ("B", 513)].
Proof. reflexivity. Qed.

(** ** Offsets *)

Section facts.
Context `{Platform}.

Lemma prim_align_pos t : (0 < prim_align t)%nat.
Proof. destruct t; cbn; [lia..|]. destruct align64_cases; lia. Qed.

Lemma round_up_spec n a : (0 < a)%nat -> (n <= round_up n a < n + a)%nat /\ (a | round_up n a)%nat.
Proof.
  intros Ha. unfold round_up. split; [|by exists ((n + a - 1) / a)%nat].
  pose proof (Nat.div_mod_eq (n + a - 1) a). pose proof (Nat.mod_upper_bound (n + a - 1) a ltac:(lia)).
  rewrite (Nat.mul_comm _ a). generalize dependent ((n + a - 1) / a)%nat.
  generalize dependent ((n + a - 1) mod a)%nat. intros r Hr q Hq. lia.
Qed.

Lemma round_up_multiple n a : (0 < a)%nat -> (a | n)%nat -> round_up n a = n.
Proof.
  intros Ha [k ->]. destruct (round_up_spec (k * a) a Ha) as [Hr [j Hj]]. rewrite Hj in *.
  enough (j = k) by congruence. nia.
Qed.

Lemma fields_end_ge off s : (off <= fields_end off s)%nat.
Proof.
  revert off. induction s as [|[n t] s IH]; intros off; [done|]. cbn.
  pose proof (round_up_spec off (prim_align t) (prim_align_pos t)). specialize (IH (round_up off (prim_align t) + prim_size t)%nat). lia.
Qed.

Lemma struct_align_pos s : (0 < struct_align s)%nat.
Proof. unfold struct_align. induction s as [|f s IH]; cbn; lia. Qed.

Lemma fields_end_sizeof s : (fields_end 0 s <= sizeof s)%nat.
Proof. apply round_up_spec, struct_align_pos. Qed.

Lemma offsets_length off s : length (offsets off s) = length s.
Proof. revert off. induction s as [|[n t] s IH]; intros off; [done|]. cbn. by rewrite IH. Qed.

Lemma offsets_ge off s j p : offsets off s !! j = Some p -> (off <= p)%nat.
Proof.
  revert off j. induction s as [|[n t] s IH]; intros off [|j] Hp; try done; cbn in Hp.
  - simplify_eq. apply round_up_spec, prim_align_pos.
  - apply IH in Hp. pose proof (round_up_spec off (prim_align t) (prim_align_pos t)). lia.
Qed.

(** Where each field is, from the first free byte on. *)
Lemma offsets_lookup off s i n t o :
  s !! i = Some (n, t) -> offsets off s !! i = Some o ->
  (off <= o)%nat /\ (prim_align t | o)%nat /\ (o + prim_size t <= fields_end off s)%nat /\
  forall j m u p, (i < j)%nat -> s !! j = Some (m, u) -> offsets off s !! j = Some p -> (o + prim_size t <= p)%nat.
Proof.
  revert off i. induction s as [|[n' t'] s IH]; intros off i Hs Ho; [done|].
  cbn [offsets fields_end] in *. set (o' := round_up off (prim_align t')) in *.
  destruct (round_up_spec off (prim_align t') (prim_align_pos t')) as [Hr Hd]. fold o' in Hr, Hd.
  destruct i as [|i]; cbn in Hs, Ho.
  - simplify_eq. split_and!; [lia|done|apply fields_end_ge|].
    intros [|j] m u p Hj Hs Hp; [lia|]. cbn in Hs, Hp. by apply offsets_ge in Hp.
  - destruct (IH _ _ Hs Ho) as (H1 & H2 & H3 & H4). split_and!; [lia|done|done|].
    intros [|j] m u p Hj Hsj Hp; [lia|]. cbn in Hsj, Hp. apply (H4 j m u p); (lia || done).
Qed.

(** On either platform the fields of any structure are aligned, in the order of their
    declaration, without overlap and inside the size of the structure, which is a
    multiple of the alignment of the structure. *)
Theorem layout_sound s i n t o :
  s !! i = Some (n, t) -> offsets 0 s !! i = Some o ->
  (prim_align t | o)%nat /\ (o + prim_size t <= sizeof s)%nat /\ (struct_align s | sizeof s)%nat /\
  forall j m u p, (i < j)%nat -> s !! j = Some (m, u) -> offsets 0 s !! j = Some p -> (o + prim_size t <= p)%nat.
Proof.
  intros Hs Ho. destruct (offsets_lookup 0 s i n t o Hs Ho) as (_ & Hd & He & Hj).
  pose proof (fields_end_sizeof s). split_and!; [done|lia| |done].
  apply round_up_spec, struct_align_pos.
Qed.

(** ** Casts *)

Context (host : endian).

Lemma load_store t x : in_prim t x -> load host t (store host t x) = x.
Proof.
  unfold load, store. destruct t; cbn [prim_size in_prim]; intros Hx; rewrite word_roundtrip; try done.
  - by apply int32_u32.
  - apply (uint_range 32). lia.
Qed.

Lemma store_length t x : length (store host t x) = prim_size t.
Proof. apply word_bytes_length. Qed.

Lemma bytes_at_length off len b : (off + len <= length b)%nat -> length (bytes_at off len b) = len.
Proof. intros Hb. unfold bytes_at. rewrite length_take, length_drop. lia. Qed.

Lemma fields_bytes_length off s vs mem :
  length vs = length s -> (fields_end off s <= length mem)%nat ->
  length (fields_bytes host off s vs mem) = (length mem - off)%nat.
Proof.
  revert off vs. induction s as [|[n t] s IH]; intros off [|x vs] Hv He; try done; cbn in *.
  - by rewrite length_drop.
  - pose proof (round_up_spec off (prim_align t) (prim_align_pos t)).
    pose proof (fields_end_ge (round_up off (prim_align t) + prim_size t) s).
    rewrite !length_app, store_length, bytes_at_length, IH by lia. lia.
Qed.

Lemma cast_fields_bytes off s vs mem p :
  length p = off -> Forall2 (fun f x => in_prim (snd f) x) s vs -> (fields_end off s <= length mem)%nat ->
  zip_with (fun '(n, t) o => (n, load host t (bytes_at o (prim_size t) (p ++ fields_bytes host off s vs mem))))
    s (offsets off s) = zip (map fst s) vs.
Proof.
  intros Hp Hv. revert off p Hp. induction Hv as [|[n t] x s vs Hx Hv IH]; intros off p Hp He; [done|].
  cbn [offsets fields_bytes fields_end zip_with map fst zip] in *. set (o := round_up off (prim_align t)) in *.
  destruct (round_up_spec off (prim_align t) (prim_align_pos t)) as [Hr _]. fold o in Hr.
  pose proof (fields_end_ge (o + prim_size t) s).
  rewrite (app_assoc p). set (q := p ++ bytes_at off (o - off) mem).
  assert (Hq : length q = o) by (unfold q; rewrite length_app, bytes_at_length; lia).
  f_equal.
  - rewrite bytes_at_skip, Hq, Nat.sub_diag, bytes_at_head by (rewrite ?store_length; lia).
    by rewrite load_store.
  - rewrite app_assoc. apply IH; [|done]. rewrite length_app, store_length. lia.
Qed.

(** A structure in memory, whatever its padding holds, is as long as its size says,
    and the cast of its bytes reads every field back, in either byte order and on either
    platform. *)
Theorem struct_roundtrip s vs mem :
  Forall2 (fun f x => in_prim (snd f) x) s vs -> length mem = sizeof s ->
  length (struct_bytes host s vs mem) = sizeof s /\
  cast host s (struct_bytes host s vs mem) = zip (map fst s) vs.
Proof.
  intros Hv Hm. pose proof (fields_end_sizeof s). pose proof (Forall2_length _ _ _ Hv) as Hl.
  unfold struct_bytes, cast. split; [rewrite fields_bytes_length; lia|].
  apply (cast_fields_bytes 0 s vs mem []); [done|done|lia].
Qed.

(** ** The casts of the program *)

(** The structures read through their declared fields. *)
Definition DPStats_of (v : list (string * Z)) : DatapathStats :=
  mkDatapathStats (sel "Hit" v) (sel "Missed" v) (sel "Lost" v) (sel "Flows" v).
Definition DPMegaflowStats_of (v : list (string * Z)) : DatapathMegaflowStats :=
  mkDatapathMegaflowStats (sel "Mask_hit" v) (sel "Masks" v).

Lemma sizes :
  sizeof HeaderFields = sizeofHeader /\ sizeof DPStatsFields = sizeofDPStats /\
  sizeof DPMegaflowStatsFields = sizeofDPMegaflowStats /\
  sizeof VportStatsFields = 64%nat /\ sizeof FlowStatsFields = 16%nat.
Proof.
  unfold sizeof. cbn. unfold prim_align. destruct align64_cases as [-> | ->]; by vm_compute.
Qed.

(** C38: on either platform and in either byte order, the parser of headers accepts exactly
    the slices that are not shorter than the structure, and the parsers of statistics
    exactly those of its size, so no cast reads outside its slice; they return what the
    declared fields hold at the offsets Go lays them out at; a header's bytes are its
    structure. *)
Theorem casts_read_fields b :
  (parseHeader host b = if (length b <? sizeof HeaderFields)%nat
     then Err (Errorf "not enough data for OVS message header: %d bytes" [inr (Z.of_nat (length b))])
     else Ok (mkHeader (sel "Ifindex" (cast host HeaderFields (take (sizeof HeaderFields) b))))) /\
  (parseDPStats host b = if (sizeof DPStatsFields =? length b)%nat
     then Ok (DPStats_of (cast host DPStatsFields b))
     else Err (errSize "unexpected datapath stats structure size, want %d, got %d" 32 (length b))) /\
  (parseDPMegaflowStats host b = if (sizeof DPMegaflowStatsFields =? length b)%nat
     then Ok (DPMegaflowStats_of (cast host DPMegaflowStatsFields b))
     else Err (errSize "unexpected datapath megaflow stats structure size, want %d, got %d" 32 (length b))) /\
  forall i mem, length mem = sizeof HeaderFields ->
    headerBytes host (mkHeader i) = struct_bytes host HeaderFields [i] mem.
Proof.
  destruct sizes as (E1 & E2 & E3 & _). rewrite E1, E2, E3. split_and!.
  - unfold parseHeader. destruct (_ <? _)%nat; [done|]. cbn. unfold bytes_at. by rewrite !drop_0, take_take.
  - unfold parseDPStats. rewrite if_negb. destruct (_ =? _)%nat; [|done].
    unfold DPStats_of, cast. cbn. destruct align64_cases as [-> | ->]; reflexivity.
  - unfold parseDPMegaflowStats. rewrite if_negb. destruct (_ =? _)%nat; [|done].
    unfold DPMegaflowStats_of, cast. cbn. destruct align64_cases as [-> | ->]; reflexivity.
  - intros i mem Hm. unfold headerBytes, struct_bytes, store. cbn.
    rewrite (drop_ge mem 4) by (rewrite Hm; apply Nat.le_refl). unfold bytes_at. cbn. by rewrite app_nil_r.
Qed.
End facts.

(** ** Witnesses *)

Lemma layout_sound_witness :
  (4 | 8)%nat /\ (8 + 4 <= 32)%nat /\ (8 | 32)%nat.
Proof.
  destruct (@layout_sound Bits64 DPMegaflowStatsFields 1 "Masks" Uint32 8 eq_refl eq_refl) as (H1 & H2 & H3 & _).
  split_and!; [exact H1|exact H2|exact H3].
Defined.

Lemma struct_roundtrip_witness :
  let s := [("A", Int32); ("B", Uint64)] in
  @cast Bits64 Big s (@struct_bytes Bits64 Big s [-1; 7] (replicate 16 170)) = [("A", -1); ("B", 7)].
Proof.
  refine (proj2 (@struct_roundtrip Bits64 Big [("A", Int32); ("B", Uint64)] [-1; 7] (replicate 16 170) _ eq_refl)).
  repeat constructor; cbn; unfold in_i32, in_u; lia.
Defined.

Lemma casts_read_fields_witness :
  headerBytes Big (mkHeader 7) = @struct_bytes Bits32 Big HeaderFields [7] [1; 2; 3; 4].
Proof.
  apply (proj2 (proj2 (proj2 (@casts_read_fields Bits32 Big [])))). reflexivity.
Defined.
