(* ===== verification/Ntlk.v ===== *)
(** * The netlink demonstration

    Models [src/ntlink/go/ntlk.go]: the program that opens a client of the kernel's
    datapaths, lists them twice and prints what it found.  Its state is the system
    with the text written so far.  [genetlink] and the decoders of [netlink] and
    [nlenc] are arguments, as in [Ovsnl]; so is [os.IsNotExist], which looks into
    errors of the system. *)

From S2P Require Import Prelude GoStrings GoConv GoQuote Client ErrorText Kernel Ovsnl.

Section main.
Context `{Printable} (IsNotExist : error -> bool).
Context (host : endian) (UnmarshalAttributes : list Z -> go (list Attribute)).
Context (nlenc_String : list Z -> string) (nlenc_Uint32 : list Z -> go Z).
Context {W : Type} (Dial : cmd W unit) (ListFamilies : cmd W (list Family)) (CloseConn : cmd W unit).
Context (Execute : Message -> Z -> Z -> cmd W (list Message)) (flags : Z).

(** The system and the standard output. *)
Definition sys : Type := W * string.

Definition on_system {A} (m : cmd W A) : cmd sys A := fun '(w, out) =>
  let '(w, r) := m w in ((w, out), r).

Definition Printf (s : string) : cmd sys unit := fun '(w, out) => ((w, out +:+ s), Ok tt).

(** Runs [m], and [d] when it returns or panics; the error [d] returns is dropped. *)
Definition deferred {A} (d : cmd sys unit) (m : cmd sys A) : cmd sys A := fun s =>
  let '(s, r) := m s in
  match d s with
  | (s, Panic p) => (s, Panic p)
  | (s, _) => (s, r)
  end.

Definition nil_deref : string := "invalid memory address or nil pointer dereference".

(** [c.Datapath.List()] and [c.Close()], where [c], and its service, can be nil. *)
Definition Datapath_List (c : option nlClient) : cmd sys (list Datapath) :=
  match c ≫= client_Datapath with
  | Some f => on_system (List_ host UnmarshalAttributes nlenc_String nlenc_Uint32 Execute flags f)
  | None => fun s => (s, Panic nil_deref)
  end.

Definition client_Close (c : option nlClient) : cmd sys unit :=
  match c with
  | Some _ => on_system (Close CloseConn)
  | None => fun s => (s, Panic nil_deref)
  end.

(** The handling of a call: after an error [failed] prints it and the list is nil. *)
Definition or_print (failed : string) (m : cmd sys (list Datapath)) : cmd sys (list Datapath) := fun s =>
  match m s with
  | (s, Err e) => (_ ← Printf (failed +:+ error_text e); mret []) s
  | x => x
  end.

Fixpoint print_all (show : Datapath -> string) (l : list Datapath) : cmd sys unit :=
  match l with
  | [] => mret tt
  | d :: l => _ ← Printf (show d); print_all show l
  end.

Definition show_packet (p : Datapath) : string := "packets: " +:+ Quote (dp_Name p).
Definition show_datapath (d : Datapath) : string :=
  "datapath: " +:+ Quote (dp_Name d) +:+ ", flows: " +:+ fmt_d (Flows (Stats d)).

Definition newline_ : string := sing newline.

(** What follows the deferred closing. *)
Definition main_body (c : option nlClient) : cmd sys unit :=
  pkts ← or_print "failed to list packets: " (Datapath_List c);
  _ ← print_all show_packet pkts;
  _ ← Printf newline_;
  dps ← or_print "failed to list datapaths: " (Datapath_List c);
  _ ← print_all show_datapath dps;
  Printf (newline_ +:+ "Stopping go" +:+ newline_).

(** The client, and what is done with it or its error. *)
Definition main_client : cmd sys unit := fun s =>
  match on_system (New ListFamilies CloseConn Dial) s with
  | (s, Ok c) => deferred (client_Close (Some c)) (main_body (Some c)) s
  | (s, Err e) =>
      if IsNotExist e
      then Printf ("generic netlink OVS families not found: " +:+ error_text e) s
      else (_ ← Printf ("failed to create client " +:+ error_text e);
            deferred (client_Close None) (main_body None)) s
  | (s, Panic p) => (s, Panic p)
  end.

Definition main : cmd sys unit := _ ← Printf ("Testing go" +:+ newline_); main_client.

(** ** What is printed *)

Definition listed (failed : string) (show : Datapath -> string) (r : go (list Datapath)) : string :=
  match r with
  | Ok l => String.concat "" (map show l)
  | Err e => failed +:+ error_text e
  | Panic _ => ""
  end.

Definition greeting : string := "Testing go" +:+ newline_.
Definition farewell : string := newline_ +:+ "Stopping go" +:+ newline_.

Lemma print_all_spec show l w out :
  print_all show l (w, out) = ((w, out +:+ String.concat "" (map show l)), Ok tt).
Proof.
  revert out. induction l as [|d l IH]; intros out; [cbn; by rewrite app_nil_r'|].
  cbn [print_all map]. unfold mbind, cmd_bind. cbn [Printf]. by rewrite IH, concat_cons, app_assoc'.
Qed.

Lemma or_print_spec c f failed show w w1 r out :
  c ≫= client_Datapath = Some f ->
  List_ host UnmarshalAttributes nlenc_String nlenc_Uint32 Execute flags f w = (w1, r) -> is_Panic r = false ->
  exists l out1, or_print failed (Datapath_List c) (w, out) = ((w1, out1), Ok l) /\
    out1 +:+ String.concat "" (map show l) = out +:+ listed failed show r.
Proof.
  intros Hc Hl Hr. unfold or_print, Datapath_List. rewrite Hc. cbn [on_system]. rewrite Hl.
  destruct r as [l|e|p]; [by exists l, out| |done].
  eexists [], _. split; [reflexivity|]. cbn. by rewrite app_nil_r'.
Qed.

Lemma main_body_spec c f w w1 r1 w2 r2 out :
  client_Datapath c = Some f ->
  List_ host UnmarshalAttributes nlenc_String nlenc_Uint32 Execute flags f w = (w1, r1) -> is_Panic r1 = false ->
  List_ host UnmarshalAttributes nlenc_String nlenc_Uint32 Execute flags f w1 = (w2, r2) -> is_Panic r2 = false ->
  main_body (Some c) (w, out) =
  ((w2, out +:+ listed "failed to list packets: " show_packet r1 +:+ newline_ +:+
        listed "failed to list datapaths: " show_datapath r2 +:+ farewell), Ok tt).
Proof.
  intros Hc H1 P1 H2 P2. unfold main_body.
  destruct (or_print_spec (Some c) f "failed to list packets: " show_packet _ _ _ out Hc H1 P1) as (l1 & o1 & E1 & S1).
  rewrite (cmd_bind_Ok _ _ _ _ _ E1), (cmd_bind_Ok _ _ _ _ _ (print_all_spec _ _ _ _)).
  set (o2 := out +:+ listed "failed to list packets: " show_packet r1 +:+ newline_).
  rewrite (cmd_bind_Ok (Printf newline_) _ _ (w1, o2) tt) by (unfold o2; cbn; by rewrite S1, app_assoc').
  destruct (or_print_spec (Some c) f "failed to list datapaths: " show_datapath _ _ _ o2 Hc H2 P2) as (l2 & o3 & E2 & S2).
  rewrite (cmd_bind_Ok _ _ _ _ _ E2), (cmd_bind_Ok _ _ _ _ _ (print_all_spec _ _ _ _)).
  cbn. rewrite S2. unfold o2, farewell. by rewrite !app_assoc'.
Qed.

(** What the program prints and how it ends. With a client that has its datapath
    service it prints both lists, or the errors instead, closes the connection last and
    returns. Without the kernel's families it says so. After any other failure to make
    a client it prints the error, goes on with a nil client and dies of it. *)
Theorem main_outcomes w w1 rc :
  New ListFamilies CloseConn Dial w = (w1, rc) ->
  match rc with
  | Ok c => forall f w2 r1 w3 r2 w4, client_Datapath c = Some f ->
      List_ host UnmarshalAttributes nlenc_String nlenc_Uint32 Execute flags f w1 = (w2, r1) ->
      List_ host UnmarshalAttributes nlenc_String nlenc_Uint32 Execute flags f w2 = (w3, r2) ->
      is_Panic r1 = false -> is_Panic r2 = false -> (exists r, CloseConn w3 = (w4, r) /\ is_Panic r = false) ->
      main (w, "") = ((w4, greeting +:+ listed "failed to list packets: " show_packet r1 +:+ newline_ +:+
                           listed "failed to list datapaths: " show_datapath r2 +:+ farewell), Ok tt)
  | Err e => main (w, "") =
      if IsNotExist e
      then ((w1, greeting +:+ "generic netlink OVS families not found: " +:+ error_text e), Ok tt)
      else ((w1, greeting +:+ "failed to create client " +:+ error_text e), Panic nil_deref)
  | Panic p => main (w, "") = ((w1, greeting), Panic p)
  end.
Proof.
  intros Hn. change (main (w, "")) with (main_client (w, greeting)). unfold main_client.
  cbn [on_system]. rewrite Hn. destruct rc as [c|e|p]; [|by destruct (IsNotExist e)|done].
  intros f w2 r1 w3 r2 w4 Hc H1 H2 P1 P2 (r & Hcl & Pr). unfold deferred.
  rewrite (main_body_spec c f _ _ _ _ _ _ Hc H1 P1 H2 P2). cbn [client_Close on_system]. unfold Close.
  rewrite Hcl. by destruct r.
Qed.

(** ** The connection *)

Section connection.

(** How many connections the system holds open, and what the netlink packages do to it. *)
Context (opened : W -> nat).
Context (Dial_opens : forall w, opened (fst (Dial w)) = (if is_Ok (snd (Dial w)) then S (opened w) else opened w)).
Context (Close_closes : forall w, opened (fst (CloseConn w)) = Nat.pred (opened w)).
Context (ListFamilies_keeps : forall w, opened (fst (ListFamilies w)) = opened w /\ is_Panic (snd (ListFamilies w)) = false).
Context (Execute_keeps : forall m id fl w, opened (fst (Execute m id fl w)) = opened w).

Definition keeps {A} (m : cmd sys A) : Prop := forall s, opened (fst (fst (m s))) = opened (fst s).

Lemma keeps_bind {A B} (m : cmd sys A) (f : A -> cmd sys B) : keeps m -> (forall a, keeps (f a)) -> keeps (m ≫= f).
Proof.
  intros Hm Hf s. specialize (Hm s). unfold mbind, cmd_bind. destruct (m s) as [s1 [a|e|p]]; [|done..].
  by rewrite (Hf a s1).
Qed.

Lemma keeps_Printf t : keeps (Printf t).
Proof. by intros [w out]. Qed.

Lemma keeps_Datapath_List c : keeps (Datapath_List c).
Proof.
  unfold Datapath_List. destruct (c ≫= client_Datapath) as [f|]; [|done]. intros [w out]. cbn [on_system].
  unfold List_, mbind, cmd_bind.
  pose proof (Execute_keeps (request host DpCmdGet f) (fam_ID f) flags w) as He.
  by destruct (Execute _ _ _ w) as [w1 [ms|e|p]].
Qed.

Lemma keeps_or_print failed m : keeps m -> keeps (or_print failed m).
Proof.
  intros Hm s. specialize (Hm s). unfold or_print. by destruct (m s) as [[w1 o1] [l|e|p]].
Qed.

Lemma keeps_print_all show l : keeps (print_all show l).
Proof. induction l as [|d l IH]; [done|]. apply keeps_bind; [apply keeps_Printf|done]. Qed.

Lemma keeps_main_body c : keeps (main_body c).
Proof.
  unfold main_body.
  repeat first [apply keeps_bind; [|intros ?]|apply keeps_or_print|apply keeps_Datapath_List
               |apply keeps_print_all|apply keeps_Printf].
Qed.

Lemma New_opens w :
  opened (fst (New ListFamilies CloseConn Dial w)) =
    (if is_Ok (snd (New ListFamilies CloseConn Dial w)) then S (opened w) else opened w).
Proof.
  unfold New, newClient, mbind, cmd_bind. pose proof (Dial_opens w) as Hd.
  destruct (Dial w) as [w1 [[]|e|p]]; [|done..]. cbn [fst snd is_Ok] in Hd.
  destruct (ListFamilies_keeps w1) as [Hl Hp]. destruct (ListFamilies w1) as [w2 [fs|e|p]]; [| |done]; cbn [fst snd] in *.
  - pose proof (Close_closes w2). pose proof (init_no_panic (mkNlClient None None) fs).
    destruct (init _ fs) as [c|e|p]; cbn [fst snd is_Ok] in *; [lia|lia|done].
  - cbn [is_Ok]. rewrite Close_closes. lia.
Qed.

(** Whatever the kernel answers, and whether the program returns or dies of a panic,
    it leaves no connection open that it opened. *)
Theorem main_closes w : opened (fst (fst (main (w, "")))) = opened w.
Proof.
  change (main (w, "")) with (main_client (w, greeting)). unfold main_client. cbn [on_system].
  pose proof (New_opens w) as Hn. destruct (New _ _ _ w) as [w1 [c|e|p]]; cbn [fst snd is_Ok] in Hn; [| |done].
  - unfold deferred. pose proof (keeps_main_body (Some c) (w1, greeting)) as Hb.
    destruct (main_body (Some c) _) as [[w2 out] r]. cbn [fst client_Close on_system] in *. unfold Close.
    pose proof (Close_closes w2) as Hc. destruct (CloseConn w2) as [w3 [[]|e|p]]; cbn [fst] in *; lia.
  - by destruct (IsNotExist e).
Qed.
End connection.
End main.

(** ** Witnesses *)

Section Witnesses.
#[local] Existing Instance ascii_table.

(** A system that counts its connections and answers with the sample datapath. *)
Definition is_not_exist (e : error) : bool :=
  match e with ErrorString s => (s =? "file does not exist")%string | _ => false end.
Definition sampleMain (fams : list Family) : cmd (sys (W := nat)) unit :=
  main is_not_exist Little nla_UnmarshalAttributes c_string le_Uint32
    (fun n => (S n, Ok tt)) (fun n => (n, Ok fams)) (fun n => (Nat.pred n, Ok tt))
    (fun _ _ _ n => (n, Ok [sampleMessage])) 0.

Lemma main_outcomes_witness :
  sampleMain sampleFamilies (0%nat, "") =
  ((0%nat, greeting +:+ "packets: " +:+ Quote "ovs-system" +:+ newline_ +:+
           "datapath: " +:+ Quote "ovs-system" +:+ ", flows: 40" +:+ farewell), Ok tt).
Proof.
  pose proof (main_outcomes is_not_exist Little nla_UnmarshalAttributes c_string le_Uint32
    (fun n : nat => (S n, Ok tt)) (fun n => (n, Ok sampleFamilies)) (fun n => (Nat.pred n, Ok tt))
    (fun _ _ _ n => (n, Ok [sampleMessage])) 0 0%nat 1%nat
    (Ok (mkNlClient (Some (mkFamily 20 2 "ovs_datapath")) (Some (mkFamily 22 1 "ovs_packet")))) eq_refl
    (mkFamily 20 2 "ovs_datapath") 1%nat (Ok [sampleDatapath]) 1%nat (Ok [sampleDatapath]) 0%nat) as H.
  unfold sampleMain. rewrite H; try done.
  exists (Ok tt). by split.
Defined.

Lemma main_closes_witness : fst (fst (sampleMain [] (3%nat, ""))) = 3%nat.
Proof.
  apply (main_closes is_not_exist Little nla_UnmarshalAttributes c_string le_Uint32 _ _ _ _ 0 (fun n => n)).
  - done.
  - done.
  - done.
  - done.
Defined.

(** No families: the program says so. Four families of one name: the client has no
    datapath service, and the program dies of it. *)
Example main_no_families :
  sampleMain [] (0%nat, "") =
  ((0%nat, greeting +:+ "generic netlink OVS families not found: file does not exist"), Ok tt).
Proof. vm_compute. reflexivity. Qed.
Example main_same_names :
  sampleMain (repeat (mkFamily 22 1 "ovs_packet") 4) (0%nat, "") = ((0%nat, greeting), Panic nil_deref).
Proof. vm_compute. reflexivity. Qed.
End Witnesses.
