(* ===== verification/Ovsdb.v ===== *)
(** * The OVSDB client: calls, callbacks and background goroutines

    Models [ovsdb/client.go] as a transition system.  The state is the [Client]:
    its counter, its callback table, the response channels, the contexts that are
    done, and a program counter for every goroutine: the calls of [rpc], [listen],
    [echoLoop] and [echoTicker].  A step is an [action], which names the goroutine
    and, where a [select] has several ready cases or the connection decides, the
    case; [next] runs it.  Sections under [cbMu] are single steps.

    How the connection's [Send] and [Receive] come out is part of the action: a closed
    connection is one whose outcomes are errors.  [Close] is modelled in [Lifecycle],
    the decoding of results in [Wire]; here [json.Unmarshal] into the caller's value
    and the text of an error are arguments. *)

From stdpp Require Import gmap.
From S2P Require Import Prelude GoStrings GoConv.

(** ** Messages *)

(** [jsonrpc.Response]; a nil pointer or interface is [None]. The error value is
    kept as its [%#v] text. *)
Record Response := mkResponse {
  res_ID : option string; res_Result : string; res_Error : option string; res_Method : string
}.

Definition Response_Err (r : Response) : option error :=
  (fun e => Errorf "received JSON-RPC error: %#v" [inl e]) <$> res_Error r.

Record rpcResponse := mkRpcResponse { rr_Result : string; rr_Error : option error }.

(** ** State *)

(** A context is a number; a response channel is named by the call that made it,
    and has room for one value. *)
Record callback := mkCallback { cb_ctx : nat; cb_chan : nat }.
Record chan := mkChan { ch_buf : option rpcResponse; ch_closed : bool }.

(** What a call of [rpc] gets: the value for [rpcResult], an error, or a nil error
    without a value. *)
Inductive rpc_out := OutResult (r : rpcResponse) | OutErr (e : error) | OutNil.

Inductive rpc_pc :=
| RpcStart                       (** before the check of the context *)
| RpcRequest                     (** before [requestID] *)
| RpcRegister (id : string)      (** before [addCallback] *)
| RpcSend (id : string)
| RpcWait (id : string)          (** at the [select] *)
| RpcCleanup (id : string) (out : rpc_out) (** before the deferred delete *)
| RpcReturned (id : option string) (out : rpc_out)
| RpcPanicked.

Record call := mkCall { call_ctx : nat; call_pc : rpc_pc }.

Inductive listen_pc := LReceive | LEcho | LCallback (id : string) (r : rpcResponse) | LStopped | LPanicked.
Inductive echo_pc := EWait | ETick | EEcho (n : nat) | EStopped | EPanicked.
Inductive ticker_pc := TWait | TTick | TSend | TStopped | TPanicked.

Record Client := mkClient {
  rpcID : Z; echoOK : Z; echoFail : Z;
  callbacks : gmap string callback;
  chans : gmap nat chan;
  done : gmap nat error;
  stuck : bool;          (** the JSON decoder has failed for good *)
  calls : gmap nat call;
  listener : listen_pc; echoer : echo_pc; ticker : ticker_pc
}.

(** The context of the client's own goroutines. *)
Definition client_ctx : nat := 0.

(** [time.NewTicker] panics on a negative interval. *)
Definition New (echoInterval : Z) : Client :=
  mkClient 0 0 0 ∅ ∅ ∅ false ∅ LReceive EWait
    (if echoInterval =? 0 then TStopped else if echoInterval <? 0 then TPanicked else TWait).

Definition set_callbacks (x : gmap string callback) (s : Client) : Client :=
  mkClient (rpcID s) (echoOK s) (echoFail s) x (chans s) (done s) (stuck s) (calls s) (listener s) (echoer s) (ticker s).
Definition set_chan (n : nat) (ch : chan) (s : Client) : Client :=
  mkClient (rpcID s) (echoOK s) (echoFail s) (callbacks s) (<[n := ch]> (chans s)) (done s) (stuck s) (calls s)
    (listener s) (echoer s) (ticker s).
Definition set_pc (n : nat) (ctx : nat) (pc : rpc_pc) (s : Client) : Client :=
  mkClient (rpcID s) (echoOK s) (echoFail s) (callbacks s) (chans s) (done s) (stuck s)
    (<[n := mkCall ctx pc]> (calls s)) (listener s) (echoer s) (ticker s).
Definition set_listener (x : listen_pc) (s : Client) : Client :=
  mkClient (rpcID s) (echoOK s) (echoFail s) (callbacks s) (chans s) (done s) (stuck s) (calls s) x (echoer s) (ticker s).
Definition set_echoer (x : echo_pc) (s : Client) : Client :=
  mkClient (rpcID s) (echoOK s) (echoFail s) (callbacks s) (chans s) (done s) (stuck s) (calls s) (listener s) x (ticker s).
Definition set_ticker (x : ticker_pc) (s : Client) : Client :=
  mkClient (rpcID s) (echoOK s) (echoFail s) (callbacks s) (chans s) (done s) (stuck s) (calls s) (listener s) (echoer s) x.
Definition set_done (ctx : nat) (e : error) (s : Client) : Client :=
  mkClient (rpcID s) (echoOK s) (echoFail s) (callbacks s) (chans s) (<[ctx := e]> (done s)) (stuck s) (calls s)
    (listener s) (echoer s) (ticker s).
Definition set_stuck (x : bool) (s : Client) : Client :=
  mkClient (rpcID s) (echoOK s) (echoFail s) (callbacks s) (chans s) (done s) x (calls s) (listener s) (echoer s) (ticker s).
Definition count_echo (ok : bool) (s : Client) : Client :=
  mkClient (rpcID s) (if ok then int64 (echoOK s + 1) else echoOK s) (if ok then echoFail s else int64 (echoFail s + 1))
    (callbacks s) (chans s) (done s) (stuck s) (calls s) (listener s) (echoer s) (ticker s).

(** ** Operations on the client *)

(** [requestID]: the counter is an [int64]. *)
Definition requestID (s : Client) : string * Client :=
  let n := int64 (rpcID s + 1) in
  (FormatInt n 10,
   mkClient n (echoOK s) (echoFail s) (callbacks s) (chans s) (done s) (stuck s) (calls s) (listener s) (echoer s) (ticker s)).

Definition addCallback (id : string) (cb : callback) (s : Client) : go Client :=
  match callbacks s !! id with
  | Some _ => Panic "OVSDB callback already registered"
  | None => Ok (set_callbacks (<[id := cb]> (callbacks s)) s)
  end.

(** The deferred function of [rpc]. *)
Definition removeCallback (id : string) (s : Client) : Client := set_callbacks (delete id (callbacks s)) s.

(** The cases of a [select]: the context's, or the channel's. *)
Inductive case := CaseDone | CaseChan.

(** [doCallback]; [None] when the chosen case is not ready. *)
Definition doCallback (k : case) (id : string) (res : rpcResponse) (s : Client) : option (go Client) :=
  match callbacks s !! id with
  | None => Some (Ok s)
  | Some cb =>
      let ch := default (mkChan None false) (chans s !! cb_chan cb) in
      let finish ch :=
        if ch_closed ch then Panic "close of closed channel"
        else Ok (set_callbacks (delete id (callbacks s)) (set_chan (cb_chan cb) (mkChan (ch_buf ch) true) s)) in
      match k with
      | CaseDone => match done s !! cb_ctx cb with Some _ => Some (finish ch) | None => None end
      | CaseChan =>
          if ch_closed ch then Some (Panic "send on closed channel")
          else match ch_buf ch with
               | None => Some (finish (mkChan (Some res) false))
               | Some _ => None
               end
      end
  end.

(** [Stats]. *)
Record ClientStats := mkClientStats { Callbacks_Current : nat; EchoLoop_Success : Z; EchoLoop_Failure : Z }.
Definition Stats (s : Client) : ClientStats := mkClientStats (size (callbacks s)) (echoOK s) (echoFail s).

(** ** Steps *)

(** How [c.c.Receive] comes out: a message, an end of file or closed connection, or
    any other error.  After an error in the text or in reading it, [json.Decoder]
    returns the same error for ever; an error of types is for one message only. *)
Inductive received := Message (r : Response) | ReceiveStop | ReceiveError (for_ever : bool).

Inductive action :=
| ACall (n ctx : nat)                 (** a goroutine calls a method *)
| ACancel (ctx : nat) (e : error)     (** a context is cancelled or times out *)
| ARpc (n : nat) (k : case)
| ASend (n : nat) (err : option error)
| AReceive (m : received)
| AListen (k : case)
| AEcho (n : nat) (k : case)          (** the echo loop; [n] names its next call *)
| ATicker (k : case)
| AEchoFromListen | AEchoFromTicker.  (** a value passes through [echoC] *)

(** One step of [rpc]. *)
Definition rpc_next (n : nat) (k : case) (s : Client) : option Client :=
  match calls s !! n with
  | None => None
  | Some c =>
      let ctx := call_ctx c in
      match call_pc c with
      | RpcStart =>
          match done s !! ctx with
          | Some e => Some (set_pc n ctx (RpcReturned None (OutErr e)) s)
          | None => Some (set_pc n ctx RpcRequest s)
          end
      | RpcRequest => let (id, s) := requestID s in Some (set_pc n ctx (RpcRegister id) s)
      | RpcRegister id =>
          match addCallback id (mkCallback ctx n) (set_chan n (mkChan None false) s) with
          | Ok s => Some (set_pc n ctx (RpcSend id) s)
          | _ => Some (set_pc n ctx RpcPanicked s)
          end
      | RpcWait id =>
          match k with
          | CaseDone =>
              match done s !! ctx with
              | Some e => Some (set_pc n ctx (RpcCleanup id (OutErr e)) s)
              | None => None
              end
          | CaseChan =>
              let ch := default (mkChan None false) (chans s !! n) in
              match ch_buf ch with
              | Some r => Some (set_pc n ctx (RpcCleanup id (OutResult r)) (set_chan n (mkChan None (ch_closed ch)) s))
              | None =>
                  if ch_closed ch
                  then Some (set_pc n ctx (RpcCleanup id
                         (match done s !! ctx with Some e => OutErr e | None => OutNil end)) s)
                  else None
              end
          end
      | RpcCleanup id out => Some (set_pc n ctx (RpcReturned (Some id) out) (removeCallback id s))
      | RpcSend _ | RpcReturned _ _ | RpcPanicked => None
      end
  end.

Definition send_next (n : nat) (err : option error) (s : Client) : option Client :=
  match calls s !! n with
  | Some (mkCall ctx (RpcSend id)) =>
      Some (set_pc n ctx (match err with Some e => RpcCleanup id (OutErr e) | None => RpcWait id end) s)
  | _ => None
  end.

(** One message in [listen]. *)
Definition receive_next (m : received) (s : Client) : option Client :=
  match listener s with
  | LReceive =>
      if stuck s then match m with ReceiveError _ => Some s | _ => None end
      else match m with
      | ReceiveStop => Some (set_listener LStopped s)
      | ReceiveError for_ever => Some (set_stuck for_ever s)
      | Message res =>
          if (res_Method res =? "echo")%string then Some (set_listener LEcho s)
          else match res_ID res with
               | None => Some (set_listener LPanicked s)
               | Some id =>
                   Some (set_listener (LCallback id
                     match Response_Err res with
                     | Some e => mkRpcResponse "" (Some e)
                     | None => mkRpcResponse (res_Result res) None
                     end) s)
               end
      end
  | _ => None
  end.

Definition listen_next (k : case) (s : Client) : option Client :=
  match listener s with
  | LEcho => match done s !! client_ctx with Some _ => Some (set_listener LReceive s) | None => None end
  | LCallback id r =>
      match doCallback k id r s with
      | Some (Ok s) => Some (set_listener LReceive s)
      | Some _ => Some (set_listener LPanicked s)
      | None => None
      end
  | _ => None
  end.

(** [rpcResult]: [unmarshal] is [json.Unmarshal] into the [result], whose error it returns. *)
Definition rpcResult {A} (unmarshal : string -> go A) (r : rpcResponse) : go A :=
  match rr_Error r with Some e => Err e | None => unmarshal (rr_Result r) end.

Section decode.
Context (Unmarshal : string -> go (list string)) (Error : error -> string).

Definition isClosedNetwork (err : error) : bool := Contains (Error err) "use of closed network connection".

Definition echo_request : string := "github.com/digitalocean/go-openvswitch/ovsdb".

(** [Echo], after its [rpc]: the error it returns. *)
Definition echo_error (out : rpc_out) : go (option error) :=
  match out with
  | OutErr e => Ok (Some e)
  | OutNil => Ok (Some (Errorf "invalid echo response: %q" [inl ""]))
  | OutResult r =>
      match rpcResult Unmarshal r with
      | Ok l => let res := default "" (l !! 0%nat) in
                Ok (if (res =? echo_request)%string then None
                    else Some (Errorf "invalid echo response: %q" [inl res]))
      | Err e => Ok (Some e)
      | Panic w => Panic w
      end
  end.

Definition echo_next (n : nat) (k : case) (s : Client) : option Client :=
  match echoer s with
  | EWait => match done s !! client_ctx with Some _ => Some (set_echoer EStopped s) | None => None end
  | ETick =>
      match done s !! client_ctx with
      | Some _ => Some (set_echoer EStopped s)
      | None => match calls s !! n with
                | None => Some (set_echoer (EEcho n) (set_pc n client_ctx RpcStart s))
                | Some _ => None
                end
      end
  | EEcho m =>
      match calls s !! m with
      | Some (mkCall _ (RpcReturned _ out)) =>
          match echo_error out with
          | Ok None => Some (set_echoer EWait (count_echo true s))
          | Ok (Some e) => if isClosedNetwork e then Some (set_echoer EWait s)
                           else Some (set_echoer EWait (count_echo false s))
          | _ => Some (set_echoer EPanicked s)
          end
      | _ => None
      end
  | EStopped | EPanicked => None
  end.

Definition ticker_next (k : case) (s : Client) : option Client :=
  match ticker s, k with
  | TWait, CaseChan => Some (set_ticker TTick s)
  | (TWait | TSend), CaseDone =>
      match done s !! client_ctx with Some _ => Some (set_ticker TStopped s) | None => None end
  | TTick, _ => match done s !! client_ctx with
                | Some _ => Some (set_ticker TStopped s)
                | None => Some (set_ticker TSend s)
                end
  | _, _ => None
  end.

Definition next (a : action) (s : Client) : option Client :=
  match a with
  | ACall n ctx => match calls s !! n with None => Some (set_pc n ctx RpcStart s) | Some _ => None end
  | ACancel ctx e => match done s !! ctx with None => Some (set_done ctx e s) | Some _ => None end
  | ARpc n k => rpc_next n k s
  | ASend n err => send_next n err s
  | AReceive m => receive_next m s
  | AListen k => listen_next k s
  | AEcho n k => echo_next n k s
  | ATicker k => ticker_next k s
  | AEchoFromListen =>
      match listener s, echoer s with
      | LEcho, EWait => Some (set_echoer ETick (set_listener LReceive s))
      | _, _ => None
      end
  | AEchoFromTicker =>
      match ticker s, echoer s with
      | TSend, EWait => Some (set_echoer ETick (set_ticker TWait s))
      | _, _ => None
      end
  end.

Fixpoint run (acts : list action) (s : Client) : option Client :=
  match acts with
  | [] => Some s
  | a :: acts => match next a s with Some s => run acts s | None => None end
  end.
End decode.

(** ** Invariant *)

(** The response of a message, and its delivery in a run. *)
Definition response_of (res : Response) : rpcResponse :=
  match Response_Err res with
  | Some e => mkRpcResponse "" (Some e)
  | None => mkRpcResponse (res_Result res) None
  end.

Definition delivered (tr : list action) (id : string) (r : rpcResponse) : Prop :=
  exists res, In (AReceive (Message res)) tr /\ res_ID res = Some id /\ r = response_of res.

Lemma delivered_snoc tr a id r : delivered tr id r -> delivered (tr ++ [a]) id r.
Proof. intros (res & H & Hr). exists res. split; [|done]. apply in_or_app. by left. Qed.

Definition id_of (pc : rpc_pc) : option string :=
  match pc with
  | RpcRegister id | RpcSend id | RpcWait id | RpcCleanup id _ => Some id
  | RpcReturned id _ => id
  | _ => None
  end.

(** The calls whose callback may be in the table. *)
Definition registered (pc : rpc_pc) (id : string) : Prop :=
  match pc with
  | RpcSend i | RpcWait i | RpcCleanup i _ => i = id
  | _ => False
  end.

Section invariant.
Context (tr : list action).

(** The channel of a registered call: open, empty and in the table, or closed by
    [doCallback], which left a response in it or found the context done. *)
Definition chan_ok (s : Client) (n ctx : nat) (id : string) (waiting : Prop) : Prop :=
  exists ch, chans s !! n = Some ch /\
    if ch_closed ch
    then (forall r, ch_buf ch = Some r -> delivered tr id r) /\
         (waiting -> ch_buf ch = None -> is_Some (done s !! ctx))
    else ch_buf ch = None /\ callbacks s !! id = Some (mkCallback ctx n).

Definition out_ok (id : option string) (out : rpc_out) : Prop :=
  match out with
  | OutResult r => exists i, id = Some i /\ delivered tr i r
  | OutErr _ => True
  | OutNil => False
  end.

Definition call_ok (s : Client) (n : nat) (c : call) : Prop :=
  match call_pc c with
  | RpcStart | RpcRequest | RpcRegister _ => True
  | RpcSend id | RpcWait id => chan_ok s n (call_ctx c) id True
  | RpcCleanup id out => chan_ok s n (call_ctx c) id False /\ out_ok (Some id) out
  | RpcReturned id out => out_ok id out
  | RpcPanicked => False
  end.

Record Inv (k : Z) (s : Client) : Prop := mkInv {
  I_id : 0 <= rpcID s <= k;
  I_ids n c id : calls s !! n = Some c -> id_of (call_pc c) = Some id ->
    exists j, id = FormatInt j 10 /\ 0 < j <= rpcID s;
  I_inj n m c d id : calls s !! n = Some c -> calls s !! m = Some d ->
    id_of (call_pc c) = Some id -> id_of (call_pc d) = Some id -> n = m;
  I_cb id cb : callbacks s !! id = Some cb -> exists c, calls s !! cb_chan cb = Some c /\
    registered (call_pc c) id /\ call_ctx c = cb_ctx cb /\ chans s !! cb_chan cb = Some (mkChan None false);
  I_call n c : calls s !! n = Some c -> call_ok s n c;
  I_listen : match listener s with
             | LCallback id r => delivered tr id r
             | LPanicked => exists res, In (AReceive (Message res)) tr /\ res_ID res = None
             | _ => True
             end
}.
End invariant.

Lemma registered_id pc id : registered pc id -> id_of pc = Some id.
Proof. destruct pc; cbn; try done; by intros ->. Qed.

Lemma FormatInt_inj i j : in_i64 i -> in_i64 j -> FormatInt i 10 = FormatInt j 10 -> i = j.
Proof.
  intros Hi Hj H. apply ParseInt_FormatInt in Hi, Hj. rewrite H, Hj in Hi. by injection Hi.
Qed.

Lemma chan_ok_snoc tr a s n ctx id w : chan_ok tr s n ctx id w -> chan_ok (tr ++ [a]) s n ctx id w.
Proof.
  intros (ch & Hc & H). exists ch. split; [done|]. destruct (ch_closed ch); [|done].
  destruct H as [H1 H2]. split; [|done]. intros r Hr. by apply delivered_snoc, H1.
Qed.

Lemma out_ok_snoc tr a id out : out_ok tr id out -> out_ok (tr ++ [a]) id out.
Proof. destruct out; cbn; try done. intros (i & Hi & H). exists i. split; [done|]. by apply delivered_snoc. Qed.

Lemma Inv_snoc tr a k s : Inv tr k s -> Inv (tr ++ [a]) k s.
Proof.
  intros [H1 H2 H3 H4 H5 H6]. split; try done.
  - intros n c Hc. specialize (H5 n c Hc). unfold call_ok in *. destruct (call_pc c); try done.
    + by apply chan_ok_snoc.
    + by apply chan_ok_snoc.
    + destruct H5. split; [by apply chan_ok_snoc|by apply out_ok_snoc].
    + by apply out_ok_snoc.
  - destruct (listener s); try done; [by apply delivered_snoc|].
    destruct H6 as (res & H & Hr). exists res. split; [|done]. apply in_or_app. by left.
Qed.

Lemma Inv_weaken tr k k' s : k <= k' -> Inv tr k s -> Inv tr k' s.
Proof. intros Hk [H1 H2 H3 H4 H5 H6]. split; try done. lia. Qed.

(** The initial state. *)
Lemma Inv_New d : Inv [] 0 (New d).
Proof. split; cbn; try done; try lia; intros *; rewrite ?lookup_empty; try done. Qed.

(** *** Steps keep the invariant *)

Section steps.
Context (tr : list action).

(** A step of the background goroutines, of a context or of the connection. *)
Lemma Inv_frame k s s' :
  Inv tr k s -> rpcID s' = rpcID s -> callbacks s' = callbacks s -> chans s' = chans s -> calls s' = calls s ->
  (forall ctx, is_Some (done s !! ctx) -> is_Some (done s' !! ctx)) ->
  match listener s' with
  | LCallback id r => delivered tr id r
  | LPanicked => exists res, In (AReceive (Message res)) tr /\ res_ID res = None
  | _ => True
  end -> Inv tr k s'.
Proof.
  intros [H1 H2 H3 H4 H5 H6] E1 E2 E3 E4 Hd Hl. split; rewrite ?E1, ?E2, ?E3, ?E4; try done.
  intros n c Hc. specialize (H5 n c Hc). revert H5. unfold call_ok, chan_ok. rewrite E2, E3.
  assert (Hch : forall ch (w : Prop), (w -> ch_buf ch = None -> is_Some (done s !! call_ctx c)) ->
    w -> ch_buf ch = None -> is_Some (done s' !! call_ctx c)) by eauto.
  destruct (call_pc c); try done.
  - intros (ch & Hch1 & H). exists ch. split; [done|]. destruct (ch_closed ch); [|done].
    destruct H as [Ha Hb]. split; [done|]. intros Hw Hn. by apply Hd, Hb.
  - intros (ch & Hch1 & H). exists ch. split; [done|]. destruct (ch_closed ch); [|done].
    destruct H as [Ha Hb]. split; [done|]. intros Hw Hn. by apply Hd, Hb.
  - intros [(ch & Hch1 & H) Ho]. split; [|done]. exists ch. split; [done|]. destruct (ch_closed ch); [|done].
    destruct H as [Ha Hb]. split; [done|]. intros [].
Qed.

(** A call moves on and nothing else changes. *)
Lemma Inv_set_pc k s n c pc :
  Inv tr k s -> calls s !! n = Some c ->
  (id_of pc = None \/ id_of pc = id_of (call_pc c)) ->
  (forall id, registered (call_pc c) id -> registered pc id) ->
  call_ok tr s n (mkCall (call_ctx c) pc) -> Inv tr k (set_pc n (call_ctx c) pc s).
Proof.
  intros [H1 H2 H3 H4 H5 H6] Hc Hid Hreg Hok.
  assert (Hlk : forall m d, calls (set_pc n (call_ctx c) pc s) !! m = Some d ->
    exists d', calls s !! m = Some d' /\ call_ctx d = call_ctx d' /\
      (id_of (call_pc d) = None \/ id_of (call_pc d) = id_of (call_pc d')) /\
      (m = n /\ d = mkCall (call_ctx c) pc \/ m <> n /\ d = d')).
  { intros m d. cbn. destruct (decide (m = n)) as [->|Hne].
    - rewrite lookup_insert_eq. intros [= <-]. exists c. cbn. split_and!; try done. by left.
    - rewrite lookup_insert_ne by done. intros Hd. exists d. split_and!; try done; by right. }
  split; try done.
  - intros m d id Hd Hi. destruct (Hlk m d Hd) as (d' & Hd' & _ & [E|E] & _); [congruence|].
    rewrite E in Hi. by apply (H2 m d').
  - intros m l d e id Hd He Hi Hj. destruct (Hlk m d Hd) as (d' & Hd' & _ & [E|E] & _); [congruence|].
    destruct (Hlk l e He) as (e' & He' & _ & [F|F] & _); [congruence|].
    rewrite E in Hi. rewrite F in Hj. by eapply H3.
  - intros id cb Hcb. destruct (H4 id cb Hcb) as (d & Hd & Hr & Hx & Hch). cbn.
    destruct (decide (cb_chan cb = n)) as [E|Hne].
    + rewrite E, lookup_insert_eq. eexists. split; [done|]. cbn.
      rewrite E, Hc in Hd. injection Hd as <-. split_and!; [by apply Hreg|done|]. by rewrite <- E.
    + rewrite lookup_insert_ne by done. by exists d.
  - intros m d Hd. destruct (Hlk m d Hd) as (d' & Hd' & _ & _ & [[-> ->]|[_ ->]]); [done|].
    exact (H5 m d' Hd').
Qed.

(** A new call. *)
Lemma Inv_new_call k s n ctx :
  Inv tr k s -> calls s !! n = None -> Inv tr k (set_pc n ctx RpcStart s).
Proof.
  intros [H1 H2 H3 H4 H5 H6] Hc. split; try done; cbn.
  - intros m d id. destruct (decide (m = n)) as [->|Hne]; [rewrite lookup_insert_eq; by intros [= <-]|].
    rewrite lookup_insert_ne by done. apply H2.
  - intros m l d e id.
    destruct (decide (m = n)) as [->|Hm]; [rewrite lookup_insert_eq; by intros [= <-]|].
    destruct (decide (l = n)) as [->|Hl]; [rewrite lookup_insert_eq; by intros ? [= <-]|].
    rewrite !lookup_insert_ne by done. apply H3.
  - intros id cb Hcb. destruct (H4 id cb Hcb) as (d & Hd & Hr). exists d. split; [|done].
    rewrite lookup_insert_ne; [done|]. congruence.
  - intros m d. destruct (decide (m = n)) as [->|Hne]; [rewrite lookup_insert_eq; by intros [= <-]|].
    rewrite lookup_insert_ne by done. apply (H5 m d).
Qed.

(** [requestID] gives an identifier no call has. *)
Lemma Inv_request k s n c :
  Inv tr k s -> k < 2 ^ 63 - 1 -> calls s !! n = Some c -> call_pc c = RpcRequest ->
  let (id, s') := requestID s in Inv tr (k + 1) (set_pc n (call_ctx c) (RpcRegister id) s').
Proof.
  intros [H1 H2 H3 H4 H5 H6] Hk Hc Hpc. cbn. rewrite int64_small by (unfold in_i64; lia).
  assert (Hnew : forall m d, calls s !! m = Some d -> id_of (call_pc d) <> Some (FormatInt (rpcID s + 1) 10)).
  { intros m d Hd Hi. destruct (H2 m d _ Hd Hi) as (j & Hj & Hr).
    apply FormatInt_inj in Hj; unfold in_i64; lia. }
  split; cbn; [lia|..].
  - intros m d id. destruct (decide (m = n)) as [->|Hne].
    + rewrite lookup_insert_eq. intros [= <-] [= <-]. exists (rpcID s + 1). split; [done|lia].
    + rewrite lookup_insert_ne by done. intros Hd Hi. destruct (H2 m d id Hd Hi) as (j & -> & Hj).
      exists j. split; [done|lia].
  - intros m l d e id. destruct (decide (m = n)) as [->|Hm].
    + rewrite lookup_insert_eq. intros [= <-]. cbn. destruct (decide (l = n)) as [->|Hl]; [done|].
      rewrite lookup_insert_ne by done. intros He [= <-] Hi. by destruct (Hnew l e He).
    + rewrite lookup_insert_ne by done. intros Hd. destruct (decide (l = n)) as [->|Hl].
      * rewrite lookup_insert_eq. intros [= <-] Hi. cbn. intros [= <-]. by destruct (Hnew m d Hd).
      * rewrite lookup_insert_ne by done. by apply H3.
  - intros id cb Hcb. destruct (H4 id cb Hcb) as (d & Hd & Hr & Hx). exists d. split; [|done].
    rewrite lookup_insert_ne; [done|]. intros E. rewrite <- E, Hc in Hd. injection Hd as <-. by rewrite Hpc in Hr.
  - intros m d. destruct (decide (m = n)) as [->|Hne]; [rewrite lookup_insert_eq; by intros [= <-]|].
    rewrite lookup_insert_ne by done. apply (H5 m d).
  - done.
Qed.

(** The channel of another call is as it was. *)
Lemma call_ok_frame s s' m d :
  call_ok tr s m d -> chans s' !! m = chans s !! m -> done s' = done s ->
  (forall id, registered (call_pc d) id -> callbacks s' !! id = callbacks s !! id) ->
  call_ok tr s' m d.
Proof.
  intros H Hch Hd Hcb. unfold call_ok, chan_ok in *. rewrite Hch, Hd. destruct (call_pc d); try done.
  - rewrite (Hcb id) by done. done.
  - rewrite (Hcb id) by done. done.
  - rewrite (Hcb id) by done. done.
Qed.

(** [addCallback] on a fresh identifier. *)
Lemma Inv_register k s n c id :
  Inv tr k s -> calls s !! n = Some c -> call_pc c = RpcRegister id ->
  exists s', addCallback id (mkCallback (call_ctx c) n) (set_chan n (mkChan None false) s) = Ok s' /\
    Inv tr k (set_pc n (call_ctx c) (RpcSend id) s').
Proof.
  intros [H1 H2 H3 H4 H5 H6] Hc Hpc. unfold addCallback. cbn.
  assert (Hno : forall cb, callbacks s !! id = Some cb -> False).
  { intros cb Hcb. destruct (H4 id cb Hcb) as (d & Hd & Hr & _).
    assert (E : n = cb_chan cb) by (eapply H3; [done|done|by rewrite Hpc|by apply registered_id]).
    rewrite <- E, Hc in Hd. injection Hd as <-. by rewrite Hpc in Hr. }
  destruct (callbacks s !! id) as [cb|] eqn:Hcb; [by destruct (Hno cb)|].
  eexists. split; [reflexivity|]. split; cbn; [done|..].
  - intros m d i. destruct (decide (m = n)) as [->|Hne].
    + rewrite lookup_insert_eq. intros [= <-] [= <-]. apply (H2 n c); [done|by rewrite Hpc].
    + rewrite lookup_insert_ne by done. apply H2.
  - intros m l d e i. destruct (decide (m = n)) as [->|Hm].
    + rewrite lookup_insert_eq. intros [= <-]. cbn. destruct (decide (l = n)) as [->|Hl]; [done|].
      rewrite lookup_insert_ne by done. intros He [= <-] Hi. eapply H3; [exact Hc|exact He|by rewrite Hpc|done].
    + rewrite lookup_insert_ne by done. intros Hd. destruct (decide (l = n)) as [->|Hl].
      * rewrite lookup_insert_eq. intros [= <-] Hi. cbn. intros [= <-].
        eapply H3; [exact Hd|exact Hc|done|by rewrite Hpc].
      * rewrite lookup_insert_ne by done. by apply H3.
  - intros i cb. destruct (decide (i = id)) as [->|Hne].
    + rewrite lookup_insert_eq. intros [= <-]. cbn. rewrite !lookup_insert_eq. by eexists.
    + rewrite lookup_insert_ne by done. intros Hi. destruct (H4 i cb Hi) as (d & Hd & Hr & Hx & Hch).
      assert (E : cb_chan cb <> n).
      { intros E. rewrite E, Hc in Hd. injection Hd as <-. by rewrite Hpc in Hr. }
      rewrite !lookup_insert_ne by done. by exists d.
  - intros m d. destruct (decide (m = n)) as [->|Hne].
    + rewrite lookup_insert_eq. intros [= <-]. unfold call_ok, chan_ok. cbn. rewrite !lookup_insert_eq.
      eexists. split; [done|]. done.
    + rewrite lookup_insert_ne by done. intros Hd. apply (call_ok_frame s); [by apply H5| | |].
      * cbn. by rewrite lookup_insert_ne.
      * done.
      * intros i Hr. cbn. rewrite lookup_insert_ne; [done|]. intros <-. apply Hne.
        eapply H3; [exact Hd|exact Hc|by apply registered_id|by rewrite Hpc].
  - done.
Qed.

(** A call takes the response out of its closed channel. *)
Lemma Inv_take k s n c id r :
  Inv tr k s -> calls s !! n = Some c -> call_pc c = RpcWait id ->
  chans s !! n = Some (mkChan (Some r) true) -> delivered tr id r ->
  Inv tr k (set_pc n (call_ctx c) (RpcCleanup id (OutResult r)) (set_chan n (mkChan None true) s)).
Proof.
  intros HI Hc Hpc Hch Hdel.
  assert (HI' : Inv tr k (set_pc n (call_ctx c) (RpcCleanup id (OutResult r)) s)).
  { apply (Inv_set_pc k s n c); [done|done|right; by rewrite Hpc| |].
    - intros i. by rewrite Hpc.
    - split; [|by exists id]. cbn. exists (mkChan (Some r) true). split; [done|]. cbn.
      split; [|done]. by intros r' [= <-]. }
  destruct HI' as [H1 H2 H3 H4 H5 H6]. split; try done; cbn in *.
  - intros i cb Hcb. destruct (H4 i cb Hcb) as (d & Hd & Hr & Hx & Hch'). exists d. split_and!; try done.
    rewrite lookup_insert_ne; [done|]. congruence.
  - intros m d Hd. specialize (H5 m d Hd). destruct (decide (m = n)) as [->|Hne].
    + rewrite lookup_insert_eq in Hd. injection Hd as <-. unfold call_ok, chan_ok in *. cbn in *.
      rewrite lookup_insert_eq. split; [|by exists id]. eexists. split; [done|]. by split.
    + apply (call_ok_frame _ _ _ _ H5); [|done|done]. cbn. by rewrite lookup_insert_ne.
Qed.

(** The deferred delete of a call. *)
Lemma Inv_cleanup k s n c id out :
  Inv tr k s -> calls s !! n = Some c -> call_pc c = RpcCleanup id out ->
  Inv tr k (set_pc n (call_ctx c) (RpcReturned (Some id) out) (removeCallback id s)).
Proof.
  intros [H1 H2 H3 H4 H5 H6] Hc Hpc. pose proof (H5 n c Hc) as Hok. unfold call_ok in Hok. rewrite Hpc in Hok.
  assert (Hown : forall m d i, calls s !! m = Some d -> id_of (call_pc d) = Some i -> m <> n -> i <> id).
  { intros m d i Hd Hi Hne ->. apply Hne. eapply H3; [exact Hd|exact Hc|done|by rewrite Hpc]. }
  split; cbn; [done|..].
  - intros m d i. destruct (decide (m = n)) as [->|Hne].
    + rewrite lookup_insert_eq. intros [= <-] [= <-]. apply (H2 n c); [done|by rewrite Hpc].
    + rewrite lookup_insert_ne by done. apply H2.
  - intros m l d e i. destruct (decide (m = n)) as [->|Hm].
    + rewrite lookup_insert_eq. intros [= <-]. cbn. destruct (decide (l = n)) as [->|Hl]; [done|].
      rewrite lookup_insert_ne by done. intros He [= <-] Hi. by destruct (Hown l e id He Hi).
    + rewrite lookup_insert_ne by done. intros Hd. destruct (decide (l = n)) as [->|Hl].
      * rewrite lookup_insert_eq. intros [= <-] Hi. cbn. intros [= <-]. by destruct (Hown m d id Hd Hi).
      * rewrite lookup_insert_ne by done. by apply H3.
  - intros i cb. rewrite lookup_delete_Some. intros [Hne Hcb]. destruct (H4 i cb Hcb) as (d & Hd & Hr & Hx & Hch).
    assert (E : cb_chan cb <> n).
    { intros E. rewrite E, Hc in Hd. injection Hd as <-. rewrite Hpc in Hr. by cbn in Hr. }
    rewrite lookup_insert_ne by done. by exists d.
  - intros m d. destruct (decide (m = n)) as [->|Hne].
    + rewrite lookup_insert_eq. intros [= <-]. unfold call_ok. cbn. apply Hok.
    + rewrite lookup_insert_ne by done. intros Hd. apply (call_ok_frame s); [by apply H5|done|done|].
      intros i Hr. cbn. rewrite lookup_delete_ne; [done|]. symmetry. apply (Hown m d i); [done|by apply registered_id|done].
  - done.
Qed.

(** [doCallback] never finds a full or closed channel. *)
Lemma Inv_doCallback k s kc id r out :
  Inv tr k s -> delivered tr id r -> doCallback kc id r s = Some out ->
  exists s', out = Ok s' /\ listener s' = listener s /\ forall l, (l = LReceive) -> Inv tr k (set_listener l s').
Proof.
  intros HI Hdel Hout. pose proof HI as [H1 H2 H3 H4 H5 H6]. unfold doCallback in Hout.
  destruct (callbacks s !! id) as [cb|] eqn:Hcb.
  2:{ injection Hout as <-. exists s. split_and!; [done|done|]. intros l ->. by apply (Inv_frame k s). }
  destruct (H4 id cb Hcb) as (c & Hc & Hr & Hx & Hch). rewrite Hch in Hout. cbn in Hout.
  set (fin := fun b => set_callbacks (delete id (callbacks s)) (set_chan (cb_chan cb) (mkChan b true) s)).
  assert (Hfin : forall b, (b = Some r \/ b = None /\ is_Some (done s !! cb_ctx cb)) ->
    Inv tr k (set_listener LReceive (fin b))).
  { intros b Hb. split; cbn; try done.
    - intros i cb' Hi. apply lookup_delete_Some in Hi as [Hne Hi]. destruct (H4 i cb' Hi) as (d & Hd & Hr' & Hx' & Hch').
      exists d. split_and!; try done. rewrite lookup_insert_ne; [done|]. intros E. rewrite <- E, Hc in Hd.
      injection Hd as <-. apply registered_id in Hr, Hr'. congruence.
    - intros m d Hd. destruct (decide (m = cb_chan cb)) as [->|Hne].
      + rewrite Hc in Hd. injection Hd as <-. specialize (H5 _ _ Hc). unfold call_ok, chan_ok in *.
        assert (Hw : forall (w : Prop) i, i = id -> exists ch, chans (fin b) !! cb_chan cb = Some ch /\
          (if ch_closed ch then (forall r0, ch_buf ch = Some r0 -> delivered tr i r0) /\
             (w -> ch_buf ch = None -> is_Some (done s !! call_ctx c))
           else ch_buf ch = None /\ callbacks (fin b) !! i = Some (mkCallback (call_ctx c) (cb_chan cb)))).
        { intros w i ->. exists (mkChan b true). cbn. rewrite lookup_insert_eq. split; [done|]. split.
          - intros r0 ->. destruct Hb as [[= ->]|[[=] _]]. done.
          - intros _ ->. rewrite Hx. destruct Hb as [[=]|[_ Hb]]. done. }
        destruct (call_pc c); cbn in Hr; try done; [by apply Hw|by apply Hw|]. split; [by apply Hw|by destruct H5].
      + apply (call_ok_frame s); [by apply H5| |done|].
        * cbn. by rewrite lookup_insert_ne.
        * intros i Hi. cbn. rewrite lookup_delete_ne; [done|]. intros <-. apply Hne.
          eapply H3; [exact Hd|exact Hc|by apply registered_id|by apply registered_id]. }
  destruct kc.
  - destruct (done s !! cb_ctx cb) as [e|] eqn:Hd; [|done]. injection Hout as <-.
    exists (fin None). split_and!; [done|done|]. intros l ->. apply Hfin. right. split; [done|]. by eexists.
  - injection Hout as <-. exists (fin (Some r)). split_and!; [done|done|]. intros l ->. apply Hfin. by left.
Qed.

(** The callback can always run: its channel is free. *)
Lemma doCallback_ready k s id r :
  Inv tr k s -> exists s', doCallback CaseChan id r s = Some (Ok s').
Proof.
  intros [H1 H2 H3 H4 H5 H6]. unfold doCallback. destruct (callbacks s !! id) as [cb|] eqn:Hcb; [|by eexists].
  destruct (H4 id cb Hcb) as (c & Hc & Hr & Hx & Hch). rewrite Hch. cbn. by eexists.
Qed.
End steps.

(** A step of a call. *)
Lemma Inv_rpc_next tr k s n kc s' :
  Inv tr k s -> k < 2 ^ 63 - 1 -> rpc_next n kc s = Some s' -> Inv tr (k + 1) s'.
Proof.
  intros HI Hk. unfold rpc_next. destruct (calls s !! n) as [c|] eqn:Hc; [|done].
  pose proof (I_call _ _ _ HI n c Hc) as Hok. unfold call_ok in Hok.
  assert (Hw : forall s, Inv tr k s -> Inv tr (k + 1) s) by (intros x; apply Inv_weaken; lia).
  destruct (call_pc c) as [| |id|id|id|id out|id out|] eqn:Hpc; try done.
  - destruct (done s !! call_ctx c) as [e|]; intros [= <-]; apply Hw; apply Inv_set_pc;
      rewrite ?Hpc; try done; by left.
  - pose proof (Inv_request tr k s n c HI Hk Hc Hpc) as H. destruct (requestID s) as [id s1].
    by intros [= <-].
  - destruct (Inv_register tr k s n c id HI Hc Hpc) as (s1 & -> & H). intros [= <-]. by apply Hw.
  - destruct Hok as (ch & Hch & Hok). rewrite Hch. cbn. destruct kc.
    + destruct (done s !! call_ctx c) as [e|]; [|done]. intros [= <-]. apply Hw, Inv_set_pc; try done.
      * right. by rewrite Hpc.
      * intros i. by rewrite Hpc.
      * split; [|done]. exists ch. split; [done|]. destruct (ch_closed ch); [|done]. split; [by destruct Hok|done].
    + destruct ch as [[r|] [|]]; cbn in Hok |- *; try done.
      * destruct Hok as [Hd _]. intros [= <-]. apply Hw, Inv_take; auto.
      * by destruct Hok as [[=] _].
      * destruct Hok as [_ Hd]. destruct (Hd I eq_refl) as [e He]. rewrite He. intros [= <-].
        apply Hw, Inv_set_pc; try done.
        -- right. by rewrite Hpc.
        -- intros i. by rewrite Hpc.
        -- split; [|done]. exists (mkChan None true). split; [done|]. by split.
  - intros [= <-]. apply Hw. by apply Inv_cleanup.
Qed.

Lemma Inv_send_next tr k s n err s' : Inv tr k s -> send_next n err s = Some s' -> Inv tr k s'.
Proof.
  intros HI. unfold send_next. destruct (calls s !! n) as [[ctx pc]|] eqn:Hc; [|done].
  pose proof (I_call _ _ _ HI n _ Hc) as Hok. destruct pc as [| |id|id|id|id out|id out|]; try done.
  cbn in Hok. intros [= <-]. apply (Inv_set_pc tr k s n (mkCall ctx (RpcSend id))); try done.
  - right. by destruct err.
  - intros i. cbn. by destruct err.
  - destruct err as [e|]; cbn; [|done]. split; [|done]. destruct Hok as (ch & Hch & Hok).
    exists ch. split; [done|]. destruct (ch_closed ch); [|done]. split; [by destruct Hok|done].
Qed.

Lemma Inv_receive_next tr k s m s' :
  Inv tr k s -> In (AReceive m) tr -> receive_next m s = Some s' -> Inv tr k s'.
Proof.
  intros HI Hin. unfold receive_next. destruct (listener s) eqn:Hl; try done.
  destruct (stuck s); [destruct m; try done; by intros [= <-]|].
  destruct m as [res| |for_ever].
  - destruct (_ =? "echo")%string; [intros [= <-]; by apply (Inv_frame tr k s)|].
    destruct (res_ID res) as [id|] eqn:Hid; intros [= <-]; apply (Inv_frame tr k s); try done; cbn.
    + exists res. by split_and!.
    + by exists res.
  - intros [= <-]. by apply (Inv_frame tr k s).
  - intros [= <-]. apply (Inv_frame tr k s); try done. cbn. by rewrite Hl.
Qed.

Lemma set_listener_same s l : listener s = l -> set_listener l s = s.
Proof. intros <-. by destruct s. Qed.

Lemma Inv_listen_next tr k s kc s' : Inv tr k s -> listen_next kc s = Some s' -> Inv tr k s'.
Proof.
  intros HI. unfold listen_next. pose proof (I_listen _ _ _ HI) as Hl. destruct (listener s) as [| |id r| |] eqn:E; try done.
  - destruct (done s !! client_ctx); [|done]. intros [= <-]. by apply (Inv_frame tr k s).
  - destruct (doCallback kc id r s) as [out|] eqn:Ho; [|done].
    destruct (Inv_doCallback tr k s kc id r out HI Hl Ho) as (s1 & -> & _ & H). intros [= <-]. by apply H.
Qed.

Section runs.
Context (Unmarshal : string -> go (list string)) (Error : error -> string).

Lemma Inv_echo_next tr k s n kc s' :
  Inv tr k s -> echo_next Unmarshal Error n kc s = Some s' -> Inv tr k s'.
Proof.
  intros HI. pose proof (I_listen _ _ _ HI) as Hl.
  assert (Hf : forall s2, rpcID s2 = rpcID s -> callbacks s2 = callbacks s -> chans s2 = chans s ->
    calls s2 = calls s -> done s2 = done s -> listener s2 = listener s -> Inv tr k s2).
  { intros s2 E1 E2 E3 E4 E5 E6. apply (Inv_frame tr k s); rewrite ?E5, ?E6; try done. }
  unfold echo_next. destruct (echoer s) as [| |m| |]; try done.
  - destruct (done s !! client_ctx); [|done]. intros [= <-]. by apply Hf.
  - destruct (done s !! client_ctx); [intros [= <-]; by apply Hf|].
    destruct (calls s !! n) eqn:Hc; [done|]. intros [= <-].
    apply (Inv_frame tr k (set_pc n client_ctx RpcStart s)); try done. by apply Inv_new_call.
  - destruct (calls s !! m) as [[ctx pc]|]; [|done]. destruct pc; try done.
    destruct (echo_error Unmarshal out) as [[e|]|e|w]; [destruct (isClosedNetwork Error e)| | |];
      intros [= <-]; by apply Hf.
Qed.

Lemma Inv_next tr a k s s' :
  Inv tr k s -> k < 2 ^ 63 - 1 -> next Unmarshal Error a s = Some s' -> Inv (tr ++ [a]) (k + 1) s'.
Proof.
  intros HI0 Hk. pose proof (Inv_snoc tr a k s HI0) as HI. clear HI0.
  pose proof (I_listen _ _ _ HI) as Hl.
  assert (Hw : forall s, Inv (tr ++ [a]) k s -> Inv (tr ++ [a]) (k + 1) s) by (intros x; apply Inv_weaken; lia).
  destruct a as [n ctx|ctx e|n kc|n err|m|kc|n kc|kc| |]; cbn [next].
  - destruct (calls s !! n) eqn:Hc; [done|]. intros [= <-]. by apply Hw, Inv_new_call.
  - destruct (done s !! ctx) eqn:Hd; [done|]. intros [= <-]. apply Hw, (Inv_frame _ k s); try done.
    intros ctx' [e' He']. cbn. destruct (decide (ctx' = ctx)) as [->|Hne]; [by rewrite lookup_insert_eq|].
    rewrite lookup_insert_ne by done. by exists e'.
  - intros H. by eapply Inv_rpc_next.
  - intros H. by eapply Hw, Inv_send_next.
  - intros H. eapply Hw, Inv_receive_next; [exact HI| |exact H]. apply in_or_app. right. by left.
  - intros H. by eapply Hw, Inv_listen_next.
  - intros H. by eapply Hw, Inv_echo_next.
  - unfold ticker_next. intros H. apply Hw. revert H. destruct (ticker s), kc; try done;
      try (destruct (done s !! client_ctx); try done); intros [= <-]; by apply (Inv_frame _ k s).
  - destruct (listener s), (echoer s); try done. intros [= <-]. by apply Hw, (Inv_frame _ k s).
  - destruct (ticker s), (echoer s); try done. intros [= <-]. by apply Hw, (Inv_frame _ k s).
Qed.

Lemma run_snoc acts a s : run Unmarshal Error (acts ++ [a]) s =
  match run Unmarshal Error acts s with Some s => next Unmarshal Error a s | None => None end.
Proof.
  revert s. induction acts as [|b acts IH]; intros s; cbn.
  - by destruct (next _ _ a s).
  - destruct (next _ _ b s); [apply IH|done].
Qed.

(** Every run keeps the invariant; an [int64] counts its requests. *)
Lemma run_Inv d acts s :
  run Unmarshal Error acts (New d) = Some s -> Z.of_nat (length acts) < 2 ^ 63 ->
  Inv acts (Z.of_nat (length acts)) s.
Proof.
  revert s. induction acts as [|a acts IH] using rev_ind; intros s.
  - intros [= <-] _. apply Inv_New.
  - rewrite run_snoc, length_app. cbn [length]. destruct (run Unmarshal Error acts (New d)) as [s0|] eqn:E; [|done].
    intros H Hk. replace (Z.of_nat (length acts + 1)) with (Z.of_nat (length acts) + 1) by lia.
    eapply Inv_next; [apply IH|lia|exact H]; [done|lia].
Qed.

(** C24: in every run, however calls, cancellations, messages and failures interleave,
    no call finds its identifier taken, no call returns a nil error without a
    response, and [doCallback], which holds the table's lock, can always go on: it
    neither blocks nor sends on or closes a closed channel. The listener stops the
    process only on a message without an identifier. *)
Theorem rpc_safe d acts s :
  run Unmarshal Error acts (New d) = Some s -> Z.of_nat (length acts) < 2 ^ 63 ->
  (forall n c, calls s !! n = Some c -> call_pc c <> RpcPanicked /\
     forall id, call_pc c <> RpcReturned id OutNil) /\
  (forall id r, listener s = LCallback id r ->
     (exists s', doCallback CaseChan id r s = Some (Ok s')) /\
     forall k out, doCallback k id r s = Some out -> is_Panic out = false) /\
  (listener s = LPanicked -> exists res, In (AReceive (Message res)) acts /\ res_ID res = None).
Proof.
  intros Hr Hk. pose proof (run_Inv d acts s Hr Hk) as HI. split_and!.
  - intros n c Hc. pose proof (I_call _ _ _ HI n c Hc) as Hok. unfold call_ok in Hok.
    split; [intros E; by rewrite E in Hok|]. intros id E. by rewrite E in Hok.
  - intros id r Hl. pose proof (I_listen _ _ _ HI) as Hd. rewrite Hl in Hd. split.
    + by eapply doCallback_ready.
    + intros k out Ho. destruct (Inv_doCallback _ _ _ k id r out HI Hd Ho) as (s' & -> & _). done.
  - intros Hl. pose proof (I_listen _ _ _ HI) as Hd. by rewrite Hl in Hd.
Qed.

(** C7: a call that returns a response returns one that the server sent with the
    call's own identifier, and no other call has that identifier: responses never
    reach the wrong caller. *)
Theorem rpc_response_matches d acts s n c id r :
  run Unmarshal Error acts (New d) = Some s -> Z.of_nat (length acts) < 2 ^ 63 ->
  calls s !! n = Some c -> call_pc c = RpcReturned id (OutResult r) ->
  exists i, id = Some i /\
    (exists res, In (AReceive (Message res)) acts /\ res_ID res = Some i /\ r = response_of res) /\
    (forall m c', calls s !! m = Some c' -> id_of (call_pc c') = Some i -> m = n).
Proof.
  intros Hr Hk Hc Hpc. pose proof (run_Inv d acts s Hr Hk) as HI.
  pose proof (I_call _ _ _ HI n c Hc) as Hok. unfold call_ok in Hok. rewrite Hpc in Hok.
  destruct Hok as (i & -> & Hd). exists i. split_and!; [done|exact Hd|].
  intros m c' Hm Hi. eapply (I_inj _ _ _ HI); [exact Hm|exact Hc|done|]. by rewrite Hpc.
Qed.

(** C40: callbacks do not leak: every entry of the table belongs to a call that has
    registered it and has not returned, with an open and empty channel; once all
    calls have returned the table is empty. *)
Theorem callbacks_no_leak d acts s :
  run Unmarshal Error acts (New d) = Some s -> Z.of_nat (length acts) < 2 ^ 63 ->
  (forall id cb, callbacks s !! id = Some cb -> exists c, calls s !! cb_chan cb = Some c /\
     registered (call_pc c) id /\ chans s !! cb_chan cb = Some (mkChan None false)) /\
  ((forall n c, calls s !! n = Some c -> exists id out, call_pc c = RpcReturned id out) ->
   Callbacks_Current (Stats s) = 0%nat).
Proof.
  intros Hr Hk. pose proof (run_Inv d acts s Hr Hk) as HI. split.
  - intros id cb Hcb. destruct (I_cb _ _ _ HI id cb Hcb) as (c & Hc & Hreg & _ & Hch). by exists c.
  - intros Hall. cbn. apply map_size_empty_iff. apply map_empty. intros id.
    destruct (callbacks s !! id) as [cb|] eqn:Hcb; [|done].
    destruct (I_cb _ _ _ HI id cb Hcb) as (c & Hc & Hreg & _).
    destruct (Hall _ c Hc) as (i & out & Hpc). by rewrite Hpc in Hreg.
Qed.

(** *** Closing *)

Lemma run_app acts bcts s : run Unmarshal Error (acts ++ bcts) s =
  match run Unmarshal Error acts s with Some s => run Unmarshal Error bcts s | None => None end.
Proof.
  revert s. induction acts as [|a acts IH]; intros s; [done|]. cbn. destruct (next _ _ a s); [apply IH|done].
Qed.

(** A call stays, with its context. *)
Definition call_stays (s s' : Client) : Prop :=
  forall n c, calls s !! n = Some c -> exists c', calls s' !! n = Some c' /\ call_ctx c' = call_ctx c.

Lemma call_stays_same s s' : calls s' = calls s -> call_stays s s'.
Proof. intros E n c Hc. exists c. by rewrite E. Qed.

Lemma call_stays_set n ctx pc s s0 :
  calls s0 = calls s -> (forall c, calls s !! n = Some c -> call_ctx c = ctx) -> call_stays s (set_pc n ctx pc s0).
Proof.
  intros E Hn m c Hc. cbn. rewrite E. destruct (decide (m = n)) as [->|Hne].
  - rewrite lookup_insert_eq. eexists. split; [done|]. cbn. symmetry. by apply Hn.
  - rewrite lookup_insert_ne by done. by exists c.
Qed.

Lemma doCallback_calls k id r s s' : doCallback k id r s = Some (Ok s') -> calls s' = calls s.
Proof.
  unfold doCallback. destruct (callbacks s !! id) as [cb|]; [|by intros [= <-]].
  destruct (default (mkChan None false) (chans s !! cb_chan cb)) as [b [|]], k; cbn; try done.
  - by destruct (done s !! cb_ctx cb).
  - destruct (done s !! cb_ctx cb); [|done]. by intros [= <-].
  - destruct b; [done|]. by intros [= <-].
Qed.

Lemma next_call_stays a s s' : next Unmarshal Error a s = Some s' -> call_stays s s'.
Proof.
  destruct a as [n ctx|ctx e|n kc|n err|m|kc|n kc|kc| |]; cbn [next].
  - destruct (calls s !! n) eqn:Hc; [done|]. intros [= <-]. apply call_stays_set; [done|congruence].
  - destruct (done s !! ctx); [done|]. intros [= <-]. by apply call_stays_same.
  - unfold rpc_next. destruct (calls s !! n) as [c|] eqn:Hc; [|done].
    assert (Hn : forall d, calls s !! n = Some d -> call_ctx d = call_ctx c) by congruence.
    destruct (call_pc c) as [| |id|id|id|id out|id out|]; try done.
    + destruct (done s !! call_ctx c); intros [= <-]; by apply call_stays_set.
    + cbn. intros [= <-]. by apply call_stays_set.
    + unfold addCallback. cbn. destruct (callbacks s !! id); intros [= <-]; by apply call_stays_set.
    + destruct kc; [destruct (done s !! call_ctx c); [|done]; intros [= <-]; by apply call_stays_set|].
      destruct (ch_buf _); [intros [= <-]; by apply call_stays_set|].
      destruct (ch_closed _); [|done]. intros [= <-]; by apply call_stays_set.
    + intros [= <-]; by apply call_stays_set.
  - unfold send_next. destruct (calls s !! n) as [[ctx pc]|] eqn:Hc; [|done]. destruct pc; try done.
    intros [= <-]. apply call_stays_set; [done|]. intros c. rewrite Hc. by intros [= <-].
  - unfold receive_next. destruct (listener s); try done.
    destruct (stuck s); [destruct m; try done; intros [= <-]; by apply call_stays_same|]. destruct m as [res| |for_ever].
    + destruct (_ =? _)%string; [intros [= <-]; by apply call_stays_same|].
      destruct (res_ID res); intros [= <-]; by apply call_stays_same.
    + intros [= <-]. by apply call_stays_same.
    + intros [= <-]. by apply call_stays_same.
  - unfold listen_next. destruct (listener s); try done.
    + destruct (done s !! client_ctx); [|done]. intros [= <-]. by apply call_stays_same.
    + destruct (doCallback kc id r s) as [[s1|e|w]|] eqn:Hd; [| | |done]; intros [= <-];
        apply call_stays_same; [by apply doCallback_calls in Hd|done|done].
  - unfold echo_next. destruct (echoer s) as [| |m| |]; try done.
    + destruct (done s !! client_ctx); [|done]. intros [= <-]. by apply call_stays_same.
    + destruct (done s !! client_ctx); [intros [= <-]; by apply call_stays_same|].
      destruct (calls s !! n) eqn:Hc; [done|]. intros [= <-].
      apply (call_stays_set n client_ctx RpcStart s s); [done|congruence].
    + destruct (calls s !! m) as [[ctx pc]|]; [|done]. destruct pc; try done.
      destruct (echo_error Unmarshal out) as [[e|]|e|w]; [destruct (isClosedNetwork Error e)| | |];
        intros [= <-]; by apply call_stays_same.
  - unfold ticker_next. destruct (ticker s), kc; try done;
      try (destruct (done s !! client_ctx); try done); intros [= <-]; by apply call_stays_same.
  - destruct (listener s), (echoer s); try done. intros [= <-]. by apply call_stays_same.
  - destruct (ticker s), (echoer s); try done. intros [= <-]. by apply call_stays_same.
Qed.

(** The echo loop waits for a call of its own. *)
Definition echo_call (s : Client) : Prop :=
  forall m, echoer s = EEcho m -> exists c, calls s !! m = Some c /\ call_ctx c = client_ctx.

Lemma doCallback_echoer k id r s s' : doCallback k id r s = Some (Ok s') -> echoer s' = echoer s.
Proof.
  unfold doCallback. destruct (callbacks s !! id) as [cb|]; [|by intros [= <-]].
  destruct (default (mkChan None false) (chans s !! cb_chan cb)) as [b [|]], k; cbn; try done.
  - by destruct (done s !! cb_ctx cb).
  - destruct (done s !! cb_ctx cb); [|done]. by intros [= <-].
  - destruct b; [done|]. by intros [= <-].
Qed.

Lemma next_echoer a s s' :
  next Unmarshal Error a s = Some s' ->
  echoer s' = echoer s \/ (forall m, echoer s' <> EEcho m) \/
  exists n, echoer s' = EEcho n /\ calls s' !! n = Some (mkCall client_ctx RpcStart).
Proof.
  destruct a as [n ctx|ctx e|n kc|n err|m|kc|n kc|kc| |]; cbn [next].
  - destruct (calls s !! n); [done|]. intros [= <-]. by left.
  - destruct (done s !! ctx); [done|]. intros [= <-]. by left.
  - unfold rpc_next. destruct (calls s !! n) as [c|]; [|done]. intros H. left. revert H.
    destruct (call_pc c); try done.
    + destruct (done s !! call_ctx c); by intros [= <-].
    + by intros [= <-].
    + unfold addCallback. cbn. destruct (callbacks s !! id); by intros [= <-].
    + destruct kc; [destruct (done s !! call_ctx c); [|done]; by intros [= <-]|].
      destruct (ch_buf _); [by intros [= <-]|]. destruct (ch_closed _); [|done]. by intros [= <-].
    + by intros [= <-].
  - unfold send_next. destruct (calls s !! n) as [[ctx pc]|]; [|done]. destruct pc; try done. intros [= <-]. by left.
  - unfold receive_next. intros H. left. revert H. destruct (listener s); try done.
    destruct (stuck s); [destruct m; try done; by intros [= <-]|]. destruct m as [res| |for_ever]; try by intros [= <-].
    destruct (_ =? _)%string; [by intros [= <-]|]. destruct (res_ID res); by intros [= <-].
  - unfold listen_next. intros H. left. revert H. destruct (listener s); try done.
    + destruct (done s !! client_ctx); [|done]. by intros [= <-].
    + destruct (doCallback kc id r s) as [[s1|e|w]|] eqn:Hd; [| | |done]; intros [= <-]; try done.
      by apply doCallback_echoer in Hd.
  - unfold echo_next. destruct (echoer s) as [| |m| |]; try done.
    + destruct (done s !! client_ctx); [|done]. intros [= <-]. by right; left.
    + destruct (done s !! client_ctx); [intros [= <-]; by right; left|].
      destruct (calls s !! n); [done|]. intros [= <-]. right. right. exists n. split; [done|]. cbn. by rewrite lookup_insert_eq.
    + destruct (calls s !! m) as [[ctx pc]|]; [|done]. destruct pc; try done.
      destruct (echo_error Unmarshal out) as [[e|]|e|w]; [destruct (isClosedNetwork Error e)| | |];
        intros [= <-]; by right; left.
  - unfold ticker_next. intros H. left. revert H. destruct (ticker s), kc; try done;
      try (destruct (done s !! client_ctx); try done); by intros [= <-].
  - destruct (listener s), (echoer s); try done. intros [= <-]. by right; left.
  - destruct (ticker s), (echoer s); try done. intros [= <-]. by right; left.
Qed.

Lemma run_echo_call d acts s : run Unmarshal Error acts (New d) = Some s -> echo_call s.
Proof.
  revert s. induction acts as [|a acts IH] using rev_ind; intros s; [by intros [= <-]|].
  rewrite run_snoc. destruct (run Unmarshal Error acts (New d)) as [s0|] eqn:E; [|done]. intros H m Hm.
  destruct (next_echoer a s0 s H) as [He|[He|(n & He & Hc)]].
  - rewrite He in Hm. destruct (IH s0 eq_refl m Hm) as (c & Hc & Hctx).
    destruct (next_call_stays a s0 s H m c Hc) as (c' & Hc' & Hx). exists c'. split; [done|congruence].
  - by destruct (He m).
  - rewrite He in Hm. injection Hm as ->. by eexists.
Qed.

(** Steps a call needs when its context is done. *)
Definition rank (pc : rpc_pc) : nat :=
  match pc with
  | RpcStart => 6 | RpcRequest => 5 | RpcRegister _ => 4 | RpcSend _ => 3 | RpcWait _ => 2 | RpcCleanup _ _ => 1
  | _ => 0
  end.

Definition others_same (s s' : Client) : Prop :=
  done s' = done s /\ listener s' = listener s /\ echoer s' = echoer s /\ ticker s' = ticker s.

Lemma rank_step s n c e :
  calls s !! n = Some c -> done s !! call_ctx c = Some e -> (rank (call_pc c) <> 0)%nat ->
  (forall id, call_pc c = RpcRegister id -> callbacks s !! id = None) ->
  exists a s' pc, next Unmarshal Error a s = Some s' /\ calls s' !! n = Some (mkCall (call_ctx c) pc) /\
    (rank pc < rank (call_pc c))%nat /\ others_same s s'.
Proof.
  intros Hc He Hr Hno.
  assert (Hset : forall pc s0, calls (set_pc n (call_ctx c) pc s0) !! n = Some (mkCall (call_ctx c) pc))
    by (intros; cbn; by rewrite lookup_insert_eq).
  destruct (call_pc c) as [| |id|id|id|id out|id out|] eqn:Hpc; cbn in Hr; try done.
  - exists (ARpc n CaseDone). cbn [next]. unfold rpc_next. rewrite Hc, Hpc, He.
    do 2 eexists. split_and!; [reflexivity|apply Hset|cbn; lia|done].
  - exists (ARpc n CaseDone). cbn [next]. unfold rpc_next. rewrite Hc, Hpc. cbn [requestID].
    do 2 eexists. split_and!; [reflexivity|apply Hset|cbn; lia|done].
  - exists (ARpc n CaseDone). cbn [next]. unfold rpc_next, addCallback. rewrite Hc, Hpc. cbn [set_chan callbacks].
    rewrite (Hno id eq_refl). do 2 eexists. split_and!; [reflexivity|apply Hset|cbn; lia|done].
  - exists (ASend n None). cbn [next]. unfold send_next. rewrite Hc. destruct c as [ctx pc]. cbn in Hpc. subst pc.
    do 2 eexists. split_and!; [reflexivity|apply Hset|cbn; lia|done].
  - exists (ARpc n CaseDone). cbn [next]. unfold rpc_next. rewrite Hc, Hpc, He.
    do 2 eexists. split_and!; [reflexivity|apply Hset|cbn; lia|done].
  - exists (ARpc n CaseDone). cbn [next]. unfold rpc_next. rewrite Hc, Hpc.
    do 2 eexists. split_and!; [reflexivity|apply Hset|cbn; lia|done].
Qed.

Lemma Inv_register_free tr k s n c id :
  Inv tr k s -> calls s !! n = Some c -> call_pc c = RpcRegister id -> callbacks s !! id = None.
Proof.
  intros HI Hc Hpc. destruct (Inv_register tr k s n c id HI Hc Hpc) as (s' & H & _).
  unfold addCallback in H. cbn in H. by destruct (callbacks s !! id).
Qed.

(** A call whose context is done can return, whatever it waits for. *)
Lemma call_finishes r tr s n c e :
  Inv tr (Z.of_nat (length tr)) s -> Z.of_nat (length tr) + Z.of_nat r < 2 ^ 63 ->
  calls s !! n = Some c -> done s !! call_ctx c = Some e -> (rank (call_pc c) <= r)%nat ->
  exists acts s' id out, run Unmarshal Error acts s = Some s' /\ (length acts <= r)%nat /\
    calls s' !! n = Some (mkCall (call_ctx c) (RpcReturned id out)) /\ others_same s s'.
Proof.
  revert tr s c. induction r as [|r IH]; intros tr s c HI Hk Hc He Hr.
  - pose proof (I_call _ _ _ HI n c Hc) as Hok. unfold call_ok in Hok. destruct c as [ctx pc]. cbn in *.
    destruct pc; cbn in Hr; try lia; try done. exists [], s, id, out. by split_and!.
  - destruct (decide (rank (call_pc c) = 0%nat)) as [H0|H0].
    + destruct (IH tr s c HI) as (acts & s' & id & out & H1 & H2 & H3); [lia|done|done|lia|].
      exists acts, s', id, out. split_and!; try done; [lia|apply H3..].
    + destruct (rank_step s n c e Hc He H0) as (a & s1 & pc & Ha & Hc1 & Hlt & Ho).
      { intros id Hpc. by eapply Inv_register_free. }
      pose proof (Inv_next tr a _ s s1 HI ltac:(lia) Ha) as HI1.
      destruct (IH (tr ++ [a]) s1 (mkCall (call_ctx c) pc)) as (acts & s' & id & out & H1 & H2 & H3 & H4).
      * rewrite length_app. cbn [length].
        by replace (Z.of_nat (length tr + 1)) with (Z.of_nat (length tr) + 1) by lia.
      * rewrite length_app. cbn [length]. lia.
      * done.
      * destruct Ho as (Hd & _). by rewrite Hd.
      * cbn. lia.
      * exists (a :: acts), s', id, out. cbn [run length]. rewrite Ha. split_and!; [done|lia|done|..];
          destruct Ho as (? & ? & ? & ?), H4 as (? & ? & ? & ?); unfold others_same; split_and!; congruence.
Qed.

(** [k] more steps reach a state with [P], and keep the invariant. *)
Definition can (k : nat) (P : Client -> Prop) (s : Client) : Prop :=
  exists more s', (length more <= k)%nat /\ run Unmarshal Error more s = Some s' /\ P s'.

Lemma can_now k (P : Client -> Prop) s : P s -> can k P s.
Proof. intros H. exists [], s. split_and!; [cbn; lia|done|done]. Qed.

Lemma can_step k P a s s' : next Unmarshal Error a s = Some s' -> can k P s' -> can (S k) P s.
Proof.
  intros Ha (more & s2 & Hl & Hr & HP). exists (a :: more), s2. cbn [run length]. rewrite Ha. split_and!; [lia|done|done].
Qed.

Lemma can_run j k P more s s' :
  (length more <= j)%nat -> run Unmarshal Error more s = Some s' -> can k P s' -> can (j + k) P s.
Proof.
  intros Hj Hr (acts & s2 & Hl & Hr2 & HP). exists (more ++ acts), s2. rewrite run_app, Hr, length_app.
  split_and!; [lia|done|done].
Qed.

Definition all_stopped (s : Client) : Prop := listener s = LStopped /\ echoer s = EStopped /\ ticker s = TStopped.

Lemma stop_ticker e k P s :
  done s !! client_ctx = Some e -> ticker s <> TPanicked ->
  (forall s', listener s' = listener s -> echoer s' = echoer s -> ticker s' = TStopped -> P s') ->
  can (S k) P s.
Proof.
  intros Hd Hp HP. destruct (ticker s) eqn:Ht; try by (apply can_now, HP).
  - eapply (can_step k P (ATicker CaseDone)); [cbn; unfold ticker_next; by rewrite Ht, Hd|]. by apply can_now, HP.
  - eapply (can_step k P (ATicker CaseDone)); [cbn; unfold ticker_next; by rewrite Ht, Hd|]. by apply can_now, HP.
  - eapply (can_step k P (ATicker CaseDone)); [cbn; unfold ticker_next; by rewrite Ht, Hd|]. by apply can_now, HP.
Qed.

Lemma stop_listener tr k0 e k P s :
  Inv tr k0 s -> done s !! client_ctx = Some e -> listener s <> LPanicked -> stuck s = false ->
  (forall s' acts, run Unmarshal Error acts s = Some s' -> (length acts <= 2)%nat ->
     listener s' = LStopped -> echoer s' = echoer s -> ticker s' = ticker s -> done s' = done s -> can k P s') ->
  can (2 + k) P s.
Proof.
  intros HI Hd Hl Hst HP.
  assert (Hwhole : forall acts s', run Unmarshal Error acts s = Some s' -> (length acts <= 2)%nat ->
    listener s' = LStopped -> echoer s' = echoer s -> ticker s' = ticker s -> done s' = done s -> can (2 + k) P s).
  { intros acts s' Hr Hlen E1 E2 E3 E4. apply (can_run 2 k P acts s s' Hlen Hr). by apply (HP s' acts). }
  destruct (listener s) as [| |id r| |] eqn:E; try done.
  - apply (Hwhole [AReceive ReceiveStop] (set_listener LStopped s)); try done; [|cbn; lia].
    cbn. unfold receive_next. by rewrite E, Hst.
  - apply (Hwhole [AListen CaseDone; AReceive ReceiveStop] (set_listener LStopped (set_listener LReceive s))); try done.
    cbn. unfold listen_next. rewrite E, Hd. cbn. unfold receive_next. cbn. by rewrite Hst.
  - pose proof (doCallback_ready tr k0 s id r HI) as [s1 H1].
    assert (Hs1 : echoer s1 = echoer s /\ ticker s1 = ticker s /\ done s1 = done s /\ stuck s1 = stuck s).
    { unfold doCallback in H1. destruct (callbacks s !! id) as [cb|]; [|by injection H1 as <-].
      destruct (default (mkChan None false) (chans s !! cb_chan cb)) as [[b|] [|]]; cbn in H1; try done. by injection H1 as <-. }
    destruct Hs1 as (? & ? & ? & Hst1). apply (Hwhole [AListen CaseChan; AReceive ReceiveStop] (set_listener LStopped (set_listener LReceive s1))); try done.
    cbn. unfold listen_next. rewrite E, H1. cbn. unfold receive_next. cbn. by rewrite Hst1, Hst.
  - by apply (Hwhole [] s); [|cbn; lia|..].
Qed.

(** The echo loop stops, after the call it may be waiting for. *)
Lemma stop_echoer tr e k P s :
  (forall t, is_Panic (Unmarshal t) = false) ->
  Inv tr (Z.of_nat (length tr)) s -> Z.of_nat (length tr) + 6 < 2 ^ 63 -> echo_call s ->
  done s !! client_ctx = Some e -> echoer s <> EPanicked ->
  (forall s', echoer s' = EStopped -> listener s' = listener s -> ticker s' = ticker s -> done s' = done s -> can k P s') ->
  can (6 + S (S k)) P s.
Proof.
  intros Hu HI Hk Hec Hd Hne HP.
  assert (Hmore : forall j1 j2 s', (j1 <= j2)%nat -> can j1 P s' -> can j2 P s').
  { intros j1 j2 s' Hj (m & s2 & H1 & H2). exists m, s2. split; [lia|done]. }
  assert (Hwait : forall s', echoer s' = EWait -> listener s' = listener s -> ticker s' = ticker s ->
    done s' = done s -> can (S k) P s').
  { intros s' E1 E2 E3 E4. eapply (can_step k P (AEcho 0 CaseDone)); [cbn; unfold echo_next; by rewrite E1, E4, Hd|].
    by apply HP. }
  destruct (echoer s) as [| |m| |] eqn:E; try done.
  - apply (Hmore (S k)); [lia|]. by apply Hwait.
  - apply (Hmore (S k)); [lia|]. eapply (can_step k P (AEcho 0 CaseDone)); [cbn; unfold echo_next; by rewrite E, Hd|].
    by apply HP.
  - destruct (Hec m E) as (c & Hc & Hctx).
    destruct (call_finishes 6 tr s m c e) as (acts & s1 & id & out & Hr & Hl & Hc1 & Ho); try done.
    + by rewrite Hctx.
    + destruct (call_pc c); cbn; lia.
    + apply (can_run 6 _ P acts s s1 Hl Hr). destruct Ho as (O1 & O2 & O3 & O4).
      assert (Hnext : exists s2, next Unmarshal Error (AEcho 0 CaseDone) s1 = Some s2 /\
        echoer s2 = EWait /\ listener s2 = listener s1 /\ ticker s2 = ticker s1 /\ done s2 = done s1).
      { cbn [next]. unfold echo_next. rewrite O3, E, Hc1.
        assert (Hp : is_Panic (echo_error Unmarshal out) = false /\ forall x, echo_error Unmarshal out <> Err x).
        { destruct out as [r| |]; try done. cbn. unfold rpcResult. destruct (rr_Error r) as [x|]; [done|].
          specialize (Hu (rr_Result r)). by destruct (Unmarshal (rr_Result r)). }
        destruct (echo_error Unmarshal out) as [[x|]|x|w]; [destruct (isClosedNetwork Error x)| | |];
          try (eexists; split; [reflexivity|done]).
        - by destruct Hp as [_ Hp]; destruct (Hp x).
        - by destruct Hp as [Hp _]. }
      destruct Hnext as (s2 & Hn & F1 & F2 & F3 & F4).
      eapply can_step; [exact Hn|]. apply Hwait; congruence.
  - apply (Hmore k); [lia|]. by apply HP.
Qed.

(** [Close] can always finish while the decoder works. Once the client's context
    is cancelled, from any state that can arise at most eleven steps of the
    background goroutines themselves, and of the echo call they wait for, stop all of
    them: nothing they wait for can keep them. *)
Theorem Close_stops d acts s e :
  (forall t, is_Panic (Unmarshal t) = false) ->
  run Unmarshal Error acts (New d) = Some s -> Z.of_nat (length acts) + 16 < 2 ^ 63 ->
  done s !! client_ctx = Some e -> listener s <> LPanicked -> echoer s <> EPanicked -> ticker s <> TPanicked ->
  stuck s = false -> can 11 all_stopped s.
Proof.
  intros Hu Hr Hk Hd Hl He Ht Hst.
  pose proof (run_Inv d acts s Hr ltac:(lia)) as HI.
  apply (stop_listener acts _ e 9 _ s HI Hd Hl Hst). intros s1 more Hr1 Hm L1 E1 T1 D1.
  assert (Hr2 : run Unmarshal Error (acts ++ more) (New d) = Some s1) by (by rewrite run_app, Hr).
  pose proof (run_Inv d _ s1 Hr2) as HI1. rewrite length_app in HI1.
  apply (stop_echoer (acts ++ more) e 1 _ s1 Hu); rewrite ?length_app; try (by apply HI1; lia); try lia.
  - by eapply run_echo_call.
  - congruence.
  - congruence.
  - intros s2 E2 L2 T2 D2. apply (stop_ticker e 0); [congruence..|].
    intros s3 L3 E3 T3. split_and!; congruence.
Qed.

Lemma next_stuck a s s' :
  next Unmarshal Error a s = Some s' -> listener s = LReceive -> stuck s = true ->
  listener s' = LReceive /\ stuck s' = true.
Proof.
  intros H Hl Hst. revert H. destruct a as [n ctx|ctx e|n kc|n err|m|kc|n kc|kc| |]; cbn [next].
  - destruct (calls s !! n); [done|]. by intros [= <-].
  - destruct (done s !! ctx); [done|]. by intros [= <-].
  - unfold rpc_next. destruct (calls s !! n) as [c|]; [|done]. destruct (call_pc c); try done.
    + destruct (done s !! call_ctx c); by intros [= <-].
    + by intros [= <-].
    + unfold addCallback. cbn. destruct (callbacks s !! id); by intros [= <-].
    + destruct kc; [destruct (done s !! call_ctx c); [|done]; by intros [= <-]|].
      destruct (ch_buf _); [by intros [= <-]|]. destruct (ch_closed _); [|done]. by intros [= <-].
    + by intros [= <-].
  - unfold send_next. destruct (calls s !! n) as [[ctx pc]|]; [|done]. destruct pc; try done. by intros [= <-].
  - unfold receive_next. rewrite Hl, Hst. destruct m; try done. by intros [= <-].
  - unfold listen_next. by rewrite Hl.
  - unfold echo_next. destruct (echoer s) as [| |m| |]; try done.
    + destruct (done s !! client_ctx); [|done]. by intros [= <-].
    + destruct (done s !! client_ctx); [by intros [= <-]|]. destruct (calls s !! n); [done|]. by intros [= <-].
    + destruct (calls s !! m) as [[ctx pc]|]; [|done]. destruct pc; try done.
      destruct (echo_error Unmarshal out) as [[e|]|e|w]; [destruct (isClosedNetwork Error e)| | |]; by intros [= <-].
  - unfold ticker_next. destruct (ticker s), kc; try done;
      try (destruct (done s !! client_ctx); try done); by intros [= <-].
  - rewrite Hl. destruct (echoer s); done.
  - destruct (ticker s), (echoer s); try done. by intros [= <-].
Qed.

(** after an error that the decoder keeps returning, as malformed JSON from the
    server, the listener never stops, whatever happens then, cancellation and closing
    included: [Close], which waits for it, hangs. *)
Theorem Close_hangs acts s s' :
  run Unmarshal Error acts s = Some s' -> listener s = LReceive -> stuck s = true ->
  listener s' = LReceive /\ ~ all_stopped s'.
Proof.
  revert s. induction acts as [|a acts IH]; intros s; cbn.
  - intros [= <-] Hl _. split; [done|]. intros (E & _). congruence.
  - destruct (next Unmarshal Error a s) as [s1|] eqn:Ha; [|done]. intros Hr Hl Hst.
    destruct (next_stuck a s s1 Ha Hl Hst). by apply (IH s1).
Qed.
End runs.

(** ** A run

    Two calls; the server answers the second first, and the second's context is
    cancelled before its response is taken. *)
Definition no_decode (t : string) : go (list string) := Ok [t].
Definition no_text (e : error) : string := "".

Definition answer (id text : string) : action := AReceive (Message (mkResponse (Some id) text None "")).

Definition sample_run : list action :=
  [ACall 1 1; ACall 2 2;
   ARpc 1 CaseDone; ARpc 1 CaseDone; ARpc 2 CaseDone; ARpc 2 CaseDone; ARpc 2 CaseDone; ARpc 1 CaseDone;
   ASend 1 None; ASend 2 None;
   answer "2" "b"; AListen CaseChan; ACancel 2 (ErrorString "context canceled");
   answer "1" "a"; AListen CaseChan;
   ARpc 1 CaseChan; ARpc 1 CaseDone; ARpc 2 CaseDone; ARpc 2 CaseDone].

Definition sample_state : Client := default (New 0) (run no_decode no_text sample_run (New 0)).

Lemma sample_run_ok : run no_decode no_text sample_run (New 0) = Some sample_state.
Proof. vm_compute. reflexivity. Qed.

Lemma rpc_safe_witness :
  exists c, calls sample_state !! 2%nat = Some c /\ call_pc c <> RpcPanicked.
Proof.
  destruct (rpc_safe no_decode no_text 0 sample_run sample_state sample_run_ok ltac:(reflexivity)) as (H & _ & _).
  exists (mkCall 2 (RpcReturned (Some "2") (OutErr (ErrorString "context canceled")))).
  assert (Hc : calls sample_state !! 2%nat = Some (mkCall 2 (RpcReturned (Some "2") (OutErr (ErrorString "context canceled")))))
    by (vm_compute; reflexivity).
  split; [exact Hc|]. exact (proj1 (H 2%nat _ Hc)).
Defined.

Lemma rpc_response_matches_witness :
  exists res, In (AReceive (Message res)) sample_run /\ res_ID res = Some "1" /\ response_of res = mkRpcResponse "a" None.
Proof.
  destruct (rpc_response_matches no_decode no_text 0 sample_run sample_state 1
    (mkCall 1 (RpcReturned (Some "1") (OutResult (mkRpcResponse "a" None)))) (Some "1") (mkRpcResponse "a" None)
    sample_run_ok ltac:(reflexivity) ltac:(vm_compute; reflexivity) eq_refl) as (i & [= <-] & (res & H1 & H2 & H3) & _).
  exists res. split; [exact H1|]. split; [exact H2|]. symmetry. exact H3.
Defined.

Lemma callbacks_no_leak_witness : Callbacks_Current (Stats sample_state) = 0%nat.
Proof.
  apply (callbacks_no_leak no_decode no_text 0 sample_run sample_state sample_run_ok ltac:(reflexivity)).
  intros n c Hc.
  assert (H : n = 1%nat \/ n = 2%nat).
  { assert (Hin : n ∈ dom (calls sample_state)) by (apply elem_of_dom; by eexists).
    assert (Hd : dom (calls sample_state) = {[1%nat; 2%nat]}) by (apply (bool_decide_unpack _); vm_compute; exact I).
    rewrite Hd, elem_of_union, !elem_of_singleton in Hin. exact Hin. }
  destruct H as [-> | ->]; vm_compute in Hc; injection Hc as <-; by do 2 eexists.
Defined.

Lemma Close_stops_witness :
  let acts := [ATicker CaseChan; AReceive (Message (mkResponse None "" None "echo")); AEchoFromListen; AEcho 7 CaseDone;
               ARpc 7 CaseDone; ARpc 7 CaseDone; ACancel client_ctx (ErrorString "context canceled")] in
  let s := default (New 1) (run no_decode no_text acts (New 1)) in
  can no_decode no_text 11 all_stopped s.
Proof.
  intros acts s.
  apply (Close_stops no_decode no_text 1 acts s (ErrorString "context canceled")).
  - reflexivity.
  - vm_compute. reflexivity.
  - reflexivity.
  - vm_compute. reflexivity.
  - vm_compute. discriminate.
  - vm_compute. discriminate.
  - vm_compute. discriminate.
  - vm_compute. reflexivity.
Defined.

(** A notification of another kind, which has no identifier, stops the process. *)
Example listen_nil_id :
  listener <$> run no_decode no_text [AReceive (Message (mkResponse None "" None "update"))] (New 0) = Some LPanicked.
Proof. reflexivity. Qed.

Lemma Close_hangs_witness :
  exists s, run no_decode no_text [AReceive (ReceiveError true)] (New 0) = Some s /\
    forall acts s', run no_decode no_text acts s = Some s' -> ~ all_stopped s'.
Proof.
  eexists. split; [reflexivity|]. intros acts s' Hr.
  exact (proj2 (Close_hangs no_decode no_text acts _ s' Hr eq_refl eq_refl)).
Defined.
