(* ===== verification/Lifecycle.v ===== *)
(** * The life of an OVSDB client: options, connection, closing

    Models the rest of [ovsdb/client.go] and of [ovsdb/internal/jsonrpc/conn.go]: the
    options, [New] and [Dial], the connection with its debugging wrapper, and [Close],
    with the wait group, as steps beside those of [Ovsdb].

    The connection of package [net] is an argument; once [Close] has closed it, sends
    and reads fail, except that the JSON decoder may still hold some messages it read
    before. *)

From stdpp Require Import gmap.
From S2P Require Import Prelude GoStrings GoConv Ovsdb.

(** ** The connection *)

(** An [io.ReadWriteCloser] in a state [W]: [Read] is given the size of its buffer and
    returns the bytes it put there. *)
Record ReadWriteCloser W := mkRWC {
  Read : nat -> W -> W * (string * option error);
  Write : string -> W -> W * (nat * option error);
  CloseRWC : W -> W * option error
}.
Arguments mkRWC {W}.
Arguments Read {W}.
Arguments Write {W}.
Arguments CloseRWC {W}.

(** A logger adds a line to the state. *)
Definition logger W := string -> W -> W.

Section conn.
Context {W : Type} (Error : error -> string).

Definition debugReadWriteCloser (rwc : ReadWriteCloser W) (ll : logger W) : ReadWriteCloser W :=
  mkRWC
    (fun size w =>
       let '(w, (b, err)) := Read rwc size w in
       match err with
       | Some e => (w, (b, Some e))
       | None => (ll (" read: " +:+ b) w, (b, None))
       end)
    (fun b w =>
       let '(w, (n, err)) := Write rwc b w in
       match err with
       | Some e => (w, (n, Some e))
       | None => (ll ("write: " +:+ stake n b) w, (n, None))
       end)
    (fun w =>
       let '(w, err) := CloseRWC rwc w in
       (ll ("close: " +:+ match err with None => "<nil>" | Some e => Error e end) w, err)).

(** [Conn]: what is closed, the writer of the encoder and the reader of the decoder. *)
Record Conn := mkConn {
  c_Close : W -> W * option error;
  enc : string -> W -> W * (nat * option error);
  dec : nat -> W -> W * (string * option error)
}.

Definition NewConn (rwc : ReadWriteCloser W) (ll : option (logger W)) : Conn :=
  let rwc := match ll with Some ll => debugReadWriteCloser rwc ll | None => rwc end in
  mkConn (CloseRWC rwc) (Write rwc) (Read rwc).

Definition Conn_Close (c : Conn) : W -> W * option error := c_Close c.

(** ** Options, [New] and [Dial] *)

Record config := mkConfig { ll : option (logger W); echoInterval : Z }.
Definition OptionFunc := config -> go config.

Definition Debug (l : logger W) : OptionFunc := fun c => Ok (mkConfig (Some l) (echoInterval c)).
Definition EchoInterval (d : Z) : OptionFunc := fun c => Ok (mkConfig (ll c) d).

Fixpoint apply_options (options : list OptionFunc) (c : config) : go config :=
  match options with
  | [] => Ok c
  | o :: options => c ← o c; apply_options options c
  end.

(** [New] on a connection: the client, whose goroutines [Ovsdb.New] starts, and its
    connection. *)
Definition NewClient (conn : ReadWriteCloser W) (options : list OptionFunc) : go (Conn * Client) :=
  c ← apply_options options (mkConfig None 0);
  Ok (NewConn conn (ll c), New (echoInterval c)).

Definition Dial (net_Dial : W -> W * (ReadWriteCloser W + error)) (options : list OptionFunc) (w : W)
    : W * go (Conn * Client) :=
  let '(w, r) := net_Dial w in
  match r with
  | inr e => (w, Err e)
  | inl conn => (w, NewClient conn options)
  end.
End conn.

(** ** [Close] beside the client *)

(** Where a call of [Close] is: before [cancel], before the closing of the connection,
    at [wg.Wait] and returned. *)
Inductive closer_pc := CloseCancel | CloseConn | CloseWait (err : option error) | CloseReturned (err : option error).

(** [conn] is [None] while the connection is open, then the number of messages that
    the decoder still holds. *)
Record sys := mkSys { client : Client; wg : nat; conn : option nat; closers : gmap nat closer_pc }.

(** The count [New] gives to the wait group. *)
Definition sys_New (d : Z) : sys := mkSys (New d) (2 + (if d =? 0 then 0 else 1)) None ∅.

Inductive sys_action :=
| SClient (a : action)
| SClose (n : nat)                                    (** a goroutine calls [Close] *)
| SCloser (n : nat) (err : option error) (held : nat). (** its next step *)

(** What a connection that was closed, and the private context of the client, allow. *)
Definition allowed (a : action) (conn : option nat) : bool :=
  match a, conn with
  | ACancel ctx _, _ => negb (ctx =? client_ctx)%nat
  | AReceive ReceiveStop, Some held => (held =? 0)%nat
  | AReceive (Message _ | ReceiveError false), Some held => (0 <? held)%nat
  | ASend _ None, Some _ => false
  | _, _ => true
  end.

Definition consume (a : action) (conn : option nat) : option nat :=
  match a with
  | AReceive (Message _ | ReceiveError false) => pred <$> conn
  | _ => conn
  end.

(** The background goroutines that have not returned. *)
Definition live (s : Client) : nat :=
  (match listener s with LStopped => 0 | _ => 1 end) +
  (match echoer s with EStopped => 0 | _ => 1 end) +
  (match ticker s with TStopped => 0 | _ => 1 end).

Definition canceled : error := ErrorString "context canceled".

Definition cancel (s : Client) : Client :=
  match done s !! client_ctx with Some _ => s | None => set_done client_ctx canceled s end.

Definition set_closer (n : nat) (pc : closer_pc) (y : sys) : sys :=
  mkSys (client y) (wg y) (conn y) (<[n := pc]> (closers y)).

(** A step of [Close]. *)
Definition closer_next (n : nat) (err : option error) (held : nat) (y : sys) : option sys :=
  match closers y !! n with
  | Some CloseCancel => Some (set_closer n CloseConn (mkSys (cancel (client y)) (wg y) (conn y) (closers y)))
  | Some CloseConn =>
      Some (set_closer n (CloseWait err)
        (mkSys (client y) (wg y) (match conn y with None => Some held | c => c end) (closers y)))
  | Some (CloseWait e) => if (wg y =? 0)%nat then Some (set_closer n (CloseReturned e) y) else None
  | _ => None
  end.

Section system.
Context (Unmarshal : string -> go (list string)) (Error : error -> string).

(** A goroutine that returns runs its deferred [wg.Done]. *)
Definition sys_next (a : sys_action) (y : sys) : option sys :=
  match a with
  | SClient a =>
      if allowed a (conn y) then
        match next Unmarshal Error a (client y) with
        | Some s => Some (mkSys s (wg y - (live (client y) - live s)) (consume a (conn y)) (closers y))
        | None => None
        end
      else None
  | SClose n => match closers y !! n with None => Some (set_closer n CloseCancel y) | Some _ => None end
  | SCloser n err held => closer_next n err held y
  end.

Fixpoint sys_run (acts : list sys_action) (y : sys) : option sys :=
  match acts with
  | [] => Some y
  | a :: acts => match sys_next a y with Some y => sys_run acts y | None => None end
  end.
End system.

(** ** Steps after the cancellation *)

Lemma doCallback_frame k id r s s' :
  doCallback k id r s = Some (Ok s') -> calls s' = calls s /\ others_same s s' /\ stuck s' = stuck s.
Proof.
  unfold doCallback. destruct (callbacks s !! id) as [cb|]; [|by intros [= <-]].
  destruct (default (mkChan None false) (chans s !! cb_chan cb)) as [b [|]], k; cbn; try done.
  - by destruct (done s !! cb_ctx cb).
  - destruct (done s !! cb_ctx cb); [|done]. by intros [= <-].
  - destruct b; [done|]. by intros [= <-].
Qed.

(** Every case of a step that is not a call's. *)
Ltac step_cases H :=
  cbn [next] in H; unfold receive_next, listen_next, echo_next, ticker_next in H;
  repeat (match type of H with context [match ?x with _ => _ end] => destruct x eqn:? end; try discriminate H);
  injection H as <-;
  try match goal with H : doCallback _ _ _ _ = Some (Ok _) |- _ =>
    apply doCallback_frame in H as (? & (? & ? & ? & ?) & ?) end.

Section stopping.
Context (Unmarshal : string -> go (list string)) (Error : error -> string).

(** The steps of the background goroutines, and of the call the echo loop waits for. *)
Definition background (s : Client) (a : action) : bool :=
  match a with
  | AReceive _ | AListen _ | AEcho _ _ | ATicker _ | AEchoFromListen | AEchoFromTicker => true
  | ARpc n _ | ASend n _ => match echoer s with EEcho m => (n =? m)%nat | _ => false end
  | _ => false
  end.

(** The steps they may still take once the context is done, with [held] messages. *)
Definition listener_steps (l : listen_pc) (held : nat) : nat :=
  match l with LReceive => 2 * held + 1 | LEcho | LCallback _ _ => 2 * held + 2 | _ => 0 end.
Definition echoer_steps (s : Client) : nat :=
  match echoer s with
  | EWait => 2 | ETick => 1
  | EEcho m => 3 + match calls s !! m with Some c => rank (call_pc c) | None => 6 end
  | _ => 0
  end.
Definition ticker_steps (t : ticker_pc) : nat :=
  match t with TSend => 3 | TWait => 2 | TTick => 1 | _ => 0 end.
Definition steps_left (s : Client) (held : nat) : nat :=
  listener_steps (listener s) held + echoer_steps s + ticker_steps (ticker s).

Lemma rank_le pc : (rank pc <= 6)%nat.
Proof. destruct pc; cbn; lia. Qed.

Lemma steps_left_le s held : (steps_left s held <= 2 * held + 14)%nat.
Proof.
  unfold steps_left, listener_steps, echoer_steps, ticker_steps.
  assert (H : forall m, (match calls s !! m with Some c => rank (call_pc c) | None => 6 end <= 6)%nat)
    by (intros m; destruct (calls s !! m) as [c|]; [apply rank_le|lia]).
  destruct (listener s), (echoer s) as [| |m| |], (ticker s); try specialize (H m); lia.
Qed.

(** A step of a call lowers its rank and leaves the rest of the client. *)
Definition call_moved (n : nat) (s s' : Client) : Prop :=
  exists c pc, calls s !! n = Some c /\ calls s' = <[n := mkCall (call_ctx c) pc]> (calls s) /\
    (rank pc < rank (call_pc c))%nat /\ others_same s s' /\ stuck s' = stuck s.

Lemma call_moved_set n c pc s s0 s' :
  calls s !! n = Some c -> calls s0 = calls s -> (rank pc < rank (call_pc c))%nat -> others_same s s0 ->
  stuck s0 = stuck s -> Some (set_pc n (call_ctx c) pc s0) = Some s' -> call_moved n s s'.
Proof. intros Hc E Hr Ho Hst [= <-]. exists c, pc. cbn. rewrite E. by split_and!. Qed.

Lemma rpc_next_moved n k s s' : rpc_next n k s = Some s' -> call_moved n s s'.
Proof.
  unfold rpc_next. destruct (calls s !! n) as [c|] eqn:Hc; [|done].
  destruct (call_pc c) as [| |id|id|id|id out|id out|] eqn:Hpc; try done;
    try (apply call_moved_set; rewrite ?Hpc; cbn; done || lia).
  - destruct (done s !! call_ctx c); apply call_moved_set; rewrite ?Hpc; cbn; done || lia.
  - unfold addCallback. cbn. destruct (callbacks s !! id); apply call_moved_set; rewrite ?Hpc; cbn; done || lia.
  - destruct k.
    + destruct (done s !! call_ctx c); [|done]. apply call_moved_set; rewrite ?Hpc; cbn; done || lia.
    + destruct (ch_buf _); [apply call_moved_set; rewrite ?Hpc; cbn; done || lia|].
      destruct (ch_closed _); [|done]. apply call_moved_set; rewrite ?Hpc; cbn; done || lia.
Qed.

Lemma send_next_moved n err s s' : send_next n err s = Some s' -> call_moved n s s'.
Proof.
  unfold send_next. destruct (calls s !! n) as [[ctx pc]|] eqn:Hc; [|done]. destruct pc; try done.
  apply (call_moved_set n _ _ s s s' Hc); cbn; try done. destruct err; cbn; lia.
Qed.

(** The effect of a call's step on the steps left, for the call of the echo loop and
    for any other. *)
Lemma call_moved_steps n s s' held :
  call_moved n s s' ->
  if match echoer s with EEcho m => (n =? m)%nat | _ => false end
  then (steps_left s' held < steps_left s held)%nat else steps_left s' held = steps_left s held.
Proof.
  intros (c & pc & Hc & Hcs & Hr & (Hd & Hl & He & Ht) & _).
  unfold steps_left, echoer_steps. rewrite Hl, He, Ht, Hcs. destruct (echoer s) as [| |m| |]; try done.
  destruct (Nat.eqb_spec n m) as [->|Hne].
  - rewrite lookup_insert_eq, Hc. cbn. lia.
  - by rewrite lookup_insert_ne.
Qed.

Definition is_call (a : action) : option nat :=
  match a with ARpc n _ | ASend n _ => Some n | _ => None end.

Lemma is_call_moved a n s s' : is_call a = Some n -> next Unmarshal Error a s = Some s' -> call_moved n s s'.
Proof.
  destruct a; cbn [is_call]; try done; intros [= <-]; cbn [next]; [apply rpc_next_moved|apply send_next_moved].
Qed.

(** Contexts stay done, and the decoder stays failed. *)
Lemma step_keeps a s s' :
  next Unmarshal Error a s = Some s' ->
  (forall ctx e, done s !! ctx = Some e -> done s' !! ctx = Some e) /\
  (stuck s' = false -> stuck s = false) /\ (live s' <= live s)%nat.
Proof.
  intros H. destruct (is_call a) as [n|] eqn:Ha.
  - destruct (is_call_moved a n s s' Ha H) as (c & pc & _ & _ & _ & (Hd & Hl & He & Ht) & Hst).
    unfold live. rewrite Hd, Hl, He, Ht, Hst. by split_and!.
  - assert (Hsame : done s' = done s -> forall ctx e, done s !! ctx = Some e -> done s' !! ctx = Some e) by congruence.
    destruct a as [n ctx|ctx e|n kc|n err|m|kc|n kc|kc| |]; try done; step_cases H;
      (split_and!; [try (apply Hsame; by cbn)|by cbn; congruence|
        unfold live; cbn; repeat match goal with E : _ = _ |- _ => progress rewrite E end; cbn; lia]).
    intros ctx' e' Hd. cbn. destruct (decide (ctx' = ctx)) as [->|Hne]; [congruence|]. by rewrite lookup_insert_ne.
Qed.

(** After the cancellation, a background step uses up one of the steps left, and no
    other step adds any. *)
Lemma step_uses a s s' held e :
  done s !! client_ctx = Some e -> stuck s' = false -> next Unmarshal Error a s = Some s' ->
  allowed a (Some held) = true ->
  exists held', consume a (Some held) = Some held' /\
    if background s a then (steps_left s' held' < steps_left s held)%nat
    else (steps_left s' held' <= steps_left s held)%nat.
Proof.
  intros Hd Hst H Hal. destruct (is_call a) as [n|] eqn:Ha.
  - exists held. pose proof (call_moved_steps n s s' held (is_call_moved a n s s' Ha H)) as Hm.
    destruct a; try done; injection Ha as ->; (split; [done|]); unfold background;
      destruct (echoer s) as [| |m| |]; try lia; destruct (n =? m)%nat; lia.
  - unfold steps_left, echoer_steps.
    destruct a as [n ctx|ctx x|n kc|n err|m|kc|n kc|kc| |]; try done; step_cases H;
      try congruence; cbn in Hst; subst; cbn [allowed] in Hal;
      try (destruct for_ever; [discriminate|]);
      cbn [consume background fmap option_fmap option_map]; eexists; (split; [reflexivity|]);
      repeat match goal with E : (_ <? _)%nat = true |- _ => apply Nat.ltb_lt in E end;
      cbn in *; try discriminate;
      repeat match goal with E : _ = _ |- _ => progress rewrite E end; cbn; try lia.
    destruct (echoer s) as [| |m| |]; try lia. destruct (decide (m = n)) as [->|Hne].
    + rewrite lookup_insert_eq, Heqo. cbn. lia.
    + rewrite lookup_insert_ne by done. lia.
Qed.

(** A call whose context is done can take a step, or has returned. *)
Lemma call_ready s n c e held :
  calls s !! n = Some c -> done s !! call_ctx c = Some e -> call_pc c <> RpcPanicked ->
  (exists id out, call_pc c = RpcReturned id out) \/
  exists a s', is_call a = Some n /\ allowed a held = true /\ next Unmarshal Error a s = Some s'.
Proof.
  intros Hc Hd Hp.
  assert (Hrpc : forall x, rpc_next n CaseDone s = Some x -> exists a s', is_call a = Some n /\
    allowed a held = true /\ next Unmarshal Error a s = Some s').
  { intros x Hx. exists (ARpc n CaseDone), x. by destruct held. }
  destruct (call_pc c) as [| |id|id|id|id out|id out|] eqn:Hpc; try done; [..|left; eauto]; right;
    try (eapply Hrpc; unfold rpc_next; rewrite Hc, Hpc, ?Hd; reflexivity).
  - destruct (addCallback id (mkCallback (call_ctx c) n) (set_chan n (mkChan None false) s)) eqn:Ha;
      eapply Hrpc; unfold rpc_next; rewrite Hc, Hpc, Ha; reflexivity.
  - exists (ASend n (Some canceled)). cbn [is_call allowed next]. unfold send_next. rewrite Hc.
    destruct c as [ctx pc]. cbn in Hpc. subst pc. eexists. split_and!; [done|by destruct held|reflexivity].
Qed.

Definition panicked (s : Client) : Prop := listener s = LPanicked \/ echoer s = EPanicked \/ ticker s = TPanicked.

(** While a background goroutine runs, one can take a step. *)
Lemma step_ready tr k s held e :
  Inv tr k s -> echo_call s -> done s !! client_ctx = Some e -> ~ panicked s -> ~ all_stopped s ->
  exists a s', background s a = true /\ allowed a (Some held) = true /\ next Unmarshal Error a s = Some s'.
Proof.
  intros HI Hec Hd Hp Hs.
  destruct (listener s) as [| |id r| |] eqn:Hl.
  - destruct (stuck s) eqn:Hst.
    { exists (AReceive (ReceiveError true)), s. cbn. unfold receive_next. by rewrite Hl, Hst. }
    destruct held as [|held].
    + exists (AReceive ReceiveStop). cbn. unfold receive_next. rewrite Hl, Hst. by eexists.
    + exists (AReceive (ReceiveError false)). cbn. unfold receive_next. rewrite Hl, Hst. by eexists.
  - exists (AListen CaseDone). cbn. unfold listen_next. rewrite Hl, Hd. by eexists.
  - destruct (doCallback_ready tr k s id r HI) as [s1 H1]. exists (AListen CaseChan). cbn. unfold listen_next.
    rewrite Hl, H1. by eexists.
  - destruct (echoer s) as [| |m| |] eqn:He.
    + exists (AEcho 0 CaseDone). cbn. unfold echo_next. rewrite He, Hd. by eexists.
    + exists (AEcho 0 CaseDone). cbn. unfold echo_next. rewrite He, Hd. by eexists.
    + destruct (Hec m He) as (c & Hc & Hctx).
      destruct (call_ready s m c e (Some held)) as [(id & out & Hpc)|(a & s' & Ha & Hal & H)].
      * done.
      * by rewrite Hctx.
      * intros Hpc. pose proof (I_call _ _ _ HI m c Hc) as Hok. unfold call_ok in Hok. by rewrite Hpc in Hok.
      * exists (AEcho 0 CaseDone). cbn. unfold echo_next. rewrite He, Hc. destruct c as [ctx pc]. cbn in Hpc. subst pc.
        destruct (echo_error Unmarshal out) as [[x|]|x|w]; [destruct (isClosedNetwork Error x)|..]; by eexists.
      * exists a, s'. split_and!; [|done|done]. destruct a; try done; injection Ha as ->; cbn; rewrite He; by apply Nat.eqb_eq.
    + destruct (ticker s) eqn:Ht.
      * exists (ATicker CaseDone). cbn. unfold ticker_next. rewrite Ht, Hd. by eexists.
      * exists (ATicker CaseDone). cbn. unfold ticker_next. rewrite Ht, Hd. by eexists.
      * exists (ATicker CaseDone). cbn. unfold ticker_next. rewrite Ht, Hd. by eexists.
      * by destruct Hs.
      * destruct Hp. by right; right.
    + destruct Hp. by right; left.
  - destruct Hp. by left.
Qed.

(** ** Runs of the system *)

Definition canceled_at (y : sys) : Prop := is_Some (done (client y) !! client_ctx).

(** What a call of [Close] has already done. *)
Definition closer_ok (y : sys) (pc : closer_pc) : Prop :=
  match pc with
  | CloseCancel => True
  | CloseConn => canceled_at y
  | CloseWait _ => canceled_at y /\ is_Some (conn y)
  | CloseReturned _ => canceled_at y /\ is_Some (conn y) /\ live (client y) = 0%nat
  end.

Record SInv (d : Z) (k : nat) (y : sys) : Prop := mkSInv {
  S_run : exists tr, run Unmarshal Error tr (New d) = Some (client y) /\ (length tr <= k)%nat;
  S_wg : wg y = live (client y);
  S_closers n pc : closers y !! n = Some pc -> closer_ok y pc
}.

Lemma SInv_New d : SInv d 0 (sys_New d).
Proof.
  split; [by exists []| |done]. cbn. unfold live, New. cbn. destruct (d =? 0); [done|]. by destruct (d <? 0).
Qed.

(** Nothing a call of [Close] has done is undone. *)
Lemma closer_ok_mono y y' pc :
  (canceled_at y -> canceled_at y') -> (is_Some (conn y) -> is_Some (conn y')) ->
  (live (client y') <= live (client y))%nat -> closer_ok y pc -> closer_ok y' pc.
Proof. intros H1 H2 H3. destruct pc; cbn; [done|auto|intros []; auto|]. intros (? & ? & ?). split_and!; auto. lia. Qed.

Lemma SInv_client d k y a s :
  SInv d k y -> next Unmarshal Error a (client y) = Some s ->
  SInv d (S k) (mkSys s (wg y - (live (client y) - live s)) (consume a (conn y)) (closers y)).
Proof.
  intros [(tr & Hr & Hk) Hwg Hcl] Ha. destruct (step_keeps a _ s Ha) as (Hd & _ & Hlive).
  split; cbn [client wg closers].
  - exists (tr ++ [a]). rewrite run_snoc, Hr, length_app. cbn. split; [done|lia].
  - rewrite Hwg. lia.
  - intros n pc Hn. apply (closer_ok_mono y); [..|by apply (Hcl n)].
    + intros [e He]. exists e. by apply Hd.
    + intros [h ->]. cbn. destruct a as [| | | |m| | | | |]; try by eexists. destruct m as [r| |[|]]; by eexists.
    + done.
Qed.

Lemma SInv_set d k n pc y y' :
  SInv d k y -> (exists tr, run Unmarshal Error tr (New d) = Some (client y') /\ (length tr <= S k)%nat) ->
  wg y' = wg y -> closers y' = <[n := pc]> (closers y) ->
  (canceled_at y -> canceled_at y') -> (is_Some (conn y) -> is_Some (conn y')) ->
  live (client y') = live (client y) -> closer_ok y' pc -> SInv d (S k) y'.
Proof.
  intros HI Hr Hw Hc H1 H2 H3 Hpc. split; [done| |].
  - rewrite Hw, H3. apply HI.
  - intros m pc'. rewrite Hc. destruct (decide (m = n)) as [->|Hne].
    + rewrite lookup_insert_eq. by intros [= <-].
    + rewrite lookup_insert_ne by done. intros Hm. apply (closer_ok_mono y); [done|done|lia|by eapply S_closers].
Qed.

Lemma SInv_run_S d k y : SInv d k y -> exists tr, run Unmarshal Error tr (New d) = Some (client y) /\ (length tr <= S k)%nat.
Proof. intros [(tr & Hr & Hk) _ _]. exists tr. split; [done|lia]. Qed.

Lemma SInv_closer d k n err held y y' : SInv d k y -> closer_next n err held y = Some y' -> SInv d (S k) y'.
Proof.
  intros HI. unfold closer_next. destruct (closers y !! n) as [[| |e|e]|] eqn:Hn; try done.
  - intros [= <-].
    assert (Hcan : canceled_at (set_closer n CloseConn (mkSys (cancel (client y)) (wg y) (conn y) (closers y)))).
    { unfold canceled_at, cancel. cbn. destruct (done (client y) !! client_ctx) eqn:Hd; [by rewrite Hd|].
      cbn. rewrite lookup_insert_eq. by eexists. }
    eapply (SInv_set d k n _ y); try done.
    + cbn. unfold cancel. destruct (done (client y) !! client_ctx) eqn:Hd; [by apply (SInv_run_S _ _ y)|].
      destruct HI as [(tr & Hr & Hk) _ _]. exists (tr ++ [ACancel client_ctx canceled]).
      rewrite run_snoc, Hr, length_app. cbn. rewrite Hd. split; [done|lia].
    + cbn. unfold cancel. by destruct (done (client y) !! client_ctx).
  - intros [= <-]. pose proof (S_closers _ _ _ HI n _ Hn) as Hok. cbn in Hok.
    assert (Hconn : is_Some (match conn y with Some h => Some h | None => Some held end)) by (destruct (conn y); by eexists).
    eapply (SInv_set d k n _ y); try done. by apply (SInv_run_S _ _ y).
  - destruct (Nat.eqb_spec (wg y) 0) as [Hw|]; [|done]. intros [= <-].
    pose proof (S_closers _ _ _ HI n _ Hn) as Hok. cbn in Hok.
    eapply (SInv_set d k n _ y); try done; [by apply (SInv_run_S _ _ y)|].
    cbn. split_and!; try apply Hok. rewrite <- (S_wg _ _ _ HI). exact Hw.
Qed.

Lemma SInv_next d k a y y' : SInv d k y -> sys_next Unmarshal Error a y = Some y' -> SInv d (S k) y'.
Proof.
  intros HI. destruct a as [a|n|n err held]; cbn [sys_next].
  - destruct (allowed a (conn y)); [|done]. destruct (next _ _ a (client y)) as [s|] eqn:Ha; [|done].
    intros [= <-]. by apply SInv_client.
  - destruct (closers y !! n); [done|]. intros [= <-].
    eapply (SInv_set d k n _ y); try done. by apply (SInv_run_S _ _ y).
  - by apply SInv_closer.
Qed.

Lemma SInv_run d acts k y y' : SInv d k y -> sys_run Unmarshal Error acts y = Some y' -> SInv d (k + length acts) y'.
Proof.
  revert k y. induction acts as [|a acts IH]; intros k y HI; cbn [sys_run length].
  - intros [= <-]. by rewrite Nat.add_0_r.
  - destruct (sys_next _ _ a y) as [y1|] eqn:Ha; [|done]. intros Hr.
    replace (k + S (length acts))%nat with (S k + length acts)%nat by lia.
    apply (IH _ y1); [by apply (SInv_next _ _ a y)|done].
Qed.

Lemma live_0 s : live s = 0%nat <-> all_stopped s.
Proof. unfold live, all_stopped. destruct (listener s), (echoer s), (ticker s); cbn;
    (split; [intros H; try done; lia|by intros (? & ? & ?)]).
Qed.

Lemma stopped_no_step s a : all_stopped s -> background s a = true -> next Unmarshal Error a s = None.
Proof.
  intros (Hl & He & Ht). destruct a; cbn [background next]; rewrite ?He; try done; intros _.
  - unfold receive_next. by rewrite Hl.
  - unfold listen_next. by rewrite Hl.
  - unfold echo_next. by rewrite He.
  - unfold ticker_next. by rewrite Ht.
  - by rewrite Hl.
  - by rewrite Ht.
Qed.

(** *** What is left once the connection is closed *)

Fixpoint background_steps (acts : list sys_action) (y : sys) : nat :=
  match acts with
  | [] => 0
  | a :: acts =>
      match a with SClient a => if background (client y) a then 1 else 0 | _ => 0 end +
      match sys_next Unmarshal Error a y with Some y => background_steps acts y | None => 0 end
  end.

Lemma sys_next_stuck a y y' :
  sys_next Unmarshal Error a y = Some y' -> stuck (client y') = false -> stuck (client y) = false.
Proof.
  destruct a as [a|n|n err held]; cbn [sys_next].
  - destruct (allowed a (conn y)); [|done]. destruct (next _ _ a (client y)) as [s|] eqn:Ha; [|done].
    intros [= <-]. by apply (step_keeps a _ s Ha).
  - destruct (closers y !! n); [done|]. by intros [= <-].
  - unfold closer_next. destruct (closers y !! n) as [[| |e|e]|]; try done.
    + intros [= <-]. cbn. unfold cancel. by destruct (done (client y) !! client_ctx).
    + by intros [= <-].
    + destruct (wg y =? 0)%nat; [|done]. by intros [= <-].
Qed.

Lemma sys_run_stuck acts y y' :
  sys_run Unmarshal Error acts y = Some y' -> stuck (client y') = false -> stuck (client y) = false.
Proof.
  revert y. induction acts as [|a acts IH]; intros y; cbn [sys_run]; [by intros [= <-]|].
  destruct (sys_next _ _ a y) as [y1|] eqn:Ha; [|done]. intros Hr Hs.
  by eapply sys_next_stuck; [|eapply IH].
Qed.

(** One step of the system, once the context is done and the connection closed. *)
Lemma sys_next_uses a y y' held :
  sys_next Unmarshal Error a y = Some y' -> canceled_at y -> conn y = Some held -> stuck (client y') = false ->
  canceled_at y' /\ exists held', conn y' = Some held' /\
    (match a with SClient a => if background (client y) a then 1 else 0 | _ => 0 end +
     steps_left (client y') held' <= steps_left (client y) held)%nat.
Proof.
  intros H [e He] Hc Hst. destruct a as [a|n|n err h]; cbn [sys_next] in H.
  - destruct (allowed a (conn y)) eqn:Hal; [|done]. destruct (next _ _ a (client y)) as [s|] eqn:Ha; [|done].
    injection H as <-. rewrite Hc in *. cbn [client conn] in *.
    destruct (step_uses a _ s held e He Hst Ha Hal) as (held' & Hh & Hm).
    split; [exists e; by apply (step_keeps a _ s Ha)|]. exists held'. split; [done|]. destruct (background (client y) a); lia.
  - destruct (closers y !! n); [done|]. injection H as <-. split; [by exists e|]. exists held. by split.
  - unfold closer_next in H. destruct (closers y !! n) as [[| |x|x]|]; try done.
    + injection H as <-. unfold canceled_at, cancel. cbn. rewrite He. split; [by exists e|]. exists held. split; [done|lia].
    + injection H as <-. split; [by exists e|]. exists held. cbn. rewrite Hc. split; [done|lia].
    + destruct (wg y =? 0)%nat; [|done]. injection H as <-. split; [by exists e|]. exists held. cbn. split; [done|lia].
Qed.

Lemma sys_run_uses acts y y' held :
  sys_run Unmarshal Error acts y = Some y' -> canceled_at y -> conn y = Some held -> stuck (client y') = false ->
  canceled_at y' /\ exists held', conn y' = Some held' /\
    (background_steps acts y + steps_left (client y') held' <= steps_left (client y) held)%nat.
Proof.
  revert y held. induction acts as [|a acts IH]; intros y held; cbn [sys_run background_steps].
  - intros [= <-] Hcan Hc _. split; [done|]. exists held. split; [done|lia].
  - destruct (sys_next _ _ a y) as [y1|] eqn:Ha; [|done]. intros Hr Hcan Hc Hst.
    destruct (sys_next_uses a y y1 held Ha Hcan Hc) as (Hcan1 & held1 & Hc1 & H1); [by eapply sys_run_stuck|].
    destruct (IH y1 held1 Hr Hcan1 Hc1 Hst) as (Hcan2 & held2 & Hc2 & H2).
    split; [done|]. exists held2. split; [done|lia].
Qed.

(** A call of [Close] that waits goes on waiting, or has returned what closing the
    connection returned. *)
Lemma closer_stays acts n err y y' :
  sys_run Unmarshal Error acts y = Some y' ->
  closers y !! n = Some (CloseWait err) \/ closers y !! n = Some (CloseReturned err) ->
  closers y' !! n = Some (CloseWait err) \/ closers y' !! n = Some (CloseReturned err).
Proof.
  revert y. induction acts as [|a acts IH]; intros y; cbn [sys_run]; [by intros [= <-]|].
  destruct (sys_next _ _ a y) as [y1|] eqn:Ha; [|done]. intros Hr Hn. apply (IH y1 Hr).
  destruct a as [a|m|m x held]; cbn [sys_next] in Ha.
  - destruct (allowed a (conn y)); [|done]. destruct (next _ _ a (client y)); [|done]. by injection Ha as <-.
  - destruct (closers y !! m) eqn:Hm; [done|]. injection Ha as <-. cbn.
    rewrite lookup_insert_ne; [done|]. intros ->. by destruct Hn; congruence.
  - unfold closer_next in Ha. destruct (decide (m = n)) as [->|Hne].
    + destruct Hn as [Hn|Hn]; rewrite Hn in Ha; [|done]. destruct (wg y =? 0)%nat; [|done].
      injection Ha as <-. cbn. rewrite lookup_insert_eq. by right.
    + destruct (closers y !! m) as [[| |z|z]|]; try done;
        [..|destruct (wg y =? 0)%nat; [|done]]; injection Ha as <-; cbn; by rewrite lookup_insert_ne.
Qed.

(** *** The theorems *)

(** C33: [Close] returns, unless the decoder keeps returning an error ([Close_hangs]) or a
    goroutine panics. Once a call of it waits, having cancelled the context and closed
    the connection, of whose messages the decoder still holds [held], and while neither
    of these happens: whatever else does, the background goroutines take at most
    [2 * held + 14] more steps, and while none of them can take a step the call can return,
    with the error of the closing. *)
Theorem Close_returns d acts y n err held more y' :
  sys_run Unmarshal Error acts (sys_New d) = Some y ->
  closers y !! n = Some (CloseWait err) -> conn y = Some held ->
  sys_run Unmarshal Error more y = Some y' -> Z.of_nat (length acts + length more) < 2 ^ 63 ->
  stuck (client y') = false -> ~ panicked (client y') ->
  (background_steps more y <= 2 * held + 14)%nat /\
  ((forall a, background (client y') a = true -> sys_next Unmarshal Error (SClient a) y' = None) ->
   closers y' !! n = Some (CloseReturned err) \/
   exists y2, sys_next Unmarshal Error (SCloser n None 0) y' = Some y2 /\
     closers y2 !! n = Some (CloseReturned err)).
Proof.
  intros Hr Hn Hc Hm Hk Hst Hp.
  pose proof (SInv_run d acts 0 _ y (SInv_New d) Hr) as HI. cbn [Nat.add] in HI.
  destruct (S_closers _ _ _ HI n _ Hn) as [Hcan _].
  destruct (sys_run_uses more y y' held Hm Hcan Hc Hst) as ([e He] & held' & Hc' & Hu).
  split; [pose proof (steps_left_le (client y) held); lia|]. intros Hno.
  pose proof (SInv_run d more _ y y' HI Hm) as HI'.
  destruct (closer_stays more n err y y' Hm (or_introl Hn)) as [Hw|Hw]; [right|by left].
  destruct (S_run _ _ _ HI') as (tr & Htr & Hlen).
  destruct (decide (live (client y') = 0%nat)) as [Hl|Hl].
  - eexists. cbn [sys_next]. unfold closer_next. rewrite Hw, (S_wg _ _ _ HI'), Hl. cbn.
    split; [reflexivity|]. cbn. by rewrite lookup_insert_eq.
  - exfalso. rewrite live_0 in Hl.
    destruct (step_ready tr (Z.of_nat (length tr)) (client y') held' e) as (a & s' & Hb & Hal & Ha); try done.
    + apply (run_Inv Unmarshal Error d tr (client y') Htr). lia.
    + by eapply run_echo_call.
    + specialize (Hno a Hb). cbn [sys_next] in Hno. by rewrite Hc', Hal, Ha in Hno.
Qed.

(** When a call of [Close] has returned, the context is done, the connection is
    closed, and all background goroutines have returned: none of them takes another
    step. *)
Theorem Close_joined d acts y n err :
  sys_run Unmarshal Error acts (sys_New d) = Some y -> closers y !! n = Some (CloseReturned err) ->
  is_Some (done (client y) !! client_ctx) /\ is_Some (conn y) /\ all_stopped (client y) /\
  forall a, background (client y) a = true -> sys_next Unmarshal Error (SClient a) y = None.
Proof.
  intros Hr Hn. pose proof (SInv_run d acts 0 _ y (SInv_New d) Hr) as HI.
  destruct (S_closers _ _ _ HI n _ Hn) as (Hcan & Hc & Hl). apply live_0 in Hl.
  split_and!; [done..|]. intros a Hb. cbn [sys_next]. rewrite (stopped_no_step _ a Hl Hb). by destruct (allowed a (conn y)).
Qed.
End stopping.

(** ** A deadlock between the listener and the echo loop

    [listen] hands an echo request of the server to the echo loop, over a channel
    without room, and waits until it is taken; the echo loop waits for the response to
    its own echo, which only [listen] can deliver. *)

Section deadlock.
Context (Unmarshal : string -> go (list string)) (Error : error -> string).

(** A call that waits for its response. *)
Definition waiting (s : Client) (n ctx : nat) (id : string) : Prop :=
  calls s !! n = Some (mkCall ctx (RpcWait id)) /\ chans s !! n = Some (mkChan None false).

Definition deadlocked (s : Client) (m : nat) (id : string) : Prop :=
  listener s = LEcho /\ echoer s = EEcho m /\ waiting s m client_ctx id /\ done s !! client_ctx = None.

Lemma call_chans a n s s' k :
  is_call a = Some n -> next Unmarshal Error a s = Some s' -> k <> n -> chans s' !! k = chans s !! k.
Proof.
  intros Ha H Hk. destruct a as [| |n' kc|n' err| | | | | |]; try done; injection Ha as ->; cbn [next] in H.
  - unfold rpc_next in H. destruct (calls s !! n) as [c|]; [|done]. destruct (call_pc c); try done.
    + destruct (done s !! call_ctx c); by injection H as <-.
    + by injection H as <-.
    + unfold addCallback in H. cbn in H. destruct (callbacks s !! id); injection H as <-; cbn; by rewrite ?lookup_insert_ne.
    + destruct kc; [destruct (done s !! call_ctx c); [|done]; by injection H as <-|].
      destruct (ch_buf _); [injection H as <-; cbn; by rewrite lookup_insert_ne|].
      destruct (ch_closed _); [|done]. by injection H as <-.
    + by injection H as <-.
  - unfold send_next in H. destruct (calls s !! n) as [[ctx pc]|]; [|done]. destruct pc; try done. by injection H as <-.
Qed.

(** A call that waits can only be stopped by its context. *)
Lemma waiting_step a n s s' ctx id :
  is_call a = Some n -> next Unmarshal Error a s = Some s' -> waiting s n ctx id -> is_Some (done s !! ctx).
Proof.
  intros Ha H [Hc Hch]. destruct a as [| |n' kc|n' err| | | | | |]; try done; injection Ha as ->; cbn [next] in H.
  - unfold rpc_next in H. rewrite Hc in H. cbn in H. rewrite Hch in H. cbn in H.
    destruct kc; [|done]. by destruct (done s !! ctx).
  - unfold send_next in H. by rewrite Hc in H.
Qed.

Lemma deadlocked_next a s s' m id :
  next Unmarshal Error a s = Some s' -> (forall e, a <> ACancel client_ctx e) -> deadlocked s m id ->
  deadlocked s' m id /\ forall n ctx i, waiting s n ctx i -> waiting s' n ctx i \/ is_Some (done s !! ctx).
Proof.
  intros H Hno (Hl & He & Hw & Hd). destruct (is_call a) as [n|] eqn:Ha.
  - assert (Hkeep : forall k ctx i, k <> n -> waiting s k ctx i -> waiting s' k ctx i).
    { intros k ctx i Hk [H1 H2]. destruct (is_call_moved Unmarshal Error a n s s' Ha H) as (c & pc & _ & Hcs & _).
      split; [by rewrite Hcs, lookup_insert_ne|]. by rewrite (call_chans a n s s' k Ha H Hk). }
    destruct (is_call_moved Unmarshal Error a n s s' Ha H) as (c & pc & _ & _ & _ & (Od & Ol & Oe & _) & _).
    assert (Hmn : m <> n). { intros ->. pose proof (waiting_step a n s s' _ _ Ha H Hw) as Hx. rewrite Hd in Hx. by destruct Hx. }
    split; [split_and!; try congruence; by apply Hkeep|].
    intros k ctx i Hk. destruct (decide (k = n)) as [->|Hne]; [right; by apply (waiting_step a n s s' ctx i)|left; by apply Hkeep].
  - destruct a as [n ctx|ctx e|n kc|n err|r|kc|n kc|kc| |]; try done; step_cases H; try congruence;
      try (exfalso; destruct Hw as [Hw _]; congruence); try (split; [by split_and!|by left]).
    + assert (Hkeep : forall k c i, waiting s k c i -> waiting (set_pc n ctx RpcStart s) k c i).
      { intros k c i [H1 H2]. split; [|done]. cbn. rewrite lookup_insert_ne; [done|congruence]. }
      split; [split_and!; try done; by apply Hkeep|]. intros k c i Hk. left. by apply Hkeep.
    + split; [|by left]. split_and!; try done. cbn. rewrite lookup_insert_ne; [done|]. intros ->. by destruct (Hno e).
Qed.

(** C26: The listener and the echo loop can wait for each other. Once the listener hands
    over an echo request while the echo loop waits for the response to its own, they
    stay so for ever, unless the client is closed: no message is received any more,
    and every call that waits for its response goes on waiting until its own context
    is done. *)
Theorem listen_echo_deadlock acts s s' m id :
  run Unmarshal Error acts s = Some s' -> deadlocked s m id -> (forall e, ACancel client_ctx e ∉ acts) ->
  deadlocked s' m id /\ (forall r, next Unmarshal Error (AReceive r) s' = None) /\
  forall n ctx i, waiting s n ctx i -> waiting s' n ctx i \/ is_Some (done s' !! ctx).
Proof.
  intros Hr Hd Hno. assert (H : deadlocked s' m id /\
    forall n ctx i, waiting s n ctx i -> waiting s' n ctx i \/ is_Some (done s' !! ctx)).
  { revert s Hr Hd. induction acts as [|a acts IH]; intros s; cbn [run].
    - intros [= <-] Hd. split; [done|by left].
    - destruct (next _ _ a s) as [s1|] eqn:Ha; [|done]. intros Hr Hd.
      destruct (deadlocked_next a s s1 m id Ha) as [Hd1 Hw1]; [|done|].
      { intros e ->. apply (Hno e). left. }
      destruct (IH ltac:(intros e He; apply (Hno e); by right) s1 Hr Hd1) as [Hd2 Hw2].
      split; [done|]. intros n ctx i [Hw|[e He]]%Hw1; [by apply Hw2|]. right. exists e.
      assert (Hmono : forall bcts t t', run Unmarshal Error bcts t = Some t' -> done t !! ctx = Some e -> done t' !! ctx = Some e).
      { induction bcts as [|b bcts IHb]; intros t t'; cbn [run]; [by intros [= <-]|].
        destruct (next _ _ b t) as [t1|] eqn:Hb; [|done]. intros Ht Hx. apply (IHb t1); [done|].
        by apply (step_keeps Unmarshal Error b t t1 Hb). }
      apply (Hmono acts s1); [done|]. by apply (step_keeps Unmarshal Error a s s1 Ha). }
  destruct H as [Hd' Hw]. split_and!; [done| |done].
  intros r. cbn [next]. unfold receive_next. by destruct Hd' as (-> & _).
Qed.
End deadlock.

(** ** The debugging wrapper

    Whoever uses a connection cannot see whether it is logged: what the operations
    return, and what they do to the state below the log, are the same. *)

Inductive io := IORead (size : nat) | IOWrite (b : string) | IOClose.
Inductive outcome := ORead (b : string) (err : option error) | OWrite (n : nat) (err : option error) | OClose (err : option error).

Section debugging.
Context {W : Type} (Error : error -> string).

Definition perform {V} (rwc : ReadWriteCloser V) (o : io) (w : V) : V * outcome :=
  match o with
  | IORead size => let '(w, (b, err)) := Read rwc size w in (w, ORead b err)
  | IOWrite b => let '(w, (n, err)) := Write rwc b w in (w, OWrite n err)
  | IOClose => let '(w, err) := CloseRWC rwc w in (w, OClose err)
  end.

(** A user chooses each operation from the outcomes so far, and makes [n] at most. *)
Fixpoint use {V} (n : nat) (user : list outcome -> option io) (rwc : ReadWriteCloser V) (hist : list outcome) (w : V)
    : V * list (io * outcome) :=
  match n, user hist with
  | S n, Some o =>
      let '(w, r) := perform rwc o w in
      let '(w, l) := use n user rwc (hist ++ [r]) w in (w, (o, r) :: l)
  | _, _ => (w, [])
  end.

(** A connection on a state with a log, which it leaves alone. *)
Definition beside_log (rwc : ReadWriteCloser W) : ReadWriteCloser (W * list string) :=
  mkRWC (fun size w => let '(x, r) := Read rwc size w.1 in ((x, w.2), r))
        (fun b w => let '(x, r) := Write rwc b w.1 in ((x, w.2), r))
        (fun w => let '(x, r) := CloseRWC rwc w.1 in ((x, w.2), r)).

Definition log_line : logger (W * list string) := fun l w => (w.1, w.2 ++ [l]).

(** What is logged of an operation. *)
Definition logged (x : io * outcome) : list string :=
  match x with
  | (IORead _, ORead b None) => [" read: " +:+ b]
  | (IOWrite b, OWrite n None) => ["write: " +:+ stake n b]
  | (IOClose, OClose err) => ["close: " +:+ match err with None => "<nil>" | Some e => Error e end]
  | _ => []
  end.

Lemma perform_logged rwc o w log :
  perform (debugReadWriteCloser Error (beside_log rwc) log_line) o (w, log) =
  let '(w', r) := perform rwc o w in ((w', log ++ logged (o, r)), r).
Proof.
  destruct o as [size|b|]; cbn.
  - destruct (Read rwc size w) as [x [b [e|]]]; cbn; by rewrite ?app_nil_r.
  - destruct (Write rwc b w) as [x [n [e|]]]; cbn; by rewrite ?app_nil_r.
  - by destruct (CloseRWC rwc w) as [x err].
Qed.

(** A logged connection gives its user the same outcomes as the connection itself and
    does the same below the log, which gets one line per successful read or write and
    per closing, in order. *)
Theorem debug_transparent n user (rwc : ReadWriteCloser W) hist w log :
  use n user (debugReadWriteCloser Error (beside_log rwc) log_line) hist (w, log) =
  let '(w', l) := use n user rwc hist w in ((w', log ++ concat (map logged l)), l).
Proof.
  revert hist w log. induction n as [|n IH]; intros hist w log; cbn [use].
  - by rewrite app_nil_r.
  - destruct (user hist) as [o|]; [|by rewrite app_nil_r]. rewrite perform_logged.
    destruct (perform rwc o w) as [w1 r]. rewrite IH. destruct (use n user rwc (hist ++ [r]) w1) as [w2 l].
    cbn [map concat]. by rewrite app_assoc.
Qed.
End debugging.

(** ** Options *)

Section options.
Context {W : Type} (Error : error -> string).

(** Of several intervals the last holds, and without one no echo is sent unasked. *)
Lemma NewClient_intervals (conn : ReadWriteCloser W) ds :
  NewClient Error conn (map EchoInterval ds) = Ok (NewConn Error conn None, New (List.last ds 0)).
Proof.
  unfold NewClient. assert (H : forall d, apply_options (map (@EchoInterval W) ds) (mkConfig None d) = Ok (mkConfig None (List.last ds d))).
  { induction ds as [|d0 ds IH]; intros d; [done|]. cbn [map apply_options]. transitivity (apply_options (map (@EchoInterval W) ds) (mkConfig None d0)); [done|].
    rewrite IH. destruct ds as [|d1 ds]; [done|]. do 2 f_equal. cbn [List.last].
    clear IH. revert d1. induction ds as [|d2 ds IHd]; intros d1; [done|]. apply IHd. }
  by rewrite H.
Qed.

(** An option that fails ends [New], and so [Dial]: its error is returned, and the
    connection made before stays open. *)
Lemma Dial_option_error net_Dial w w' (conn : ReadWriteCloser W) options e :
  net_Dial w = (w', inl conn) -> apply_options options (mkConfig None 0) = Err e ->
  Dial Error net_Dial options w = (w', Err e).
Proof. intros H He. unfold Dial, NewClient. by rewrite H, He. Qed.
End options.

(** ** Examples and witnesses *)

Definition echo_message : action := AReceive (Message (mkResponse None "" None "echo")).

(** The server sends two echo requests, the second before the client's own echo is
    answered. *)
Definition echo_twice : list action :=
  [echo_message; AEchoFromListen; AEcho 7 CaseDone; ARpc 7 CaseDone; ARpc 7 CaseDone; ARpc 7 CaseDone;
   ASend 7 None; echo_message].

Definition deadlock_state : Client := default (New 0) (run no_decode no_text echo_twice (New 0)).

Definition later_call : list action :=
  [ACall 8 1; ARpc 8 CaseDone; ARpc 8 CaseDone; ARpc 8 CaseDone; ASend 8 None].

Lemma listen_echo_deadlock_witness :
  exists s', run no_decode no_text later_call deadlock_state = Some s' /\
    deadlocked s' 7 "1" /\ forall r, next no_decode no_text (AReceive r) s' = None.
Proof.
  eexists. split; [vm_compute; reflexivity|].
  assert (H : deadlocked deadlock_state 7 "1") by (vm_compute; split_and!; reflexivity).
  assert (Hno : forall e, ACancel client_ctx e ∉ later_call).
  { intros e He. unfold later_call in He. rewrite !elem_of_cons, elem_of_nil in He. repeat destruct He as [He|He]; done. }
  edestruct (listen_echo_deadlock no_decode no_text later_call deadlock_state) as (H1 & H2 & _);
    [vm_compute; reflexivity|exact H|exact Hno|split; [exact H1|exact H2]].
Defined.

(** [Close] while the listener and the echo loop wait for each other. *)
Definition close_run : list sys_action :=
  map SClient echo_twice ++ [SClose 1; SCloser 1 None 0; SCloser 1 (Some io_EOF) 1].
Definition close_state : sys := default (sys_New 0) (sys_run no_decode no_text close_run (sys_New 0)).
Definition close_more : list sys_action :=
  map SClient [AListen CaseDone; echo_message; AListen CaseDone; AReceive ReceiveStop;
               ARpc 7 CaseDone; ARpc 7 CaseDone; AEcho 0 CaseDone; AEcho 0 CaseDone].
Definition closed_state : sys := default (sys_New 0) (sys_run no_decode no_text close_more close_state).

Lemma Close_returns_witness :
  (background_steps no_decode no_text close_more close_state <= 16)%nat /\
  ((forall a, background (client closed_state) a = true -> sys_next no_decode no_text (SClient a) closed_state = None) ->
   closers closed_state !! 1%nat = Some (CloseReturned (Some io_EOF)) \/
   exists y2, sys_next no_decode no_text (SCloser 1 None 0) closed_state = Some y2 /\
     closers y2 !! 1%nat = Some (CloseReturned (Some io_EOF))).
Proof.
  apply (Close_returns no_decode no_text 0 close_run close_state 1 (Some io_EOF) 1 close_more closed_state).
  - vm_compute. reflexivity.
  - vm_compute. reflexivity.
  - vm_compute. reflexivity.
  - vm_compute. reflexivity.
  - vm_compute. reflexivity.
  - vm_compute. reflexivity.
  - intros [H | [H | H]]; vm_compute in H; discriminate H.
Defined.

(** All eight steps are background steps; then [Close] returns. *)
Example close_steps : background_steps no_decode no_text close_more close_state = 8%nat.
Proof. vm_compute. reflexivity. Qed.

Lemma Close_joined_witness :
  let y := default (sys_New 0) (sys_run no_decode no_text (close_run ++ close_more ++ [SCloser 1 None 0]) (sys_New 0)) in
  all_stopped (client y) /\
  forall a, background (client y) a = true -> sys_next no_decode no_text (SClient a) y = None.
Proof.
  intros y. apply (Close_joined no_decode no_text 0 (close_run ++ close_more ++ [SCloser 1 None 0]) y 1 (Some io_EOF)).
  - vm_compute. reflexivity.
  - vm_compute. reflexivity.
Defined.

Example Dial_refused :
  Dial no_text (fun w : unit => (w, inr (ErrorString "connection refused"))) [] tt = (tt, Err (ErrorString "connection refused")).
Proof. reflexivity. Qed.
(** A negative interval stops the process. *)
Example negative_interval : ticker (New (-1)) = TPanicked.
Proof. reflexivity. Qed.
