(* ===== verification/EchoStats.v ===== *)
(** * The statistics of the echo loop

    What [ClientStats] counts, for the client of [Ovsdb] ([ovsdb/client.go]).  The
    history of a run is the list of the echoes that came to an end in it, each with
    the call that made it and the error it returned. *)

From stdpp Require Import gmap.
From S2P Require Import Prelude GoStrings GoConv Ovsdb Lifecycle.

Section echoes.
Context (Unmarshal : string -> go (list string)) (Error : error -> string).

(** ** History *)

(** The echo a step brings to its end: its call, and the error of [Echo]. *)
Definition ended (a : action) (s : Client) : list (nat * option error) :=
  match a, echoer s with
  | AEcho _ _, EEcho m =>
      match calls s !! m with
      | Some (mkCall _ (RpcReturned _ out)) =>
          match echo_error Unmarshal out with Ok o => [(m, o)] | _ => [] end
      | _ => []
      end
  | _, _ => []
  end.

Fixpoint echoes (acts : list action) (s : Client) : list (nat * option error) :=
  match acts with
  | [] => []
  | a :: acts =>
      match next Unmarshal Error a s with
      | Some s' => ended a s ++ echoes acts s'
      | None => []
      end
  end.

(** Echoes that succeeded, and those whose failure counts: an error of a closed
    connection does not. *)
Definition succeeded (o : option error) : bool := match o with None => true | Some _ => false end.
Definition failed (o : option error) : bool :=
  match o with None => false | Some e => negb (isClosedNetwork Error e) end.
Definition count (f : option error -> bool) (l : list (nat * option error)) : nat :=
  length (List.filter (fun x => f (snd x)) l).

(** The requests that came through [echoC]. *)
Definition asked (a : action) : nat := match a with AEchoFromListen | AEchoFromTicker => 1 | _ => 0 end.
Definition requests (acts : list action) : nat := list_sum (map asked acts).

(** The identifiers of the responses the client received. *)
Definition received_ids (acts : list action) : list string :=
  omap (fun a => match a with AReceive (Message res) => res_ID res | _ => None end) acts.

(** ** Invariant *)

Definition pending (s : Client) : nat := match echoer s with ETick | EEcho _ => 1 | _ => 0 end.

(** An echo that ended is a call of the client's own that has returned. *)
Definition echo_done (s : Client) (x : nat * option error) : Prop :=
  exists id out, calls s !! fst x = Some (mkCall client_ctx (RpcReturned id out)) /\
    echo_error Unmarshal out = Ok (snd x).

Record Hist (acts : list action) (l : list (nat * option error)) (s : Client) : Prop := mkHist {
  H_ok : echoOK s = Z.of_nat (count succeeded l);
  H_fail : echoFail s = Z.of_nat (count failed l);
  H_done : Forall (echo_done s) l;
  H_nodup : NoDup (map fst l);
  H_new m : echoer s = EEcho m -> m ∉ map fst l;
  H_asked : (length l + pending s <= requests acts)%nat
}.

Lemma requests_snoc acts a : requests (acts ++ [a]) = (requests acts + asked a)%nat.
Proof. unfold requests. rewrite map_app, list_sum_app. cbn. lia. Qed.

Lemma requests_le acts : (requests acts <= length acts)%nat.
Proof.
  unfold requests. induction acts as [|a acts IH]; [done|]. cbn [map length]. change (list_sum (asked a :: map asked acts))
    with (asked a + list_sum (map asked acts))%nat. destruct a; cbn [asked]; lia.
Qed.

Lemma echoes_snoc acts a s s1 :
  run Unmarshal Error acts s = Some s1 ->
  echoes (acts ++ [a]) s =
    echoes acts s ++ match next Unmarshal Error a s1 with Some _ => ended a s1 | None => [] end.
Proof.
  revert s. induction acts as [|b acts IH]; intros s Hr; cbn in *.
  - injection Hr as <-. destruct (next _ _ a s); [by rewrite app_nil_r|done].
  - destruct (next _ _ b s) as [s0|] eqn:Hb; [|done]. by rewrite (IH s0 Hr), app_assoc.
Qed.

(** A call that has returned stays as it is. *)
Lemma returned_stays a s s' n ctx id out :
  next Unmarshal Error a s = Some s' ->
  calls s !! n = Some (mkCall ctx (RpcReturned id out)) -> calls s' !! n = calls s !! n.
Proof.
  intros H Hn. destruct (is_call a) as [m|] eqn:Ha.
  - destruct (is_call_moved _ _ a m s s' Ha H) as (c & pc & Hc & -> & Hr & _).
    destruct (decide (n = m)) as [->|Hne]; [|by rewrite lookup_insert_ne].
    rewrite Hn in Hc. injection Hc as <-. cbn in Hr. lia.
  - destruct a as [m ctx'|ctx' e|m kc|m err|m|kc|m kc|kc| |]; try done; step_cases H; cbn; try congruence;
      destruct (decide (n = m)) as [->|Hne]; (congruence || by rewrite lookup_insert_ne).
Qed.

Lemma echo_done_stays a s s' l :
  next Unmarshal Error a s = Some s' -> Forall (echo_done s) l -> Forall (echo_done s') l.
Proof.
  intros H Hl. apply (Forall_impl _ _ _ Hl). intros x (id & out & Hc & He). exists id, out. split; [|done].
  by rewrite (returned_stays a s s' _ _ _ _ H Hc).
Qed.

(** What a step other than the echo loop's does to the counters and to the loop. *)
Lemma step_counters a s s' :
  next Unmarshal Error a s = Some s' -> (forall n k, a <> AEcho n k) ->
  echoOK s' = echoOK s /\ echoFail s' = echoFail s /\
  (echoer s' = echoer s /\ asked a = 0%nat \/ echoer s' = ETick /\ echoer s = EWait /\ asked a = 1%nat).
Proof.
  intros H Hne. assert (Hcb : forall k id r s1 s2, doCallback k id r s1 = Some (Ok s2) ->
    echoOK s2 = echoOK s1 /\ echoFail s2 = echoFail s1).
  { intros k id r s1 s2. unfold doCallback. destruct (callbacks s1 !! id) as [cb|]; [|by intros [= <-]].
    destruct (default (mkChan None false) (chans s1 !! cb_chan cb)) as [b [|]], k; cbn; try done.
    - by destruct (done s1 !! cb_ctx cb).
    - destruct (done s1 !! cb_ctx cb); [|done]. by intros [= <-].
    - destruct b; [done|]. by intros [= <-]. }
  destruct a as [n ctx|ctx e|n kc|n err|m|kc|n kc|kc| |]; [..|by destruct (Hne n kc)| | |];
    unfold next, rpc_next, send_next, receive_next, listen_next, ticker_next, requestID, addCallback in H;
    repeat (match type of H with context [match ?x with _ => _ end] => destruct x eqn:? end; try discriminate H);
    injection H as <-;
    try match goal with E : doCallback _ _ _ _ = Some (Ok _) |- _ =>
      pose proof (Hcb _ _ _ _ _ E) as [? ?]; apply doCallback_frame in E as (? & (? & ? & ? & ?) & ?) end;
    try match goal with E : match ?x with _ => _ end = Ok _ |- _ => destruct x; [done|injection E as <-] end;
    cbn; split_and!; try done; first [by left|by right].
Qed.

Lemma count_snoc f l x : count f (l ++ [x]) = (count f l + if f (snd x) then 1 else 0)%nat.
Proof. unfold count. rewrite List.filter_app, length_app. cbn. by destruct (f (snd x)). Qed.

Lemma count_le f l : (count f l <= length l)%nat.
Proof. unfold count. induction l as [|x l IH]; [done|]. cbn. destruct (f (snd x)); cbn; lia. Qed.

(** The counters count one more echo. *)
Lemma int64_count n bound : (n < bound)%nat -> Z.of_nat bound < 2 ^ 63 -> int64 (Z.of_nat n + 1) = Z.of_nat (n + 1).
Proof. intros H1 H2. rewrite int64_small; [lia|]. unfold in_i64. lia. Qed.

(** A step of the echo loop. *)
Lemma Hist_echo acts l s s' n k :
  echo_call s -> Z.of_nat (length acts) + 1 < 2 ^ 63 ->
  Hist acts l s -> next Unmarshal Error (AEcho n k) s = Some s' ->
  Hist (acts ++ [AEcho n k]) (l ++ ended (AEcho n k) s) s'.
Proof.
  intros Hcall Hlen [H1 H2 H3 H4 H5 H6] H. pose proof (requests_le acts) as Hreq.
  assert (Hd : Forall (echo_done s') l) by (by apply (echo_done_stays _ _ _ _ H)).
  unfold ended. cbn [next] in H. unfold echo_next in H. unfold pending in H6.
  destruct (echoer s) as [| |m| |] eqn:He; try done.
  - destruct (done s !! client_ctx); [|done]. injection H as <-. rewrite app_nil_r.
    split; rewrite ?requests_snoc; cbn in *; try done; lia.
  - rewrite app_nil_r. destruct (done s !! client_ctx) as [e|].
    + injection H as <-. split; rewrite ?requests_snoc; cbn in *; try done; lia.
    + destruct (calls s !! n) as [c|] eqn:Hn; [done|]. injection H as <-.
      split; rewrite ?requests_snoc; cbn [pending echoOK echoFail set_echoer set_pc echoer asked] in *; try done; [|lia].
      intros m' [= <-]. intros (x & -> & Hx)%list_elem_of_fmap.
      rewrite Forall_forall in H3. destruct (H3 x Hx) as (id & out & Hc & _). congruence.
  - destruct (Hcall m He) as (c & Hc & Hctx). rewrite Hc in *. destruct c as [ctx pc]. cbn in Hctx. subst ctx.
    destruct pc as [| |id|id|id|id out|id out|]; try done.
    assert (Hmore : forall o s1, echo_error Unmarshal out = Ok o -> calls s1 = calls s ->
      Forall (echo_done s1) l -> Forall (echo_done s1) (l ++ [(m, o)])).
    { intros o s1 Ho Hcs Hl. apply Forall_app. split; [done|]. constructor; [|done]. exists id, out. by rewrite Hcs. }
    assert (Hnd : forall o, NoDup (map fst (l ++ [(m, o)]))).
    { intros o. rewrite map_app. apply NoDup_app. split_and!; [done| |apply NoDup_singleton].
      intros x Hx Hm. apply list_elem_of_singleton in Hm as ->. by apply (H5 m). }
    destruct (echo_error Unmarshal out) as [[e|]|e|w] eqn:Ho; [destruct (isClosedNetwork Error e) eqn:Hcl| | |];
      injection H as <-; rewrite ?app_nil_r;
      (split; rewrite ?requests_snoc, ?count_snoc, ?length_app;
       cbn [pending echoOK echoFail set_echoer count_echo echoer asked snd succeeded failed length] in *;
       rewrite ?Hcl, ?Nat.add_0_r; cbn [negb];
       try done; try (by apply Hmore); try lia;
       try (rewrite H1; apply (int64_count _ (length acts)); [pose proof (count_le succeeded l); lia|lia]);
       try (rewrite H2; apply (int64_count _ (length acts)); [pose proof (count_le failed l); lia|lia])).
Qed.

Lemma Hist_step acts l a s s' :
  echo_call s -> Z.of_nat (length acts) + 1 < 2 ^ 63 ->
  Hist acts l s -> next Unmarshal Error a s = Some s' -> Hist (acts ++ [a]) (l ++ ended a s) s'.
Proof.
  intros Hcall Hlen HH H. assert (Ha : (exists n k, a = AEcho n k) \/ forall n k, a <> AEcho n k)
    by (destruct a; eauto). destruct Ha as [(n & k & ->)|Ha]; [by apply Hist_echo|].
  replace (ended a s) with (@nil (nat * option error)) by (destruct a as [| | | | | |n k| | |]; try done; by destruct (Ha n k)).
  rewrite app_nil_r. destruct HH as [H1 H2 H3 H4 H5 H6].
  destruct (step_counters a s s' H Ha) as (E1 & E2 & E3).
  assert (Hd : Forall (echo_done s') l) by (by apply (echo_done_stays a s s' l H)).
  split; rewrite ?E1, ?E2, ?requests_snoc; try done; unfold pending in *.
  - destruct E3 as [[-> _]|(-> & _)]; done.
  - destruct E3 as [[-> ->]|(-> & Hw & ->)]; [lia|]. rewrite Hw in H6. lia.
Qed.

Lemma run_Hist d acts s :
  run Unmarshal Error acts (New d) = Some s -> Z.of_nat (length acts) < 2 ^ 63 ->
  Hist acts (echoes acts (New d)) s.
Proof.
  revert s. induction acts as [|a acts IH] using rev_ind; intros s.
  - intros [= <-] _. split; cbn; try done; try lia. constructor.
  - rewrite run_snoc, length_app. destruct (run Unmarshal Error acts (New d)) as [s0|] eqn:E; [|done].
    intros H Hk. cbn [length] in Hk. rewrite (echoes_snoc acts a (New d) s0 E), H.
    apply (Hist_step acts _ a s0 s); [by eapply run_echo_call|lia|apply IH; [done|lia]|done].
Qed.

Lemma received_ids_In acts i res :
  In (AReceive (Message res)) acts -> res_ID res = Some i -> i ∈ received_ids acts.
Proof.
  intros Hin Hi. apply list_elem_of_omap. exists (AReceive (Message res)). split; [|done].
  by apply list_elem_of_In.
Qed.

(** The identifiers of successful echoes are received and differ. *)
Lemma success_ids acts s l :
  Inv acts (Z.of_nat (length acts)) s -> NoDup (map fst l) ->
  Forall (fun x => echo_done s x /\ snd x = None) l ->
  exists ids, length ids = length l /\ NoDup ids /\ forall i, i ∈ ids -> i ∈ received_ids acts /\
    exists n c, n ∈ map fst l /\ calls s !! n = Some c /\ id_of (call_pc c) = Some i.
Proof.
  intros HI. induction l as [|[n o] l IH]; intros Hnd Hl.
  - exists []. split_and!; [done|constructor|]. by intros i Hi%not_elem_of_nil.
  - cbn [map fst] in *. apply NoDup_cons in Hnd as [Hn Hnd]. apply Forall_cons in Hl as [[Hx Ho] Hl].
    destruct (IH Hnd Hl) as (ids & Hlen & Hids & Hin). destruct Hx as (id & out & Hc & He).
    cbn [fst snd] in *. subst o. pose proof (I_call _ _ _ HI n _ Hc) as Hok. unfold call_ok in Hok.
    cbn [call_pc] in Hok. destruct out as [r|e|]; [|by cbn in He|by cbn in Hok].
    destruct Hok as (i & -> & res & Hres & Hid & _). exists (i :: ids).
    split_and!; [cbn; by rewrite Hlen| |].
    + constructor; [|done]. intros Hi. destruct (Hin i Hi) as (_ & m & c & Hm & Hcm & Him).
      apply Hn. replace n with m; [done|]. by eapply (I_inj _ _ _ HI).
    + intros j [->|Hj]%elem_of_cons.
      * split; [by eapply received_ids_In|]. eexists n, _. split_and!; [left|exact Hc|done].
      * destruct (Hin j Hj) as (Hr & m & c & Hm & Hcm). split; [done|]. exists m, c. split; [by right|done].
Qed.

(** C25: in every run, however its steps interleave, the two counters of the echo loop
    are exactly the echoes that returned without error and those whose error is not of a
    closed connection; each is a call of its own that the client made with its context
    and that has returned, there is no more than one per request for an echo, and no
    more successes than responses received. *)
Theorem echo_statistics d acts s :
  run Unmarshal Error acts (New d) = Some s -> Z.of_nat (length acts) < 2 ^ 63 ->
  let l := echoes acts (New d) in
  EchoLoop_Success (Stats s) = Z.of_nat (count succeeded l) /\
  EchoLoop_Failure (Stats s) = Z.of_nat (count failed l) /\
  Forall (echo_done s) l /\ NoDup (map fst l) /\ (length l <= requests acts)%nat /\
  EchoLoop_Success (Stats s) <= Z.of_nat (length (received_ids acts)).
Proof.
  intros Hr Hk l. destruct (run_Hist d acts s Hr Hk) as [H1 H2 H3 H4 H5 H6]. fold l in H1, H2, H3, H4, H6.
  cbn [Stats EchoLoop_Success EchoLoop_Failure]. split_and!; try done; [lia|].
  destruct (success_ids acts s (List.filter (fun x => succeeded (snd x)) l)) as (ids & Hlen & Hnd & Hin).
  - by apply run_Inv in Hr.
  - apply (sublist_NoDup _ (map fst l)); [done|]. apply fmap_sublist. clear. induction l as [|x l IH]; [constructor|].
    cbn. destruct (succeeded (snd x)); by constructor.
  - apply Forall_forall. intros x Hx. apply list_elem_of_In, filter_In in Hx as [Hx Hs].
    rewrite Forall_forall in H3. split; [by apply H3, list_elem_of_In|]. by destruct (snd x).
  - rewrite H1. unfold count. rewrite <- Hlen. apply inj_le, (NoDup_incl_length (l := ids)).
    + by apply NoDup_ListNoDup.
    + intros i Hi. apply list_elem_of_In. by apply Hin, list_elem_of_In.
Qed.
End echoes.

(** ** Instances *)

(** Results are one string each, and errors their texts. *)
Definition one_string (s : string) : go (list string) := Ok [s].
Definition plain_text (e : error) : string := match e with ErrorString s => s | _ => "" end.

(** One echo: it is asked for, sent, and ends as [last] says. *)
Definition echo_by (n : nat) (last : list action) : list action :=
  [ATicker CaseChan; ATicker CaseChan; AEchoFromTicker; AEcho n CaseDone;
   ARpc n CaseDone; ARpc n CaseDone; ARpc n CaseDone; ASend n None] ++ last ++ [ARpc n CaseDone; AEcho 0 CaseDone].

(** An echo that is answered, one that is answered wrongly, and one during which the
    client is closed. *)
Definition echo_run : list action :=
  echo_by 1 [AReceive (Message (mkResponse (Some "1") echo_request None "")); AListen CaseChan; ARpc 1 CaseChan] ++
  echo_by 2 [AReceive (Message (mkResponse (Some "2") "no" None "")); AListen CaseChan; ARpc 2 CaseChan] ++
  echo_by 3 [ACancel client_ctx (ErrorString "context canceled"); ARpc 3 CaseDone].

Lemma echo_statistics_witness :
  let s := default (New 1) (run one_string plain_text echo_run (New 1)) in
  EchoLoop_Success (Stats s) = 1 /\ EchoLoop_Failure (Stats s) = 2.
Proof.
  destruct (echo_statistics one_string plain_text 1 echo_run
    (default (New 1) (run one_string plain_text echo_run (New 1)))) as (H1 & H2 & _).
  - vm_compute. reflexivity.
  - vm_compute. reflexivity.
  - split; [rewrite H1|rewrite H2]; vm_compute; reflexivity.
Defined.

(** An echo that is under way when the client is closed returns the error of its
    context, which is not one of a closed connection: it counts as a failure. *)
Example closing_counts :
  map snd (echoes one_string plain_text echo_run (New 1)) =
  [None; Some (Errorf "invalid echo response: %q" [inl "no"]); Some (ErrorString "context canceled")].
Proof. vm_compute. reflexivity. Qed.
