(* ===== verification/RpcSpec.v ===== *)
(** * What a call of the OVSDB client promises

    An abstract machine of remote calls, without counter, callback table, channels
    or goroutines: a call is open under an identifier no other call has, may be
    answered by a response that arrived with that identifier, and ends with the
    response, with the error of its context, or with an error of the connection.
    The client of [Ovsdb] refines it: every step of the client is a step of the
    machine or does not show. *)

From stdpp Require Import gmap relations.
From S2P Require Import Prelude GoStrings GoConv Ovsdb.

Inductive spec_call :=
| SNew (ctx : nat)
| SOpen (ctx : nat) (id : string)
| SAnswered (ctx : nat) (id : string) (r : rpcResponse)
| SDone (id : option string) (out : rpc_out).

Record spec := mkSpec {
  sp_calls : gmap nat spec_call;
  sp_done : gmap nat error;                    (** the contexts that are done *)
  sp_responses : list (string * rpcResponse)   (** the responses that arrived *)
}.

Definition spec_init : spec := mkSpec ∅ ∅ [].

Definition spec_id (c : spec_call) : option string :=
  match c with
  | SNew _ => None
  | SOpen _ id | SAnswered _ id _ => Some id
  | SDone id _ => id
  end.

Definition in_progress (c : spec_call) : option (nat * string) :=
  match c with SOpen ctx id | SAnswered ctx id _ => Some (ctx, id) | _ => None end.

Definition set_call (n : nat) (c : spec_call) (a : spec) : spec :=
  mkSpec (<[n := c]> (sp_calls a)) (sp_done a) (sp_responses a).

Inductive spec_step (a : spec) : spec -> Prop :=
| sp_call n ctx :
    sp_calls a !! n = None -> spec_step a (set_call n (SNew ctx) a)
| sp_cancel ctx e :
    sp_done a !! ctx = None -> spec_step a (mkSpec (sp_calls a) (<[ctx := e]> (sp_done a)) (sp_responses a))
| sp_receive m :
    spec_step a (mkSpec (sp_calls a) (sp_done a) (sp_responses a ++ [m]))
| sp_refuse n ctx e :
    sp_calls a !! n = Some (SNew ctx) -> sp_done a !! ctx = Some e ->
    spec_step a (set_call n (SDone None (OutErr e)) a)
| sp_open n ctx id :
    sp_calls a !! n = Some (SNew ctx) ->
    (forall m c, sp_calls a !! m = Some c -> spec_id c <> Some id) ->
    spec_step a (set_call n (SOpen ctx id) a)
| sp_answer n ctx id r :
    sp_calls a !! n = Some (SOpen ctx id) -> (id, r) ∈ sp_responses a ->
    spec_step a (set_call n (SAnswered ctx id r) a)
| sp_send_error n c ctx id e :
    sp_calls a !! n = Some c -> in_progress c = Some (ctx, id) ->
    spec_step a (set_call n (SDone (Some id) (OutErr e)) a)
| sp_abort n c ctx id e :
    sp_calls a !! n = Some c -> in_progress c = Some (ctx, id) -> sp_done a !! ctx = Some e ->
    spec_step a (set_call n (SDone (Some id) (OutErr e)) a)
| sp_return n ctx id r :
    sp_calls a !! n = Some (SAnswered ctx id r) ->
    spec_step a (set_call n (SDone (Some id) (OutResult r)) a).

(** ** The abstraction *)

Definition buf (s : Client) (n : nat) : option rpcResponse := chans s !! n ≫= ch_buf.

Definition abs_call (b : option rpcResponse) (c : call) : spec_call :=
  match call_pc c with
  | RpcStart | RpcRequest => SNew (call_ctx c)
  | RpcRegister id => SOpen (call_ctx c) id
  | RpcSend id | RpcWait id =>
      match b with Some r => SAnswered (call_ctx c) id r | None => SOpen (call_ctx c) id end
  | RpcCleanup id out => SDone (Some id) out
  | RpcReturned id out => SDone id out
  | RpcPanicked => SDone None OutNil
  end.

Definition abs_calls (s : Client) : gmap nat spec_call :=
  map_imap (fun n c => Some (abs_call (buf s n) c)) (calls s).

Definition response_in (a : action) : option (string * rpcResponse) :=
  match a with
  | AReceive (Message res) => (fun id => (id, response_of res)) <$> res_ID res
  | _ => None
  end.

Definition abs (tr : list action) (s : Client) : spec :=
  mkSpec (abs_calls s) (done s) (omap response_in tr).

Lemma abs_lookup s n : abs_calls s !! n = abs_call (buf s n) <$> calls s !! n.
Proof. unfold abs_calls. rewrite map_lookup_imap. by destruct (calls s !! n). Qed.

Lemma delivered_in tr id r : delivered tr id r -> (id, r) ∈ omap response_in tr.
Proof.
  intros (res & Hin & Hid & ->). apply list_elem_of_omap. exists (AReceive (Message res)).
  split; [by apply list_elem_of_In|]. cbn. by rewrite Hid.
Qed.

(** What the abstraction does not see. *)
Lemma abs_same s s' : calls s' = calls s -> chans s' = chans s -> abs_calls s' = abs_calls s.
Proof. intros E1 E2. unfold abs_calls, buf. by rewrite E1, E2. Qed.

(** One call moves on. *)
Lemma abs_move s s' n c :
  calls s' = <[n := c]> (calls s) -> (forall m, m <> n -> buf s' m = buf s m) ->
  abs_calls s' = <[n := abs_call (buf s' n) c]> (abs_calls s).
Proof.
  intros E Hb. apply map_eq. intros m. rewrite abs_lookup, E. destruct (decide (m = n)) as [->|Hne].
  - by rewrite !lookup_insert_eq.
  - by rewrite !lookup_insert_ne, abs_lookup, Hb.
Qed.

Lemma abs_stays s n v : abs_calls s !! n = Some v -> <[n := v]> (abs_calls s) = abs_calls s.
Proof. apply insert_id. Qed.

Lemma buf_set_chan s n ch m : buf (set_chan n ch s) m = if decide (m = n) then ch_buf ch else buf s m.
Proof.
  unfold buf. cbn. destruct (decide (m = n)) as [->|Hne]; [by rewrite lookup_insert_eq|by rewrite lookup_insert_ne].
Qed.

(** ** Simulation *)

Lemma spec_id_abs b c : spec_id (abs_call b c) = id_of (call_pc c).
Proof. unfold abs_call. destruct (call_pc c); try done; by destruct b. Qed.

Section simulation.
Context (tr : list action).

(** A call moves to a program point the machine shows as [v]. *)
Lemma sim_move s s' n c d :
  calls s !! n = Some c -> calls s' = <[n := d]> (calls s) -> done s' = done s ->
  (forall m, m <> n -> buf s' m = buf s m) ->
  (abs_call (buf s' n) d = abs_call (buf s n) c \/
   spec_step (abs tr s) (set_call n (abs_call (buf s' n) d) (abs tr s))) ->
  rtc spec_step (abs tr s) (abs tr s').
Proof.
  intros Hc E Ed Hb Hv.
  assert (Ha : abs tr s' = set_call n (abs_call (buf s' n) d) (abs tr s)).
  { unfold abs, set_call. cbn. f_equal; [|done]. by apply abs_move. }
  rewrite Ha. destruct Hv as [Hv|Hv]; [|by apply rtc_once].
  assert (set_call n (abs_call (buf s' n) d) (abs tr s) = abs tr s) as ->; [|apply rtc_refl].
  unfold set_call, abs. cbn. f_equal. apply abs_stays. rewrite abs_lookup, Hc. cbn. by rewrite Hv.
Qed.

Lemma abs_at s n c : calls s !! n = Some c -> sp_calls (abs tr s) !! n = Some (abs_call (buf s n) c).
Proof. intros Hc. cbn. by rewrite abs_lookup, Hc. Qed.

Lemma fresh_id k s m c :
  Inv tr k s -> k < 2 ^ 63 - 1 -> sp_calls (abs tr s) !! m = Some c ->
  spec_id c <> Some (FormatInt (int64 (rpcID s + 1)) 10).
Proof.
  intros HI Hk Hm Hid. cbn in Hm. rewrite abs_lookup in Hm.
  destruct (calls s !! m) as [d|] eqn:Hd; [|done]. cbn in Hm. injection Hm as <-.
  rewrite spec_id_abs in Hid. destruct (I_ids _ _ _ HI m d _ Hd Hid) as (j & Hj & Hr).
  pose proof (I_id _ _ _ HI). rewrite int64_small in Hj by (unfold in_i64; lia).
  apply FormatInt_inj in Hj; [lia|unfold in_i64; lia..].
Qed.

Lemma sim_rpc_next k s n kc s' :
  Inv tr k s -> k < 2 ^ 63 - 1 -> rpc_next n kc s = Some s' -> rtc spec_step (abs tr s) (abs tr s').
Proof.
  intros HI Hk. unfold rpc_next. destruct (calls s !! n) as [[ctx pc]|] eqn:Hc; [|done].
  pose proof (abs_at s n _ Hc) as Ha. cbn [call_ctx call_pc].
  destruct pc as [| |id|id|id|id out|id out|]; try done.
  - destruct (done s !! ctx) as [e|] eqn:Hd; intros [= <-]; eapply sim_move; try done; [right|by left].
    by apply (sp_refuse _ n ctx e).
  - cbn. intros [= <-]. eapply sim_move; try done. right. apply (sp_open _ n ctx); [done|].
    intros m c Hm. by eapply fresh_id.
  - unfold addCallback. cbn [callbacks set_chan].
    destruct (callbacks s !! id) as [cb|] eqn:Hcb.
    { exfalso. destruct (I_cb _ _ _ HI id cb Hcb) as (c & Hc' & Hreg & _).
      pose proof (I_inj _ _ _ HI n _ _ _ id Hc Hc' eq_refl (registered_id _ _ Hreg)) as Hn.
      rewrite <- Hn, Hc in Hc'. by injection Hc' as <-. }
    intros [= <-]. eapply sim_move; [exact Hc|done|done| |left].
    + intros m Hm. unfold buf. cbn. by rewrite lookup_insert_ne.
    + unfold buf. cbn. by rewrite lookup_insert_eq.
  - pose proof (I_call _ _ _ HI n _ Hc) as (ch & Hch & Hok).
    assert (Hp : in_progress (abs_call (buf s n) (mkCall ctx (RpcWait id))) = Some (ctx, id)).
    { unfold abs_call. cbn. by destruct (buf s n). }
    destruct kc.
    + destruct (done s !! ctx) as [e|] eqn:Hd; [|done]. intros [= <-]. eapply sim_move; try done. right.
      by apply (sp_abort _ n (abs_call (buf s n) (mkCall ctx (RpcWait id))) ctx id e).
    + rewrite Hch. change (default (mkChan None false) (Some ch)) with ch.
      destruct (ch_buf ch) as [r|] eqn:Hb.
      * intros [= <-]. eapply sim_move; [exact Hc|done|done| |right].
        -- intros m Hm. unfold buf. cbn. by rewrite lookup_insert_ne.
        -- apply (sp_return _ n ctx id r). rewrite Ha. unfold abs_call, buf. rewrite Hch. cbn. by rewrite Hb.
      * destruct (ch_closed ch); [|done]. destruct Hok as [_ Hok]. destruct (Hok I eq_refl) as [e Hd].
        cbn in Hd. rewrite Hd. intros [= <-]. eapply sim_move; try done. right.
        by apply (sp_abort _ n (abs_call (buf s n) (mkCall ctx (RpcWait id))) ctx id e).
  - intros [= <-]. eapply sim_move; try done. by left.
Qed.

Lemma sim_send_next s n err s' : send_next n err s = Some s' -> rtc spec_step (abs tr s) (abs tr s').
Proof.
  unfold send_next. destruct (calls s !! n) as [[ctx pc]|] eqn:Hc; [|done].
  pose proof (abs_at s n _ Hc) as Ha. destruct pc; try done. intros [= <-]. eapply sim_move; try done.
  destruct err as [e|]; [right|by left].
  apply (sp_send_error _ n (abs_call (buf s n) (mkCall ctx (RpcSend id))) ctx id e); [done|].
  unfold abs_call. cbn. by destruct (buf s n).
Qed.

Lemma sim_same s s' :
  calls s' = calls s -> chans s' = chans s -> done s' = done s -> rtc spec_step (abs tr s) (abs tr s').
Proof. intros E1 E2 E3. unfold abs. rewrite (abs_same s s'), E3 by done. apply rtc_refl. Qed.

(** The response reaches an open call, or shows nowhere. *)
Lemma sim_doCallback k s kc id r s' :
  Inv tr k s -> delivered tr id r -> doCallback kc id r s = Some (Ok s') ->
  rtc spec_step (abs tr s) (abs tr s').
Proof.
  intros HI Hd. unfold doCallback. destruct (callbacks s !! id) as [cb|] eqn:Hcb; [|intros [= <-]; by apply sim_same].
  destruct (I_cb _ _ _ HI id cb Hcb) as (c & Hc & Hreg & _ & Hch). rewrite Hch.
  set (n := cb_chan cb) in *. change (default _ (Some ?x)) with x. cbn [ch_closed ch_buf].
  assert (Hbuf : buf s n = None) by (unfold buf; by rewrite Hch).
  assert (Hmove : forall x, (forall m, m <> n -> buf (set_callbacks (delete id (callbacks s)) (set_chan n x s)) m = buf s m)).
  { intros x m Hm. unfold buf. cbn. by rewrite lookup_insert_ne. }
  assert (Hset : forall x, buf (set_callbacks (delete id (callbacks s)) (set_chan n x s)) n = ch_buf x).
  { intros x. unfold buf. cbn. by rewrite lookup_insert_eq. }
  assert (Hcalls : calls s = <[n := c]> (calls s)) by (symmetry; by apply insert_id).
  destruct kc.
  - destruct (done s !! cb_ctx cb); [|done]. intros [= <-].
    eapply (sim_move _ _ n c c); [done|exact Hcalls|done|apply Hmove|].
    left. by rewrite Hset, Hbuf.
  - intros [= <-]. eapply (sim_move _ _ n c c); [done|exact Hcalls|done|apply Hmove|]. rewrite Hset, Hbuf. cbn [ch_buf].
    pose proof (abs_at s n c Hc) as Ha. rewrite Hbuf in Ha.
    destruct c as [ctx [| |i|i|i|i out|i out|]]; cbn in Hreg; try done; subst i; [right|right|by left];
      apply (sp_answer _ n ctx id r); [exact Ha|by apply delivered_in|exact Ha|by apply delivered_in].
Qed.
End simulation.

Section refinement.
Context (Unmarshal : string -> go (list string)) (Error : error -> string).

Lemma abs_snoc tr a s : response_in a = None -> abs (tr ++ [a]) s = abs tr s.
Proof. intros Ha. unfold abs. rewrite omap_app. cbn. rewrite Ha. by rewrite app_nil_r. Qed.

Lemma sim_receive tr m s s' :
  receive_next m s = Some s' -> rtc spec_step (abs tr s) (abs (tr ++ [AReceive m]) s').
Proof.
  intros H.
  assert (Hs : rtc spec_step (abs tr s) (abs tr s')).
  { revert H. unfold receive_next. destruct (listener s); try done.
    destruct (stuck s); [destruct m; try done; intros [= <-]; by apply sim_same|].
    destruct m as [res| |f]; try (intros [= <-]; by apply sim_same).
    destruct (_ =? _)%string; [intros [= <-]; by apply sim_same|].
    destruct (res_ID res); intros [= <-]; by apply sim_same. }
  etrans; [exact Hs|]. destruct (response_in (AReceive m)) as [x|] eqn:Hx; [|by rewrite abs_snoc].
  unfold abs at 2. rewrite omap_app. cbn [omap list_omap]. rewrite Hx. apply rtc_once. by apply (sp_receive (abs tr s')).
Qed.

Lemma sim_echo_next tr s n kc s' :
  echo_next Unmarshal Error n kc s = Some s' -> rtc spec_step (abs tr s) (abs tr s').
Proof.
  unfold echo_next. destruct (echoer s) as [| |m| |]; try done.
  - destruct (done s !! client_ctx); [|done]. intros [= <-]. by apply sim_same.
  - destruct (done s !! client_ctx); [intros [= <-]; by apply sim_same|].
    destruct (calls s !! n) eqn:Hc; [done|]. intros [= <-]. apply rtc_once.
    replace (abs tr (set_echoer (EEcho n) (set_pc n client_ctx RpcStart s)))
      with (set_call n (SNew client_ctx) (abs tr s)).
    { apply sp_call. cbn. by rewrite abs_lookup, Hc. }
    unfold set_call, abs. cbn. f_equal. symmetry. by apply (abs_move _ _ n (mkCall client_ctx RpcStart)).
  - destruct (calls s !! m) as [[ctx pc]|]; [|done]. destruct pc; try done.
    destruct (echo_error Unmarshal out) as [[e|]|e|w]; [destruct (isClosedNetwork Error e)| | |];
      intros [= <-]; by apply sim_same.
Qed.

(** One step of the client is a step of the machine, or does not show. *)
Lemma sim_next tr k a s s' :
  Inv tr k s -> k < 2 ^ 63 - 1 -> next Unmarshal Error a s = Some s' ->
  rtc spec_step (abs tr s) (abs (tr ++ [a]) s').
Proof.
  intros HI Hk. destruct a as [n ctx|ctx e|n kc|n err|m|kc|n kc|kc| |]; cbn [next];
    try (rewrite abs_snoc by done).
  - destruct (calls s !! n) eqn:Hc; [done|]. intros [= <-]. apply rtc_once.
    replace (abs tr (set_pc n ctx RpcStart s)) with (set_call n (SNew ctx) (abs tr s)).
    { apply sp_call. cbn. by rewrite abs_lookup, Hc. }
    unfold set_call, abs. cbn. f_equal. symmetry. by apply (abs_move _ _ n (mkCall ctx RpcStart)).
  - destruct (done s !! ctx) eqn:Hd; [done|]. intros [= <-]. apply rtc_once. by apply (sp_cancel (abs tr s)).
  - by eapply sim_rpc_next.
  - apply sim_send_next.
  - apply sim_receive.
  - pose proof (I_listen _ _ _ HI) as Hl. unfold listen_next.
    destruct (listener s) as [| |id r| |]; try done.
    + destruct (done s !! client_ctx); [|done]. intros [= <-]. by apply sim_same.
    + destruct (doCallback kc id r s) as [[s1|e|w]|] eqn:Hd; [| | |done]; intros [= <-];
        [|by apply sim_same..].
      etrans; [by eapply sim_doCallback|by apply sim_same].
  - apply sim_echo_next.
  - unfold ticker_next. destruct (ticker s), kc; try done;
      try (destruct (done s !! client_ctx); try done); intros [= <-]; by apply sim_same.
  - destruct (listener s), (echoer s); try done. intros [= <-]. by apply sim_same.
  - destruct (ticker s), (echoer s); try done. intros [= <-]. by apply sim_same.
Qed.

(** C8: The client refines the machine of remote calls: whatever its goroutines, the
    contexts, the server and the connection do, what a run shows, the calls with
    their identifiers and outcomes, is reached by steps of the machine. *)
Theorem Client_refines d acts s :
  run Unmarshal Error acts (New d) = Some s -> Z.of_nat (length acts) < 2 ^ 63 ->
  rtc spec_step spec_init (abs acts s).
Proof.
  revert s. induction acts as [|a acts IH] using rev_ind; intros s.
  - intros [= <-] _. apply rtc_refl.
  - rewrite run_snoc, length_app. cbn [length].
    destruct (run Unmarshal Error acts (New d)) as [s0|] eqn:E; [|done]. intros H Hk.
    etrans; [apply IH; [done|lia]|]. eapply sim_next; [eapply run_Inv; [exact E|lia]|lia|exact H].
Qed.
End refinement.

(** ** What the machine promises *)

Record spec_ok (a : spec) : Prop := mkSpecOk {
  so_ids m n c d id : sp_calls a !! m = Some c -> sp_calls a !! n = Some d ->
    spec_id c = Some id -> spec_id d = Some id -> m = n;
  so_call n c : sp_calls a !! n = Some c ->
    match c with
    | SAnswered _ id r => (id, r) ∈ sp_responses a
    | SDone id (OutResult r) => exists i, id = Some i /\ (i, r) ∈ sp_responses a
    | SDone id OutNil => False
    | _ => True
    end
}.

Lemma spec_ok_set n c a :
  spec_ok a ->
  (forall id, spec_id c = Some id -> forall m d, m <> n -> sp_calls a !! m = Some d -> spec_id d <> Some id) ->
  match c with
  | SAnswered _ id r => (id, r) ∈ sp_responses a
  | SDone id (OutResult r) => exists i, id = Some i /\ (i, r) ∈ sp_responses a
  | SDone id OutNil => False
  | _ => True
  end -> spec_ok (set_call n c a).
Proof.
  intros [H1 H2] Hid Hc. split.
  - intros m m' d d' id. cbn. rewrite !lookup_insert. do 2 case_decide; subst; try done.
    + intros [= <-] Hd Hi Hi'. exfalso. by eapply Hid.
    + intros Hd [= <-] Hi Hi'. exfalso. by eapply Hid.
    + apply H1.
  - intros m d. cbn. rewrite lookup_insert. case_decide; [by intros [= <-]|]. apply H2.
Qed.

(** The same call under the same identifier. *)
Lemma spec_id_kept n c c' a :
  spec_ok a -> sp_calls a !! n = Some c -> spec_id c' = spec_id c ->
  forall id, spec_id c' = Some id -> forall m d, m <> n -> sp_calls a !! m = Some d -> spec_id d <> Some id.
Proof. intros [H1 _] Hc E id Hi m d Hm Hd Hi'. apply Hm. rewrite E in Hi. by eapply H1. Qed.

Lemma in_progress_id c ctx id : in_progress c = Some (ctx, id) -> spec_id c = Some id.
Proof. destruct c; cbn; try done; by intros [= -> ->]. Qed.

Lemma spec_ok_step a b : spec_ok a -> spec_step a b -> spec_ok b.
Proof.
  intros Ha Hs. pose proof Ha as [H1 H2].
  destruct Hs as [n ctx Hn|ctx e Hd|m|n ctx e Hc Hd|n ctx id Hc Hf|n ctx id r Hc Hr|n c ctx id e Hc Hp|n c ctx id e Hc Hp Hd|n ctx id r Hc].
  - apply spec_ok_set; [done| |done]. by intros id [=].
  - split; [exact H1|exact H2].
  - split; [exact H1|]. cbn. intros n c Hc. specialize (H2 n c Hc). destruct c as [| | |? []]; try done.
    + apply elem_of_app. by left.
    + destruct H2 as (i & Hi & H2). exists i. split; [done|]. apply elem_of_app. by left.
  - apply spec_ok_set; [done| |done]. by intros id [=].
  - apply spec_ok_set; [done| |done]. intros i [= <-] m d Hm Hd. by eapply Hf.
  - apply spec_ok_set; [done| |done]. by eapply spec_id_kept.
  - apply spec_ok_set; [done| |done]. apply in_progress_id in Hp. by eapply spec_id_kept.
  - apply spec_ok_set; [done| |done]. apply in_progress_id in Hp. by eapply spec_id_kept.
  - pose proof (H2 n _ Hc) as Hr. cbn in Hr. apply spec_ok_set; [done| |by exists id]. by eapply spec_id_kept.
Qed.

Lemma spec_ok_init : spec_ok spec_init.
Proof. split; cbn; intros *; by rewrite lookup_empty. Qed.

Lemma spec_promises a : rtc spec_step spec_init a -> spec_ok a.
Proof.
  revert a. apply (rtc_ind_r (R:=spec_step) spec_ok spec_init spec_ok_init).
  intros a b _ Hs Ha. by eapply spec_ok_step.
Qed.

(** A call returns once: its outcome never changes. *)
Lemma spec_outcome_stable a b n id out :
  rtc spec_step a b -> sp_calls a !! n = Some (SDone id out) -> sp_calls b !! n = Some (SDone id out).
Proof.
  intros Hs Ha. induction Hs as [|a b c Hs _ IH]; [done|]. apply IH. clear IH.
  destruct Hs as [m ctx Hc| | |m ctx e Hc|m ctx i Hc|m ctx i r Hc|m d ctx i e Hc Hp|m d ctx i e Hc Hp|m ctx i r Hc];
    cbn; try done; rewrite lookup_insert; case_decide; subst; try done; rewrite Ha in Hc; try done; injection Hc as <-; done.
Qed.

(** ** A run *)

Definition spec_run : list action :=
  [ACall 1 1; ACall 2 2; ARpc 1 CaseDone; ARpc 1 CaseDone; ARpc 1 CaseDone;
   AReceive (Message (mkResponse (Some "1") "a" None "")); AListen CaseChan; ASend 1 None; ARpc 1 CaseChan; ARpc 1 CaseDone].

Lemma Client_refines_witness :
  let s := default (New 0) (run no_decode no_text spec_run (New 0)) in
  rtc spec_step spec_init (abs spec_run s) /\
  sp_calls (abs spec_run s) !! 1%nat = Some (SDone (Some "1") (OutResult (mkRpcResponse "a" None))).
Proof.
  intros s. split; [|vm_compute; reflexivity].
  apply (Client_refines no_decode no_text 0 spec_run s); vm_compute; reflexivity.
Defined.
