(* ===== verification/Wire.v ===== *)
(** * The OVSDB wire format

    Models [ovsdb/internal/jsonrpc/conn.go], [ovsdb/transact.go], [ovsdb/result.go]
    and [ovsdb/rpc.go]: the texts of requests, the decoding of a stream of
    responses, of results and errors, and the calls built on [rpc].

    The JSON they send and receive is that of [GoJson]. *)

From stdpp Require Import gmap.
From S2P Require Import Prelude GoStrings GoConv GoQuote GoJson Ovsdb.

(** ** [jsonrpc/conn.go] *)

(** [Params] is nil, or a value with its JSON. *)
Record Request := mkRequest { req_ID : string; req_Method : string; req_Params : option json }.

Definition request_json (req : Request) : json :=
  JObj [("id", JStr (req_ID req)); ("method", JStr (req_Method req));
        ("params", default JNull (req_Params req))].

(** [Send], where [write] is the connection's; [Encode] ends the text with a new line. *)
Definition Send (write : string -> option error) (req : Request) : option error :=
  if (req_ID req =? "")%string then Some (ErrorString "JSON-RPC request ID must not be empty")
  else
    let req := match req_Params req with
               | None => mkRequest (req_ID req) (req_Method req) (Some (JArr []))
               | Some _ => req
               end in
    match write (Marshal (request_json req) +:+ sing newline) with
    | Some e => Some (ErrorfErr "failed to encode JSON-RPC request: %v" e)
    | None => None
    end.

Section receive.
(** The text [%#v] prints for a decoded value. *)
Context (GoSyntax : json -> string).

Definition response_fields : list string := ["id"; "result"; "error"; "method"; "params"].

Definition response_field (n : string) (v : json * string) (r : Response) : Response * option error :=
  let (j, text) := v in
  if (n =? "id")%string then
    match j with
    | JStr s => (mkResponse (Some s) (res_Result r) (res_Error r) (res_Method r), None)
    | JNull => (mkResponse None (res_Result r) (res_Error r) (res_Method r), None)
    | _ => (r, Some (errType j "string"))
    end
  else if (n =? "result")%string then (mkResponse (res_ID r) text (res_Error r) (res_Method r), None)
  else if (n =? "error")%string then
    (mkResponse (res_ID r) (res_Result r)
       (match j with JNull => None | _ => Some (GoSyntax j) end) (res_Method r), None)
  else if (n =? "method")%string then
    let (s, e) := dec_string j (res_Method r) in
    (mkResponse (res_ID r) (res_Result r) (res_Error r) s, e)
  else (r, None).

Definition dec_Response (text : string) (j : json) : Response * option error :=
  let zero := mkResponse None "" None "" in
  match j, members text with
  | JObj _, Some m => dec_fields response_field response_fields m zero
  | JNull, _ => (zero, None)
  | _, _ => (zero, Some (errType j "jsonrpc.Response"))
  end.

(** [Receive], on what remains of the text the server sends before it closes the
    connection: the outcome, and the text that remains. *)
Definition Receive (buf : string) : received * string :=
  let s := skip_ws buf in
  if (s =? "")%string then (ReceiveStop, "")
  else match read_value s with
       | None => (ReceiveError true, buf)
       | Some (j, r) =>
           match dec_Response (stake (String.length s - String.length r) s) j with
           | (res, None) => (Message res, r)
           | (_, Some _) => (ReceiveError false, r)
           end
       end.

Fixpoint Receives (n : nat) (buf : string) : list received :=
  match n with
  | O => []
  | S n => let (m, buf) := Receive buf in m :: Receives n buf
  end.

End receive.

(** ** [transact.go] *)

Record Cond := mkCond { Column : string; Function : string; cond_Value : string }.

Definition Equal (column value : string) : Cond := mkCond column "==" value.

Definition Cond_MarshalJSON (c : Cond) : json :=
  JArr [JStr (Column c); JStr (Function c); JStr (cond_Value c)].

(** [Select], the one [TransactOp]; a nil slice of conditions is [None]. *)
Record Select := mkSelect { sel_Table : string; Where : option (list Cond) }.

Definition Select_MarshalJSON (s : Select) : json :=
  let where_ := match Where s with None => [] | Some w => w end in
  JObj [("op", JStr "select"); ("table", JStr (sel_Table s)); ("where", JArr (map Cond_MarshalJSON where_))].

Record transactArg := mkTransactArg { Database : string; Ops : list Select }.

Definition transactArg_MarshalJSON (t : transactArg) : json :=
  JArr (JStr (Database t) :: map Select_MarshalJSON (Ops t)).

(** ** [result.go] *)

Record Error := mkError { err_Err : string; err_Details : string; err_Syntax : string }.

(** An [*Error] as an [error]: the format and the fields of its text. *)
Definition Error_Error (e : Error) : error :=
  Errorf "%s: %s: %s" [inl (err_Err e); inl (err_Details e); inl (err_Syntax e)].

Definition error_field (n : string) (j : json) (e : Error) : Error * option error :=
  if (n =? "error")%string then
    let (s, x) := dec_string j (err_Err e) in (mkError s (err_Details e) (err_Syntax e), x)
  else if (n =? "details")%string then
    let (s, x) := dec_string j (err_Details e) in (mkError (err_Err e) s (err_Syntax e), x)
  else let (s, x) := dec_string j (err_Syntax e) in (mkError (err_Err e) (err_Details e) s, x).

Definition dec_Error : decoder Error := dec_struct "ovsdb.Error" error_field ["error"; "details"; "syntax"].

Record result A := mkResult { Reply : A; r_Err : option Error }.
Arguments mkResult {A}.
Arguments Reply {A}.
Arguments r_Err {A}.

Definition errPrefix : string := "{" +:+ String dquote ("error" +:+ String dquote ":").

Definition UnmarshalJSON {A} (dec : decoder A) (b : string) (r : result A) : result A * option error :=
  if negb (HasPrefix b errPrefix) then
    let (a, e) := Unmarshal dec b (Reply r) in (mkResult a (r_Err r), e)
  else
    match Unmarshal dec_Error b (mkError "" "" "") with
    | (_, Some err) => (r, Some err)
    | (e, None) => (mkResult (Reply r) (Some e), None)
    end.

(** [json.Unmarshal(res.Result, &r)] and what follows it: [null] sets the pointer
    [r] itself to nil, which is then dereferenced; any other value goes to the
    method [UnmarshalJSON] without the white space around it. *)
Definition unmarshal_result {A} (dec : decoder A) (a : A) (text : string) : go A :=
  match parse text with
  | None => Err errSyntax
  | Some JNull => Panic "invalid memory address or nil pointer dereference"
  | Some _ =>
      let s := skip_ws text in
      let b := match read_value text with
               | Some (_, r) => stake (String.length s - String.length r) s
               | None => s
               end in
      match UnmarshalJSON dec b (mkResult a None) with
      | (_, Some err) => Err err
      | (r, None) => match r_Err r with Some e => Err (Error_Error e) | None => Ok (Reply r) end
      end
  end.

(** ** [rpc.go] *)

(** What a method gets from its call of [rpc], whose reply starts as [a]. *)
Definition rpc_result {A} (dec : decoder A) (a : A) (out : rpc_out) : go A :=
  match out with
  | OutErr e => Err e
  | OutNil => Ok a
  | OutResult r => rpcResult (unmarshal_result dec a) r
  end.

Definition ListDatabases_request (id : string) : Request := mkRequest id "list_dbs" None.
Definition ListDatabases (out : rpc_out) : go (list string) := rpc_result dec_strings [] out.

Definition Echo_request (id : string) : Request := mkRequest id "echo" (Some (JArr [JStr echo_request])).
Definition Echo (out : rpc_out) : go (option error) := echo_error (unmarshal_result dec_array1 [""]) out.

(** A row; [json.Unmarshal] adds to a map. *)
Definition Row := gmap string json.

Definition dec_Row : decoder Row := fun j cur =>
  match j with
  | JObj m => (foldl (fun row kv => <[fst kv := snd kv]> row) cur m, None)
  | JNull => (∅, None)
  | _ => (cur, Some (errType j "ovsdb.Row"))
  end.

Definition dec_rows : decoder (list Row) := dec_slice ∅ dec_Row "[]ovsdb.Row".
Definition dec_outcome : decoder (list Row) := dec_struct "struct" (fun _ => dec_rows) ["rows"].
Definition dec_outcomes : decoder (list (list Row)) := dec_slice [] dec_outcome "[]struct".

Definition Transact_request (id db : string) (ops : list Select) : Request :=
  mkRequest id "transact" (Some (transactArg_MarshalJSON (mkTransactArg db ops))).
Definition Transact (out : rpc_out) : go (list Row) :=
  o ← rpc_result dec_outcomes [] out; Ok (concat o).

(** ** Lemmas: texts *)

Lemma stake_text (s r : string) : stake (String.length (s +:+ r) - String.length r) (s +:+ r) = s.
Proof. by rewrite app_length', Nat.add_sub, stake_app. Qed.

Lemma skip_ws_Marshal j r : json_ok j = true -> skip_ws (Marshal j +:+ r) = Marshal j +:+ r.
Proof. intros Hok. by apply skip_ws_start, Marshal_start. Qed.

Lemma Marshal_ne j r : json_ok j = true -> (Marshal j +:+ r =? "")%string = false.
Proof.
  intros Hok. apply String.eqb_neq. apply Marshal_start in Hok. by destruct (Marshal j).
Qed.

Lemma parse_line j :
  json_ok j = true -> value_end j (sing newline) -> parse (Marshal j +:+ sing newline) = Some j.
Proof. intros Hok He. unfold parse. by rewrite read_value_Marshal. Qed.

(** Only an object whose first member is [error] starts like an error. *)
Definition is_error (j : json) : bool :=
  match j with JObj ((k, _) :: _) => (k =? "error")%string | _ => false end.

Lemma errPrefix_spec j : json_ok j = true -> HasPrefix (Marshal j) errPrefix = is_error j.
Proof.
  destruct j as [|[]|n|s|l|[|[k v] m]]; try done.
  - intros (c & s & -> & Hc)%num_ok_head. cbn [Marshal is_error]. unfold HasPrefix, errPrefix. rewrite !app_cons, app_nil_l', prefix_cons.
    destruct (Ascii.eqb_spec "{" c) as [<-|]; [|done]. by destruct Hc.
  - intros Hok. cbn [json_ok forallb fst snd] in Hok. apply andb_true_iff in Hok as [Hok _].
    apply andb_true_iff in Hok as [Hk%String.eqb_eq _]. cbn [is_error].
    set (rest := ":" +:+ Marshal v +:+ (match m with [] => "" | _ => "," +:+ Join (map (fun kv => json_string (fst kv) +:+ ":" +:+ Marshal (snd kv)) m) "," end) +:+ "}").
    assert (E : Marshal (JObj ((k, v) :: m)) = "{" +:+ json_string k +:+ rest).
    { unfold rest. destruct m as [|kv m]; cbn [Marshal map fst snd]; [cbn [Join]|rewrite Join_cons by done];
        by rewrite ?app_assoc', ?app_nil_l'. }
    rewrite E. destruct (String.eqb_spec k "error") as [->|Hne].
    + unfold HasPrefix. apply prefix_spec. by eexists (Marshal v +:+ _).
    + destruct (HasPrefix _ errPrefix) eqn:Hp; [|done]. exfalso. apply Hne.
      apply prefix_spec in Hp as [q Hq]. unfold errPrefix in Hq. rewrite !app_cons, !app_nil_l' in Hq.
      destruct (json_string_unquote k rest Hk) as (b & Eb & Hb). rewrite Eb in Hq.
      injection Hq as ->. destruct (json_string_unquote "error" (":" +:+ q) eq_refl) as (b' & Eb' & Hb').
      injection Eb' as <-. assert (Hx : Some (k, rest) = Some ("error", ":" +:+ q)) by (etrans; [symmetry; exact Hb|exact Hb']).
      by injection Hx.
Qed.

(** ** Requests *)

(** [Send] writes the request as one JSON text, whose parameters are an array when
    the caller gives none, and returns the error of the write; only an empty
    identifier is refused, before anything is written. *)
Theorem Send_text (write : string -> option error) (req : Request) :
  req_ID req <> "" -> json_ok (request_json req) = true ->
  exists text, Send write req = ErrorfErr "failed to encode JSON-RPC request: %v" <$> write text /\
    parse text = Some (JObj [("id", JStr (req_ID req)); ("method", JStr (req_Method req));
                             ("params", default (JArr []) (req_Params req))]).
Proof.
  intros Hid Hok. unfold Send. apply String.eqb_neq in Hid as ->.
  destruct req as [id method [p|]]; cbn [req_ID req_Method req_Params].
  - eexists. split; [reflexivity|]. by apply parse_line.
  - change (json_ok (request_json (mkRequest id method (Some (JArr [])))) = true) in Hok.
    eexists. split; [reflexivity|]. by apply parse_line.
Qed.

(** A reader of the arguments of a transaction, as RFC 7047 has them. *)
Definition read_cond (j : json) : option Cond :=
  match j with JArr [JStr c; JStr f; JStr v] => Some (mkCond c f v) | _ => None end.

Definition read_select (j : json) : option (string * list Cond) :=
  match j with
  | JObj [(k1, JStr op); (k2, JStr table); (k3, JArr w)] =>
      if (k1 =? "op")%string && (op =? "select")%string && (k2 =? "table")%string && (k3 =? "where")%string
      then cs ← mapM read_cond w; Some (table, cs) else None
  | _ => None
  end.

Definition read_transact (j : json) : option (string * list (string * list Cond)) :=
  match j with
  | JArr (JStr db :: ops) => ops ← mapM read_select ops; Some (db, ops)
  | _ => None
  end.

Lemma mapM_read {A B} (f : A -> json) (g : json -> option B) (h : A -> B) l :
  (forall x, g (f x) = Some (h x)) -> mapM g (map f l) = Some (map h l).
Proof. intros H. induction l as [|x l IH]; [done|]. cbn. by rewrite H, IH. Qed.

Lemma read_cond_MarshalJSON c : read_cond (Cond_MarshalJSON c) = Some c.
Proof. by destruct c. Qed.

Lemma read_select_MarshalJSON s :
  read_select (Select_MarshalJSON s) = Some (sel_Table s, default [] (Where s)).
Proof.
  unfold Select_MarshalJSON, read_select. cbn [String.eqb Ascii.eqb Bool.eqb andb].
  rewrite (mapM_read Cond_MarshalJSON read_cond (fun c => c)) by apply read_cond_MarshalJSON.
  cbn [mbind option_bind]. rewrite map_id. by destruct (Where s).
Qed.

(** C28: The request of a transaction carries its database, tables and conditions, if they
    and the identifier are valid UTF-8, which an encoder would else replace: what is
    written parses, and the parameters read back as RFC 7047 has them, a nil slice of
    conditions as an empty one. *)
Theorem Transact_request_reads (write : string -> option error) (id db : string) (ops : list Select) :
  id <> "" -> json_ok (request_json (Transact_request id db ops)) = true ->
  exists text params,
    Send write (Transact_request id db ops) = ErrorfErr "failed to encode JSON-RPC request: %v" <$> write text /\
    parse text = Some (JObj [("id", JStr id); ("method", JStr "transact"); ("params", params)]) /\
    read_transact params = Some (db, map (fun s => (sel_Table s, default [] (Where s))) ops).
Proof.
  intros Hid Hok. unfold Send. cbn [Transact_request req_ID req_Params]. apply String.eqb_neq in Hid as ->.
  eexists _, _. split; [reflexivity|]. split; [by apply parse_line|].
  transitivity (read_transact (JArr (JStr db :: map Select_MarshalJSON ops))); [done|]. cbn [read_transact].
  by rewrite (mapM_read Select_MarshalJSON read_select _ ops read_select_MarshalJSON).
Qed.

(** ** The stream of responses *)

Section stream.
Context (GoSyntax : json -> string).

(** What one object is received as. *)
Definition receive_object (m : list (string * json)) : received :=
  match dec_fields (response_field GoSyntax) response_fields (with_texts m) (mkResponse None "" None "") with
  | (res, None) => Message res
  | (_, Some _) => ReceiveError false
  end.

Lemma Receive_object m r :
  json_ok (JObj m) = true -> Receive GoSyntax (Marshal (JObj m) +:+ r) = (receive_object m, r).
Proof.
  intros Hok. unfold Receive. rewrite skip_ws_Marshal, Marshal_ne, read_value_Marshal by done.
  rewrite stake_text. unfold dec_Response. rewrite members_Marshal by done.
  unfold receive_object. by destruct (dec_fields _ _ _ _) as [res [e|]].
Qed.

(** The text of a stream: the messages, each with what the server writes after it. *)
Definition stream_text (ms : list (list (string * json) * string)) : string :=
  String.concat "" (map (fun mw => Marshal (JObj (fst mw)) +:+ snd mw) ms).

Lemma Receive_space w buf :
  all_chars json_space w = true -> skip_ws (w +:+ buf) = skip_ws buf.
Proof.
  induction w as [|c w IH]; [done|]. cbn [all_chars]. intros [Hc Hw]%andb_true_iff.
  rewrite app_cons. cbn [skip_ws]. rewrite Hc. by apply IH.
Qed.

Lemma Receive_skip w m r :
  all_chars json_space w = true -> json_ok (JObj m) = true ->
  Receive GoSyntax (w +:+ Marshal (JObj m) +:+ r) = (receive_object m, r).
Proof.
  intros Hw Hm. rewrite <- (Receive_object m r Hm). unfold Receive. rewrite Receive_space by done.
  rewrite !(skip_ws_Marshal (JObj m)), Marshal_ne by done. by rewrite read_value_Marshal.
Qed.

Lemma Receives_text (ms : list (list (string * json) * string)) :
  Forall (fun mw => json_ok (JObj (fst mw)) = true /\ all_chars json_space (snd mw) = true) ms ->
  Receives GoSyntax (S (length ms)) (stream_text ms) = map (fun mw => receive_object (fst mw)) ms ++ [ReceiveStop].
Proof.
  intros Hms. rewrite <- (app_nil_l' (stream_text ms)). 
  generalize "" (eq_refl : all_chars json_space "" = true).
  induction Hms as [|[m w] ms [Hm Hw] Hms IH]; intros v Hv; cbn [fst snd] in *.
  - cbn [length Receives map app]. unfold Receive. by rewrite Receive_space.
  - unfold stream_text. cbn [map fst snd]. rewrite concat_cons, app_assoc'. fold (stream_text ms).
    cbn [length]. remember (S (length ms)) as n. cbn [Receives]. rewrite Receive_skip by done.
    cbn [app]. f_equal. by apply IH.
Qed.

(** C18: The stream of responses is cut into exactly its messages, whatever white space
    separates them: each is received as its object decodes, a member of a wrong type
    costs only its own message, and the end of the text is the end of the stream. *)
Theorem Receives_stream (ms : list (list (string * json) * string)) :
  Forall (fun mw => json_ok (JObj (fst mw)) = true /\ all_chars json_space (snd mw) = true) ms ->
  Receives GoSyntax (S (length ms)) (stream_text ms) = map (fun mw => receive_object (fst mw)) ms ++ [ReceiveStop].
Proof. apply Receives_text. Qed.
End stream.

(** A reply as a server sends it. *)
Definition reply (id : string) (j : json) : list (string * json) :=
  [("id", JStr id); ("result", j); ("error", JNull)].

Lemma receive_reply GoSyntax id j :
  receive_object GoSyntax (reply id j) = Message (mkResponse (Some id) (Marshal j) None "").
Proof. done. Qed.

(** ** Results *)

Definition is_null (j : json) : bool := match j with JNull => true | _ => false end.

Lemma unmarshal_result_json {A} (dec : decoder A) (a : A) (j : json) :
  json_ok j = true ->
  unmarshal_result dec a (Marshal j) =
  if is_null j then Panic "invalid memory address or nil pointer dereference"
  else if is_error j
  then match dec_Error j (mkError "" "" "") with (e, None) => Err (Error_Error e) | (_, Some x) => Err x end
  else match dec j a with (b, None) => Ok b | (_, Some x) => Err x end.
Proof.
  intros Hok. unfold unmarshal_result. rewrite parse_Marshal by done.
  destruct (is_null j) eqn:Hj; [by destruct j|].
  assert (Hm : forall X (p x : X), match j with JNull => p | _ => x end = x) by (by destruct j).
  assert (He : value_end j "") by (by destruct j). rewrite Hm.
  pose proof (read_value_Marshal j "" Hok He) as Hr. pose proof (skip_ws_Marshal j "" Hok) as Hw.
  pose proof (stake_text (Marshal j) "") as Ht. rewrite app_nil_r' in Hr, Hw, Ht. rewrite Hr, Hw, Ht.
  unfold UnmarshalJSON, Unmarshal. rewrite errPrefix_spec, parse_Marshal by done.
  destruct (is_error j); cbn [negb Reply].
  - by destruct (dec_Error j (mkError "" "" "")) as [e [x|]].
  - by destruct (dec j a) as [b [x|]].
Qed.

(** A text with the prefix is an object whose first member is [error]. *)
Lemma key_error q : key (json_string "error" +:+ ":" +:+ q) = Some ("error", skip_ws q).
Proof.
  destruct (json_string_unquote "error" (":" +:+ q) eq_refl) as (b & -> & Hb). unfold key.
  change (String dquote b) with (sing dquote +:+ b). rewrite strip_app. cbn [mbind option_bind]. rewrite Hb. cbn [mbind option_bind].
  assert (skip_ws (":" +:+ q) = ":" +:+ q) as -> by done. by rewrite strip_app.
Qed.

Lemma value_error f q j r : value f ("{" +:+ json_string "error" +:+ ":" +:+ q) = Some (j, r) -> is_error j = true.
Proof.
  destruct f as [|f]; [done|]. rewrite app_cons, app_nil_l'.
  change (value (S f) (String "{" ?t)) with ('(m, r) ← elements0 (member (value f)) f "}" t; Some (JObj m, r)).
  unfold elements0. change (strip (sing "}") (skip_ws (json_string "error" +:+ ?t))) with (@None string). cbv iota.
  destruct f as [|f]; [done|]. cbn [elements]. change (skip_ws (json_string "error" +:+ ?t)) with (json_string "error" +:+ t).
  assert (Hm : member (value (S f)) (json_string "error" +:+ ":" +:+ q) = ('(v, r) ← value (S f) (skip_ws q); Some ("error", v, r)))
    by (unfold member; by rewrite key_error).
  rewrite Hm.
  destruct (value (S f) (skip_ws q)) as [[v r1]|]; [|done]. cbn [mbind option_bind].
  destruct (strip (sing "}") (skip_ws r1)) as [r2|]; [by intros [= <- <-]|].
  destruct (strip "," (skip_ws r1)) as [r2|]; [|done]. cbn [mbind option_bind].
  destruct (elements _ _ _ r2) as [[l r3]|]; [|done]. by intros [= <- <-].
Qed.

Lemma errPrefix_error t j r : read_value t = Some (j, r) -> HasPrefix t errPrefix = true -> is_error j = true.
Proof.
  intros Hr [q ->]%prefix_spec.
  assert (E : errPrefix +:+ q = "{" +:+ json_string "error" +:+ ":" +:+ q) by reflexivity.
  rewrite E in Hr. unfold read_value in Hr. change (skip_ws ("{" +:+ ?x)) with ("{" +:+ x) in Hr. by eapply value_error.
Qed.

(** C19: What [rpcResult] makes of a result, the text of any JSON value without white space
    around it, as [json.RawMessage] holds it: [null] makes it panic; a text that begins
    with the prefix of errors is the error it describes, and it is an object whose first
    member is [error]; any other text is decoded into the reply, whose type error is
    returned. In a text as an encoder writes it, without white space inside, the prefix
    is there whenever the first member is [error]. *)
Theorem unmarshal_result_cases {A} (dec : decoder A) (a : A) (t : string) (j : json) :
  skip_ws t = t -> read_value t = Some (j, "") ->
  unmarshal_result dec a t =
    (if is_null j then Panic "invalid memory address or nil pointer dereference"
     else if HasPrefix t errPrefix
     then match dec_Error j (mkError "" "" "") with (e, None) => Err (Error_Error e) | (_, Some x) => Err x end
     else match dec j a with (b, None) => Ok b | (_, Some x) => Err x end) /\
  (HasPrefix t errPrefix = true -> is_error j = true) /\
  (json_ok j = true -> t = Marshal j -> HasPrefix t errPrefix = is_error j).
Proof.
  intros Hw Hr. split_and!; [|by eapply errPrefix_error|intros Hok ->; by apply errPrefix_spec].
  assert (Hp : parse t = Some j) by (unfold parse; by rewrite Hr).
  unfold unmarshal_result. rewrite Hp. destruct (is_null j) eqn:Hj; [by destruct j|].
  assert (Hm : forall X (p x : X), match j with JNull => p | _ => x end = x) by (by destruct j).
  pose proof (stake_text t "") as Ht. rewrite app_nil_r' in Ht. rewrite Hm, Hr, Hw, Ht.
  unfold UnmarshalJSON, Unmarshal. rewrite Hp. destruct (HasPrefix t errPrefix); cbn [negb Reply].
  - by destruct (dec_Error j (mkError "" "" "")) as [e [x|]].
  - by destruct (dec j a) as [b [x|]].
Qed.

(** *** Databases *)

Lemma ListDatabases_names dbs :
  json_ok (JArr (map JStr dbs)) = true ->
  ListDatabases (OutResult (mkRpcResponse (Marshal (JArr (map JStr dbs))) None)) = Ok dbs.
Proof.
  intros Hok. unfold ListDatabases, rpc_result, rpcResult. cbn [rr_Error rr_Result].
  rewrite unmarshal_result_json by done. cbn [is_null is_error dec_strings dec_slice].
  by rewrite dec_elems_strings.
Qed.

(** *** Transactions *)

(** What a server answers for one operation, as RFC 7047 has it: rows, or an error. *)
Inductive op_outcome :=
| OpRows (rows : list (list (string * json)))
| OpError (error details : string).

Definition op_json (o : op_outcome) : json :=
  match o with
  | OpRows rows => JObj [("rows", JArr (map JObj rows))]
  | OpError e d => JObj [("error", JStr e); ("details", JStr d)]
  end.

Definition row_of (m : list (string * json)) : Row :=
  foldl (fun row kv => <[fst kv := snd kv]> row) ∅ m.

Definition rows_of (o : op_outcome) : list Row :=
  match o with OpRows rows => map row_of rows | OpError _ _ => [] end.

Lemma dec_elems_rows rows : dec_elems ∅ dec_Row (map JObj rows) [] = (map row_of rows, None).
Proof. induction rows as [|m rows IH]; [done|]. cbn [map dec_elems hd tl dec_Row]. by rewrite IH. Qed.

Lemma dec_outcome_op o : dec_outcome (op_json o) [] = (rows_of o, None).
Proof.
  destruct o as [rows|e d]; [|done]. unfold dec_outcome, dec_struct, op_json. cbn [dec_fields].
  change (field_of ["rows"] "rows") with (Some "rows"). cbn iota. unfold dec_rows, dec_slice.
  by rewrite dec_elems_rows.
Qed.

Lemma dec_outcomes_ops os : dec_outcomes (JArr (map op_json os)) [] = (map rows_of os, None).
Proof.
  unfold dec_outcomes, dec_slice. induction os as [|o os IH]; [done|]. cbn [map dec_elems hd tl].
  by rewrite dec_outcome_op, IH.
Qed.

(** The rows of a reply, from the callback to the caller. *)
Lemma Transact_rows GoSyntax (id : string) (os : list op_outcome) res :
  json_ok (JObj (reply id (JArr (map op_json os)))) = true ->
  receive_object GoSyntax (reply id (JArr (map op_json os))) = Message res ->
  res_ID res = Some id /\ res_Method res = "" /\
  Transact (OutResult (response_of res)) = Ok (concat (map rows_of os)).
Proof.
  intros Hok. rewrite receive_reply. intros Hres.
  assert (Hm : forall m m', Message m = Message m' -> m = m') by congruence. apply Hm in Hres as <-. clear Hm.
  split; [done|]. split; [done|].
  assert (Hj : json_ok (JArr (map op_json os)) = true).
  { unfold reply in Hok. cbn [json_ok forallb fst snd] in Hok. by bools. }
  unfold Transact, rpc_result, rpcResult, response_of, Response_Err.
  cbn [res_Error res_Result fmap option_fmap option_map rr_Error rr_Result].
  rewrite unmarshal_result_json by done. cbn [is_null is_error]. by rewrite dec_outcomes_ops.
Qed.

(** From the reply on the connection to the caller: the message a server sends for a
    transaction is received with its identifier, and [Transact] returns the rows of
    all operations, in order. An operation that failed counts as one without rows:
    its error is not returned. *)
Theorem Transact_reply (GoSyntax : json -> string) (id : string) (os : list op_outcome) :
  json_ok (JObj (reply id (JArr (map op_json os)))) = true ->
  exists res,
    receive_object GoSyntax (reply id (JArr (map op_json os))) = Message res /\
    res_ID res = Some id /\ res_Method res = "" /\
    Transact (OutResult (response_of res)) = Ok (concat (map rows_of os)).
Proof. intros Hok. eexists. split; [apply receive_reply|]. by apply (Transact_rows GoSyntax id os). Qed.

(** *** From end to end *)

Section end_to_end.
Context (Unmarshal : string -> go (list string)) (ErrorText : error -> string) (GoSyntax : json -> string).

(** What the server answers for each identifier, and a connection that carries no other
    message: each one received is the text of the answer for some identifier. *)
Context (answers : string -> list op_outcome).

Definition answer_text (id : string) : string := Marshal (JObj (reply id (JArr (map op_json (answers id))))).

Definition carries_answers (acts : list action) : Prop :=
  forall res, In (AReceive (Message res)) acts -> exists id r,
    json_ok (JObj (reply id (JArr (map op_json (answers id))))) = true /\
    Receive GoSyntax (answer_text id +:+ r) = (Message res, r).

(** C14: Transactions are answered right. On a connection that carries the server's
    answers as texts, in any order, and whatever the interleaving of the calls, the
    goroutines, cancellations and failures, a transaction that does not return an
    error returns the rows that the server answered for its own identifier. *)
Theorem Transact_end_to_end d acts s n c id out :
  run Unmarshal ErrorText acts (New d) = Some s -> Z.of_nat (length acts) < 2 ^ 63 ->
  carries_answers acts ->
  calls s !! n = Some c -> call_pc c = RpcReturned id out ->
  (exists e, out = OutErr e) \/
  exists i, id = Some i /\ Transact out = Ok (concat (map rows_of (answers i))).
Proof.
  intros Hr Hk Hans Hc Hpc. pose proof (run_Inv Unmarshal ErrorText d acts s Hr Hk) as HI.
  pose proof (I_call _ _ _ HI n c Hc) as Hok. unfold call_ok in Hok. rewrite Hpc in Hok.
  destruct out as [r|e|]; [right|left; by eexists|done].
  destruct Hok as (i & -> & res & Hin & Hid & ->). exists i. split; [done|].
  destruct (Hans _ Hin) as (j & r & Hj & Hrecv). unfold answer_text in Hrecv.
  rewrite Receive_object in Hrecv by done. apply (f_equal fst) in Hrecv as Hm. cbn [fst] in Hm.
  destruct (Transact_rows GoSyntax j (answers j) res Hj Hm) as (Hid' & _ & Ht).
  rewrite Hid in Hid'. injection Hid' as ->. exact Ht.
Qed.
End end_to_end.

(** ** Examples and witnesses *)

Definition no_syntax (j : json) : string := "".

(** An error whose object does not begin with the member [error] is taken for a reply. *)
Example details_first :
  unmarshal_result dec_strings [] (Marshal (JObj [("details", JStr "d"); ("error", JStr "e")]))
  = Err (errType (JObj []) "[]string")
  /\ unmarshal_result dec_strings [] (Marshal (JObj [("error", JStr "e"); ("details", JStr "d")]))
  = Err (Error_Error (mkError "e" "d" "")).
Proof. vm_compute. split; reflexivity. Qed.

(** White space after the brace, too. *)
Example error_spaced :
  unmarshal_result (fun _ (x : unit) => (x, None)) tt ("{ " +:+ json_string "error" +:+ ":" +:+ json_string "e" +:+ "}") = Ok tt.
Proof. vm_compute. reflexivity. Qed.

Example Echo_ok : Echo (OutResult (mkRpcResponse (Marshal (JArr [JStr echo_request])) None)) = Ok None.
Proof. vm_compute. reflexivity. Qed.
Example Echo_null : Echo (OutResult (mkRpcResponse "null" None))
  = Panic "invalid memory address or nil pointer dereference".
Proof. vm_compute. reflexivity. Qed.
Example Send_empty w : Send w (ListDatabases_request "") = Some (ErrorString "JSON-RPC request ID must not be empty").
Proof. reflexivity. Qed.

Lemma Send_text_witness :
  exists text, Send (fun _ => None) (ListDatabases_request "1")
    = ErrorfErr "failed to encode JSON-RPC request: %v" <$> (fun _ => None) text /\
    parse text = Some (JObj [("id", JStr "1"); ("method", JStr "list_dbs"); ("params", JArr [])]).
Proof. apply (Send_text (fun _ => None) (ListDatabases_request "1")); [done|]. vm_compute. reflexivity. Defined.

Definition select_ex : list Select :=
  [mkSelect "Bridge" (Some [Equal "name" "br<0>"]); mkSelect "Port" None].

Lemma Transact_request_reads_witness :
  exists text params,
    Send (fun _ => Some io_EOF) (Transact_request "7" "Open_vSwitch" select_ex)
    = ErrorfErr "failed to encode JSON-RPC request: %v" <$> (fun _ => Some io_EOF) text /\
    parse text = Some (JObj [("id", JStr "7"); ("method", JStr "transact"); ("params", params)]) /\
    read_transact params
    = Some ("Open_vSwitch", [("Bridge", [mkCond "name" "==" "br<0>"]); ("Port", [])]).
Proof.
  apply (Transact_request_reads (fun _ => Some io_EOF) "7" "Open_vSwitch" select_ex); [done|].
  vm_compute. reflexivity.
Defined.

Definition stream_ex : list (list (string * json) * string) :=
  [(reply "1" (JNum "-1.5e3"), sing newline); ([("method", JNum "1")], ""); (reply "2" (JArr []), " ")].

Lemma Receives_stream_witness :
  Receives no_syntax 4 (stream_text stream_ex)
  = [Message (mkResponse (Some "1") "-1.5e3" None ""); ReceiveError false;
     Message (mkResponse (Some "2") "[]" None ""); ReceiveStop].
Proof.
  refine (Receives_stream no_syntax stream_ex _). repeat constructor; vm_compute; reflexivity.
Defined.

(** An error with white space inside. *)
Definition error_text : string := "{" +:+ json_string "error" +:+ ": " +:+ json_string "not owner" +:+ " , " +:+ json_string "details" +:+ ":null}".

Lemma unmarshal_result_cases_witness :
  unmarshal_result dec_strings [] error_text = Err (Error_Error (mkError "not owner" "" "")).
Proof.
  exact (proj1 (unmarshal_result_cases dec_strings [] error_text (JObj [("error", JStr "not owner"); ("details", JNull)])
    ltac:(vm_compute; reflexivity) ltac:(vm_compute; reflexivity))).
Defined.

Definition outcomes_ex : list op_outcome :=
  [OpRows [[("name", JStr "br0"); ("ports", JNum "2")]]; OpError "no such table" "T"; OpRows []].

Lemma Transact_reply_witness :
  exists res, receive_object no_syntax (reply "3" (JArr (map op_json outcomes_ex))) = Message res /\
    res_ID res = Some "3" /\ res_Method res = "" /\
    Transact (OutResult (response_of res)) = Ok (concat (map rows_of outcomes_ex)).
Proof. apply (Transact_reply no_syntax "3" outcomes_ex). vm_compute. reflexivity. Defined.

(** Two transactions at the same time, answered in the other order. *)
Definition answers_ex (id : string) : list op_outcome :=
  if (id =? "1")%string then [OpRows [[("name", JStr "br0")]]] else [OpRows []; OpRows [[("name", JStr "eth0")]]].

Definition answered (id : string) : action := AReceive (fst (Receive no_syntax (answer_text answers_ex id))).

Definition transact_run : list action :=
  [ACall 1 1; ACall 2 2; ARpc 1 CaseDone; ARpc 1 CaseDone; ARpc 2 CaseDone; ARpc 2 CaseDone; ARpc 2 CaseDone;
   ARpc 1 CaseDone; ASend 1 None; ASend 2 None;
   answered "2"; AListen CaseChan; answered "1"; AListen CaseChan;
   ARpc 1 CaseChan; ARpc 1 CaseDone; ARpc 2 CaseChan; ARpc 2 CaseDone].

Definition transact_state : Client := default (New 0) (run no_decode no_text transact_run (New 0)).

Lemma Transact_end_to_end_witness :
  exists c out, calls transact_state !! 2%nat = Some c /\ call_pc c = RpcReturned (Some "2") out /\
    ((exists e, out = OutErr e) \/
     exists i, Some "2" = Some i /\ Transact out = Ok (concat (map rows_of (answers_ex i)))).
Proof.
  eexists _, _. split; [vm_compute; reflexivity|]. split; [reflexivity|].
  eapply (Transact_end_to_end no_decode no_text no_syntax answers_ex 0 transact_run transact_state 2).
  - vm_compute. reflexivity.
  - vm_compute. reflexivity.
  - intros m Hm. assert (H : Message m = fst (Receive no_syntax (answer_text answers_ex "2")) \/
                           Message m = fst (Receive no_syntax (answer_text answers_ex "1"))).
    { unfold transact_run, answered in Hm. cbn [In] in Hm. repeat destruct Hm as [Hm|Hm]; try discriminate Hm;
        try (assert (Hi : forall x y, AReceive x = AReceive y -> x = y) by congruence; apply Hi in Hm); auto; by destruct Hm. }
    destruct H as [H | H]; rewrite H; [exists "2", ""|exists "1", ""]; (split; [vm_compute; reflexivity|]); rewrite app_nil_r';
      vm_compute; reflexivity.
  - vm_compute. reflexivity.
  - reflexivity.
Defined.
