(* ===== verification/TestConn.v ===== *)
(** * The server of the JSON-RPC connection

    Models [ovsdb/internal/jsonrpc/testconn.go]: the server that [TestConn] and
    [TestNetConn] start, which reads requests, calls a [TestFunc] and writes its
    responses, while notifications are written in between.  Each message is written
    under a lock, so the text the client reads is the messages one after the other, as
    [TestServer] proves. *)

From S2P Require Import Prelude GoStrings GoConv GoQuote GoJson Ovsdb Wire.

(** A [Response] as the server has it, with values where [Ovsdb.Response] has the texts
    that the client keeps; an absent raw message or error is [None]. *)
Record ServerResponse := mkServerResponse {
  sr_ID : option string; sr_Result : option json; sr_Error : option json; sr_Method : string; sr_Params : option json
}.

Definition TestFunc := Request -> ServerResponse.

(** A member that [omitempty] leaves out. *)
Definition omitempty (k : string) (v : option json) : list (string * json) :=
  match v with Some j => [(k, j)] | None => [] end.

Definition response_members (r : ServerResponse) : list (string * json) :=
  ("id", match sr_ID r with Some id => JStr id | None => JNull end)
  :: omitempty "result" (sr_Result r)
  ++ ("error", default JNull (sr_Error r))
  :: omitempty "method" (if (sr_Method r =? "")%string then None else Some (JStr (sr_Method r)))
  ++ omitempty "params" (sr_Params r).

Definition request_field (n : string) (j : json) (r : Request) : Request * option error :=
  if (n =? "id")%string then
    let (s, e) := dec_string j (req_ID r) in (mkRequest s (req_Method r) (req_Params r), e)
  else if (n =? "method")%string then
    let (s, e) := dec_string j (req_Method r) in (mkRequest (req_ID r) s (req_Params r), e)
  else (mkRequest (req_ID r) (req_Method r) (match j with JNull => None | _ => Some j end), None).

Definition dec_Request : decoder Request := dec_struct "jsonrpc.Request" request_field ["id"; "method"; "params"].

(** [isNetworkCloseError]. *)
Definition isNetworkCloseError (Error : error -> string) (err : error) : bool :=
  match err with
  | io_EOF => true
  | _ => Contains (Error err) "use of closed network" || Contains (Error err) "connection reset by peer"
  end.

(** One turn of the server on the text it has left: the end of the text stops it, a
    request that does not decode makes it panic. *)
Definition serve_one (fn : TestFunc) (buf : string) : go (option (list (string * json) * string)) :=
  let s := skip_ws buf in
  if (s =? "")%string then Ok None
  else match read_value s with
       | None => Panic "failed to decode request"
       | Some (j, r) =>
           match dec_Request j (mkRequest "" "" None) with
           | (req, None) => Ok (Some (response_members (fn req), r))
           | (_, Some _) => Panic "failed to decode request"
           end
       end.

(** [n] turns: the responses, and how it ended, unless it goes on. *)
Fixpoint serve (n : nat) (fn : TestFunc) (buf : string) : list (list (string * json)) * option (go unit) :=
  match n with
  | O => ([], None)
  | S n =>
      match serve_one fn buf with
      | Ok None => ([], Some (Ok tt))
      | Ok (Some (m, r)) => let (ms, e) := serve n fn r in (m :: ms, e)
      | Err e => ([], Some (Err e))
      | Panic p => ([], Some (Panic p))
      end
  end.

(** The responses and the notifications on the connection, each in its order. *)
Inductive merge {A} : list A -> list A -> list A -> Prop :=
| merge_nil : merge [] [] []
| merge_left x l1 l2 l : merge l1 l2 l -> merge (x :: l1) l2 (x :: l)
| merge_right x l1 l2 l : merge l1 l2 l -> merge l1 (x :: l2) (x :: l).

(** What [enc.Encode] writes for each message. *)
Definition encoded (ms : list (list (string * json))) : string :=
  stream_text (map (fun m => (m, sing newline)) ms).

(** ** Requests *)

(** A request as it is sent: without parameters it gets an empty array. *)
Definition given (req : Request) : Request :=
  match req_Params req with
  | None => mkRequest (req_ID req) (req_Method req) (Some (JArr []))
  | Some _ => req
  end.

Definition sent (req : Request) : string := Marshal (request_json (given req)) +:+ sing newline.

Lemma Send_sent write req :
  req_ID req <> "" -> Send write req = ErrorfErr "failed to encode JSON-RPC request: %v" <$> write (sent req).
Proof.
  intros Hid. unfold Send, sent, given. apply String.eqb_neq in Hid as ->.
  destruct (req_Params req) as [p|]; by destruct (write _).
Qed.

(** What the server makes of the request: [null] parameters are none. *)
Definition seen (req : Request) : Request :=
  mkRequest (req_ID req) (req_Method req) (match req_Params (given req) with Some JNull => None | p => p end).

Lemma dec_Request_sent req : dec_Request (request_json (given req)) (mkRequest "" "" None) = (seen req, None).
Proof.
  unfold seen. destruct req as [id method [p|]]; [|done]. unfold given, request_json. cbn. by destruct p.
Qed.

Lemma serve_one_sent fn req r :
  json_ok (request_json (given req)) = true ->
  serve_one fn (sent req +:+ r) = Ok (Some (response_members (fn (seen req)), sing newline +:+ r)).
Proof.
  intros Hok. unfold serve_one, sent. rewrite app_assoc', skip_ws_Marshal, Marshal_ne by done.
  rewrite read_value_Marshal by done. by rewrite dec_Request_sent.
Qed.

Lemma serve_one_newline fn buf : serve_one fn (sing newline +:+ buf) = serve_one fn buf.
Proof. unfold serve_one. by rewrite (Receive_space (sing newline)). Qed.

Lemma serve_newline n fn buf : serve n fn (sing newline +:+ buf) = serve n fn buf.
Proof. destruct n; [done|]. cbn [serve]. by rewrite serve_one_newline. Qed.

(** The server reads the texts of requests as these requests, up to the end. *)
Lemma serve_sent fn reqs :
  Forall (fun req => json_ok (request_json (given req)) = true) reqs ->
  serve (S (length reqs)) fn (String.concat "" (map sent reqs)) =
    (map (fun req => response_members (fn (seen req))) reqs, Some (Ok tt)).
Proof.
  induction 1 as [|req reqs Hreq Hreqs IH]; [done|]. cbn [map length]. rewrite concat_cons.
  remember (S (length reqs)) as n. cbn [serve]. rewrite serve_one_sent by done. by rewrite serve_newline, IH.
Qed.

(** ** Responses *)

(** What the client receives of a response. *)
Definition client_view (GoSyntax : json -> string) (r : ServerResponse) : Response :=
  mkResponse (sr_ID r) (match sr_Result r with Some j => Marshal j | None => "" end)
    (match sr_Error r with None | Some JNull => None | Some j => Some (GoSyntax j) end) (sr_Method r).

Lemma receive_response GoSyntax r :
  receive_object GoSyntax (response_members r) = Message (client_view GoSyntax r).
Proof.
  destruct r as [id res err method params]. unfold client_view, receive_object, response_members.
  cbn [sr_ID sr_Result sr_Error sr_Method sr_Params].
  destruct (String.eqb_spec method "") as [->|]; destruct id, res, err as [[]|], params; reflexivity.
Qed.

Definition has_id (r : Response) : bool := match res_ID r with Some _ => true | None => false end.

Lemma filter_merge {A B} (f : A -> B) (p : B -> bool) l1 l2 l :
  merge l1 l2 l -> Forall (fun x => p (f x) = true) l1 -> Forall (fun x => p (f x) = false) l2 ->
  List.filter p (map f l) = map f l1.
Proof.
  induction 1 as [|x l1 l2 l _ IH|x l1 l2 l _ IH]; [done| |]; rewrite !Forall_cons.
  - intros [Hx H1] H2. cbn. by rewrite Hx, IH.
  - intros H1 [Hx H2]. cbn. by rewrite Hx, IH.
Qed.

(** The client receives the messages of the server one by one, in order, and those with an
    identifier are the responses. *)
Lemma client_reads (GoSyntax : json -> string) rs notes ms :
  Forall (fun r => is_Some (sr_ID r)) rs -> Forall (fun r => sr_ID r = None) notes -> merge rs notes ms ->
  Forall (fun r => json_ok (JObj (response_members r)) = true) ms ->
  Receives GoSyntax (S (length ms)) (encoded (map response_members ms)) =
    map Message (map (client_view GoSyntax) ms) ++ [ReceiveStop] /\
  List.filter has_id (map (client_view GoSyntax) ms) = map (client_view GoSyntax) rs.
Proof.
  intros Hid Hnotes Hmerge Hms. split.
  - unfold encoded. pose proof (Receives_text GoSyntax (map (fun m => (m, sing newline)) (map response_members ms))) as H.
    rewrite !length_map in H. rewrite H; [|].
    + f_equal. rewrite !map_map. apply map_ext. intros r. apply receive_response.
    + rewrite !Forall_map. eapply Forall_impl; [exact Hms|]. by intros r Hr.
  - apply (filter_merge _ _ _ _ _ Hmerge).
    + eapply Forall_impl; [exact Hid|]. intros r [id Hx]. unfold has_id. cbn. by rewrite Hx.
    + eapply Forall_impl; [exact Hnotes|]. intros r Hx. unfold has_id. cbn. by rewrite Hx.
Qed.

(** Client and server understand each other. What [Send] writes for any requests is
    read by the server as these requests, in order and up to the end of the text, and
    the [TestFunc] is called on each; and when the server writes its responses with
    notifications anywhere between them, the client receives exactly these messages,
    in order: those with an identifier are the responses to the requests, in the order
    of the requests, each with its result, error and method. *)
Theorem TestConn_exchange (GoSyntax : json -> string) (fn : TestFunc) reqs notes ms :
  Forall (fun req => json_ok (request_json (given req)) = true) reqs ->
  Forall (fun req => is_Some (sr_ID (fn (seen req)))) reqs -> Forall (fun r => sr_ID r = None) notes ->
  merge (map (fun req => fn (seen req)) reqs) notes ms ->
  Forall (fun r => json_ok (JObj (response_members r)) = true) ms ->
  serve (S (length reqs)) fn (String.concat "" (map sent reqs)) =
    (map (fun req => response_members (fn (seen req))) reqs, Some (Ok tt)) /\
  Receives GoSyntax (S (length ms)) (encoded (map response_members ms)) =
    map Message (map (client_view GoSyntax) ms) ++ [ReceiveStop] /\
  List.filter has_id (map (client_view GoSyntax) ms) = map (fun req => client_view GoSyntax (fn (seen req))) reqs.
Proof.
  intros Hreqs Hid Hnotes Hmerge Hms. split; [by apply serve_sent|].
  destruct (client_reads GoSyntax (map (fun req => fn (seen req)) reqs) notes ms) as [H1 H2]; [by rewrite Forall_map|done..|].
  split; [exact H1|]. by rewrite H2, map_map.
Qed.

(** ** Examples and witnesses *)

(** A server that repeats the parameters, with a notification after the first response. *)
Definition repeat_params : TestFunc := fun req => mkServerResponse (Some (req_ID req)) (req_Params req) None "" None.

Definition requests_ex : list Request := [ListDatabases_request "1"; Echo_request "2"].

Definition written_ex : list ServerResponse :=
  [mkServerResponse (Some "1") (Some (JArr [])) None "" None;
   mkServerResponse None None None "echo" (Some (JArr []));
   mkServerResponse (Some "2") (Some (JArr [JStr echo_request])) None "" None].

Lemma TestConn_exchange_witness :
  serve 3 repeat_params (String.concat "" (map sent requests_ex)) =
    (map (fun req => response_members (repeat_params (seen req))) requests_ex, Some (Ok tt)) /\
  Receives no_syntax 4 (encoded (map response_members written_ex)) =
    [Message (mkResponse (Some "1") "[]" None ""); Message (mkResponse None "" None "echo");
     Message (mkResponse (Some "2") (Marshal (JArr [JStr echo_request])) None ""); ReceiveStop].
Proof.
  destruct (TestConn_exchange no_syntax repeat_params requests_ex [mkServerResponse None None None "echo" (Some (JArr []))]
    written_ex) as (H1 & H2 & _).
  - repeat constructor; vm_compute; reflexivity.
  - repeat constructor; by eexists.
  - repeat constructor.
  - apply merge_left, merge_right, merge_left, merge_nil.
  - repeat constructor; vm_compute; reflexivity.
  - split; [exact H1|exact H2].
Defined.

Example serve_bad : serve 1 repeat_params "{" = ([], Some (Panic "failed to decode request")).
Proof. reflexivity. Qed.
