(* ===== verification/SendLock.v ===== *)
(** * Concurrent sends on a connection

    Models [Conn.Send] of [ovsdb/internal/jsonrpc/conn.go] as several goroutines run it:
    the lock on the encoder, the encoder with the error it keeps, and the write of a
    text, which the system may cut into pieces.  [Ovsdb] takes a send for one step, and
    [TestConn] takes the text of the connection for the texts of requests one after the
    other; here that is proved. *)

From stdpp Require Import gmap.
From S2P Require Import Prelude GoStrings GoConv GoQuote GoJson Ovsdb Wire TestConn.

(** ** Steps *)

Inductive send_pc :=
| SLock                           (** before [encMu.Lock] *)
| SEncode                         (** before [enc.Encode] *)
| SWrite (rest : string)          (** what is left to write *)
| SUnlock (res : option error)    (** before the deferred [encMu.Unlock] *)
| SReturned (res : option error).

(** The text of the connection so far, the lock and who holds it, the error that the
    encoder returns from then on, and the goroutines with their requests. *)
Record sending := mkSending {
  wire : string; encMu : option nat; encErr : option error; senders : gmap nat (Request * send_pc)
}.

Definition no_sends : sending := mkSending "" None None ∅.

Inductive send_event :=
| EvSend (n : nat) (req : Request)   (** a goroutine calls [Send], up to the lock *)
| EvStep (n : nat)                   (** its next step *)
| EvWrite (n k : nat)                (** the system takes [k] bytes of its text *)
| EvFail (n : nat) (e : error).      (** the write fails *)

Definition sender (n : nat) (req : Request) (pc : send_pc) (s : sending) : sending :=
  mkSending (wire s) (encMu s) (encErr s) (<[n := (req, pc)]> (senders s)).

Definition encode_error (e : error) : error := ErrorfErr "failed to encode JSON-RPC request: %v" e.

Definition send_step (a : send_event) (s : sending) : option sending :=
  match a with
  | EvSend n req =>
      match senders s !! n with
      | Some _ => None
      | None => Some (sender n req
          (if (req_ID req =? "")%string
           then SReturned (Some (ErrorString "JSON-RPC request ID must not be empty")) else SLock) s)
      end
  | EvStep n =>
      match senders s !! n with
      | Some (req, SLock) =>
          match encMu s with
          | None => Some (sender n req SEncode (mkSending (wire s) (Some n) (encErr s) (senders s)))
          | Some _ => None
          end
      | Some (req, SEncode) =>
          Some (sender n req (match encErr s with
                              | Some e => SUnlock (Some (encode_error e))
                              | None => SWrite (sent req)
                              end) s)
      | Some (req, SWrite "") => Some (sender n req (SUnlock None) s)
      | Some (req, SUnlock res) =>
          Some (sender n req (SReturned res) (mkSending (wire s) None (encErr s) (senders s)))
      | _ => None
      end
  | EvWrite n k =>
      match senders s !! n with
      | Some (req, SWrite rest) =>
          if (0 <? k)%nat && (k <=? String.length rest)%nat
          then Some (sender n req (SWrite (sdrop k rest))
                       (mkSending (wire s +:+ stake k rest) (encMu s) (encErr s) (senders s)))
          else None
      | _ => None
      end
  | EvFail n e =>
      match senders s !! n with
      | Some (req, SWrite rest) =>
          if (rest =? "")%string then None
          else Some (sender n req (SUnlock (Some (encode_error e))) (mkSending (wire s) (encMu s) (Some e) (senders s)))
      | _ => None
      end
  end.

Fixpoint send_run (evs : list send_event) (s : sending) : option sending :=
  match evs with
  | [] => Some s
  | a :: evs => match send_step a s with Some s => send_run evs s | None => None end
  end.

(** Alone, [Send] does what it does in [Wire], however its text is cut. *)
Example send_alone :
  let req := Echo_request "1" in
  option_map (fun s => (wire s, senders s !! 1%nat))
    (send_run [EvSend 1 req; EvStep 1; EvStep 1; EvWrite 1 7; EvWrite 1 (String.length (sent req) - 7); EvStep 1; EvStep 1] no_sends)
  = Some (sent req, Some (req, SReturned (Send (fun _ => None) req))).
Proof. vm_compute. reflexivity. Qed.

(** ** Invariant *)

Definition in_section (pc : send_pc) : Prop :=
  match pc with SEncode | SWrite _ | SUnlock _ => True | _ => False end.

(** The whole text has been written. *)
Definition wrote (pc : send_pc) : Prop :=
  match pc with SWrite rest => rest = "" | SUnlock None | SReturned None => True | _ => False end.

Definition writing (s : sending) (req : Request) (rest : string) : Prop :=
  rest <> "" /\ exists n, senders s !! n = Some (req, SWrite rest).

(** A goroutine that has not written its whole text. *)
Definition unsent (s : sending) (n : nat) (req : Request) : Prop :=
  exists pc, senders s !! n = Some (req, pc) /\ ~ wrote pc.

Definition texts (order : list (nat * Request)) : string := String.concat "" (map (fun p => sent (snd p)) order).

(** [order] lists the requests written so far, [partial] is what follows them. *)
Record SendInv (order : list (nat * Request)) (partial : string) (s : sending) : Prop := mkSendInv {
  L_wire : wire s = texts order +:+ partial;
  L_nodup : NoDup (map fst order);
  L_order n req : (n, req) ∈ order <-> exists pc, senders s !! n = Some (req, pc) /\ wrote pc;
  L_mutex n req pc : senders s !! n = Some (req, pc) -> in_section pc -> encMu s = Some n;
  L_partial : match encErr s with
              | None => (forall req rest, writing s req rest -> partial +:+ rest = sent req) /\
                        ((forall req rest, ~ writing s req rest) -> partial = "")
              | Some _ => (forall req rest, ~ writing s req rest) /\
                        exists n req rest, unsent s n req /\ rest <> "" /\ partial +:+ rest = sent req
              end
}.

Lemma texts_snoc order n req : texts (order ++ [(n, req)]) = texts order +:+ sent req.
Proof.
  unfold texts. rewrite map_app, string_concat_app. f_equal.
Qed.

Lemma sent_ne req : sent req <> "".
Proof. unfold sent. by destruct (Marshal _). Qed.

Section steps.
Context (order : list (nat * Request)) (partial : string) (s : sending) (HI : SendInv order partial s).

(** No sender but [n] holds the lock. *)
Definition alone (n : nat) : Prop :=
  forall m req pc, m <> n -> senders s !! m = Some (req, pc) -> ~ in_section pc.

Lemma holder_alone n req pc : senders s !! n = Some (req, pc) -> in_section pc -> alone n.
Proof.
  intros Hn Hin m r p Hne Hm Hp. apply Hne. pose proof (L_mutex _ _ _ HI n req pc Hn Hin).
  pose proof (L_mutex _ _ _ HI m r p Hm Hp). congruence.
Qed.

Lemma unlocked_alone n : encMu s = None -> alone n.
Proof. intros Hf m r p _ Hm Hp. pose proof (L_mutex _ _ _ HI m r p Hm Hp). congruence. Qed.

(** What the sender's new program point writes. *)
Lemma writing_alone n req pc s1 r rest :
  alone n -> senders s1 = senders s -> writing (sender n req pc s1) r rest -> r = req /\ pc = SWrite rest.
Proof.
  intros Ha Hs [Hne [m Hm]]. cbn in Hm. rewrite Hs in Hm. destruct (decide (m = n)) as [->|Hmn].
  - rewrite lookup_insert_eq in Hm. by injection Hm as -> ->.
  - rewrite lookup_insert_ne in Hm by done. by destruct (Ha m r _ Hmn Hm).
Qed.

Lemma writing_other n req pc s1 r rest :
  (forall x, pc <> SWrite x) -> (forall q x, senders s !! n <> Some (q, SWrite x)) -> senders s1 = senders s ->
  writing (sender n req pc s1) r rest <-> writing s r rest.
Proof.
  intros Hpc Hn Hs. unfold writing. cbn. rewrite Hs. split; intros [Hne [m Hm]]; (split; [done|]); exists m.
  - destruct (decide (m = n)) as [->|Hmn]; [|by rewrite lookup_insert_ne in Hm].
    rewrite lookup_insert_eq in Hm. injection Hm as _ E. by destruct (Hpc rest).
  - destruct (decide (m = n)) as [->|Hmn]; [by destruct (Hn r rest)|by rewrite lookup_insert_ne].
Qed.

(** The order is kept by a step that does not finish a text. *)
Lemma order_keep n req pc s1 m r :
  senders s1 = senders s ->
  match senders s !! n with Some (q, p) => q = req /\ (wrote p <-> wrote pc) | None => ~ wrote pc end ->
  (m, r) ∈ order <-> exists p, senders (sender n req pc s1) !! m = Some (r, p) /\ wrote p.
Proof.
  intros Hs Hn. rewrite (L_order _ _ _ HI). cbn. rewrite Hs. destruct (decide (m = n)) as [->|Hmn].
  - rewrite lookup_insert_eq. destruct (senders s !! n) as [[q p]|].
    + destruct Hn as [-> Hw]. split; intros (x & [= -> <-] & Hx); eexists; (split; [done|]); by apply Hw.
    + split; [by intros (p & [=] & _)|]. by intros (p & [= _ <-] & Hw).
  - by rewrite lookup_insert_ne.
Qed.

(** The lock is held by who is in the section. *)
Lemma mutex_keep n req pc s1 m r p :
  senders s1 = senders s -> alone n -> (in_section pc -> encMu s1 = Some n) ->
  senders (sender n req pc s1) !! m = Some (r, p) -> in_section p -> encMu s1 = Some m.
Proof.
  intros Hs Ha Hpc. cbn. rewrite Hs. destruct (decide (m = n)) as [->|Hmn].
  - rewrite lookup_insert_eq. intros [= _ <-]. exact Hpc.
  - rewrite lookup_insert_ne by done. intros Hm Hp. by destruct (Ha m r p Hmn Hm).
Qed.
End steps.

Section preservation.
Context (order : list (nat * Request)) (partial : string) (s : sending) (HI : SendInv order partial s).

(** A step that leaves the text as it is and writes nothing before or after. *)
Lemma quiet_step n req pc s1 :
  senders s1 = senders s -> wire s1 = wire s -> encErr s1 = encErr s ->
  match senders s !! n with Some (q, p) => q = req /\ (wrote p <-> wrote pc) | None => ~ wrote pc end ->
  (forall m r p, senders (sender n req pc s1) !! m = Some (r, p) -> in_section p -> encMu s1 = Some m) ->
  (forall r rest, writing (sender n req pc s1) r rest <-> writing s r rest) ->
  SendInv order partial (sender n req pc s1).
Proof.
  intros Hs Hw He Hn Hm Hwr. split.
  - cbn. rewrite Hw. apply (L_wire _ _ _ HI).
  - apply (L_nodup _ _ _ HI).
  - intros m r. by apply (order_keep order partial s HI).
  - intros m r p Hp Hin. by apply (Hm m r p).
  - cbn [sender encErr]. rewrite He. pose proof (L_partial _ _ _ HI) as Hp. destruct (encErr s).
    + destruct Hp as [H1 (m & r & rest & (p & Hm1 & Hnw) & Hx)]. split; [intros q x; rewrite Hwr; apply H1|].
      exists m, r, rest. split; [|done]. unfold unsent. cbn. rewrite Hs. destruct (decide (m = n)) as [->|Hmn].
      * rewrite Hm1 in Hn. destruct Hn as [-> Hw']. exists pc. rewrite lookup_insert_eq. split; [done|]. by rewrite <- Hw'.
      * exists p. by rewrite lookup_insert_ne.
    + destruct Hp as [H1 H2]. split; [intros r rest; rewrite Hwr; apply H1|]. intros Hno. apply H2.
      intros r rest. rewrite <- Hwr. apply Hno.
Qed.

(** A sender that still has something to write finds no error. *)
Lemma writer_no_error n req rest :
  senders s !! n = Some (req, SWrite rest) -> rest <> "" -> encErr s = None /\ partial +:+ rest = sent req.
Proof.
  intros Hn Hne. assert (Hw : writing s req rest) by (split; [done|by exists n]).
  pose proof (L_partial _ _ _ HI) as Hp. destruct (encErr s); [by destruct Hp as [H _]; destruct (H req rest)|].
  split; [done|]. by apply Hp.
Qed.

Lemma EvStep_inv n s' : send_step (EvStep n) s = Some s' -> exists o p, SendInv o p s'.
Proof.
  cbn [send_step]. destruct (senders s !! n) as [[req pc]|] eqn:Hn; [|done].
  destruct pc as [| |rest|res|res]; try done.
  - destruct (encMu s) eqn:Hmu; [done|]. intros [= <-]. exists order, partial.
    apply quiet_step; try done; [by rewrite Hn| |].
    + intros m r p. apply (mutex_keep s n req SEncode); [done|by apply (unlocked_alone order partial s HI)|done].
    + intros r rest. apply writing_other; try done. intros q x. by rewrite Hn.
  - pose proof (holder_alone order partial s HI n req SEncode Hn I) as Ha.
    pose proof (L_mutex _ _ _ HI n req SEncode Hn I) as Hmu.
    destruct (encErr s) as [e|] eqn:He; intros [= <-]; exists order, partial.
    + apply quiet_step; try done; [by rewrite Hn|intros m r p; by apply (mutex_keep s n req)|].
      intros r rest. apply writing_other; try done. intros q x. by rewrite Hn.
    + assert (Hno : partial = "").
      { pose proof (L_partial _ _ _ HI) as Hp. rewrite He in Hp. apply Hp. intros r rest [Hne [m Hm]].
        destruct (decide (m = n)) as [->|Hmn]; [congruence|]. by destruct (Ha m r _ Hmn Hm). }
      split; [apply (L_wire _ _ _ HI)|apply (L_nodup _ _ _ HI)| | |].
      * intros m r. apply (order_keep order partial s HI); [done|]. rewrite Hn. split; [done|].
        split; [done|]. cbn. intros E. by destruct (sent_ne req).
      * intros m r p Hp Hin. by apply (mutex_keep s n req (SWrite (sent req)) s m r p).
      * cbn [sender encErr]. rewrite He. split; [|done]. intros r rest Hw.
        destruct (writing_alone s n req _ s r rest Ha eq_refl Hw) as [-> [= <-]]. by rewrite Hno, app_nil_l'.
  - destruct rest; [|done]. intros [= <-]. exists order, partial.
    pose proof (holder_alone order partial s HI n req _ Hn I) as Ha.
    pose proof (L_mutex _ _ _ HI n req _ Hn I) as Hmu.
    apply quiet_step; try done; [by rewrite Hn|intros m r p; by apply (mutex_keep s n req)|]. intros r rest. split.
    + intros Hw. by destruct (writing_alone s n req _ s r rest Ha eq_refl Hw).
    + intros [Hne [m Hm]]. destruct (decide (m = n)) as [->|Hmn]; [congruence|]. by destruct (Ha m r _ Hmn Hm).
  - intros [= <-]. exists order, partial.
    pose proof (holder_alone order partial s HI n req _ Hn I) as Ha.
    apply quiet_step; try done; [by rewrite Hn| |].
    { intros m r p. apply (mutex_keep s n req (SReturned res)); try done. }
    intros r rest. apply writing_other; try done. intros q x. by rewrite Hn.
Qed.

Lemma EvSend_inv n req s' : send_step (EvSend n req) s = Some s' -> exists o p, SendInv o p s'.
Proof.
  cbn [send_step]. destruct (senders s !! n) eqn:Hn; [done|]. intros [= <-]. exists order, partial.
  apply quiet_step; try done.
  - rewrite Hn. destruct (_ =? _)%string; cbn; tauto.
  - intros m r p. cbn. destruct (decide (m = n)) as [->|Hmn].
    + rewrite lookup_insert_eq. intros [= _ <-]. by destruct (_ =? _)%string.
    + rewrite lookup_insert_ne by done. apply (L_mutex _ _ _ HI).
  - intros r rest. apply writing_other; [by destruct (_ =? _)%string| |done]. intros q x. by rewrite Hn.
Qed.

Lemma EvWrite_inv n k s' : send_step (EvWrite n k) s = Some s' -> exists o p, SendInv o p s'.
Proof.
  cbn [send_step]. destruct (senders s !! n) as [[req pc]|] eqn:Hn; [|done].
  destruct pc as [| |rest|res|res]; try done. destruct (_ && _) eqn:Hk; [|done]. bools. intros [= <-].
  apply Nat.ltb_lt in H. apply Nat.leb_le in H0.
  assert (Hne : rest <> "") by (intros ->; cbn in *; lia).
  destruct (writer_no_error n req rest Hn Hne) as [He Hp].
  pose proof (holder_alone order partial s HI n req _ Hn I) as Ha.
  pose proof (L_mutex _ _ _ HI n req _ Hn I) as Hmu.
  set (s1 := mkSending (wire s +:+ stake k rest) (encMu s) (encErr s) (senders s)).
  assert (Hm : forall m r p, senders (sender n req (SWrite (sdrop k rest)) s1) !! m = Some (r, p) -> in_section p ->
    encMu s1 = Some m) by (intros m r p; by apply (mutex_keep s n req)).
  destruct (decide (sdrop k rest = "")) as [Hd|Hd].
  - assert (Htake : stake k rest = rest) by (rewrite <- (stake_sdrop k rest) at 2; by rewrite Hd, app_nil_r').
    assert (Hnot : n ∉ map fst order).
    { intros ([m r] & -> & Hin)%list_elem_of_fmap. apply (L_order _ _ _ HI) in Hin as (p & Hr & Hw).
      cbn in *. rewrite Hn in Hr. by injection Hr as _ <-. }
    exists (order ++ [(n, req)]), "". split; [| | |exact Hm|].
    + cbn. rewrite texts_snoc, app_nil_r', Htake, (L_wire _ _ _ HI), app_assoc'. by rewrite Hp.
    + rewrite map_app. apply NoDup_app. split_and!; [apply (L_nodup _ _ _ HI)| |apply NoDup_singleton].
      intros m Hin. by intros ->%list_elem_of_singleton.
    + intros m r. rewrite elem_of_app, list_elem_of_singleton, (L_order _ _ _ HI). cbn.
      destruct (decide (m = n)) as [->|Hmn].
      * rewrite lookup_insert_eq, Hn, Hd. split.
        -- intros [(p & [= <- <-] & Hw)|[= ->]]; [by destruct Hne|]. by eexists.
        -- intros (p & [= <- <-] & _). by right.
      * rewrite lookup_insert_ne by done. split; [intros [Hx|[= ->]]; [done|by destruct Hmn]|by left].
    + cbn [sender encErr s1]. rewrite He. split; [|done]. intros r x Hw.
      destruct (writing_alone s n req _ s1 r x Ha eq_refl Hw) as [-> [= <-]]. by destruct Hw as [Hx _].
  - exists order, (partial +:+ stake k rest). split; [|apply (L_nodup _ _ _ HI)| |exact Hm|].
    + cbn. by rewrite (L_wire _ _ _ HI), app_assoc'.
    + intros m r. apply (order_keep order partial s HI); [done|]. rewrite Hn. split; [done|]. cbn. split; intros E.
      * by destruct Hne.
      * by destruct Hd.
    + cbn [sender encErr s1]. rewrite He. split.
      * intros r x Hw. destruct (writing_alone s n req _ s1 r x Ha eq_refl Hw) as [-> [= <-]].
        by rewrite app_assoc', stake_sdrop.
      * intros Hno. destruct (Hno req (sdrop k rest)). split; [done|]. exists n. cbn. by rewrite lookup_insert_eq.
Qed.

Lemma EvFail_inv n e s' : send_step (EvFail n e) s = Some s' -> exists o p, SendInv o p s'.
Proof.
  cbn [send_step]. destruct (senders s !! n) as [[req pc]|] eqn:Hn; [|done].
  destruct pc as [| |rest|res|res]; try done. destruct (String.eqb_spec rest "") as [|Hne]; [done|]. intros [= <-].
  destruct (writer_no_error n req rest Hn Hne) as [He Hp].
  pose proof (holder_alone order partial s HI n req _ Hn I) as Ha.
  pose proof (L_mutex _ _ _ HI n req _ Hn I) as Hmu.
  exists order, partial. split; [apply (L_wire _ _ _ HI)|apply (L_nodup _ _ _ HI)| | |].
  - intros m r. apply (order_keep order partial s HI); [done|]. rewrite Hn. split; [done|]. cbn. by split.
  - intros m r p. by apply (mutex_keep s n req _ (mkSending (wire s) (encMu s) (Some e) (senders s))).
  - cbn [sender encErr]. split.
    2: { exists n, req, rest. split; [|done]. eexists. cbn. rewrite lookup_insert_eq. split; [done|]. by intros []. }
    intros r x Hw.
    by destruct (writing_alone s n req _ (mkSending (wire s) (encMu s) (Some e) (senders s)) r x Ha eq_refl Hw).
Qed.
End preservation.

Lemma send_step_inv order partial s a s' :
  SendInv order partial s -> send_step a s = Some s' -> exists o p, SendInv o p s'.
Proof.
  intros HI. destruct a as [n req|n|n k|n e].
  - by apply (EvSend_inv order partial).
  - by apply (EvStep_inv order partial).
  - by apply (EvWrite_inv order partial).
  - by apply (EvFail_inv order partial).
Qed.

Lemma no_sends_inv : SendInv [] "" no_sends.
Proof.
  split; try done; [constructor| |].
  - intros n req. split; [by intros ?%not_elem_of_nil|]. by intros (pc & Hn & _).
  - split; [|done]. by intros req rest [_ [n Hn]].
Qed.

Lemma send_run_inv evs s : send_run evs no_sends = Some s -> exists o p, SendInv o p s.
Proof.
  assert (H : forall s0 o p, SendInv o p s0 -> send_run evs s0 = Some s -> exists o p, SendInv o p s).
  { induction evs as [|a evs IH]; intros s0 o p HI; cbn [send_run]; [intros [= <-]; by eauto|].
    destruct (send_step a s0) as [s1|] eqn:Ha; [|done]. destruct (send_step_inv _ _ _ _ _ HI Ha) as (o1 & p1 & H1).
    by apply (IH s1 o1 p1). }
  by apply (H no_sends [] "" no_sends_inv).
Qed.

Lemma writing_holder order partial s req rest :
  SendInv order partial s -> writing s req rest ->
  exists n, encMu s = Some n /\ senders s !! n = Some (req, SWrite rest).
Proof. intros HI [_ [n Hn]]. exists n. split; [|done]. by apply (L_mutex _ _ _ HI n req (SWrite rest)). Qed.

Lemma writing_dec order partial s :
  SendInv order partial s -> (exists req rest, writing s req rest) \/ forall req rest, ~ writing s req rest.
Proof.
  intros HI. destruct (encMu s) as [n|] eqn:Hmu.
  - destruct (senders s !! n) as [[req [| |rest| |]]|] eqn:Hn.
    3: destruct (decide (rest = "")) as [->|Hne]; [|left; exists req, rest; split; [done|by exists n]].
    all: right; intros q x Hq; destruct (writing_holder _ _ _ _ _ HI Hq) as (m & Hm & Hx); destruct Hq; congruence.
  - right. intros q x Hq. destruct (writing_holder _ _ _ _ _ HI Hq) as (m & Hm & Hx). congruence.
Qed.

(** What follows the whole texts is the beginning of one, of a goroutine that has not
    written its own. *)
Lemma partial_prefix order partial s :
  SendInv order partial s -> partial = "" \/ exists n req rest, unsent s n req /\ rest <> "" /\ partial +:+ rest = sent req.
Proof.
  intros HI. pose proof (L_partial _ _ _ HI) as Hp. destruct (encErr s); [right; by destruct Hp|]. destruct Hp as [H1 H2].
  destruct (writing_dec _ _ _ HI) as [(req & rest & Hw)|Hno]; [|by left; apply H2].
  right. destruct (Hw) as [Hne [n Hn]]. exists n, req, rest. split_and!; [by exists (SWrite rest)|done|by apply H1].
Qed.

(** The goroutines are those that called [Send], each with its request. *)
Lemma senders_called evs s n req pc :
  send_run evs no_sends = Some s -> senders s !! n = Some (req, pc) -> EvSend n req ∈ evs.
Proof.
  assert (H : forall s0, send_run evs s0 = Some s -> senders s !! n = Some (req, pc) ->
    EvSend n req ∈ evs \/ exists pc0, senders s0 !! n = Some (req, pc0)).
  { induction evs as [|a evs IH]; intros s0; cbn [send_run]; [intros [= ->] Hn; right; by eexists|].
    destruct (send_step a s0) as [s1|] eqn:Ha; [|done]. intros Hr Hn.
    destruct (IH s1 Hr Hn) as [Hin|[pc1 H1]]; [left; by right|].
    assert (Hcase : a = EvSend n req \/ exists pc0, senders s0 !! n = Some (req, pc0)).
    { destruct a as [m r|m|m k|m e]; cbn [send_step] in Ha;
        (destruct (decide (m = n)) as [->|Hmn];
         [|assert (E : senders s1 !! n = senders s0 !! n)
             by (repeat case_match; simplify_eq; cbn; by rewrite lookup_insert_ne); right; exists pc1; by rewrite <- E]).
      all: repeat case_match; simplify_eq; cbn in H1; rewrite lookup_insert_eq in H1; injection H1 as <- _;
        first [by left|right; by eexists]. }
    destruct Hcase as [->|?]; [left; by left|by right]. }
  intros Hr Hn. destruct (H no_sends Hr Hn) as [?|[? [=]]]. done.
Qed.

(** ** Nothing is mixed *)

(** C22: However goroutines that send on a connection are interleaved, and however the
    system cuts what they write: the text of the connection is the whole texts of
    requests that were sent, each [Send] at most once, and after them nothing or the
    beginning of the request of one more [Send]. Every [Send] that returned without an
    error is among them, and none that returned an error is. While no write has failed and
    nobody holds the lock there is no such beginning, and the server reads exactly these
    requests, in the order of their texts and up to the end, if their strings are valid
    UTF-8. *)
Theorem sends_intact (fn : TestFunc) evs s :
  send_run evs no_sends = Some s ->
  exists order partial,
    wire s = texts order +:+ partial /\ NoDup (map fst order) /\
    (forall n req, (n, req) ∈ order -> EvSend n req ∈ evs) /\
    (partial = "" \/ exists n req rest, EvSend n req ∈ evs /\ n ∉ map fst order /\ rest <> "" /\ partial +:+ rest = sent req) /\
    (forall n req, senders s !! n = Some (req, SReturned None) -> (n, req) ∈ order) /\
    (forall n req e, senders s !! n = Some (req, SReturned (Some e)) -> n ∉ map fst order) /\
    (encErr s = None -> encMu s = None -> partial = "" /\
      (Forall (fun p => json_ok (request_json (given (snd p))) = true) order ->
       serve (S (length order)) fn (wire s) =
         (map (fun p => response_members (fn (seen (snd p)))) order, Some (Ok tt)))).
Proof.
  intros Hrun. destruct (send_run_inv _ _ Hrun) as (order & partial & HI). exists order, partial. split_and!.
  - apply (L_wire _ _ _ HI).
  - apply (L_nodup _ _ _ HI).
  - intros n req (pc & Hn & _)%(L_order _ _ _ HI). by eapply senders_called.
  - destruct (partial_prefix order partial s HI) as [->|(n & req & rest & (pc & Hn & Hnw) & Hrest & Hp)]; [by left|right].
    exists n, req, rest. split_and!; [by eapply senders_called| |done|done].
    intros ([m r] & -> & Hin)%list_elem_of_fmap. apply (L_order _ _ _ HI) in Hin as (p & Hm & Hw). cbn in Hn.
    rewrite Hm in Hn. by injection Hn as _ ->.
  - intros n req Hn. apply (L_order _ _ _ HI). by exists (SReturned None).
  - intros n req e Hn ([m r] & -> & Hin)%list_elem_of_fmap. apply (L_order _ _ _ HI) in Hin as (pc & Hm & Hw).
    cbn in Hn. rewrite Hm in Hn. by injection Hn as _ ->.
  - intros He Hmu. pose proof (L_partial _ _ _ HI) as Hp. rewrite He in Hp.
    assert (partial = "") as ->.
    { apply Hp. intros q x Hq. destruct (writing_holder _ _ _ _ _ HI Hq) as (m & Hm & _). congruence. }
    split; [done|]. intros Hok. rewrite (L_wire _ _ _ HI), app_nil_r'. unfold texts.
    rewrite <- (map_map snd sent), <- (length_map snd order), serve_sent by (by rewrite Forall_map).
    by rewrite map_map.
Qed.

(** ** Every send returns *)

(** What a sender may come to while no write has failed. *)
Definition good (p : Request * send_pc) : Prop :=
  match snd p with
  | SUnlock (Some _) => False
  | SReturned (Some _) => req_ID (fst p) = ""
  | _ => req_ID (fst p) <> ""
  end.

Record HoldInv (s : sending) : Prop := mkHoldInv {
  H_holder n : encMu s = Some n -> exists req pc, senders s !! n = Some (req, pc) /\ in_section pc;
  H_good : encErr s = None -> map_Forall (fun _ => good) (senders s)
}.

Lemma hold_sender s s1 n req pc :
  HoldInv s -> senders s1 = senders s -> (encErr s1 = None -> encErr s = None /\ good (req, pc)) ->
  (forall m, encMu s1 = Some m -> if decide (m = n) then in_section pc else encMu s = Some m) ->
  HoldInv (sender n req pc s1).
Proof.
  intros HI Hs Hg Hm. split.
  - intros m E. apply Hm in E. cbn. rewrite Hs. destruct (decide (m = n)) as [->|Hmn].
    + exists req, pc. by rewrite lookup_insert_eq.
    + rewrite lookup_insert_ne by done. by apply (H_holder _ HI).
  - cbn. rewrite Hs. intros [He Hx]%Hg. apply map_Forall_insert_2; [done|]. by apply (H_good _ HI).
Qed.

Lemma hold_good s n req pc : HoldInv s -> senders s !! n = Some (req, pc) -> encErr s = None -> good (req, pc).
Proof. intros HI Hn He. by apply (H_good _ HI He n). Qed.

(** A sender that leaves the lock as it is. *)
Lemma same_lock s n (P : Prop) m : P -> encMu s = Some m -> if decide (m = n) then P else encMu s = Some m.
Proof. intros HP E. by destruct (decide _). Qed.

Lemma send_step_hold s a s' : HoldInv s -> send_step a s = Some s' -> HoldInv s'.
Proof.
  intros HI. destruct a as [n req|n|n k|n e]; cbn [send_step]; destruct (senders s !! n) as [[q pc]|] eqn:Hn; try done.
  - intros [= <-]. apply (hold_sender s); [done|done| |].
    + intros He. split; [done|]. unfold good. cbn [fst snd]. by destruct (String.eqb_spec (req_ID req) "") as [E|E].
    + intros m E. destruct (decide (m = n)) as [->|]; [|done]. destruct (H_holder _ HI n E) as (? & ? & Hx & _). congruence.
  - pose proof (hold_good s n q pc HI Hn) as Hg. destruct pc as [| |rest|res|res]; try done.
    + destruct (encMu s) eqn:Hmu; [done|]. intros [= <-]. apply (hold_sender s); [done|done| |].
      * intros He. split; [done|]. by apply Hg.
      * cbn. intros m [= <-]. by rewrite decide_True.
    + intros [= <-]. apply (hold_sender s); [done|done| |].
      * intros He. split; [done|]. rewrite He. by apply Hg.
      * intros m. apply same_lock. by destruct (encErr s).
    + destruct rest; [|done]. intros [= <-]. apply (hold_sender s); [done|done| |intros m; by apply same_lock].
      intros He. split; [done|]. by apply Hg.
    + intros [= <-]. apply (hold_sender s); [done|done| |done]. cbn. intros He. split; [done|].
      specialize (Hg He). by destruct res.
  - destruct pc; try done. destruct (_ && _); [|done]. intros [= <-].
    apply (hold_sender s); [done|done| |intros m; by apply (same_lock s)]. intros He. split; [done|].
    by apply (hold_good s n q _ HI Hn).
  - destruct pc; try done. destruct (_ =? _)%string; [done|]. intros [= <-].
    apply (hold_sender s); [done|done|done|intros m; by apply (same_lock s)].
Qed.

Definition reached (s : sending) : Prop := exists evs, send_run evs no_sends = Some s.

Lemma send_run_app evs1 evs2 s s1 : send_run evs1 s = Some s1 -> send_run (evs1 ++ evs2) s = send_run evs2 s1.
Proof.
  revert s. induction evs1 as [|a evs1 IH]; intros s; cbn; [by intros [= ->]|].
  destruct (send_step a s); [apply IH|done].
Qed.

Lemma reached_run s evs s' : reached s -> send_run evs s = Some s' -> reached s'.
Proof. intros [evs0 H0] H. exists (evs0 ++ evs). by rewrite (send_run_app _ _ _ _ H0). Qed.

Lemma reached_hold s : reached s -> HoldInv s.
Proof.
  intros [evs H]. assert (Hi : HoldInv no_sends) by (split; [done|intros _ n p Hn; cbn in Hn; by rewrite lookup_empty in Hn]).
  revert H Hi. generalize no_sends. induction evs as [|a evs IH]; intros s0; cbn; [by intros [= ->]|].
  destruct (send_step a s0) as [s1|] eqn:Ha; [|done]. intros H Hi. apply (IH s1); [done|]. by apply (send_step_hold s0 a).
Qed.

(** Steps of the senders there are, without a failure of a write. *)
Definition moves (a : send_event) : bool := match a with EvStep _ | EvWrite _ _ => true | _ => false end.

(** By such steps sender [n] returns and the lock is free. *)
Definition completes (n : nat) (req : Request) (s s' : sending) : Prop :=
  exists evs res, forallb moves evs = true /\ send_run evs s = Some s' /\ encMu s' = None /\ encErr s' = encErr s /\
    senders s' = <[n := (req, SReturned res)]> (senders s).

Lemma completes_step a n req pc s s1 s' :
  moves a = true -> send_step a s = Some (sender n req pc s1) -> senders s1 = senders s -> encErr s1 = encErr s ->
  completes n req (sender n req pc s1) s' -> completes n req s s'.
Proof.
  intros Ha Hs Hm He (evs & res & Hevs & Hrun & Hmu & He' & Hs'). exists (a :: evs), res. split_and!; [|by cbn; rewrite Hs|done| |].
  - cbn. by rewrite Ha.
  - by rewrite He'.
  - rewrite Hs'. cbn. by rewrite Hm, insert_insert_eq.
Qed.

Lemma completes_unlock n req res s :
  senders s !! n = Some (req, SUnlock res) -> exists s', completes n req s s'.
Proof. intros Hn. eexists. exists [EvStep n], res. cbn. rewrite Hn. by split_and!. Qed.

Lemma completes_written n req s : senders s !! n = Some (req, SWrite "") -> exists s', completes n req s s'.
Proof.
  intros Hn. destruct (completes_unlock n req None (sender n req (SUnlock None) s)) as [s' H]; [cbn; by rewrite lookup_insert_eq|].
  exists s'. apply (completes_step (EvStep n) n req (SUnlock None) s s); try done. cbn. by rewrite Hn.
Qed.

Lemma completes_write n req rest s : senders s !! n = Some (req, SWrite rest) -> exists s', completes n req s s'.
Proof.
  intros Hn. destruct (decide (rest = "")) as [->|Hne]; [by apply completes_written|].
  set (s1 := mkSending (wire s +:+ stake (String.length rest) rest) (encMu s) (encErr s) (senders s)).
  assert (Hd : sdrop (String.length rest) rest = "") by (clear; by induction rest).
  destruct (completes_written n req (sender n req (SWrite (sdrop (String.length rest) rest)) s1)) as [s' H].
  { cbn. by rewrite lookup_insert_eq, Hd. }
  exists s'. apply (completes_step (EvWrite n (String.length rest)) n req (SWrite (sdrop (String.length rest) rest)) s s1); try done.
  cbn [send_step]. rewrite Hn. destruct rest as [|c rest]; [done|]. by rewrite (proj2 (Nat.leb_le _ _)).
Qed.

Lemma completes_encode n req s : senders s !! n = Some (req, SEncode) -> exists s', completes n req s s'.
Proof.
  intros Hn. destruct (encErr s) as [e|] eqn:He.
  - destruct (completes_unlock n req (Some (encode_error e)) (sender n req (SUnlock (Some (encode_error e))) s)) as [s' H].
    { cbn. by rewrite lookup_insert_eq. }
    exists s'. apply (completes_step (EvStep n) n req (SUnlock (Some (encode_error e))) s s); try done. cbn. by rewrite Hn, He.
  - destruct (completes_write n req (sent req) (sender n req (SWrite (sent req)) s)) as [s' H].
    { cbn. by rewrite lookup_insert_eq. }
    exists s'. apply (completes_step (EvStep n) n req (SWrite (sent req)) s s); try done. cbn. by rewrite Hn, He.
Qed.

(** Who holds the lock returns; when it is free, anyone does. *)
Lemma completes_held n req pc s :
  senders s !! n = Some (req, pc) -> in_section pc -> exists s', completes n req s s'.
Proof.
  destruct pc; try done; intros Hn _; [by apply completes_encode|by apply completes_write with rest|].
  by apply completes_unlock with res.
Qed.

Lemma completes_free n req s :
  senders s !! n = Some (req, SLock) -> encMu s = None -> exists s', completes n req s s'.
Proof.
  intros Hn Hmu. set (s1 := mkSending (wire s) (Some n) (encErr s) (senders s)).
  destruct (completes_encode n req (sender n req SEncode s1)) as [s' H]; [cbn; by rewrite lookup_insert_eq|].
  exists s'. apply (completes_step (EvStep n) n req SEncode s s1); try done. cbn. by rewrite Hn, Hmu.
Qed.

Definition returned (pc : send_pc) : Prop := exists res, pc = SReturned res.

(** [s'] is [s] after steps of its senders, those of [l] having returned. *)
Definition finishes (l : list nat) (s s' : sending) : Prop :=
  exists evs, forallb moves evs = true /\ send_run evs s = Some s' /\ encMu s' = None /\ encErr s' = encErr s /\
    forall n, match senders s !! n with
              | Some (req, pc) => exists pc', senders s' !! n = Some (req, pc') /\ (n ∈ l \/ returned pc -> returned pc')
              | None => senders s' !! n = None
              end.

Lemma finishes_trans l1 l2 s s1 s2 : finishes l1 s s1 -> finishes l2 s1 s2 -> finishes (l1 ++ l2) s s2.
Proof.
  intros (e1 & Hm1 & Hr1 & Hmu1 & He1 & H1) (e2 & Hm2 & Hr2 & Hmu2 & He2 & H2). exists (e1 ++ e2). split_and!.
  - by rewrite forallb_app, Hm1, Hm2.
  - by rewrite (send_run_app _ _ _ _ Hr1).
  - done.
  - by rewrite He2.
  - intros n. specialize (H1 n). specialize (H2 n). destruct (senders s !! n) as [[req pc]|]; [|by rewrite H1 in H2].
    destruct H1 as (pc1 & Hn1 & Hp1). rewrite Hn1 in H2. destruct H2 as (pc2 & Hn2 & Hp2). exists pc2. split; [done|].
    rewrite elem_of_app. tauto.
Qed.

Lemma completes_finishes n req pc s s' :
  senders s !! n = Some (req, pc) -> completes n req s s' -> finishes [n] s s'.
Proof.
  intros Hn (evs & res & Hm & Hr & Hmu & He & Hs). exists evs. split_and!; try done. intros m. rewrite Hs.
  destruct (decide (m = n)) as [->|Hmn].
  - rewrite Hn, lookup_insert_eq. exists (SReturned res). split; [done|]. intros _. by exists res.
  - rewrite lookup_insert_ne by done. destruct (senders s !! m) as [[q p]|]; [|done]. exists p. split; [done|].
    intros [->%list_elem_of_singleton|Hp]; done.
Qed.

Lemma finishes_nothing l s :
  encMu s = None -> (forall n req pc, n ∈ l -> senders s !! n = Some (req, pc) -> returned pc) -> finishes l s s.
Proof.
  intros Hmu Hl. exists []. split_and!; try done. intros n. destruct (senders s !! n) as [[req pc]|] eqn:Hn; [|done].
  exists pc. split; [done|]. intros [Hin|Hp]; [by apply (Hl n req)|done].
Qed.

Lemma reached_finishes l s s' : reached s -> finishes l s s' -> reached s'.
Proof. intros Hs (evs & _ & Hr & _). by apply (reached_run s evs). Qed.

(** The lock free, a sender is about to take it or has returned. *)
Lemma finish_one n s : reached s -> encMu s = None -> exists s', finishes [n] s s'.
Proof.
  intros [evs Hr] Hmu. destruct (send_run_inv _ _ Hr) as (order & partial & HI).
  destruct (senders s !! n) as [[req pc]|] eqn:Hn.
  - assert (Hout : ~ in_section pc) by (intros Hp; pose proof (L_mutex _ _ _ HI n req pc Hn Hp); congruence).
    destruct pc as [| | | |res]; try by destruct Hout.
    + destruct (completes_free n req s Hn Hmu) as [s' H]. exists s'. by apply (completes_finishes n req SLock).
    + exists s. apply finishes_nothing; [done|]. intros m q p ->%list_elem_of_singleton E. rewrite Hn in E.
      injection E as <- <-. by exists res.
  - exists s. apply finishes_nothing; [done|]. intros m q p ->%list_elem_of_singleton E. congruence.
Qed.

Lemma finish_all l s : reached s -> encMu s = None -> exists s', finishes l s s'.
Proof.
  revert s. induction l as [|n l IH]; intros s Hs Hmu.
  - exists s. apply finishes_nothing; [done|]. by intros n req pc ?%not_elem_of_nil.
  - destruct (finish_one n s Hs Hmu) as [s1 H1]. destruct (IH s1) as [s2 H2].
    + by apply (reached_finishes [n] s).
    + by destruct H1 as (_ & _ & _ & Hm & _).
    + exists s2. by apply (finishes_trans [n] l s s1).
Qed.

Lemma finish_holder s : reached s -> exists s' l, finishes l s s'.
Proof.
  intros Hs. destruct (encMu s) as [n|] eqn:Hmu.
  - destruct (H_holder _ (reached_hold s Hs) n Hmu) as (req & pc & Hn & Hp).
    destruct (completes_held n req pc s Hn Hp) as [s' H]. exists s', [n]. by apply (completes_finishes n req pc).
  - exists s, []. apply finishes_nothing; [done|]. by intros n req pc ?%not_elem_of_nil.
Qed.

(** Sends never wait for one another for good. In any state that goroutines sending on a
    connection can reach, they can all still return, without a further call and without
    a failure of a write: the lock is then free. When no write has failed before, every
    [Send] whose request has an identifier has then returned without an error. *)
Theorem sends_return evs s :
  send_run evs no_sends = Some s ->
  exists evs' s', forallb moves evs' = true /\ send_run evs' s = Some s' /\ encMu s' = None /\
    forall n, match senders s !! n with
              | None => senders s' !! n = None
              | Some (req, _) =>
                  exists res, senders s' !! n = Some (req, SReturned res) /\
                    (encErr s = None -> res = None <-> req_ID req <> "")
              end.
Proof.
  intros Hrun. assert (Hs : reached s) by by exists evs. destruct (finish_holder s Hs) as (s1 & l1 & H1).
  pose proof (reached_finishes l1 s s1 Hs H1) as Hs1.
  destruct (finish_all (map fst (map_to_list (senders s))) s1 Hs1) as [s2 H2]; [by destruct H1 as (_ & _ & _ & Hm & _)|].
  pose proof (finishes_trans _ _ _ _ _ H1 H2) as (evs' & Hm & Hr & Hmu & He & H). exists evs', s2. split_and!; try done.
  intros n. specialize (H n). destruct (senders s !! n) as [[req pc]|] eqn:Hn; [|done]. destruct H as (pc' & Hn' & Hp).
  destruct Hp as [res ->].
  { left. apply elem_of_app. right. apply list_elem_of_fmap. exists (n, (req, pc)). split; [done|]. by apply elem_of_map_to_list. }
  exists res. split; [done|]. intros E. rewrite E in He.
  pose proof (hold_good s2 n req _ (reached_hold s2 (reached_run _ _ _ Hs Hr)) Hn' He) as Hg. by destruct res.
Qed.

(** ** Examples and witnesses *)

(** Two goroutines: the second calls while the first is in the middle of its text, and
    has to wait. *)
Definition busy : list send_event := [EvSend 1 (Echo_request "1"); EvStep 1; EvStep 1; EvWrite 1 7; EvSend 2 (Echo_request "2")].

Definition rest_of_busy : list send_event :=
  [EvWrite 1 (String.length (sent (Echo_request "1")) - 7); EvStep 1; EvStep 1;
   EvStep 2; EvStep 2; EvWrite 2 (String.length (sent (Echo_request "2"))); EvStep 2; EvStep 2].

Example second_waits : option_map (send_step (EvStep 2)) (send_run busy no_sends) = Some None.
Proof. vm_compute. reflexivity. Qed.

Lemma sends_intact_witness :
  match send_run (busy ++ rest_of_busy) no_sends with
  | Some s => exists order, wire s = texts order /\ NoDup (map fst order) /\
      (1%nat, Echo_request "1") ∈ order /\ (2%nat, Echo_request "2") ∈ order
  | None => False
  end.
Proof.
  destruct (send_run (busy ++ rest_of_busy) no_sends) as [s|] eqn:H; [|vm_compute in H; discriminate H].
  destruct (sends_intact repeat_params (busy ++ rest_of_busy) s H) as (order & partial & Hw & Hnd & _ & _ & Hin & _ & Hidle).
  assert (Hs : option_map (fun s => (encMu s, encErr s, senders s !! 1%nat, senders s !! 2%nat)) (Some s) =
    Some (None, None, Some (Echo_request "1", SReturned None), Some (Echo_request "2", SReturned None))).
  { rewrite <- H. vm_compute. reflexivity. }
  injection Hs as Hmu He H1 H2. destruct (Hidle He Hmu) as [-> _]. exists order. rewrite app_nil_r' in Hw.
  split_and!; [exact Hw|exact Hnd|by apply Hin|by apply Hin].
Defined.

Lemma sends_return_witness :
  match send_run busy no_sends with
  | Some s => exists evs s', forallb moves evs = true /\ send_run evs s = Some s' /\ encMu s' = None
  | None => False
  end.
Proof.
  destruct (send_run busy no_sends) as [s|] eqn:H; [|vm_compute in H; discriminate H].
  destruct (sends_return busy s H) as (evs & s' & H1 & H2 & H3 & _). exists evs, s'. split_and!; assumption.
Defined.
