(* ===== verification/TestServer.v ===== *)
(** * The life of the server of a JSON-RPC connection

    Models the goroutines of [ovsdb/internal/jsonrpc/testconn.go]: the one that accepts
    the connection, reads requests and answers them, the one that writes notifications,
    and the closure that cleans up.  [TestConn] has what they read and write; here are
    their lock, their channel, their wait groups and their deferred calls, in every
    interleaving. *)

From S2P Require Import Prelude GoStrings GoConv GoQuote GoJson Ovsdb Wire TestConn.

(** ** Writing under the lock *)

Inductive writer := Responder | Notifier.

#[export] Instance writer_eq_dec : EqDecision writer.
Proof. solve_decision. Defined.

(** Where a goroutine is between [encMu.Lock] and [encMu.Unlock], with its message. *)
Inductive write_pc :=
| WLock (m : ServerResponse)
| WEncode (m : ServerResponse)
| WWriting (m : ServerResponse)
| WUnlock (err : option error).

(** The lock, the error that the encoder returns from then on, the text written, and
    the messages written whole, each with its writer. *)
Record encoder := mkEncoder {
  e_mu : option writer; e_err : option error; e_wire : string; e_out : list (writer * ServerResponse)
}.

Definition message_text (m : ServerResponse) : string := encoded [response_members m].

(** A step of [who]; a write that fails may have written [k] bytes. The second result
    is that of the whole, once the lock is released. *)
Definition write_next (who : writer) (w : write_pc) (o : option (nat * error)) (e : encoder)
    : option ((write_pc + option error) * encoder) :=
  match w with
  | WLock m =>
      match e_mu e with
      | None => Some (inl (WEncode m), mkEncoder (Some who) (e_err e) (e_wire e) (e_out e))
      | Some _ => None
      end
  | WEncode m => Some (inl (match e_err e with Some x => WUnlock (Some x) | None => WWriting m end), e)
  | WWriting m =>
      match o with
      | None => Some (inl (WUnlock None), mkEncoder (e_mu e) (e_err e) (e_wire e +:+ message_text m) (e_out e ++ [(who, m)]))
      | Some (k, x) =>
          Some (inl (WUnlock (Some x)), mkEncoder (e_mu e) (Some x) (e_wire e +:+ stake k (message_text m)) (e_out e))
      end
  | WUnlock err => Some (inr err, mkEncoder None (e_err e) (e_wire e) (e_out e))
  end.

(** ** The goroutines *)

(** The goroutine of the server; what follows its loop are its deferred calls, with the
    panic that it carries. *)
Inductive server_pc :=
| SvAccept
| SvDecode
| SvWrite (w : write_pc)
| SvNotifWait (p : option string)   (** before [notifWG.Wait] returns *)
| SvClose (p : option string)       (** before [c.Close] *)
| SvDone (p : option string)        (** before [wg.Done] *)
| SvReturned (p : option string).   (** with a panic, the process stops *)

Inductive notif_pc :=
| NtNone                            (** not started *)
| NtRange
| NtWrite (w : write_pc)
| NtStopped (p : option string).    (** its deferred [notifWG.Done] has run *)

(** The closure: that of [TestConn] closes the connection first. *)
Inductive done_pc := DFirst | DListener | DConn | DNotif | DWait | DReturned.

(** The connection of the client is open, or closed with some requests that the decoder
    of the server can still read. [handled] are the requests read and [pushed] the
    notifications sent to the channel, so far. *)
Record server := mkServer {
  sv : server_pc; nt : notif_pc; dn : option done_pc; encd : encoder;
  notifC : list ServerResponse; notifC_closed : bool; listening : bool; client_conn : option nat;
  handled : list Request; pushed : list ServerResponse
}.

Definition no_server : server := mkServer SvAccept NtNone None (mkEncoder None None "" []) [] false true None [] [].

Definition set_sv pc s := mkServer pc (nt s) (dn s) (encd s) (notifC s) (notifC_closed s) (listening s) (client_conn s) (handled s) (pushed s).
Definition set_nt pc s := mkServer (sv s) pc (dn s) (encd s) (notifC s) (notifC_closed s) (listening s) (client_conn s) (handled s) (pushed s).
Definition set_dn pc s := mkServer (sv s) (nt s) (Some pc) (encd s) (notifC s) (notifC_closed s) (listening s) (client_conn s) (handled s) (pushed s).
Definition set_encd e s := mkServer (sv s) (nt s) (dn s) e (notifC s) (notifC_closed s) (listening s) (client_conn s) (handled s) (pushed s).

Definition notifC_size : nat := 16.

Inductive server_event :=
| EvPush (m : ServerResponse)                 (** the test sends to the channel *)
| EvAccept (err : option error)               (** what [Accept] returns *)
| EvDecode (r : Request + error)              (** what [Decode] returns *)
| EvServer (o : option (nat * error))         (** another step of the server *)
| EvNotifier (o : option (nat * error))       (** a step of the notifier *)
| EvCallDone (conn_first : bool)              (** the test calls the closure *)
| EvDone (held : nat).                        (** its next step *)

Section server.
Context (Error : error -> string) (fn : TestFunc).

(** An error of a connection that is closed ends a goroutine, any other is a panic. *)
Definition or_panic (err : error) (msg : string) : option string :=
  if isNetworkCloseError Error err then None else Some msg.

Definition accept_next (err : option error) (s : server) : option server :=
  match sv s with
  | SvAccept =>
      Some (match err with
            | None => set_nt NtRange (set_sv SvDecode s)
            | Some e => set_sv (SvDone (or_panic e "failed to accept")) s
            end)
  | _ => None
  end.

Definition decode_next (r : Request + error) (s : server) : option server :=
  match sv s, r with
  | SvDecode, inl req =>
      match client_conn s with
      | Some O => None
      | c => Some (mkServer (SvWrite (WLock (fn req))) (nt s) (dn s) (encd s) (notifC s) (notifC_closed s) (listening s)
                     (pred <$> c) (handled s ++ [req]) (pushed s))
      end
  | SvDecode, inr e => Some (set_sv (SvNotifWait (or_panic e "failed to decode request")) s)
  | _, _ => None
  end.

Definition server_next (o : option (nat * error)) (s : server) : option server :=
  match sv s with
  | SvWrite w =>
      match write_next Responder w o (encd s) with
      | Some (r, e) =>
          Some (set_sv (match r with
                        | inl w => SvWrite w
                        | inr None => SvDecode
                        | inr (Some x) => SvNotifWait (or_panic x "failed to encode response")
                        end) (set_encd e s))
      | None => None
      end
  | SvNotifWait p => match nt s with NtStopped _ => Some (set_sv (SvClose p) s) | _ => None end
  | SvClose p => Some (set_sv (SvDone p) s)
  | SvDone p => Some (set_sv (SvReturned p) s)
  | _ => None
  end.

Definition notifier_next (o : option (nat * error)) (s : server) : option server :=
  match nt s with
  | NtRange =>
      match notifC s with
      | m :: q =>
          Some (mkServer (sv s) (NtWrite (WLock m)) (dn s) (encd s) q (notifC_closed s) (listening s) (client_conn s) (handled s) (pushed s))
      | [] => if notifC_closed s then Some (set_nt (NtStopped None) s) else None
      end
  | NtWrite w =>
      match write_next Notifier w o (encd s) with
      | Some (r, e) =>
          Some (set_nt (match r with
                        | inl w => NtWrite w
                        | inr None => NtRange
                        | inr (Some x) => NtStopped (or_panic x "failed to encode notification")
                        end) (set_encd e s))
      | None => None
      end
  | _ => None
  end.

Definition close_conn (held : nat) (s : server) : server :=
  mkServer (sv s) (nt s) (dn s) (encd s) (notifC s) (notifC_closed s) (listening s)
    (match client_conn s with None => Some held | c => c end) (handled s) (pushed s).

Definition done_next (held : nat) (s : server) : option server :=
  match dn s with
  | Some DFirst => Some (set_dn DListener (close_conn held s))
  | Some DListener =>
      Some (set_dn DConn (mkServer (sv s) (nt s) (dn s) (encd s) (notifC s) (notifC_closed s) false (client_conn s) (handled s) (pushed s)))
  | Some DConn => Some (set_dn DNotif (close_conn held s))
  | Some DNotif =>
      Some (set_dn DWait (mkServer (sv s) (nt s) (dn s) (encd s) (notifC s) true (listening s) (client_conn s) (handled s) (pushed s)))
  | Some DWait => match sv s with SvReturned _ => Some (set_dn DReturned s) | _ => None end
  | _ => None
  end.

(** The channel has room for [notifC_size] values; to send on it when it is closed is a
    mistake of the test, as is to call the closure twice. *)
Definition event_next (a : server_event) (s : server) : option server :=
  match a with
  | EvPush m =>
      if notifC_closed s || negb (length (notifC s) <? notifC_size)%nat then None
      else Some (mkServer (sv s) (nt s) (dn s) (encd s) (notifC s ++ [m]) (notifC_closed s) (listening s) (client_conn s)
             (handled s) (pushed s ++ [m]))
  | EvAccept err => accept_next err s
  | EvDecode r => decode_next r s
  | EvServer o => server_next o s
  | EvNotifier o => notifier_next o s
  | EvCallDone first =>
      match dn s with None => Some (set_dn (if first then DFirst else DListener) s) | Some _ => None end
  | EvDone held => done_next held s
  end.

Fixpoint events_run (evs : list server_event) (s : server) : option server :=
  match evs with
  | [] => Some s
  | a :: evs => match event_next a s with Some s => events_run evs s | None => None end
  end.
End server.

(** ** Who writes *)

Definition in_lock (w : write_pc) : Prop := match w with WLock _ => False | _ => True end.

(** Where each writer is. *)
Definition writer_pc (s : server) (who : writer) : option write_pc :=
  match who with
  | Responder => match sv s with SvWrite w => Some w | _ => None end
  | Notifier => match nt s with NtWrite w => Some w | _ => None end
  end.

Definition written (who : writer) (e : encoder) : list ServerResponse :=
  map snd (List.filter (fun p => bool_decide (fst p = who)) (e_out e)).

Definition out_text (e : encoder) : string := encoded (map response_members (map snd (e_out e))).

(** Only one writer is past the lock, and the text is that of the messages written,
    followed by the beginning of one only after an error. *)
Record EncInv (pcs : writer -> option write_pc) (e : encoder) : Prop := mkEncInv {
  EI_lock who : e_mu e = Some who <-> exists w, pcs who = Some w /\ in_lock w;
  EI_writing who m : pcs who = Some (WWriting m) -> e_err e = None;
  EI_failed who x : pcs who = Some (WUnlock (Some x)) -> e_err e <> None;
  EI_wire : exists partial, e_wire e = out_text e +:+ partial /\ (e_err e = None -> partial = "") /\
    exists m rest, partial +:+ rest = message_text m
}.

Lemma encoded_snoc ms m : encoded (ms ++ [m]) = encoded ms +:+ encoded [m].
Proof.
  unfold encoded, stream_text. by rewrite !map_app, string_concat_app.
Qed.

Lemma out_text_snoc e who m mu err wire :
  out_text (mkEncoder mu err wire (e_out e ++ [(who, m)])) = out_text e +:+ message_text m.
Proof. unfold out_text. cbn [e_out]. rewrite !map_app. cbn [map snd]. apply encoded_snoc. Qed.

Lemma written_snoc who who' e m mu err wire :
  written who (mkEncoder mu err wire (e_out e ++ [(who', m)])) =
    written who e ++ (if decide (who' = who) then [m] else []).
Proof.
  unfold written. cbn. rewrite List.filter_app, map_app. cbn. by destruct (decide (who' = who)), (bool_decide_reflect (who' = who)).
Qed.

(** A writer moves, the other stays. *)
Definition moved (who : writer) (w : option write_pc) (pcs pcs' : writer -> option write_pc) : Prop :=
  pcs' who = w /\ forall x, x <> who -> pcs' x = pcs x.

Lemma moved_cases who w pcs pcs' x v : moved who w pcs pcs' -> pcs' x = Some v -> x = who /\ w = Some v \/ x <> who /\ pcs x = Some v.
Proof.
  intros [Hw Ho] Hx. destruct (decide (x = who)) as [->|Hne]; [left; split; congruence|right]. by rewrite <- (Ho x Hne).
Qed.

(** What the wire must be. *)
Definition wire_ok (e : encoder) : Prop :=
  exists partial, e_wire e = out_text e +:+ partial /\ (e_err e = None -> partial = "") /\
    exists m rest, partial +:+ rest = message_text m.

(** A step of the writer that holds the lock. *)
Lemma holder_moves pcs pcs' who w w' e e' :
  EncInv pcs e -> pcs who = Some w -> in_lock w -> moved who w' pcs pcs' ->
  match w' with Some v => in_lock v /\ e_mu e' = e_mu e | None => e_mu e' = None end ->
  (forall m, w' = Some (WWriting m) -> e_err e' = None) ->
  (forall x, w' = Some (WUnlock (Some x)) -> e_err e' <> None) -> wire_ok e' -> EncInv pcs' e'.
Proof.
  intros HI Hw Hin Hmv Hmu Hwr Hfl Hok.
  assert (Hlock : e_mu e = Some who) by (apply (EI_lock _ _ HI); by exists w).
  assert (Hsole : forall x v, x <> who -> pcs x = Some v -> in_lock v -> False).
  { intros x v Hx Hv Hv'. assert (Hm : e_mu e = Some x) by (apply (EI_lock _ _ HI); by exists v). congruence. }
  split; [| | |done].
  - intros x. split.
    + intros Hx. destruct w' as [v|]; [|congruence]. destruct Hmu as [Hv Hmu]. exists v. split; [|done].
      replace x with who by congruence. apply Hmv.
    + intros (v & Hv & Hiv). destruct (moved_cases _ _ _ _ _ _ Hmv Hv) as [[-> ->]|[Hx Hv']].
      * destruct Hmu as [_ Hmu]. congruence.
      * by destruct (Hsole x v).
  - intros x m Hv. destruct (moved_cases _ _ _ _ _ _ Hmv Hv) as [[_ E]|[Hx Hv']]; [by apply (Hwr m)|by destruct (Hsole x (WWriting m))].
  - intros x y Hv. destruct (moved_cases _ _ _ _ _ _ Hmv Hv) as [[_ E]|[Hx Hv']]; [by apply (Hfl y)|].
    by destruct (Hsole x (WUnlock (Some y))).
Qed.

Lemma write_next_inv pcs pcs' who w o e r e' :
  EncInv pcs e -> pcs who = Some w -> write_next who w o e = Some (r, e') ->
  moved who (match r with inl w' => Some w' | inr _ => None end) pcs pcs' -> EncInv pcs' e'.
Proof.
  intros HI Hw Hn Hmv. destruct (EI_wire _ _ HI) as (partial & Hwire & Hp & Hpm).
  destruct w as [m|m|m|err]; cbn [write_next] in Hn.
  - destruct (e_mu e) eqn:Hmu; [done|]. injection Hn as <- <-.
    assert (Hno : forall x v, pcs x = Some v -> in_lock v -> False).
    { intros x v Hv Hin. assert (None = Some x); [|done]. rewrite <- Hmu. apply (EI_lock _ _ HI). by exists v. }
    split; cbn [e_mu e_err].
    + intros x. split; [intros [= <-]; eexists; by split; [apply Hmv|]|]. intros (v & Hv & Hin).
      destruct (moved_cases _ _ _ _ _ _ Hmv Hv) as [[-> _]|[_ Hx]]; [done|by destruct (Hno x v)].
    + intros x y Hv. destruct (moved_cases _ _ _ _ _ _ Hmv Hv) as [[_ [=]]|[_ Hx]]. by apply (EI_writing _ _ HI x y).
    + intros x y Hv. destruct (moved_cases _ _ _ _ _ _ Hmv Hv) as [[_ [=]]|[_ Hx]]. by apply (EI_failed _ _ HI x y).
    + exists partial. by split_and!.
  - injection Hn as <- <-. apply (holder_moves pcs pcs' who (WEncode m) _ e e HI Hw I Hmv).
    + by destruct (e_err e).
    + intros m'. by destruct (e_err e).
    + intros x. by destruct (e_err e).
    + exists partial. by split_and!.
  - pose proof (EI_writing _ _ HI who m Hw) as He. specialize (Hp He) as ->. rewrite app_nil_r' in Hwire.
    destruct o as [[k x]|]; injection Hn as <- <-; apply (holder_moves pcs pcs' who (WWriting m) _ e _ HI Hw I Hmv); try done.
    + exists (stake k (message_text m)). split_and!; [exact (f_equal (fun t => t +:+ _) Hwire)|done|]. exists m, (sdrop k (message_text m)).
      apply stake_sdrop.
    + exists "". split_and!; [|done|by exists m, (message_text m); rewrite app_nil_l'].
      rewrite app_nil_r', out_text_snoc. exact (f_equal (fun t => t +:+ _) Hwire).
  - injection Hn as <- <-. apply (holder_moves pcs pcs' who (WUnlock err) _ e _ HI Hw I Hmv); try done.
    exists partial. by split_and!.
Qed.

(** A writer that begins, or that ends without the lock. *)
Lemma writer_begins pcs pcs' who m e :
  EncInv pcs e -> pcs who = None -> moved who (Some (WLock m)) pcs pcs' -> EncInv pcs' e.
Proof.
  intros HI Hw Hmv. split; [| | |apply (EI_wire _ _ HI)].
  - intros x. rewrite (EI_lock _ _ HI). split; intros (v & Hv & Hin).
    + exists v. split; [|done]. destruct (decide (x = who)) as [->|Hx]; [congruence|]. by rewrite (proj2 Hmv x Hx).
    + destruct (moved_cases _ _ _ _ _ _ Hmv Hv) as [[_ [= <-]]|[_ Hx]]; [by destruct Hin|]. by exists v.
  - intros x y Hv. destruct (moved_cases _ _ _ _ _ _ Hmv Hv) as [[_ [=]]|[_ Hx]]. by apply (EI_writing _ _ HI x y).
  - intros x y Hv. destruct (moved_cases _ _ _ _ _ _ Hmv Hv) as [[_ [=]]|[_ Hx]]. by apply (EI_failed _ _ HI x y).
Qed.

Lemma EncInv_ext pcs pcs' e : EncInv pcs e -> (forall x, pcs' x = pcs x) -> EncInv pcs' e.
Proof.
  intros HI Hx. split; [intros x|intros x m|intros x y|apply (EI_wire _ _ HI)]; rewrite Hx;
    [apply (EI_lock _ _ HI)|apply (EI_writing _ _ HI)|apply (EI_failed _ _ HI)].
Qed.

(** ** What was asked is delivered *)

(** What a writer has still to write, with [q] after its message; after an error, this
    is no longer known. *)
Definition owes (w : write_pc) (q : list ServerResponse) : option (list ServerResponse) :=
  match w with
  | WLock m | WEncode m | WWriting m => Some (m :: q)
  | WUnlock None => Some q
  | WUnlock (Some _) => None
  end.

Definition delivered (who : writer) (e : encoder) (o : option (list ServerResponse)) (all : list ServerResponse) : Prop :=
  exists l, written who e ++ l = all /\ match o with Some q => l = q | None => l <> [] -> e_err e <> None end.

Lemma delivered_eq who e q all : delivered who e (Some q) all <-> written who e ++ q = all.
Proof. split; [by intros (l & H & ->)|]. intros H. by exists q. Qed.

(** Knowing less. *)
Lemma delivered_none who e all : delivered who e (Some []) all -> delivered who e None all.
Proof. intros (l & H & ->). by exists []. Qed.

Lemma write_next_delivered who w o e r e' q all :
  write_next who w o e = Some (r, e') ->
  (forall m, w = WWriting m -> e_err e = None) -> (forall x, w = WUnlock (Some x) -> e_err e <> None) ->
  delivered who e (owes w q) all ->
  delivered who e' (match r with inl w' => owes w' q | inr None => Some q | inr (Some _) => None end) all.
Proof.
  intros Hn Hwr Hfl (l & Hl & Ho). destruct w as [m|m|m|err]; cbn [write_next] in Hn.
  - destruct (e_mu e); [done|]. injection Hn as <- <-. by exists l.
  - injection Hn as <- <-. exists l. split; [done|]. by destruct (e_err e).
  - cbn in Ho. subst l. destruct o as [[k x]|]; injection Hn as <- <-; [by exists (m :: q)|]. exists q. split; [|done].
    rewrite written_snoc, decide_True by done. by rewrite <- app_assoc.
  - injection Hn as <- <-. destruct err as [x|]; by exists l.
Qed.

Lemma write_next_other who w o e r e' x :
  write_next who w o e = Some (r, e') -> x <> who -> written x e' = written x e.
Proof.
  intros Hn Hx. destruct w as [m|m|m|err]; cbn [write_next] in Hn.
  - destruct (e_mu e); [done|]. by injection Hn as <- <-.
  - by injection Hn as <- <-.
  - destruct o as [[k y]|]; injection Hn as <- <-; [done|]. by rewrite written_snoc, decide_False, app_nil_r.
  - by injection Hn as <- <-.
Qed.

Lemma write_next_err who w o e r e' :
  write_next who w o e = Some (r, e') -> e_err e <> None -> e_err e' <> None.
Proof.
  intros Hn. destruct w as [m|m|m|err]; cbn [write_next] in Hn.
  - destruct (e_mu e); [done|]. by injection Hn as <- <-.
  - by injection Hn as <- <-.
  - by destruct o as [[k y]|]; injection Hn as <- <-.
  - by injection Hn as <- <-.
Qed.

Lemma delivered_other who w o e r e' x own all :
  write_next who w o e = Some (r, e') -> x <> who -> delivered x e own all -> delivered x e' own all.
Proof.
  intros Hn Hx (l & Hl & Ho). exists l. rewrite (write_next_other _ _ _ _ _ _ _ Hn Hx). split; [done|].
  destruct own; [done|]. intros Hne. by apply (write_next_err _ _ _ _ _ _ Hn), Ho.
Qed.

Definition sv_owes (pc : server_pc) : option (list ServerResponse) :=
  match pc with SvAccept | SvDecode => Some [] | SvWrite w => owes w [] | _ => None end.

Definition nt_owes (pc : notif_pc) (q : list ServerResponse) : option (list ServerResponse) :=
  match pc with NtNone | NtRange => Some q | NtWrite w => owes w q | NtStopped _ => None end.

(** The notifier is there as the server expects it. *)
Definition started (s : server) : Prop :=
  match sv s with
  | SvAccept => nt s = NtNone
  | SvDecode | SvWrite _ | SvNotifWait _ => nt s <> NtNone
  | SvClose _ => exists p, nt s = NtStopped p
  | SvDone _ | SvReturned _ => nt s = NtNone \/ exists p, nt s = NtStopped p
  end.

(** What the closure has done before each of its points. *)
Definition cleaned (s : server) : Prop :=
  match dn s with
  | Some DConn => listening s = false
  | Some DNotif => listening s = false /\ is_Some (client_conn s)
  | Some DWait => listening s = false /\ is_Some (client_conn s) /\ notifC_closed s = true
  | Some DReturned => listening s = false /\ is_Some (client_conn s) /\ notifC_closed s = true /\ exists p, sv s = SvReturned p
  | _ => True
  end.

Section invariant.
Context (Error : error -> string) (fn : TestFunc).

Record ServerInv (s : server) : Prop := mkServerInv {
  V_enc : EncInv (writer_pc s) (encd s);
  V_resp : delivered Responder (encd s) (sv_owes (sv s)) (map fn (handled s));
  V_notif : delivered Notifier (encd s) (nt_owes (nt s) (notifC s)) (pushed s);
  V_stop p : nt s = NtStopped p -> notifC_closed s = true /\ notifC s = [] /\ written Notifier (encd s) = pushed s \/ e_err (encd s) <> None;
  V_started : started s;
  V_cleaned : cleaned s
}.

Lemma no_server_inv : ServerInv no_server.
Proof.
  split; cbn; try done.
  - split; try done.
    + intros [|]; split; try done; by intros (w & Hw & _).
    + by intros [|].
    + exists "". split_and!; [done|done|]. exists (mkServerResponse None None None "" None). by eexists.
  - by exists [].
  - by exists [].
Qed.

(** What the goroutines do leaves the closure where it is. *)
Lemma cleaned_step s s' :
  dn s' = dn s -> listening s' = listening s -> notifC_closed s' = notifC_closed s ->
  (is_Some (client_conn s) -> is_Some (client_conn s')) -> ((exists p, sv s = SvReturned p) -> sv s' = sv s) ->
  cleaned s -> cleaned s'.
Proof.
  unfold cleaned. intros -> -> -> Hc Hv. destruct (dn s) as [[]|]; try done; [intros []; auto|intros (? & ? & ?); auto|].
  intros (? & ? & ? & p & Hp). split_and!; auto. exists p. rewrite Hv; [done|by exists p].
Qed.

Lemma accept_inv err s s' : ServerInv s -> accept_next Error err s = Some s' -> ServerInv s'.
Proof.
  unfold accept_next. destruct (sv s) eqn:Hsv; try done. intros [He Hr Hn Hs Hst Hc].
  unfold started in Hst. rewrite Hsv in *.
  assert (Hcl : forall s', dn s' = dn s -> listening s' = listening s -> notifC_closed s' = notifC_closed s ->
    client_conn s' = client_conn s -> cleaned s').
  { intros t H1 H2 H3 H4. apply (cleaned_step s); try done; [by rewrite H4|]. rewrite Hsv. by intros [p [=]]. }
  destruct err as [e|]; intros [= <-].
  - split; try done; cbn; [|by apply delivered_none|by left|by apply Hcl].
    apply (EncInv_ext _ _ _ He). by intros [|]; cbn; rewrite ?Hsv.
  - split; try done; cbn; [|by rewrite Hst in Hn|by apply Hcl].
    apply (EncInv_ext _ _ _ He). by intros [|]; cbn; rewrite ?Hsv, ?Hst.
Qed.

Lemma decode_inv r s s' : ServerInv s -> decode_next Error fn r s = Some s' -> ServerInv s'.
Proof.
  unfold decode_next. destruct (sv s) eqn:Hsv; try done. intros [He Hr Hn Hs Hst Hc].
  unfold started in Hst. rewrite Hsv in *. destruct r as [req|e].
  - intros Hd. assert (Hs' : client_conn s <> Some O /\ s' = mkServer (SvWrite (WLock (fn req))) (nt s) (dn s) (encd s)
      (notifC s) (notifC_closed s) (listening s) (pred <$> client_conn s) (handled s ++ [req]) (pushed s)).
    { destruct (client_conn s) as [[|h]|]; [done|..]; by injection Hd as <-. }
    destruct Hs' as [_ ->]. split; try done; cbn.
    + apply (writer_begins (writer_pc s) _ Responder (fn req)); [done|by cbn; rewrite Hsv|]. split; [done|].
      intros [|] Hx; [by destruct Hx|done].
    + cbn in Hr. rewrite delivered_eq in *. by rewrite map_app, <- Hr, app_nil_r.
    + apply (cleaned_step s); try done; [by intros [h ->]; eexists|]. rewrite Hsv. by intros [p [=]].
  - intros [= <-]. split; try done; cbn; [|by apply delivered_none|].
    + apply (EncInv_ext _ _ _ He). by intros [|]; cbn; rewrite ?Hsv.
    + apply (cleaned_step s); try done. rewrite Hsv. by intros [p [=]].
Qed.

(** What a writer in progress knows of the error. *)
Lemma writer_err pcs e who w :
  EncInv pcs e -> pcs who = Some w ->
  (forall m, w = WWriting m -> e_err e = None) /\ (forall x, w = WUnlock (Some x) -> e_err e <> None).
Proof.
  intros HI Hw. split; [intros m ->; by apply (EI_writing _ _ HI who m)|intros x ->; by apply (EI_failed _ _ HI who x)].
Qed.

(** A notifier that stopped after an error knows there was one, also later. *)
Lemma stop_keep (P Q : Prop) e e' all :
  written Notifier e' = written Notifier e -> (e_err e <> None -> e_err e' <> None) ->
  P /\ Q /\ written Notifier e = all \/ e_err e <> None -> P /\ Q /\ written Notifier e' = all \/ e_err e' <> None.
Proof. intros -> He [H|H]; [by left|right; auto]. Qed.

Lemma server_inv o s s' : ServerInv s -> server_next Error o s = Some s' -> ServerInv s'.
Proof.
  unfold server_next. intros HI. pose proof HI as [He Hr Hn Hs Hst Hc]. unfold started in Hst.
  destruct (sv s) as [| |w|p|p|p|p] eqn:Hsv; try done.
  - destruct (write_next Responder w o (encd s)) as [[r e]|] eqn:Hw; [|done]. intros [= <-].
    assert (Hpc : writer_pc s Responder = Some w) by (cbn; by rewrite Hsv).
    destruct (writer_err _ _ _ _ He Hpc) as [H1 H2]. split; cbn.
    + apply (write_next_inv (writer_pc s) _ Responder w o (encd s) r); try done. split.
      * by destruct r as [w'|[x|]].
      * intros [|] Hx; [by destruct Hx|done].
    + pose proof (write_next_delivered _ _ _ _ _ _ [] _ Hw H1 H2 Hr) as Hd. by destruct r as [w'|[x|]].
    + by apply (delivered_other Responder w o (encd s) r).
    + intros p Hp. apply (stop_keep _ _ (encd s)).
      * by apply (write_next_other Responder w o (encd s) r).
      * by apply (write_next_err Responder w o (encd s) r).
      * by apply (Hs p).
    + unfold started. cbn. by destruct r as [w'|[x|]].
    + apply (cleaned_step s); try done. rewrite Hsv. by intros [p [=]].
  - destruct (nt s) as [| | |q] eqn:Hnt; try done. intros [= <-]. split; try done; cbn.
    + apply (EncInv_ext _ _ _ He). by intros [|]; cbn; rewrite ?Hsv.
    + by rewrite Hnt.
    + intros p' Hp. by apply (Hs q).
    + unfold started. cbn. by exists q.
    + apply (cleaned_step s); try done. rewrite Hsv. by intros [p' [=]].
  - intros [= <-]. split; try done; cbn.
    + apply (EncInv_ext _ _ _ He). by intros [|]; cbn; rewrite ?Hsv.
    + unfold started. cbn. by right.
    + apply (cleaned_step s); try done. rewrite Hsv. by intros [p' [=]].
  - intros [= <-]. split; try done; cbn.
    + apply (EncInv_ext _ _ _ He). by intros [|]; cbn; rewrite ?Hsv.
    + apply (cleaned_step s); try done. rewrite Hsv. by intros [p' [=]].
Qed.

Lemma notifier_inv o s s' : ServerInv s -> notifier_next Error o s = Some s' -> ServerInv s'.
Proof.
  unfold notifier_next. intros HI. pose proof HI as [He Hr Hn Hs Hst Hc].
  assert (Hst' : forall s', sv s' = sv s -> nt s <> NtNone -> (forall p, nt s <> NtStopped p) -> nt s' <> NtNone -> started s').
  { intros t Ht H1 H2 H3. unfold started in *. rewrite Ht. destruct (sv s); try done.
    - by destruct Hst as [p' Hp'%H2].
    - by destruct Hst as [Hx|[p' Hp'%H2]].
    - by destruct Hst as [Hx|[p' Hp'%H2]]. }
  destruct (nt s) as [| |w|p] eqn:Hnt; try done.
  - destruct (notifC s) as [|m q] eqn:Hq.
    + destruct (notifC_closed s) eqn:Hcl; [|done]. intros [= <-]. split; try done; cbn.
      * apply (EncInv_ext _ _ _ He). by intros [|]; cbn; rewrite ?Hnt.
      * by apply delivered_none.
      * intros p _. left. cbn in Hn. rewrite delivered_eq, app_nil_r in Hn. by split_and!.
      * by apply Hst'.
    + intros [= <-]. split; try done; cbn.
      * apply (writer_begins (writer_pc s) _ Notifier m); [done|by cbn; rewrite Hnt|]. split; [done|].
        intros [|] Hx; [done|by destruct Hx].
      * by apply Hst'.
  - destruct (write_next Notifier w o (encd s)) as [[r e]|] eqn:Hw; [|done]. intros [= <-].
    assert (Hpc : writer_pc s Notifier = Some w) by (cbn; by rewrite Hnt).
    destruct (writer_err _ _ _ _ He Hpc) as [H1 H2]. split; cbn.
    + apply (write_next_inv (writer_pc s) _ Notifier w o (encd s) r); try done. split.
      * by destruct r as [w'|[x|]].
      * intros [|] Hx; [done|by destruct Hx].
    + by apply (delivered_other Notifier w o (encd s) r).
    + pose proof (write_next_delivered _ _ _ _ _ _ (notifC s) _ Hw H1 H2 Hn) as Hd. by destruct r as [w'|[x|]].
    + intros p Hp. right. destruct r as [w'|[x|]]; try done. destruct w; cbn in Hw; try done.
      * by destruct (e_mu (encd s)).
      * by destruct o as [[]|].
      * injection Hw as -> <-. cbn. by apply (H2 x).
    + apply Hst'; try done. by destruct r as [w'|[x|]].
    + by apply (cleaned_step s).
Qed.

Lemma push_inv m s s' : ServerInv s -> event_next Error fn (EvPush m) s = Some s' -> ServerInv s'.
Proof.
  cbn [event_next]. intros HI. pose proof HI as [He Hr Hn Hs Hst Hc].
  destruct (notifC_closed s) eqn:Hcl; [done|]. destruct (_ <? _)%nat; [|done]. intros [= <-].
  split; try done; cbn.
  - destruct Hn as (l & Hl & Ho). exists (l ++ [m]). rewrite app_assoc, Hl. split; [done|].
    unfold nt_owes, owes in *. destruct (nt s) as [| |w|p] eqn:Hnt; try by subst l.
    + destruct w as [x|x|x|[x|]]; try by subst l. intros _. by apply (EI_failed _ _ He Notifier x); cbn; rewrite Hnt.
    + intros _. by destruct (Hs p eq_refl) as [[Hx _]|Hx].
  - intros p Hp. right. by destruct (Hs p Hp) as [[Hx _]|Hx].
  - by apply (cleaned_step s).
Qed.

(** The closure leaves the goroutines and their text where they are. *)
Lemma closure_inv pc s s1 :
  ServerInv s -> sv s1 = sv s -> nt s1 = nt s -> encd s1 = encd s -> notifC s1 = notifC s -> handled s1 = handled s ->
  pushed s1 = pushed s -> (notifC_closed s = true -> notifC_closed s1 = true) -> cleaned (set_dn pc s1) ->
  ServerInv (set_dn pc s1).
Proof.
  intros [He Hr Hn Hs Hst _] H1 H2 H3 H4 H5 H6 H7 Hc. split; try done; cbn; rewrite ?H1, ?H2, ?H3, ?H4, ?H5, ?H6; try done.
  - apply (EncInv_ext _ _ _ He). by intros [|]; cbn; rewrite ?H1, ?H2.
  - intros p Hp. destruct (Hs p Hp) as [(Ha & Hb)|Ha]; [left; split; [by apply H7|done]|by right].
  - unfold started in *. cbn. by rewrite H1, H2.
Qed.

Lemma done_inv held s s' : ServerInv s -> done_next held s = Some s' -> ServerInv s'.
Proof.
  unfold done_next. intros HI. pose proof (V_cleaned _ HI) as Hc. unfold cleaned in Hc.
  destruct (dn s) as [[]|] eqn:Hdn; try done.
  - intros [= <-]. by apply (closure_inv DListener s (close_conn held s)).
  - intros [= <-]. by apply (closure_inv DConn s).
  - intros [= <-]. apply (closure_inv DNotif s (close_conn held s)); try done.
    unfold cleaned. cbn. split; [done|]. destruct (client_conn s); by eexists.
  - intros [= <-]. apply (closure_inv DWait s); try done. unfold cleaned. cbn. by destruct Hc.
  - destruct (sv s) eqn:Hsv; try done. intros [= <-]. apply (closure_inv DReturned s s); try done.
    unfold cleaned. cbn. destruct Hc as (? & ? & ?). split_and!; try done. by eexists.
Qed.

Lemma event_inv a s s' : ServerInv s -> event_next Error fn a s = Some s' -> ServerInv s'.
Proof.
  intros HI. destruct a as [m|err|r|o|o|first|held].
  - by apply push_inv.
  - by apply accept_inv.
  - by apply decode_inv.
  - by apply server_inv.
  - by apply notifier_inv.
  - cbn [event_next]. destruct (dn s); [done|]. intros [= <-]. apply (closure_inv _ s s); try done. by destruct first.
  - by apply done_inv.
Qed.

Lemma events_inv evs s s' : ServerInv s -> events_run Error fn evs s = Some s' -> ServerInv s'.
Proof.
  revert s. induction evs as [|a evs IH]; intros s HI; cbn [events_run]; [by intros [= <-]|].
  destruct (event_next _ _ a s) as [s1|] eqn:Ha; [|done]. apply IH. by apply (event_inv a s).
Qed.

Lemma server_reach evs s : events_run Error fn evs no_server = Some s -> ServerInv s.
Proof. apply events_inv, no_server_inv. Qed.

Lemma out_merge e : merge (written Responder e) (written Notifier e) (map snd (e_out e)).
Proof.
  unfold written. induction (e_out e) as [|[[|] m] l IH]; [constructor|by apply merge_left|by apply merge_right].
Qed.

Lemma delivered_prefix who e o all : delivered who e o all -> written who e `prefix_of` all.
Proof. intros (l & <- & _). by exists l. Qed.

(** Without an error nothing is lost. *)
Lemma delivered_all who e all : e_err e = None -> delivered who e None all -> written who e = all.
Proof.
  intros He (l & <- & Hl). destruct l as [|x l]; [by rewrite app_nil_r|]. by destruct Hl.
Qed.

(** C23: The two goroutines of the server write what they should, however they are interleaved
    with each other, with the test and with its clean-up. The text is whole messages,
    after an error followed by the beginning of at most one; they are the responses to
    the requests that were read, and the notifications that were pushed, merged, each
    in its order. Without an error, a server that is not writing has answered every
    request it read, and a notifier that has stopped has written every notification; if
    moreover responses have identifiers, notifications have none and all strings are
    valid UTF-8, the client receives exactly the messages written, the responses among
    them in the order of the requests. *)
Theorem server_delivers (GoSyntax : json -> string) evs s :
  events_run Error fn evs no_server = Some s ->
  let ms := map snd (e_out (encd s)) in
  let rs := written Responder (encd s) in
  let ns := written Notifier (encd s) in
  exists partial,
    e_wire (encd s) = encoded (map response_members ms) +:+ partial /\ (exists m rest, partial +:+ rest = message_text m) /\
    merge rs ns ms /\ rs `prefix_of` map fn (handled s) /\ ns `prefix_of` pushed s /\
    (e_err (encd s) = None ->
      partial = "" /\ ((forall w, sv s <> SvWrite w) -> rs = map fn (handled s)) /\
      (forall p, nt s = NtStopped p -> ns = pushed s) /\
      (Forall (fun r => is_Some (sr_ID r)) rs -> Forall (fun r => sr_ID r = None) ns ->
       Forall (fun r => json_ok (JObj (response_members r)) = true) ms ->
       Receives GoSyntax (S (length ms)) (e_wire (encd s)) = map Message (map (client_view GoSyntax) ms) ++ [ReceiveStop] /\
       List.filter has_id (map (client_view GoSyntax) ms) = map (client_view GoSyntax) rs)).
Proof.
  intros Hrun. pose proof (server_reach _ _ Hrun) as [He Hr Hn Hs _ _]. cbn zeta.
  destruct (EI_wire _ _ He) as (partial & Hw & Hp & Hpm). exists partial. split_and!; try done.
  - apply out_merge.
  - by apply (delivered_prefix _ _ _ _ Hr).
  - by apply (delivered_prefix _ _ _ _ Hn).
  - intros Herr. specialize (Hp Herr) as ->. split_and!; [done| | |].
    + intros Hnw. apply (delivered_all _ _ _ Herr). destruct (sv s) eqn:Hsv; try done; try by apply delivered_none.
      by destruct (Hnw w).
    + intros p Hnt. by destruct (Hs p Hnt) as [(_ & _ & H)|H].
    + intros H1 H2 H3. rewrite Hw, app_nil_r'. apply (client_reads GoSyntax _ _ _ H1 H2); [|done].
      apply out_merge.
Qed.

(** ** The clean-up returns *)

Definition write_turns (w : write_pc) : nat :=
  match w with WLock _ => 4 | WEncode _ => 3 | WWriting _ => 2 | WUnlock _ => 1 end.

(** The steps left to the goroutines, once the connection is closed with [h] requests
    and the channel with [length (notifC s)] notifications. *)
Definition sv_turns (pc : server_pc) (h : nat) : nat :=
  match pc with
  | SvAccept => 5 * h + 5
  | SvDecode => 5 * h + 4
  | SvWrite w => 5 * h + 4 + write_turns w
  | SvNotifWait _ => 3 | SvClose _ => 2 | SvDone _ => 1 | SvReturned _ => 0
  end.
Definition nt_turns (pc : notif_pc) (q : nat) : nat :=
  match pc with
  | NtNone => 5 * q + 2 | NtRange => 5 * q + 1
  | NtWrite w => 5 * q + 1 + write_turns w
  | NtStopped _ => 0
  end.
Definition turns_left (s : server) (h : nat) : nat := sv_turns (sv s) h + nt_turns (nt s) (length (notifC s)).

Definition goroutine (a : server_event) : bool :=
  match a with EvAccept _ | EvDecode _ | EvServer _ | EvNotifier _ => true | _ => false end.

Definition turns (evs : list server_event) : nat := length (List.filter goroutine evs).

Lemma write_turns_le w : (write_turns w <= 4)%nat.
Proof. destruct w; cbn; lia. Qed.

Lemma turns_left_le s h : (turns_left s h <= 5 * h + 5 * length (notifC s) + 13)%nat.
Proof.
  unfold turns_left, sv_turns, nt_turns. destruct (sv s) as [| |w|p|p|p|p], (nt s) as [| |v|q];
    try pose proof (write_turns_le w); try pose proof (write_turns_le v); lia.
Qed.

Lemma write_next_turns who w o e w' e' :
  write_next who w o e = Some (inl w', e') -> (write_turns w' < write_turns w)%nat.
Proof.
  destruct w as [m|m|m|err]; cbn.
  - destruct (e_mu e); [done|]. intros [= <- _]. cbn. lia.
  - intros [= <- _]. destruct (e_err e); cbn; lia.
  - destruct o as [[]|]; intros [= <- _]; cbn; lia.
  - done.
Qed.

Lemma server_turns o s s' h : server_next Error o s = Some s' ->
  nt s' = nt s /\ notifC s' = notifC s /\ notifC_closed s' = notifC_closed s /\ client_conn s' = client_conn s /\
  (sv_turns (sv s') h < sv_turns (sv s) h)%nat.
Proof.
  unfold server_next. destruct (sv s) as [| |w|p|p|p|p] eqn:Hsv; try done; try (intros [= <-]; cbn; split_and!; (done || lia)).
  - destruct (write_next Responder w o (encd s)) as [[r e]|] eqn:Hw; [|done]. intros [= <-]. split_and!; try done.
    destruct r as [w'|[x|]]; cbn; [apply write_next_turns in Hw; lia|lia|]. destruct w; cbn in *; lia.
  - destruct (nt s) eqn:Hnt; try done. intros [= <-]. cbn. split_and!; (done || lia).
Qed.

Lemma notifier_turns o s s' : notifier_next Error o s = Some s' ->
  sv s' = sv s /\ notifC_closed s' = notifC_closed s /\ client_conn s' = client_conn s /\
  (nt_turns (nt s') (length (notifC s')) < nt_turns (nt s) (length (notifC s)))%nat.
Proof.
  unfold notifier_next. destruct (nt s) as [| |w|p] eqn:Hnt; try done.
  - destruct (notifC s) as [|m q] eqn:Hq.
    + destruct (notifC_closed s) eqn:Hcl; [|done]. intros [= <-]. cbn. by split_and!; (done || lia).
    + intros [= <-]. cbn. split_and!; (done || lia).
  - destruct (write_next Notifier w o (encd s)) as [[r e]|] eqn:Hw; [|done]. intros [= <-]. split_and!; try done.
    destruct r as [w'|[x|]]; cbn; [apply write_next_turns in Hw; lia|lia|]. destruct w; cbn in *; lia.
Qed.

(** One event, once the connection and the channel are closed. *)
Lemma event_turns a s s' h :
  ServerInv s -> event_next Error fn a s = Some s' -> client_conn s = Some h -> notifC_closed s = true ->
  notifC_closed s' = true /\ exists h', client_conn s' = Some h' /\
    ((if goroutine a then 1 else 0) + turns_left s' h' <= turns_left s h)%nat.
Proof.
  unfold turns_left. intros HI Ha Hc Hcl. destruct a as [m|err|r|o|o|first|held]; cbn [event_next goroutine] in *.
  - by rewrite Hcl in Ha.
  - unfold accept_next in Ha. pose proof (V_started _ HI) as Hst. unfold started in Hst.
    destruct (sv s) eqn:Hsv; try done. rewrite Hst.
    destruct err as [e|]; injection Ha as <-; cbn; (split; [done|]); exists h; (split; [done|]); rewrite ?Hst; cbn; lia.
  - unfold decode_next in Ha. destruct (sv s) eqn:Hsv; try done. rewrite Hc in Ha. destruct r as [req|e].
    + destruct h as [|h]; [done|]. injection Ha as <-. cbn. split; [done|]. exists h. split; [done|lia].
    + injection Ha as <-. cbn. split; [done|]. exists h. split; [done|lia].
  - destruct (server_turns o s s' h Ha) as (-> & -> & -> & -> & Ht). split; [done|]. exists h. split; [done|lia].
  - destruct (notifier_turns o s s' Ha) as (-> & -> & -> & Ht). split; [done|]. exists h. split; [done|lia].
  - destruct (dn s); [done|]. injection Ha as <-. cbn. split; [done|]. exists h. split; [done|lia].
  - unfold done_next in Ha. destruct (dn s) as [[]|]; try done;
      try (injection Ha as <-; cbn; rewrite ?Hc; split; [done|]; exists h; split; [done|lia]).
    destruct (sv s) eqn:Hsv; try done. injection Ha as <-. cbn. rewrite Hsv. cbn. split; [done|]. exists h. split; [done|lia].
Qed.

Lemma events_turns evs s s' h :
  ServerInv s -> events_run Error fn evs s = Some s' -> client_conn s = Some h -> notifC_closed s = true ->
  exists h', client_conn s' = Some h' /\ (turns evs + turns_left s' h' <= turns_left s h)%nat.
Proof.
  revert s h. induction evs as [|a evs IH]; intros s h HI; cbn [events_run].
  - intros [= <-] Hc _. exists h. by split.
  - destruct (event_next _ _ a s) as [s1|] eqn:Ha; [|done]. intros Hr Hc Hcl.
    destruct (event_turns a s s1 h HI Ha Hc Hcl) as (Hcl1 & h1 & Hc1 & H1).
    destruct (IH s1 h1 (event_inv a s s1 HI Ha) Hr Hc1 Hcl1) as (h2 & Hc2 & H2). exists h2. split; [done|].
    unfold turns in *. cbn [List.filter]. destruct (goroutine a); cbn [length]; lia.
Qed.

(** A writer past the lock can go on; so can one before it, or the other one can. *)
Lemma writer_ready who w e : in_lock w -> exists x, write_next who w None e = Some x.
Proof. intros H. destruct w; [by destruct H|by eexists..]. Qed.

Lemma writer_turn s : ServerInv s -> (exists who w, writer_pc s who = Some w) ->
  exists who w x, writer_pc s who = Some w /\ write_next who w None (encd s) = Some x.
Proof.
  intros HI (who & w & Hw). destruct (e_mu (encd s)) as [h|] eqn:Hmu.
  - apply (EI_lock _ _ (V_enc _ HI)) in Hmu as (v & Hv & Hin). destruct (writer_ready h v (encd s) Hin) as [x Hx].
    by exists h, v, x.
  - exists who, w. destruct w; cbn; rewrite ?Hmu; by eexists.
Qed.

Lemma writer_goes s who w x :
  writer_pc s who = Some w -> write_next who w None (encd s) = Some x ->
  exists a s', goroutine a = true /\ event_next Error fn a s = Some s'.
Proof.
  destruct x as [r e]. destruct who; cbn [writer_pc]; intros Hw Hx.
  - exists (EvServer None). cbn. unfold server_next. destruct (sv s); try done. injection Hw as ->. rewrite Hx. by eexists.
  - exists (EvNotifier None). cbn. unfold notifier_next. destruct (nt s); try done. injection Hw as ->. rewrite Hx. by eexists.
Qed.

(** While the server has not returned, one of its goroutines can take a step. *)
Lemma event_ready s :
  ServerInv s -> notifC_closed s = true -> (forall p, sv s <> SvReturned p) ->
  exists a s', goroutine a = true /\ event_next Error fn a s = Some s'.
Proof.
  intros HI Hcl Hno. pose proof (V_started _ HI) as Hst. unfold started in Hst.
  assert (Hwriter : (exists who w, writer_pc s who = Some w) -> exists a s', goroutine a = true /\ event_next Error fn a s = Some s').
  { intros H. destruct (writer_turn s HI H) as (who & w & x & Hw & Hx). by apply (writer_goes s who w x). }
  destruct (sv s) as [| |w|p|p|p|p] eqn:Hsv.
  - exists (EvAccept None). cbn. unfold accept_next. rewrite Hsv. by eexists.
  - exists (EvDecode (inr io_EOF)). cbn. unfold decode_next. rewrite Hsv. by eexists.
  - apply Hwriter. exists Responder, w. cbn. by rewrite Hsv.
  - destruct (nt s) as [| |w|q] eqn:Hnt; [done|..].
    + exists (EvNotifier None). cbn. unfold notifier_next. rewrite Hnt, Hcl. destruct (notifC s); by eexists.
    + apply Hwriter. exists Notifier, w. cbn. by rewrite Hnt.
    + exists (EvServer None). cbn. unfold server_next. rewrite Hsv, Hnt. by eexists.
  - exists (EvServer None). cbn. unfold server_next. rewrite Hsv. by eexists.
  - exists (EvServer None). cbn. unfold server_next. rewrite Hsv. by eexists.
  - by destruct (Hno p).
Qed.

Lemma events_run_app evs1 evs2 s s1 :
  events_run Error fn evs1 s = Some s1 -> events_run Error fn (evs1 ++ evs2) s = events_run Error fn evs2 s1.
Proof.
  revert s. induction evs1 as [|a evs1 IH]; intros s; cbn; [by intros [= ->]|].
  destruct (event_next _ _ a s); [apply IH|done].
Qed.

(** At [wg.Wait], and after it, the closure stays there. *)
Definition waits (s : server) : Prop := dn s = Some DWait \/ dn s = Some DReturned.

Lemma waits_step a s s' : event_next Error fn a s = Some s' -> waits s -> waits s'.
Proof.
  unfold waits. intros Ha Hw. destruct a as [m|err|r|o|o|first|held]; cbn [event_next] in Ha.
  - destruct (_ || _); [done|]. by injection Ha as <-.
  - unfold accept_next in Ha. destruct (sv s); try done. destruct err; by injection Ha as <-.
  - unfold decode_next in Ha. destruct (sv s), r; try done; [|by injection Ha as <-].
    destruct (client_conn s) as [[|h]|]; try done; by injection Ha as <-.
  - unfold server_next in Ha. destruct (sv s); try done; try by injection Ha as <-.
    + destruct (write_next _ _ _ _) as [[]|]; [|done]. by injection Ha as <-.
    + destruct (nt s); try done. by injection Ha as <-.
  - unfold notifier_next in Ha. destruct (nt s); try done.
    + destruct (notifC s); [destruct (notifC_closed s); [|done]|]; by injection Ha as <-.
    + destruct (write_next _ _ _ _) as [[]|]; [|done]. by injection Ha as <-.
  - destruct (dn s); [done|]. by destruct Hw.
  - unfold done_next in Ha. destruct Hw as [Hw|Hw]; rewrite Hw in Ha; [|done]. destruct (sv s); try done. injection Ha as <-. by right.
Qed.

Lemma waits_run evs s s' : events_run Error fn evs s = Some s' -> waits s -> waits s'.
Proof.
  revert s. induction evs as [|a evs IH]; intros s; cbn [events_run]; [by intros [= <-]|].
  destruct (event_next _ _ a s) as [s1|] eqn:Ha; [|done]. intros Hr Hw. apply (IH s1 Hr). by apply (waits_step a s).
Qed.

(** The clean-up returns. Once it waits for the server, with [held] requests that the
    decoder can still read, the goroutines of the server take a bounded number of steps
    whatever the order, the outcome of a write and the errors of the connection; while
    the server has not returned one of them can step, and when none can, the clean-up
    can return. When it has, the listener, the connection and the channel are closed
    and no goroutine is left. *)
Theorem done_returns evs s held more s' :
  events_run Error fn evs no_server = Some s -> dn s = Some DWait -> client_conn s = Some held ->
  events_run Error fn more s = Some s' ->
  (turns more <= 5 * held + 5 * length (notifC s) + 13)%nat /\
  ((forall a, goroutine a = true -> event_next Error fn a s' = None) ->
   dn s' = Some DReturned \/ exists s2, event_next Error fn (EvDone 0) s' = Some s2 /\ dn s2 = Some DReturned) /\
  (dn s' = Some DReturned ->
   listening s' = false /\ notifC_closed s' = true /\ (exists p, sv s' = SvReturned p) /\
   (nt s' = NtNone \/ exists p, nt s' = NtStopped p) /\ forall a, goroutine a = true -> event_next Error fn a s' = None).
Proof.
  intros Hrun Hdn Hc Hmore. pose proof (server_reach _ _ Hrun) as HI.
  assert (HI' : ServerInv s') by by apply (events_inv more s).
  pose proof (V_cleaned _ HI) as Hcl. unfold cleaned in Hcl. rewrite Hdn in Hcl. destruct Hcl as (_ & _ & Hcl).
  destruct (events_turns more s s' held HI Hmore Hc Hcl) as (h' & _ & Ht). pose proof (turns_left_le s held) as Hb.
  pose proof (V_cleaned _ HI') as Hcl'. unfold cleaned in Hcl'. split_and!; [lia| |].
  - intros Hnone. destruct (waits_run more s s' Hmore (or_introl Hdn)) as [Hw|Hw]; [right|by left].
    rewrite Hw in Hcl'. destruct Hcl' as (_ & _ & Hclosed). cbn. unfold done_next. rewrite Hw.
    destruct (sv s') as [| |w|p|p|p|p] eqn:Hsv; try by eexists.
    all: destruct (event_ready s' HI' Hclosed) as (a & s2 & Hg & Ha); [rewrite Hsv; done|];
      rewrite (Hnone a Hg) in Ha; discriminate Ha.
  - intros Hw. rewrite Hw in Hcl'. destruct Hcl' as (Hl & _ & Hclosed & p & Hsv).
    pose proof (V_started _ HI') as Hst. unfold started in Hst. rewrite Hsv in Hst. split_and!; try done; [by exists p|].
    intros a Hg. destruct a; try done; cbn.
    + unfold accept_next. by rewrite Hsv.
    + unfold decode_next. by rewrite Hsv.
    + unfold server_next. by rewrite Hsv.
    + unfold notifier_next. by destruct Hst as [->|[q ->]].
Qed.

(** ** A panic of the server that nobody sees *)

Lemma event_err a s s' :
  event_next Error fn a s = Some s' -> (notifC_closed s = true -> notifC_closed s' = true) /\
    (e_err (encd s) <> None -> e_err (encd s') <> None).
Proof.
  intros Ha. destruct a as [m|err|r|o|o|first|held]; cbn [event_next] in Ha.
  - destruct (_ || _); [done|]. by injection Ha as <-.
  - unfold accept_next in Ha. destruct (sv s); try done. destruct err; by injection Ha as <-.
  - unfold decode_next in Ha. destruct (sv s), r; try done; [|by injection Ha as <-].
    destruct (client_conn s) as [[|h]|]; try done; by injection Ha as <-.
  - unfold server_next in Ha. destruct (sv s); try done; try by injection Ha as <-.
    + destruct (write_next _ _ _ _) as [[r e]|] eqn:Hw; [|done]. injection Ha as <-. split; [done|]. by apply (write_next_err _ _ _ _ _ _ Hw).
    + destruct (nt s); try done. by injection Ha as <-.
  - unfold notifier_next in Ha. destruct (nt s); try done.
    + destruct (notifC s); [destruct (notifC_closed s) eqn:E; [|done]|]; injection Ha as <-; cbn; by rewrite ?E.
    + destruct (write_next _ _ _ _) as [[r e]|] eqn:Hw; [|done]. injection Ha as <-. split; [done|]. by apply (write_next_err _ _ _ _ _ _ Hw).
  - destruct (dn s); [done|]. by injection Ha as <-.
  - unfold done_next in Ha. destruct (dn s) as [[]|]; try done; try by injection Ha as <-. destruct (sv s); try done. by injection Ha as <-.
Qed.

(** Nobody answers and nobody is told: a server that panics, on a request that does not
    decode for instance, runs its deferred [notifWG.Wait] first. As long as the test
    does not clean up and no write fails, it stays there: no request is read any more,
    and the process does not stop. *)
Theorem panic_waits evs s p more s' :
  events_run Error fn evs no_server = Some s -> sv s = SvNotifWait p ->
  events_run Error fn more s = Some s' -> notifC_closed s' = false -> e_err (encd s') = None ->
  sv s' = SvNotifWait p /\ handled s' = handled s.
Proof.
  intros Hrun. pose proof (server_reach _ _ Hrun) as HI. clear Hrun. revert s HI.
  induction more as [|a more IH]; intros s HI Hsv; cbn [events_run]; [by intros [= <-]|].
  destruct (event_next _ _ a s) as [s1|] eqn:Ha; [|done]. intros Hr Hcl Herr.
  assert (Hkeep : forall t, events_run Error fn more t = Some s' -> notifC_closed t = false /\ e_err (encd t) = None).
  { clear -Hcl Herr. induction more as [|b more IH]; intros t; cbn [events_run]; [by intros [= <-]|].
    destruct (event_next _ _ b t) as [t1|] eqn:Hb; [|done]. intros Hr. destruct (IH t1 Hr) as [H1 H2].
    destruct (event_err b t t1 Hb) as [H3 H4]. split.
    - destruct (notifC_closed t); [|done]. by rewrite H3 in H1.
    - destruct (e_err (encd t)); [|done]. by destruct (H4 ltac:(done)). }
  destruct (Hkeep s1 Hr) as [Hcl1 Herr1]. destruct (event_err a s s1 Ha) as [H3 H4].
  assert (Hs : sv s1 = SvNotifWait p /\ handled s1 = handled s).
  { destruct a as [m|err|r|o|o|first|held]; cbn [event_next] in Ha.
    - destruct (_ || _); [done|]. by injection Ha as <-.
    - unfold accept_next in Ha. by rewrite Hsv in Ha.
    - unfold decode_next in Ha. by rewrite Hsv in Ha.
    - unfold server_next in Ha. rewrite Hsv in Ha. destruct (nt s) as [| | |q] eqn:Hnt; try done.
      destruct (V_stop _ HI q Hnt) as [(H & _)|H]; [by rewrite H3 in Hcl1|by destruct (H4 H)].
    - unfold notifier_next in Ha. destruct (nt s); try done.
      + destruct (notifC s); [destruct (notifC_closed s); [|done]|]; by injection Ha as <-.
      + destruct (write_next _ _ _ _) as [[]|]; [|done]. by injection Ha as <-.
    - destruct (dn s); [done|]. by injection Ha as <-.
    - unfold done_next in Ha. destruct (dn s) as [[]|]; try done; try by injection Ha as <-. by destruct (sv s). }
  destruct Hs as [Hs1 Hh]. destruct (IH s1 (event_inv a s s1 HI Ha) Hs1 Hr Hcl Herr) as [? ->]. by split.
Qed.
End invariant.

(** ** Examples and witnesses *)

Definition plain_error (e : error) : string := match e with ErrorString s => s | io_EOF => "EOF" | _ => "" end.

(** Two requests, with a notification between the responses: the notifier waits for the
    lock, and the responder of the second request after it. *)
Definition exchange_ex : list server_event :=
  [EvAccept None; EvDecode (inl (seen (ListDatabases_request "1"))); EvPush (mkServerResponse None None None "echo" (Some (JArr [])));
   EvServer None; EvNotifier None; EvServer None; EvServer None; EvServer None;
   EvNotifier None; EvDecode (inl (seen (Echo_request "2"))); EvNotifier None; EvNotifier None; EvNotifier None;
   EvServer None; EvServer None; EvServer None; EvServer None].

(** The clean-up begins while the server waits for a request. *)
Definition cleanup_ex : list server_event := [EvCallDone true; EvDone 0; EvDone 0; EvDone 0; EvDone 0].

Definition goroutines_ex : list server_event :=
  [EvDecode (inr io_EOF); EvNotifier None; EvServer None; EvServer None; EvServer None].

Example exchange_out :
  option_map (fun s => map snd (e_out (encd s))) (events_run plain_error repeat_params exchange_ex no_server) = Some written_ex.
Proof. vm_compute. reflexivity. Qed.

Example cleanup_returns :
  option_map dn (events_run plain_error repeat_params (exchange_ex ++ cleanup_ex ++ goroutines_ex ++ [EvDone 0]) no_server)
  = Some (Some DReturned).
Proof. vm_compute. reflexivity. Qed.

(** A write to a connection that the peer has closed may fail in another way. *)
Example broken_pipe :
  or_panic plain_error (ErrorString "write: broken pipe") "failed to encode notification" = Some "failed to encode notification".
Proof. vm_compute. reflexivity. Qed.

Lemma server_delivers_witness :
  match events_run plain_error repeat_params exchange_ex no_server with
  | Some s => Receives no_syntax 4 (e_wire (encd s)) = map Message (map (client_view no_syntax) written_ex) ++ [ReceiveStop] /\
      map (fun req => repeat_params req) (handled s) = written Responder (encd s)
  | None => False
  end.
Proof.
  destruct (events_run plain_error repeat_params exchange_ex no_server) as [s|] eqn:H; [|vm_compute in H; discriminate H].
  destruct (server_delivers plain_error repeat_params no_syntax exchange_ex s H) as (partial & _ & _ & _ & _ & _ & Hd).
  assert (Hs : option_map (fun s => (e_err (encd s), sv s, map snd (e_out (encd s)), written Responder (encd s), written Notifier (encd s))) (Some s) =
    Some (None, SvDecode, written_ex, [mkServerResponse (Some "1") (Some (JArr [])) None "" None;
        mkServerResponse (Some "2") (Some (JArr [JStr echo_request])) None "" None], [mkServerResponse None None None "echo" (Some (JArr []))])).
  { rewrite <- H. vm_compute. reflexivity. }
  injection Hs as He Hsv Ho Hr Hn. destruct (Hd He) as (_ & Hidle & _ & Hread). rewrite Ho, Hr, Hn in Hread.
  destruct Hread as [Hread _].
  - repeat constructor; by eexists.
  - repeat constructor.
  - repeat constructor; vm_compute; reflexivity.
  - split; [exact Hread|]. symmetry. apply Hidle. rewrite Hsv. done.
Defined.

Lemma done_returns_witness :
  match events_run plain_error repeat_params (exchange_ex ++ cleanup_ex) no_server with
  | Some s =>
      match events_run plain_error repeat_params goroutines_ex s with
      | Some s' => (turns goroutines_ex <= 13)%nat /\
          ((forall a, goroutine a = true -> event_next plain_error repeat_params a s' = None) ->
           dn s' = Some DReturned \/ exists s2, event_next plain_error repeat_params (EvDone 0) s' = Some s2 /\ dn s2 = Some DReturned)
      | None => False
      end
  | None => False
  end.
Proof.
  destruct (events_run plain_error repeat_params (exchange_ex ++ cleanup_ex) no_server) as [s|] eqn:H; [|vm_compute in H; discriminate H].
  assert (Hs : option_map (fun s => (dn s, client_conn s, notifC s)) (Some s) = Some (Some DWait, Some 0%nat, [])).
  { rewrite <- H. vm_compute. reflexivity. }
  injection Hs as Hdn Hc Hq.
  destruct (events_run plain_error repeat_params goroutines_ex s) as [s'|] eqn:Hmore.
  - destruct (done_returns plain_error repeat_params _ s 0 goroutines_ex s' H Hdn Hc Hmore) as (H1 & H2 & _).
    rewrite Hq in H1. split; [exact H1|exact H2].
  - exfalso. pose proof (events_run_app plain_error repeat_params _ goroutines_ex _ _ H) as Ha. rewrite Hmore in Ha.
    vm_compute in Ha. discriminate Ha.
Defined.

Lemma panic_waits_witness :
  match events_run plain_error repeat_params [EvAccept None; EvDecode (inr (ErrorString "invalid character"))] no_server with
  | Some s =>
      sv s = SvNotifWait (Some "failed to decode request") /\
      forall more s', events_run plain_error repeat_params more s = Some s' -> notifC_closed s' = false ->
        e_err (encd s') = None -> sv s' = SvNotifWait (Some "failed to decode request")
  | None => False
  end.
Proof.
  destruct (events_run plain_error repeat_params [EvAccept None; EvDecode (inr (ErrorString "invalid character"))] no_server)
    as [s|] eqn:H; [|vm_compute in H; discriminate H].
  assert (Hs : option_map sv (Some s) = Some (SvNotifWait (Some "failed to decode request"))).
  { rewrite <- H. vm_compute. reflexivity. }
  injection Hs as Hsv. split; [exact Hsv|]. intros more s' Hm Hc He.
  by destruct (panic_waits plain_error repeat_params _ s _ more s' H Hsv Hm Hc He).
Defined.
