(* ===== verification/CArray.v ===== *)
(** * Arrays of C

    The forwarding programs are in C: an access outside of an array has no meaning there,
    and is [None] here.  With them the loops that run a step which may have none. *)

From S2P Require Import Prelude.

Definition in_array {A} (i : Z) (a : list A) : bool := (0 <=? i) && (i <? Z.of_nat (length a)).

Definition array_read {A} (i : Z) (a : list A) : option A := if in_array i a then a !! Z.to_nat i else None.

Definition array_write {A} (i : Z) (x : A) (a : list A) : option (list A) :=
  if in_array i a then Some (<[Z.to_nat i := x]> a) else None.

(** A loop over [l] that stops where a step has no meaning. *)
Fixpoint foldM {A S} (step : A -> S -> option S) (l : list A) (s : S) : option S :=
  match l with
  | [] => Some s
  | x :: l => match step x s with Some s => foldM step l s | None => None end
  end.

Lemma in_array_spec {A} i (a : list A) : in_array i a = true <-> 0 <= i < Z.of_nat (length a).
Proof. unfold in_array. rewrite andb_true_iff, Z.leb_le, Z.ltb_lt. done. Qed.

Lemma array_read_Some {A} i (a : list A) : 0 <= i < Z.of_nat (length a) -> exists x, array_read i a = Some x.
Proof.
  intros H. unfold array_read. rewrite (proj2 (in_array_spec i a) H). apply lookup_lt_is_Some. lia.
Qed.

Lemma array_read_nat {A} i (a : list A) : array_read (Z.of_nat i) a = a !! i.
Proof.
  unfold array_read. rewrite Nat2Z.id. destruct (in_array (Z.of_nat i) a) eqn:H; [done|].
  symmetry. apply lookup_ge_None. unfold in_array in H. apply andb_false_iff in H as [H|H]; bools; lia.
Qed.

Lemma array_read_None {A} i (a : list A) : array_read i a = None <-> ~ 0 <= i < Z.of_nat (length a).
Proof.
  rewrite <- in_array_spec. unfold array_read. destruct (in_array i a) eqn:H; [|by split].
  split; [|by intros []]. apply in_array_spec in H. rewrite lookup_ge_None. lia.
Qed.

Lemma array_write_nat {A} i (x : A) a : (i < length a)%nat -> array_write (Z.of_nat i) x a = Some (<[i := x]> a).
Proof. intros H. unfold array_write. rewrite (proj2 (in_array_spec _ a)) by lia. by rewrite Nat2Z.id. Qed.

Lemma array_write_None {A} i (x : A) a : array_write i x a = None <-> ~ 0 <= i < Z.of_nat (length a).
Proof. rewrite <- in_array_spec. unfold array_write. destruct (in_array i a); by split. Qed.

Lemma array_write_length {A} i (x : A) a b : array_write i x a = Some b -> length b = length a.
Proof. unfold array_write. destruct (in_array i a); [|done]. intros [= <-]. apply length_insert. Qed.

(** A change of the item at [i]: it is read and written. *)
Definition array_update {A} (i : Z) (f : A -> A) (a : list A) : option (list A) :=
  match array_read i a with Some x => array_write i (f x) a | None => None end.

Lemma array_update_Some {A} i (f : A -> A) a x :
  array_read i a = Some x -> array_update i f a = Some (<[Z.to_nat i := f x]> a).
Proof.
  intros H. unfold array_update. rewrite H. unfold array_write. unfold array_read in H. by destruct (in_array i a).
Qed.

Lemma array_read_update {A} i (f : A -> A) a b x :
  array_read i a = Some x -> array_update i f a = Some b -> array_read i b = Some (f x).
Proof.
  intros H. rewrite (array_update_Some i f a x H). intros [= <-]. unfold array_read in *. unfold in_array in *. rewrite length_insert.
  destruct (_ && _); [|done]. apply list_lookup_insert_eq. by apply lookup_lt_Some in H.
Qed.

Lemma foldM_app {A S} (step : A -> S -> option S) l1 l2 s :
  foldM step (l1 ++ l2) s = match foldM step l1 s with Some s => foldM step l2 s | None => None end.
Proof. revert s. induction l1 as [|x l1 IH]; intros s; [done|]. cbn. destruct (step x s); [apply IH|done]. Qed.

(** An invariant under which the loop has a meaning. *)
Lemma foldM_inv {A S} (P : S -> Prop) (step : A -> S -> option S) l s :
  (forall x s, x ∈ l -> P s -> exists s', step x s = Some s' /\ P s') -> P s -> exists s', foldM step l s = Some s' /\ P s'.
Proof.
  revert s. induction l as [|x l IH]; intros s Hstep Hs; [by exists s|]. cbn.
  destruct (Hstep x s ltac:(left) Hs) as (s1 & -> & H1). apply IH; [|done]. intros y t Hy. apply Hstep. by right.
Qed.

(** The items of a list stay distinct when one is replaced by a new one. *)
Lemma NoDup_insert {A} (l : list A) i x : NoDup l -> x ∉ l -> NoDup (<[i := x]> l).
Proof.
  intros Hl Hx. apply NoDup_alt. intros j k y Hj Hk. apply list_lookup_insert_Some in Hj, Hk.
  destruct Hj as [(<- & <- & Hlt)|[Hij Hj]], Hk as [(<- & Hxy & _)|[Hik Hk]]; try done.
  - destruct Hx. by apply list_elem_of_lookup_2 in Hk.
  - subst y. destruct Hx. by apply list_elem_of_lookup_2 in Hj.
  - by apply (proj1 (NoDup_alt l) Hl j k y).
Qed.
