(* ===== verification/L2fwd.v ===== *)
(** * The learning switch

    Models [l2fwd_daniel/main.c]: the table of addresses and the forwarding of a frame,
    the pairing of ports, their distribution over the logical cores, and the main loop.
    What the data plane does with a frame that is queued, with a flush and with a burst
    is DPDK's: the calls of [rte_eth_tx_buffer] and [rte_eth_tx_buffer_flush] are recorded
    in order, the frames that are received are arguments. *)

From stdpp Require Import gmap.
From S2P Require Import Prelude CArray.

(** ** The table of addresses *)

Definition mac := list Z.
Definition frame := list Z.

Definition MAC_ENTRIES : nat := 20.
Definition STATIC : Z := 0.
Definition DYNAMIC : Z := 1.

Record mac_table_entry := mkEntry { vlan : Z; d_addr : mac; type : Z; port : Z }.

(** A static array is zero at the start. *)
Definition zero_mac : mac := [0; 0; 0; 0; 0; 0].
Definition zero_entry : mac_table_entry := mkEntry 0 zero_mac STATIC 0.

(** The globals, the frames queued on ports so far, and the tables printed. *)
Record switch := mkSwitch {
  mac_fwd_table : list mac_table_entry; mac_counter : Z; packet_counter : Z;
  tx : list (Z * frame); shown : list (list mac_table_entry)
}.

Definition switch_init : switch := mkSwitch (replicate MAC_ENTRIES zero_entry) 0 0 [] [].

(** The addresses of a frame, which has room for both. *)
Definition dst_of (data : frame) : mac := take 6 data.
Definition src_of (data : frame) : mac := take 6 (drop 6 data).

(** What the loop over the table changes. *)
Record scan := mkScan { mac_add : bool; mac_dst_found : bool; sc_tx : list (Z * frame); sc_counter : Z }.

Definition scan_entry (m : frame) (c : scan) (e : mac_table_entry) : scan :=
  let c := if decide (d_addr e = src_of m) then mkScan true (mac_dst_found c) (sc_tx c) (sc_counter c) else c in
  if decide (d_addr e = dst_of m) then mkScan (mac_add c) true (sc_tx c ++ [(port e, m)]) (u32 (sc_counter c + 1)) else c.

Definition scan_table (m : frame) (table : list mac_table_entry) (c : scan) : scan := fold_left (scan_entry m) table c.

(** The frame goes to every port but the one it came from. *)
Definition flood (nb_ports : Z) (m : frame) (portid : Z) : list (Z * frame) :=
  map (fun p => (p, m)) (List.filter (fun p => negb (p =? portid)) (seqZ 0 nb_ports)).

(** The rows that are printed. *)
Definition shown_rows (table : list mac_table_entry) : list mac_table_entry :=
  List.filter (fun e => negb (hd 0 (d_addr e) =? 0)) table.

Section switch.
Context (nb_ports : Z).

Definition l2fwd_learning_forward (m : frame) (portid : Z) (s : switch) : option switch :=
  let c := scan_table m (mac_fwd_table s) (mkScan false false [] (packet_counter s)) in
  let sent := sc_tx c ++ (if mac_dst_found c then [] else flood nb_ports m portid) in
  let count := if mac_dst_found c then sc_counter c else u32 (sc_counter c + 3) in
  if mac_add c then Some (mkSwitch (mac_fwd_table s) (mac_counter s) count (tx s ++ sent) (shown s))
  else
    match array_read (mac_counter s) (mac_fwd_table s) with
    | None => None
    | Some e =>
        match array_write (mac_counter s) (mkEntry (vlan e) (src_of m) DYNAMIC portid) (mac_fwd_table s) with
        | None => None
        | Some table =>
            Some (mkSwitch table (u32 (mac_counter s + 1)) count (tx s ++ sent) (shown s ++ [shown_rows table]))
        end
    end.

(** Frames in the order they are taken, each with the port it came from. *)
Definition forward_all (fs : list (frame * Z)) (s : switch) : option switch :=
  foldM (fun f => l2fwd_learning_forward (fst f) (snd f)) fs s.
End switch.

(** ** What it means: a map from addresses to ports *)

Definition learn (f : frame * Z) (L : gmap mac Z) : gmap mac Z :=
  match L !! src_of (fst f) with Some _ => L | None => <[src_of (fst f) := snd f]> L end.

(** The frame is looked up before its source is learnt. *)
Definition route (nb_ports : Z) (f : frame * Z) (L : gmap mac Z) : list (Z * frame) :=
  match L !! dst_of (fst f) with Some p => [(p, fst f)] | None => flood nb_ports (fst f) (snd f) end.

Fixpoint learn_all (fs : list (frame * Z)) (L : gmap mac Z) : gmap mac Z :=
  match fs with [] => L | f :: fs => learn_all fs (learn f L) end.

Fixpoint route_all (nb_ports : Z) (fs : list (frame * Z)) (L : gmap mac Z) : list (Z * frame) :=
  match fs with [] => [] | f :: fs => route nb_ports f L ++ route_all nb_ports fs (learn f L) end.

(** The table holds the addresses learnt, in order, and is zero behind them. *)
Definition entry_of (a : mac * Z) : mac_table_entry := mkEntry 0 (fst a) DYNAMIC (snd a).

Record table_ok (known : list (mac * Z)) (s : switch) (L : gmap mac Z) : Prop := mkTableOk {
  K_table : mac_fwd_table s = map entry_of known ++ replicate (MAC_ENTRIES - length known) zero_entry;
  K_counter : mac_counter s = Z.of_nat (length known);
  K_room : (length known <= MAC_ENTRIES)%nat;
  K_nodup : NoDup (map fst known);
  K_nonzero : Forall (fun a => fst a <> zero_mac) known;
  K_map : L = list_to_map known
}.

(** ** The loop over the table *)

Lemma scan_zeros m n c : src_of m <> zero_mac -> dst_of m <> zero_mac -> scan_table m (replicate n zero_entry) c = c.
Proof.
  intros Hs Hd. unfold scan_table. induction n as [|n IH]; [done|]. cbn [replicate fold_left].
  unfold scan_entry at 2. cbn [d_addr zero_entry]. by rewrite !decide_False by congruence.
Qed.

(** On the entries learnt: whether the addresses are there, and the frame on the port of
    its destination. *)
Lemma scan_known m (known : list (mac * Z)) c :
  NoDup (map fst known) ->
  let dst := (list_to_map known : gmap mac Z) !! dst_of m in
  let c' := scan_table m (map entry_of known) c in
  mac_add c' = mac_add c || bool_decide (src_of m ∈ map fst known) /\
  mac_dst_found c' = mac_dst_found c || bool_decide (is_Some dst) /\
  sc_tx c' = sc_tx c ++ match dst with Some p => [(p, m)] | None => [] end.
Proof.
  revert c. induction known as [|[a p] known IH]; intros c Hnd; cbn zeta.
  - cbn. by rewrite !orb_false_r, app_nil_r.
  - cbn [map fst] in Hnd. apply NoDup_cons in Hnd as [Ha Hnd]. rewrite list_to_map_cons. cbn [map fst]. unfold scan_table. cbn [fold_left].
    destruct (IH (scan_entry m c (entry_of (a, p))) Hnd) as (H1 & H2 & H3). unfold scan_table in H1, H2, H3.
    rewrite H1, H2, H3. clear IH H1 H2 H3. unfold scan_entry. cbn [d_addr entry_of fst snd port].
    assert (Hin : bool_decide (src_of m ∈ a :: map fst known) = bool_decide (a = src_of m) || bool_decide (src_of m ∈ map fst known)).
    { rewrite <- bool_decide_or. apply bool_decide_ext. rewrite elem_of_cons. split; intros [H|H]; auto. }
    rewrite Hin. destruct (decide (a = dst_of m)) as [E|E].
    + assert (Hnone : (list_to_map known : gmap mac Z) !! dst_of m = None) by (rewrite <- E; by apply not_elem_of_list_to_map_1).
      rewrite Hnone, E, lookup_insert_eq, app_nil_r. rewrite <- E.
      destruct (decide (a = src_of m)) as [E'|E']; cbn [mac_add mac_dst_found sc_tx].
      * rewrite (bool_decide_true (a = _)) by done. cbn. by rewrite !orb_true_r.
      * rewrite (bool_decide_false (a = _)) by done. cbn. by rewrite !orb_true_r.
    + rewrite lookup_insert_ne by done.
      destruct (decide (a = src_of m)) as [E'|E']; cbn [mac_add mac_dst_found sc_tx].
      * rewrite (bool_decide_true (a = _)) by done. cbn. by rewrite !orb_true_r.
      * by rewrite (bool_decide_false (a = _)) by done.
Qed.

(** ** A frame *)

Definition plain (f : frame * Z) : Prop := src_of (fst f) <> zero_mac /\ dst_of (fst f) <> zero_mac.

Section forwarding.
Context (nb_ports : Z).

Lemma known_lookup (known : list (mac * Z)) (L : gmap mac Z) (a : mac) :
  L = list_to_map known -> bool_decide (a ∈ map fst known) = bool_decide (is_Some (L !! a)).
Proof.
  intros ->. apply bool_decide_ext. split.
  - intros H. destruct ((list_to_map known : gmap mac Z) !! a) eqn:E; [by eexists|]. by apply not_elem_of_list_to_map_2 in E.
  - intros [p H]. apply elem_of_list_to_map_2 in H. apply list_elem_of_fmap. by exists (a, p).
Qed.

(** The whole table, with what is known of the addresses. *)
Lemma scan_ok known s L m c :
  table_ok known s L -> src_of m <> zero_mac -> dst_of m <> zero_mac ->
  let c' := scan_table m (mac_fwd_table s) c in
  mac_add c' = mac_add c || bool_decide (is_Some (L !! src_of m)) /\
  mac_dst_found c' = mac_dst_found c || bool_decide (is_Some (L !! dst_of m)) /\
  sc_tx c' = sc_tx c ++ match L !! dst_of m with Some p => [(p, m)] | None => [] end.
Proof.
  intros HK Hs Hd. cbn zeta. rewrite (K_table _ _ _ HK). unfold scan_table. rewrite fold_left_app.
  fold (scan_table m (map entry_of known) c). fold (scan_table m (replicate (MAC_ENTRIES - length known) zero_entry) (scan_table m (map entry_of known) c)).
  rewrite scan_zeros by done. rewrite <- (known_lookup known L (src_of m) (K_map _ _ _ HK)), (K_map _ _ _ HK).
  apply (scan_known m known c (K_nodup _ _ _ HK)).
Qed.

Lemma size_known known s L : table_ok known s L -> size L = length known.
Proof.
  intros HK. rewrite (K_map _ _ _ HK). rewrite <- (length_map fst known).
  rewrite <- size_dom, dom_list_to_map_L. rewrite size_list_to_set; [done|apply (K_nodup _ _ _ HK)].
Qed.

Lemma table_length known s L : table_ok known s L -> length (mac_fwd_table s) = MAC_ENTRIES.
Proof. intros HK. rewrite (K_table _ _ _ HK), length_app, length_map, length_replicate. pose proof (K_room _ _ _ HK). lia. Qed.

Lemma first_free known s L :
  table_ok known s L -> (length known < MAC_ENTRIES)%nat -> mac_fwd_table s !! length known = Some zero_entry.
Proof.
  intros HK Hlt. rewrite (K_table _ _ _ HK), lookup_app_r by (by rewrite length_map).
  rewrite length_map, Nat.sub_diag. apply lookup_replicate_2. lia.
Qed.

(** An address that is learnt takes the first free entry. *)
Lemma learn_new known s L a p count sent rows :
  table_ok known s L -> L !! a = None -> a <> zero_mac -> (length known < MAC_ENTRIES)%nat ->
  table_ok (known ++ [(a, p)])
    (mkSwitch (<[length known := mkEntry 0 a DYNAMIC p]> (mac_fwd_table s)) (u32 (mac_counter s + 1)) count sent rows)
    (<[a := p]> L).
Proof.
  intros HK Ha Hne Hlt. assert (Hnot : a ∉ map fst known).
  { rewrite (K_map _ _ _ HK) in Ha. by apply not_elem_of_list_to_map_2 in Ha. }
  split; cbn [mac_fwd_table mac_counter].
  - rewrite (K_table _ _ _ HK), map_app, <- app_assoc. rewrite insert_app_r_alt by (by rewrite length_map).
    rewrite length_map, Nat.sub_diag, length_app. cbn [length].
    destruct (MAC_ENTRIES - length known)%nat as [|n] eqn:En; [lia|].
    by replace (MAC_ENTRIES - (length known + 1))%nat with n by lia.
  - rewrite (K_counter _ _ _ HK), length_app. cbn [length]. unfold u32. rewrite uint_small; [lia|].
    unfold in_u, MAC_ENTRIES in *. lia.
  - rewrite length_app. cbn [length]. lia.
  - rewrite map_app. apply NoDup_app. split_and!; [apply (K_nodup _ _ _ HK)| |apply NoDup_singleton].
    intros b Hb. by intros ->%list_elem_of_singleton.
  - apply Forall_app. split; [apply (K_nonzero _ _ _ HK)|]. by repeat constructor.
  - rewrite (K_map _ _ _ HK). symmetry. by apply list_to_map_snoc.
Qed.

Lemma forward_step known s L f :
  table_ok known s L -> plain f ->
  match l2fwd_learning_forward nb_ports (fst f) (snd f) s with
  | Some s' => tx s' = tx s ++ route nb_ports f L /\ exists known', table_ok known' s' (learn f L)
  | None => size (learn f L) = S MAC_ENTRIES
  end.
Proof.
  intros HK [Hs Hd]. destruct f as [m portid]. cbn [fst snd] in *. unfold l2fwd_learning_forward.
  destruct (scan_ok known s L m (mkScan false false [] (packet_counter s)) HK Hs Hd) as (Hadd & Hfound & Htx).
  cbn [mac_add mac_dst_found sc_tx orb app] in Hadd, Hfound, Htx. rewrite Hadd, Hfound, Htx.
  assert (Hroute : (match L !! dst_of m with Some p => [(p, m)] | None => [] end ++
    (if bool_decide (is_Some (L !! dst_of m)) then [] else flood nb_ports m portid)) = route nb_ports (m, portid) L).
  { unfold route. cbn [fst snd]. destruct (L !! dst_of m) as [p|]; [by rewrite bool_decide_true, app_nil_r by by eexists|].
    by rewrite bool_decide_false by by intros [x Hx]. }
  rewrite Hroute. unfold learn. cbn [fst snd]. destruct (L !! src_of m) as [p|] eqn:Hsrc.
  - cbn. split; [done|]. exists known. by destruct HK.
  - rewrite (bool_decide_false (is_Some None)) by (by intros [x Hx]). pose proof (table_length _ _ _ HK) as Hlen.
    rewrite (K_counter _ _ _ HK), array_read_nat. destruct (decide (length known < MAC_ENTRIES)%nat) as [Hlt|Hge].
    + rewrite (first_free _ _ _ HK Hlt), array_write_nat by lia. cbn [vlan zero_entry tx]. split; [done|].
      exists (known ++ [(src_of m, portid)]). rewrite <- (K_counter _ _ _ HK). by apply learn_new.
    + rewrite (proj2 (lookup_ge_None _ _)) by lia. rewrite map_size_insert_None by done.
      pose proof (K_room _ _ _ HK). rewrite (size_known known s L HK). lia.
Qed.

Lemma learn_subseteq (f : frame * Z) (L : gmap mac Z) : L ⊆ learn f L.
Proof. unfold learn. destruct (L !! _) eqn:E; [done|]. by apply insert_subseteq. Qed.

Lemma learn_all_subseteq (fs : list (frame * Z)) (L : gmap mac Z) : L ⊆ learn_all fs L.
Proof. revert L. induction fs as [|f fs IH]; intros L; [done|]. cbn. etrans; [apply learn_subseteq|apply IH]. Qed.

Lemma forward_all_ok known s L fs :
  table_ok known s L -> Forall plain fs ->
  match forward_all nb_ports fs s with
  | Some s' => tx s' = tx s ++ route_all nb_ports fs L /\ exists known', table_ok known' s' (learn_all fs L)
  | None => (MAC_ENTRIES < size (learn_all fs L))%nat
  end.
Proof.
  revert known s L. induction fs as [|f fs IH]; intros known s L HK Hfs; cbn.
  - rewrite app_nil_r. split; [done|by exists known].
  - apply Forall_cons in Hfs as [Hf Hfs]. pose proof (forward_step known s L f HK Hf) as H.
    destruct (l2fwd_learning_forward nb_ports (fst f) (snd f) s) as [s1|].
    + destruct H as [Htx [known1 HK1]]. specialize (IH known1 s1 _ HK1 Hfs). unfold forward_all in IH.
      destruct (foldM _ fs s1) as [s2|]; [|done]. destruct IH as [Htx2 HK2]. split; [|done].
      by rewrite Htx2, Htx, app_assoc.
    + pose proof (map_subseteq_size _ _ (learn_all_subseteq fs (learn f L))). lia.
Qed.
End forwarding.

(** ** The switch is a learning switch, up to twenty stations *)

(** C4: On frames whose addresses are not zero, from the start: while at most twenty stations
    have sent, every frame goes out as a switch with an unbounded map would send it, to
    the port where its destination was first seen, or else to all ports but its own; the
    table is that map, each address once. The frame with which a twenty-first station
    sends for the first time writes behind the table. *)
Theorem forward_all_learns (nb_ports : Z) (fs : list (frame * Z)) :
  Forall plain fs ->
  match forward_all nb_ports fs switch_init with
  | Some s =>
      (size (learn_all fs ∅) <= MAC_ENTRIES)%nat /\ tx s = route_all nb_ports fs ∅ /\
      exists known, table_ok known s (learn_all fs ∅)
  | None => (MAC_ENTRIES < size (learn_all fs ∅))%nat
  end.
Proof.
  intros Hfs. assert (HK : table_ok [] switch_init ∅) by (split; try done; [apply le_0_n|constructor]).
  pose proof (forward_all_ok nb_ports [] switch_init ∅ fs HK Hfs) as H. destruct (forward_all _ _ _) as [s|]; [|done].
  destruct H as [Htx [known HK']]. split_and!; [|done|by exists known].
  rewrite (size_known _ _ _ HK'). apply (K_room _ _ _ HK').
Qed.

(** ** Pairs of ports and logical cores *)

Section setup.
Context (max_ports : nat) (max_lcore : nat).

(** [l2fwd_dst_ports]: ports are paired as they come; an odd one out with itself. *)
Definition pair_step (portid : Z) (st : list Z * Z * Z) : option (list Z * Z * Z) :=
  let '(dst, last_port, n) := st in
  if n mod 2 =? 0 then Some (dst, portid, n + 1)
  else
    match array_write portid last_port dst with
    | Some dst => match array_write last_port portid dst with Some dst => Some (dst, last_port, n + 1) | None => None end
    | None => None
    end.

Definition pair_ports (nb_ports : Z) : option (list Z) :=
  match foldM pair_step (seqZ 0 nb_ports) (replicate max_ports 0, 0, 0) with
  | Some (dst, last_port, n) => if n mod 2 =? 0 then Some dst else array_write last_port last_port dst
  | None => None
  end.

Definition MAX_RX_QUEUE_PER_LCORE : nat := 16.

(** [lcore_queue_conf] is the ports each logical core polls; [rte_lcore_is_enabled] is DPDK's, and false behind
    [max_lcore]. *)

(** [n] rounds of the search in [main], whose counter has 32 bits. *)
Definition lcore_skipped (enabled : nat -> bool) (q : nat) (conf : list (list Z)) (i : Z) : bool :=
  match conf !! Z.to_nat i with Some ports => negb (enabled (Z.to_nat i)) || (length ports =? q)%nat | None => true end.

Fixpoint search_lcore (enabled : nat -> bool) (q : nat) (conf : list (list Z)) (n : nat) (i : Z) : option Z :=
  match n with
  | O => None
  | S n => if lcore_skipped enabled q conf i then search_lcore enabled q conf n (u32 (i + 1)) else Some i
  end.

(** What the search finds: the next core from [i] on that takes one more port. When there
    is none the loop goes on for ever ([search_endless]): the counter wraps, and meets only
    cores that are full or not enabled. *)
Fixpoint next_lcore (enabled : nat -> bool) (q : nat) (conf : list (list Z)) (n i : nat) : option nat :=
  match n with
  | O => None
  | S n =>
      match conf !! i with
      | Some ports => if negb (enabled i) || (length ports =? q)%nat then next_lcore enabled q conf n (S i) else Some i
      | None => None
      end
  end.

Definition lcore_step (enabled : nat -> bool) (q : nat) (portid : Z) (st : nat * list (list Z)) : option (nat * list (list Z)) :=
  let (i, conf) := st in
  match next_lcore enabled q conf (max_lcore - i) i with
  | Some i =>
      match conf !! i with
      | Some ports => if (length ports <? MAX_RX_QUEUE_PER_LCORE)%nat then Some (i, <[i := ports ++ [portid]]> conf) else None
      | None => None
      end
  | None => None
  end.

Definition assign_lcores (enabled : nat -> bool) (q : nat) (nb_ports : Z) : option (list (list Z)) :=
  snd <$> foldM (lcore_step enabled q) (seqZ 0 nb_ports) (0%nat, replicate max_lcore []).
End setup.

(** ** The main loop *)

(** What a core keeps between rounds, with the globals and the flushes so far. *)
Record loop := mkLoop { prev_tsc : Z; timer_tsc : Z; sw : switch; flushed : list Z }.

Section main_loop.
Context (nb_ports drain_tsc timer_period : Z) (dst_ports : list Z).

(** The flushes of a core for the ports it polls. *)
Definition drain (rx_ports : list Z) : option (list Z) := mapM (fun p => array_read p dst_ports) rx_ports.

Definition drains (cur_tsc : Z) (l : loop) : bool := drain_tsc <? u64 (cur_tsc - prev_tsc l).

(** The timer, which only the master core resets. *)
Definition timer_next (master : bool) (cur_tsc : Z) (l : loop) : Z * Z :=
  if drains cur_tsc l then
    (cur_tsc,
     if 0 <? timer_period then
       let t := u64 (timer_tsc l + u64 (cur_tsc - prev_tsc l)) in if (timer_period <=? t) && master then 0 else t
     else timer_tsc l)
  else (prev_tsc l, timer_tsc l).

(** The bursts of the ports, frame by frame. *)
Definition poll (rx : Z -> list frame) (rx_ports : list Z) (s : switch) : option switch :=
  foldM (fun portid => foldM (fun m => l2fwd_learning_forward nb_ports m portid) (rx portid)) rx_ports s.

(** One round of [l2fwd_main_loop] at time [cur_tsc]; [rx] gives the burst of a port. *)
Definition main_loop_round (master : bool) (cur_tsc : Z) (rx : Z -> list frame) (rx_ports : list Z) (l : loop) : option loop :=
  drained ← (if drains cur_tsc l then drain rx_ports else Some []);
  s ← poll rx rx_ports (sw l);
  Some (mkLoop (fst (timer_next master cur_tsc l)) (snd (timer_next master cur_tsc l)) s (flushed l ++ drained)).

(** [l2fwd_main_loop]: the rounds until [force_quit], each with its time and its bursts;
    a core without ports returns at once. *)
Definition l2fwd_main_loop (master : bool) (rx_ports : list Z) (rounds : list (Z * (Z -> list frame))) (l : loop) : option loop :=
  match rx_ports with
  | [] => Some l
  | _ => foldM (fun r => main_loop_round master (fst r) (snd r) rx_ports) rounds l
  end.
End main_loop.

(** *** Pairs *)

Definition partner (nb_ports p : Z) : Z := if Z.even p then if p + 1 <? nb_ports then p + 1 else p else p - 1.

Lemma partner_range nb p : 0 <= p < nb -> 0 <= partner nb p < nb.
Proof.
  intros H. unfold partner. destruct (Z.even p) eqn:E; [destruct (Z.ltb_spec (p + 1) nb); lia|].
  assert (p <> 0) by (intros ->; done). lia.
Qed.

Lemma partner_involutive nb p : 0 <= p < nb -> partner nb (partner nb p) = p.
Proof.
  intros H. unfold partner. destruct (Z.even p) eqn:E.
  - destruct (Z.ltb_spec (p + 1) nb).
    + rewrite Z.add_1_r, Z.even_succ, <- Z.negb_even, E. cbn. lia.
    + rewrite E. destruct (Z.ltb_spec (p + 1) nb); lia.
  - rewrite Z.sub_1_r, Z.even_pred, <- Z.negb_even, E. cbn. destruct (Z.ltb_spec (Z.pred p + 1) nb); lia.
Qed.

(** The partners of all ports are all ports, each once. *)
Lemma partner_permutation nb : map (partner nb) (seqZ 0 nb) ≡ₚ seqZ 0 nb.
Proof.
  assert (Hin : forall p, p ∈ seqZ 0 nb <-> 0 <= p < nb) by (intros p; rewrite elem_of_seqZ; lia).
  apply NoDup_Permutation; [|apply NoDup_seqZ|].
  - apply NoDup_fmap_2_strong; [|apply NoDup_seqZ]. intros p q Hp%Hin Hq%Hin E.
    by rewrite <- (partner_involutive nb p Hp), E, (partner_involutive nb q Hq).
  - intros p. rewrite list_elem_of_fmap, Hin. split.
    + intros (q & -> & Hq%Hin). by apply partner_range.
    + intros Hp. exists (partner nb p). split; [by rewrite partner_involutive|]. apply Hin. by apply partner_range.
Qed.

(** The array after a write, at any place. *)
Lemma array_read_write {A} i j (x : A) a b :
  array_write i x a = Some b -> array_read j b = if j =? i then Some x else array_read j a.
Proof.
  unfold array_write. destruct (in_array i a) eqn:Hi; [|done]. intros [= <-]. apply in_array_spec in Hi.
  unfold array_read. assert (Hb : in_array j (<[Z.to_nat i := x]> a) = in_array j a) by (unfold in_array; by rewrite length_insert).
  rewrite Hb. destruct (Z.eqb_spec j i) as [->|Hne].
  - rewrite (proj2 (in_array_spec i a) Hi). apply list_lookup_insert_eq. lia.
  - destruct (in_array j a) eqn:Hj; [|done]. apply in_array_spec in Hj. apply list_lookup_insert_ne. lia.
Qed.

Lemma array_write_Some {A} i (x : A) a : 0 <= i < Z.of_nat (length a) -> exists b, array_write i x a = Some b /\ length b = length a.
Proof.
  intros H. destruct (array_write i x a) as [b|] eqn:E; [|by apply array_write_None in E].
  exists b. split; [done|]. by apply array_write_length in E.
Qed.

(** After [n] ports the pairs that are complete are in the array. *)
Definition paired (max_ports : nat) (n : Z) (st : list Z * Z * Z) : Prop :=
  let '(dst, last_port, k) := st in
  k = n /\ length dst = max_ports /\ (Z.even n = false -> last_port = n - 1) /\
  forall p, 0 <= p < (if Z.even n then n else n - 1) -> array_read p dst = Some (if Z.even p then p + 1 else p - 1).

Lemma mod2_even n : (n mod 2 =? 0) = Z.even n.
Proof. rewrite Zmod_even. by destruct (Z.even n). Qed.

Lemma pair_step_paired max_ports n st :
  0 <= n < Z.of_nat max_ports -> paired max_ports n st -> exists st', pair_step n st = Some st' /\ paired max_ports (n + 1) st'.
Proof.
  destruct st as [[dst last] k]. intros Hn (-> & Hlen & Hlast & Hdst). unfold pair_step. rewrite mod2_even.
  unfold paired. rewrite Z.add_1_r, Z.even_succ, <- Z.negb_even. destruct (Z.even n) eqn:E; cbn [negb].
  - eexists. split; [reflexivity|]. split_and!; [lia|done|lia|]. intros p Hp. apply Hdst. lia.
  - specialize (Hlast eq_refl). subst last.
    assert (n <> 0) by (intros ->; done).
    destruct (array_write_Some n (n - 1) dst) as (d1 & H1 & L1); [lia|]. rewrite H1.
    destruct (array_write_Some (n - 1) n d1) as (d2 & H2 & L2); [lia|]. rewrite H2.
    eexists. split; [reflexivity|]. split_and!; [lia|lia|done|]. intros p Hp.
    rewrite (array_read_write _ _ _ _ _ H2), (array_read_write _ _ _ _ _ H1).
    destruct (Z.eqb_spec p (n - 1)) as [->|]; [|destruct (Z.eqb_spec p n) as [->|]; [by rewrite E|apply Hdst; lia]].
    rewrite Z.sub_1_r, Z.even_pred, <- Z.negb_even, E. cbn [negb]. f_equal. lia.
Qed.

Lemma pair_loop max_ports (n : nat) :
  (n <= max_ports)%nat ->
  exists st, foldM pair_step (seqZ 0 (Z.of_nat n)) (replicate max_ports 0, 0, 0) = Some st /\ paired max_ports (Z.of_nat n) st.
Proof.
  induction n as [|n IH]; intros Hn.
  - eexists. split; [reflexivity|]. split_and!; [done|apply length_replicate|done|].
    intros p Hp. change (0 <= p < 0) in Hp. lia.
  - destruct IH as (st & Hst & HP); [lia|]. rewrite seqZ_S, foldM_app, Hst. cbn [foldM].
    destruct (pair_step_paired max_ports (Z.of_nat n) st) as (st' & Hs & HP'); [lia|done|]. rewrite Z.add_0_l, Hs.
    exists st'. split; [done|]. by rewrite Nat2Z.inj_succ, <- Z.add_1_r.
Qed.

Lemma pair_ports_spec max_ports nb :
  0 <= nb <= Z.of_nat max_ports ->
  exists dst, pair_ports max_ports nb = Some dst /\ length dst = max_ports /\
    forall p, 0 <= p < nb -> array_read p dst = Some (partner nb p).
Proof.
  intros Hnb. destruct (pair_loop max_ports (Z.to_nat nb)) as ([[dst last] k] & Hst & -> & Hlen & Hlast & Hdst); [lia|].
  rewrite Z2Nat.id in * by lia. unfold pair_ports. rewrite Hst, mod2_even. unfold partner. destruct (Z.even nb) eqn:E.
  - exists dst. split_and!; [done|done|]. intros p Hp. rewrite Hdst by done. destruct (Z.even p) eqn:Ep; [|done].
    destruct (Z.ltb_spec (p + 1) nb); [done|]. replace nb with (Z.succ p) in E by lia. by rewrite Z.even_succ, <- Z.negb_even, Ep in E.
  - specialize (Hlast eq_refl). subst last. assert (nb <> 0) by (intros ->; done).
    destruct (array_write_Some (nb - 1) (nb - 1) dst) as (d & Hd & Ld); [lia|]. exists d. split_and!; [done|lia|].
    intros p Hp. rewrite (array_read_write _ _ _ _ _ Hd). destruct (Z.eqb_spec p (nb - 1)) as [->|].
    + rewrite Z.sub_1_r, Z.even_pred, <- Z.negb_even, E. cbn. destruct (Z.ltb_spec (Z.pred nb + 1) nb); [lia|done].
    + rewrite Hdst by lia. destruct (Z.even p) eqn:Ep; [|done].
      destruct (Z.ltb_spec (p + 1) nb); [done|lia].
Qed.

(** *** Logical cores *)

Section lcores.
Context (max_lcore : nat) (enabled : nat -> bool) (q : nat).

Definition full (k : nat) (ports : list Z) : Prop := enabled k = false \/ length ports = q.

Lemma next_lcore_spec conf n i :
  (i + n <= length conf)%nat ->
  match next_lcore enabled q conf n i with
  | Some j => exists ports, conf !! j = Some ports /\ (i <= j)%nat /\ enabled j = true /\ length ports <> q /\
      forall k l, (i <= k < j)%nat -> conf !! k = Some l -> full k l
  | None => forall k l, (i <= k < i + n)%nat -> conf !! k = Some l -> full k l
  end.
Proof.
  revert i. induction n as [|n IH]; intros i Hn; cbn [next_lcore]; [intros k l Hk; lia|].
  destruct (lookup_lt_is_Some_2 conf i) as [ports Hp]; [lia|]. rewrite Hp.
  destruct (negb (enabled i) || (length ports =? q)%nat) eqn:E.
  - assert (Hfull : full i ports).
    { apply orb_true_iff in E as [E|E]; [left; by destruct (enabled i)|right; by apply Nat.eqb_eq]. }
    assert (Hext : forall b, (forall k l, (S i <= k < b)%nat -> conf !! k = Some l -> full k l) ->
      forall k l, (i <= k < b)%nat -> conf !! k = Some l -> full k l).
    { intros b Hb k l Hk Hl. destruct (decide (k = i)) as [->|Hne]; [congruence|]. apply (Hb k l); [lia|done]. }
    specialize (IH (S i)). destruct (next_lcore _ _ _ _ _) as [j|].
    + destruct IH as (l & Hl & Hj & He & Hq & Hk); [lia|]. exists l. split_and!; try done; [lia|]. by apply Hext.
    + replace (i + S n)%nat with (S i + n)%nat by lia. apply Hext, IH. lia.
  - apply orb_false_iff in E as [E1 E2]. exists ports. split_and!; [done|lia|by destruct (enabled i)|by apply Nat.eqb_neq|].
    intros k l Hk. lia.
Qed.

(** [next_lcore] is what the search finds. *)
Lemma search_finds conf n i j :
  Z.of_nat (i + n) < 2 ^ 32 -> next_lcore enabled q conf n i = Some j ->
  search_lcore enabled q conf n (Z.of_nat i) = Some (Z.of_nat j).
Proof.
  revert i. induction n as [|n IH]; intros i Hi; cbn [next_lcore search_lcore]; [done|]. unfold lcore_skipped. rewrite Nat2Z.id.
  destruct (conf !! i) as [ports|]; [|done]. destruct (negb (enabled i) || _); [|by intros [= ->]].
  intros Hn. unfold u32. rewrite uint_small by (unfold in_u; lia).
  replace (Z.of_nat i + 1) with (Z.of_nat (S i)) by lia. apply IH; [lia|done].
Qed.

Lemma search_endless conf :
  (forall k ports, conf !! k = Some ports -> full k ports) -> forall n i, search_lcore enabled q conf n i = None.
Proof.
  intros Hfull. induction n as [|n IH]; intros i; cbn [search_lcore]; [done|]. unfold lcore_skipped.
  destruct (conf !! Z.to_nat i) as [ports|] eqn:Hi; [|apply IH].
  destruct (Hfull _ _ Hi) as [-> | ->]; cbn [negb orb]; rewrite ?Nat.eqb_refl, ?orb_true_r; apply IH.
Qed.

(** Cores before the current one are full or not enabled, those behind it are empty. *)
Definition core_ok (i k : nat) (ports : list Z) : Prop :=
  (length ports <= if enabled k then q else 0)%nat /\ ((k < i)%nat -> full k ports) /\ ((i < k)%nat -> ports = []).

Definition cores_ok (p : Z) (st : nat * list (list Z)) : Prop :=
  let (i, conf) := st in
  (i <= length conf)%nat /\ length conf = max_lcore /\ concat conf = seqZ 0 p /\
  forall k ports, conf !! k = Some ports -> core_ok i k ports.

Lemma concat_nil {A} (l : list (list A)) : (forall x, x ∈ l -> x = []) -> concat l = [].
Proof.
  induction l as [|x l IH]; intros H; [done|]. cbn. rewrite (H x ltac:(left)). apply IH. intros y Hy. apply H. by right.
Qed.

Lemma concat_insert_snoc (conf : list (list Z)) j ports x :
  conf !! j = Some ports -> (forall k l, (j < k)%nat -> conf !! k = Some l -> l = []) ->
  concat (<[j := ports ++ [x]]> conf) = concat conf ++ [x].
Proof.
  intros Hj Hk. rewrite <- (take_drop_middle conf j ports Hj) at 2. rewrite insert_take_drop by by eapply lookup_lt_Some.
  rewrite !concat_app. cbn [concat]. rewrite (concat_nil (drop (S j) conf)), !app_nil_r, app_assoc; [done|].
  intros l (k & Hl)%list_elem_of_lookup. rewrite lookup_drop in Hl. apply (Hk (S j + k)%nat); [lia|done].
Qed.

Lemma lcore_step_ok p st :
  (q < MAX_RX_QUEUE_PER_LCORE)%nat -> 0 <= p -> cores_ok p st ->
  match lcore_step max_lcore enabled q p st with
  | Some st' => cores_ok (p + 1) st'
  | None => forall k ports, snd st !! k = Some ports -> length ports = if enabled k then q else 0%nat
  end.
Proof.
  destruct st as [i conf]. intros Hq Hp (Hi & Hlen & Hcat & Hok). unfold lcore_step. cbn [snd].
  pose proof (next_lcore_spec conf (max_lcore - i) i) as Hnext. destruct (next_lcore _ _ _ _ _) as [j|].
  - destruct Hnext as (ports & Hj & Hij & He & Hne & Hk); [lia|]. rewrite Hj.
    pose proof (Hok j ports Hj) as (Hle & _ & _). rewrite He in Hle.
    rewrite (proj2 (Nat.ltb_lt _ _)) by lia. pose proof (lookup_lt_Some _ _ _ Hj) as Hjl. unfold cores_ok. split_and!.
    + rewrite length_insert. lia.
    + by rewrite length_insert.
    + rewrite (concat_insert_snoc conf j ports p Hj), Hcat.
      * rewrite <- (Z2Nat.id p Hp). replace (Z.of_nat (Z.to_nat p) + 1) with (Z.of_nat (S (Z.to_nat p))) by lia.
        by rewrite seqZ_S.
      * intros k l Hjk Hl. apply (Hok k l Hl). lia.
    + intros k l Hl. destruct (decide (k = j)) as [->|Hkj].
      * rewrite list_lookup_insert_eq in Hl by done. injection Hl as <-. unfold core_ok. rewrite He, length_app. cbn [length].
        split_and!; lia.
      * rewrite list_lookup_insert_ne in Hl by done. destruct (Hok k l Hl) as (H1 & H2 & H3). split_and!; [done| |].
        -- intros Hkj'. destruct (decide (k < i)%nat); [by apply H2|]. apply (Hk k l); [lia|done].
        -- intros Hjk. apply H3. lia.
  - intros k ports Hl. destruct (Hok k ports Hl) as (H1 & H2 & _).
    assert (Hf : full k ports).
    { destruct (decide (k < i)%nat); [by apply H2|]. apply (Hnext ltac:(lia) k ports); [|done].
      pose proof (lookup_lt_Some _ _ _ Hl). lia. }
    destruct Hf as [Hf|Hf]; [rewrite Hf in *; lia|]. destruct (enabled k); lia.
Qed.

(** The ports that the enabled cores can take. *)
Definition capacity : nat := q * length (List.filter enabled (seq 0 max_lcore)).

Lemma concat_length_le (conf : list (list Z)) off (exact : bool) :
  (forall k ports, conf !! k = Some ports ->
     if exact then length ports = (if enabled (off + k) then q else 0%nat) else (length ports <= if enabled (off + k) then q else 0)%nat) ->
  let c := (q * length (List.filter enabled (seq off (length conf))))%nat in
  if exact then length (concat conf) = c else (length (concat conf) <= c)%nat.
Proof.
  revert off. induction conf as [|ports conf IH]; intros off H; cbn zeta; [destruct exact; cbn; lia|].
  cbn [concat length seq List.filter]. rewrite length_app. pose proof (H 0%nat ports eq_refl) as H0. rewrite Nat.add_0_r in H0.
  specialize (IH (S off)). cbn zeta in IH.
  assert (IH' := IH ltac:(intros k l Hl; specialize (H (S k) l Hl); by rewrite Nat.add_succ_r in H)).
  destruct exact, (enabled off); cbn [length]; lia.
Qed.

(** One of the first [n] ports waits for ever: the search after the ports before it. *)
Definition lcore_waits (n : nat) : Prop :=
  exists (p i : nat) conf, (p < n)%nat /\
    foldM (lcore_step max_lcore enabled q) (seqZ 0 (Z.of_nat p)) (0%nat, replicate max_lcore []) = Some (i, conf) /\
    forall m, search_lcore enabled q conf m (Z.of_nat i) = None.

Lemma lcore_loop (n : nat) :
  (q < MAX_RX_QUEUE_PER_LCORE)%nat ->
  match foldM (lcore_step max_lcore enabled q) (seqZ 0 (Z.of_nat n)) (0%nat, replicate max_lcore []) with
  | Some st => (n <= capacity)%nat /\ cores_ok (Z.of_nat n) st
  | None => (capacity < n)%nat /\ lcore_waits n
  end.
Proof.
  intros Hq. induction n as [|n IH].
  - split; [lia|]. unfold cores_ok. rewrite length_replicate. split_and!; [lia|done|by induction max_lcore|].
    intros k ports Hk. apply lookup_replicate in Hk as [-> _]. unfold core_ok. cbn. split_and!; [lia|lia|done].
  - rewrite seqZ_S, foldM_app. destruct (foldM _ (seqZ 0 (Z.of_nat n)) _) as [st|] eqn:E.
    2: { destruct IH as [Hc (p & i & conf & Hp & Hrest)]. split; [lia|]. exists p, i, conf. split; [lia|done]. }
    destruct IH as [Hn Hok]. cbn [foldM]. rewrite Z.add_0_l.
    pose proof (lcore_step_ok (Z.of_nat n) st Hq ltac:(lia) Hok) as Hstep.
    destruct (lcore_step max_lcore enabled q (Z.of_nat n) st) as [[i conf]|].
    + assert (Hok' : cores_ok (Z.of_nat (S n)) (i, conf)) by (by rewrite Nat2Z.inj_succ, <- Z.add_1_r).
      split; [|done]. destruct Hok' as (_ & Hlen & Hcat & Hall).
      pose proof (concat_length_le conf 0 false ltac:(intros k l Hl; by apply (Hall k l Hl))) as Hle. cbn zeta in Hle.
      rewrite Hcat, length_seqZ, Hlen in Hle. unfold capacity. lia.
    + destruct st as [i conf]. destruct Hok as (_ & Hlen & Hcat & _). cbn [snd] in Hstep.
      pose proof (concat_length_le conf 0 true Hstep) as Heq. cbn zeta in Heq. rewrite Hcat, length_seqZ, Hlen in Heq.
      split; [unfold capacity; lia|]. exists n, i, conf. split_and!; [lia|done|]. intros m. apply search_endless. intros k l Hl.
      unfold full. pose proof (Hstep k l Hl) as Hk. destruct (enabled k); [by right|by left].
Qed.
End lcores.

Lemma assign_lcores_spec max_lcore enabled q nb :
  0 <= nb -> (q < MAX_RX_QUEUE_PER_LCORE)%nat ->
  match assign_lcores max_lcore enabled q nb with
  | Some conf => nb <= Z.of_nat (capacity max_lcore enabled q) /\ length conf = max_lcore /\ concat conf = seqZ 0 nb /\
      forall k ports, conf !! k = Some ports -> (length ports <= if enabled k then q else 0)%nat
  | None => Z.of_nat (capacity max_lcore enabled q) < nb /\ lcore_waits max_lcore enabled q (Z.to_nat nb)
  end.
Proof.
  intros Hnb Hq. pose proof (lcore_loop max_lcore enabled q (Z.to_nat nb) Hq) as H. rewrite Z2Nat.id in H by done.
  unfold assign_lcores. destruct (foldM _ _ _) as [[i conf]|]; cbn; [|split; [lia|apply H]].
  destruct H as (Hc & _ & Hlen & Hcat & Hok). split_and!; try done; [lia|]. intros k ports Hk. by apply (Hok k ports Hk).
Qed.

Lemma drain_ports nb dst ports :
  (forall p, 0 <= p < nb -> array_read p dst = Some (partner nb p)) -> (forall p, p ∈ ports -> 0 <= p < nb) ->
  drain dst ports = Some (map (partner nb) ports).
Proof.
  intros Hdst. unfold drain. induction ports as [|p ports IH]; intros Hp; [done|]. cbn [mapM map].
  rewrite Hdst by (apply Hp; left). cbn. rewrite IH; [done|]. intros x Hx. apply Hp. by right.
Qed.

(** Every port is polled by exactly one core, and flushed once when all cores drain: the
    ports are distributed over the enabled cores in order, at most [q] each, and the
    flushes go to the partners of the polled ports, which are all ports again. That
    succeeds exactly when the cores can take all ports; with too few, or with the zero
    that an argument in error gives, the distribution does not end. *)
Lemma ports_polled_and_drained max_ports max_lcore enabled q nb :
  0 <= nb <= Z.of_nat max_ports -> (q < MAX_RX_QUEUE_PER_LCORE)%nat ->
  match assign_lcores max_lcore enabled q nb with
  | Some conf =>
      nb <= Z.of_nat (capacity max_lcore enabled q) /\ concat conf = seqZ 0 nb /\
      (forall k ports, conf !! k = Some ports -> (length ports <= if enabled k then q else 0)%nat) /\
      exists dst flushes, pair_ports max_ports nb = Some dst /\ mapM (drain dst) conf = Some flushes /\
        concat flushes ≡ₚ seqZ 0 nb
  | None => Z.of_nat (capacity max_lcore enabled q) < nb /\ lcore_waits max_lcore enabled q (Z.to_nat nb)
  end.
Proof.
  intros Hnb Hq. pose proof (assign_lcores_spec max_lcore enabled q nb ltac:(lia) Hq) as H.
  destruct (assign_lcores _ _ _ _) as [conf|]; [|done]. destruct H as (Hc & _ & Hcat & Hle). split_and!; [done..|].
  destruct (pair_ports_spec max_ports nb Hnb) as (dst & Hdst & _ & Hread). exists dst, (map (map (partner nb)) conf).
  split_and!; [done| |rewrite <- concat_map, Hcat; apply partner_permutation].
  assert (Hin : forall p, p ∈ concat conf -> 0 <= p < nb) by (intros p; rewrite Hcat, elem_of_seqZ; lia).
  clear -Hread Hin. induction conf as [|ports conf IH]; [done|]. cbn [mapM map].
  rewrite (drain_ports nb dst ports Hread); [|intros p Hp; apply Hin; cbn; by apply elem_of_app; left]. cbn.
  rewrite IH; [done|]. intros p Hp. apply Hin. cbn. apply elem_of_app. by right.
Qed.

(** ** A round of the main loop *)

(** The frames of a round, in the order they are taken. *)
Definition taken (rx : Z -> list frame) (rx_ports : list Z) : list (frame * Z) :=
  concat (map (fun p => map (fun m => (m, p)) (rx p)) rx_ports).

Lemma round_forwards nb_ports drain_tsc timer_period dst_ports master cur_tsc rx rx_ports l l' :
  main_loop_round nb_ports drain_tsc timer_period dst_ports master cur_tsc rx rx_ports l = Some l' ->
  forward_all nb_ports (taken rx rx_ports) (sw l) = Some (sw l').
Proof.
  unfold main_loop_round. destruct (if drains _ _ _ then _ else _) as [drained|]; [|done]. cbn [mbind option_bind].
  destruct (poll nb_ports rx rx_ports (sw l)) as [s|] eqn:Hs; [|done]. intros [= <-]. cbn [sw].
  rewrite <- Hs. generalize (sw l). unfold taken, forward_all, poll. clear. induction rx_ports as [|p rx_ports IH]; intros s; [done|].
  cbn [map concat foldM]. rewrite foldM_app.
  assert (Hp : foldM (fun f => l2fwd_learning_forward nb_ports (fst f) (snd f)) (map (fun m => (m, p)) (rx p)) s =
    foldM (fun m => l2fwd_learning_forward nb_ports m p) (rx p) s).
  { generalize (rx p) s. clear. induction l as [|m l IH]; intros s; [done|]. cbn. destruct (l2fwd_learning_forward _ _ _ _); [apply IH|done]. }
  rewrite Hp. destruct (foldM _ (rx p) s); [apply IH|done].
Qed.

(** A core that runs alone sends what the switch sends for its frames, in order. *)
Lemma main_loop_forwards nb_ports drain_tsc timer_period dst_ports master rx_ports rounds l l' :
  l2fwd_main_loop nb_ports drain_tsc timer_period dst_ports master rx_ports rounds l = Some l' ->
  forward_all nb_ports (concat (map (fun r => taken (snd r) rx_ports) rounds)) (sw l) = Some (sw l').
Proof.
  assert (Hgo : foldM (fun r => main_loop_round nb_ports drain_tsc timer_period dst_ports master (fst r) (snd r) rx_ports) rounds l = Some l' ->
    forward_all nb_ports (concat (map (fun r => taken (snd r) rx_ports) rounds)) (sw l) = Some (sw l')).
  { revert l. induction rounds as [|[t rx] rounds IH]; intros l; cbn [foldM map concat fst snd]; [by intros [= ->]|].
    destruct (main_loop_round _ _ _ _ _ _ _ _ l) as [l1|] eqn:H1; [|done]. intros H2.
    unfold forward_all. rewrite foldM_app. pose proof (round_forwards _ _ _ _ _ _ _ _ _ _ H1) as Hr. unfold forward_all in Hr.
    rewrite Hr. apply (IH l1 H2). }
  unfold l2fwd_main_loop. destruct rx_ports; [|exact Hgo]. intros [= <-]. clear Hgo. by induction rounds.
Qed.

(** ** Several cores, one table

    The table and its counter are shared by the cores, without a lock.  A core reads the
    table, then writes the address, the type and the port of the entry at the counter,
    which it reads for each of them, and then counts. *)
Inductive core_pc :=
| CoreScan (f : frame * Z) | CoreAddr (a : mac) (portid : Z) | CoreType (portid : Z) | CorePort (portid : Z) | CoreCount | CoreDone.

Record cores := mkCores { shared_table : list mac_table_entry; shared_counter : Z; core_pcs : list core_pc }.

Definition set_addr (a : mac) (e : mac_table_entry) : mac_table_entry := mkEntry (vlan e) a (type e) (port e).
Definition set_type (t : Z) (e : mac_table_entry) : mac_table_entry := mkEntry (vlan e) (d_addr e) t (port e).
Definition set_port (p : Z) (e : mac_table_entry) : mac_table_entry := mkEntry (vlan e) (d_addr e) (type e) p.

(** A change of the entry at the counter, after which core [c] is at [pc]. *)
Definition core_write (c : nat) (f : mac_table_entry -> mac_table_entry) (pc : core_pc) (s : cores) : option cores :=
  match array_update (shared_counter s) f (shared_table s) with
  | Some table => Some (mkCores table (shared_counter s) (<[c := pc]> (core_pcs s)))
  | None => None
  end.

Definition core_next (c : nat) (s : cores) : option cores :=
  match core_pcs s !! c with
  | Some (CoreScan f) =>
      let found := mac_add (scan_table (fst f) (shared_table s) (mkScan false false [] 0)) in
      Some (mkCores (shared_table s) (shared_counter s)
        (<[c := if found then CoreDone else CoreAddr (src_of (fst f)) (snd f)]> (core_pcs s)))
  | Some (CoreAddr a portid) => core_write c (set_addr a) (CoreType portid) s
  | Some (CoreType portid) => core_write c (set_type DYNAMIC) (CorePort portid) s
  | Some (CorePort portid) => core_write c (set_port portid) CoreCount s
  | Some CoreCount => Some (mkCores (shared_table s) (u32 (shared_counter s + 1)) (<[c := CoreDone]> (core_pcs s)))
  | _ => None
  end.

Lemma scan_mac_add m table c1 c2 : mac_add c1 = mac_add c2 -> mac_add (scan_table m table c1) = mac_add (scan_table m table c2).
Proof.
  revert c1 c2. unfold scan_table. induction table as [|e table IH]; intros c1 c2 H; [done|]. cbn [fold_left]. apply IH.
  unfold scan_entry. by destruct (decide (d_addr e = src_of m)), (decide (d_addr e = dst_of m)).
Qed.

Lemma core_write_next c f pc pc' s x :
  core_pcs s !! c = Some pc' -> array_read (shared_counter s) (shared_table s) = Some x ->
  exists s', core_write c f pc s = Some s' /\ shared_counter s' = shared_counter s /\ core_pcs s' !! c = Some pc /\
    core_pcs s' = <[c := pc]> (core_pcs s) /\ array_read (shared_counter s') (shared_table s') = Some (f x) /\
    shared_table s' = <[Z.to_nat (shared_counter s) := f x]> (shared_table s).
Proof.
  intros Hc Hx. unfold core_write. pose proof (array_update_Some _ f _ _ Hx) as Hu. rewrite Hu. eexists. split; [reflexivity|].
  cbn [shared_counter core_pcs shared_table]. split_and!; [done| |done|by apply (array_read_update _ f _ _ x Hx Hu)|done].
  apply list_lookup_insert_eq. by apply lookup_lt_Some in Hc.
Qed.

(** A core that is not disturbed does to the table and the counter what
    [l2fwd_learning_forward] does. *)
Lemma core_alone nb_ports f s s' c cs :
  l2fwd_learning_forward nb_ports (fst f) (snd f) s = Some s' ->
  core_pcs cs !! c = Some (CoreScan f) -> shared_table cs = mac_fwd_table s -> shared_counter cs = mac_counter s ->
  exists n, foldM core_next (replicate n c) cs =
    Some (mkCores (mac_fwd_table s') (mac_counter s') (<[c := CoreDone]> (core_pcs cs))).
Proof.
  intros Hf Hc Ht Hn. unfold l2fwd_learning_forward in Hf.
  set (c0 := mkScan false false [] (packet_counter s)) in Hf.
  pose proof (scan_mac_add (fst f) (mac_fwd_table s) (mkScan false false [] 0) c0 eq_refl) as Hscan.
  destruct (mac_add (scan_table (fst f) (mac_fwd_table s) c0)) eqn:Hadd.
  - injection Hf as <-. exists 1%nat. cbn [replicate foldM]. unfold core_next. by rewrite Hc, Ht, Hscan, Hn.
  - destruct (array_read (mac_counter s) (mac_fwd_table s)) as [e|] eqn:He; [|done].
    assert (Hw : forall x, array_write (mac_counter s) x (mac_fwd_table s) = Some (<[Z.to_nat (mac_counter s) := x]> (mac_fwd_table s))).
    { intros x. unfold array_write. unfold array_read in He. by destruct (in_array _ _). }
    rewrite Hw in Hf. injection Hf as <-. exists 5%nat. cbn [replicate foldM mac_fwd_table mac_counter].
    unfold core_next at 1. rewrite Hc, Ht, Hscan, Hn.
    set (s1 := mkCores _ _ (<[c := _]> _)).
    assert (H1 : core_pcs s1 !! c = Some (CoreAddr (src_of (fst f)) (snd f))).
    { cbn. apply list_lookup_insert_eq. by apply lookup_lt_Some in Hc. }
    destruct (core_write_next c (set_addr (src_of (fst f))) (CoreType (snd f)) _ s1 e H1 He) as (s2 & E2 & N2 & C2 & P2 & R2 & T2).
    destruct (core_write_next c (set_type DYNAMIC) (CorePort (snd f)) _ s2 _ C2 R2) as (s3 & E3 & N3 & C3 & P3 & R3 & T3).
    destruct (core_write_next c (set_port (snd f)) CoreCount _ s3 _ C3 R3) as (s4 & E4 & N4 & C4 & P4 & R4 & T4).
    unfold core_next at 1. rewrite H1, E2. unfold core_next at 1. rewrite C2, E3. unfold core_next at 1. rewrite C3, E4.
    unfold core_next. rewrite C4, T4, N4, T3, N3, T2, N2, P4, P3, P2. unfold s1. cbn [shared_counter shared_table core_pcs].
    by rewrite !list_insert_insert_eq.
Qed.

(** ** Examples and witnesses *)

(** A frame between stations that differ in their last octet, sent from port [p]. *)
Definition station (n : Z) : mac := [222; 173; 190; 239; 0; n].
Definition frame_ex (dst src p : Z) : frame * Z := (station dst ++ station src ++ [8; 0], p).

(** The first frame floods; the answer and what follows go to one port. *)
Example learning1 :
  option_map (fun s => map fst (tx s)) (forward_all 4 [frame_ex 2 1 0; frame_ex 1 2 3; frame_ex 2 1 0] switch_init)
  = Some [1; 2; 3; 0; 3].
Proof. vm_compute. reflexivity. Qed.

(** A station that moves keeps its first port. *)
Example moved_station :
  option_map (fun s => map fst (tx s)) (forward_all 2 [frame_ex 2 1 0; frame_ex 2 1 1; frame_ex 1 2 1] switch_init)
  = Some [1; 0; 0].
Proof. vm_compute. reflexivity. Qed.

(** A frame to the zero address is sent to port 0 once for every free entry. *)
Example zero_destination :
  option_map (fun s => length (tx s)) (forward_all 4 [(zero_mac ++ station 1 ++ [8; 0], 1)] switch_init) = Some 20%nat.
Proof. vm_compute. reflexivity. Qed.

(** Two cores that learn at once lose a station: both write the same entry, and the next
    one stays zero. *)
Definition two_cores_ex : cores := mkCores (replicate MAC_ENTRIES zero_entry) 0 [CoreScan (frame_ex 3 1 0); CoreScan (frame_ex 3 2 1)].

Example station_lost :
  option_map (fun s => (map d_addr (take 3 (shared_table s)), shared_counter s)) (foldM core_next [0; 1; 0; 1; 0; 1; 0; 1; 0; 1]%nat two_cores_ex)
  = Some ([station 2; zero_mac; zero_mac], 2).
Proof. vm_compute. reflexivity. Qed.

(** And an entry can have the address of one station and the port of another: station 2
    is at port 1. *)
Example entry_torn :
  option_map (fun s => take 1 (shared_table s)) (foldM core_next [0; 1; 0; 1; 1; 1; 0; 0; 0; 1]%nat two_cores_ex)
  = Some [mkEntry 0 (station 2) DYNAMIC 0].
Proof. vm_compute. reflexivity. Qed.

(** A locally usual address, 00:00:00:00:00:01, is learnt but not shown. *)
Example zero_first_octet :
  option_map (fun s => (mac_counter s, shown s)) (forward_all 4 [(station 2 ++ [0; 0; 0; 0; 0; 1] ++ [8; 0], 1)] switch_init) = Some (1, [[]]).
Proof. vm_compute. reflexivity. Qed.

(** The counter of frames adds three for a flood, also of two ports. *)
Example counts_three : option_map packet_counter (forward_all 2 [frame_ex 2 1 0] switch_init) = Some 3.
Proof. vm_compute. reflexivity. Qed.

Definition many (n : nat) : list (frame * Z) := map (fun k => frame_ex 1 (1 + Z.of_nat k) 0) (seq 0 n).

Example twenty_stations : option_map mac_counter (forward_all 4 (many 20) switch_init) = Some 20.
Proof. vm_compute. reflexivity. Qed.

Example twenty_first_station : forward_all 4 (many 21) switch_init = None.
Proof. vm_compute. reflexivity. Qed.

Lemma forward_all_learns_witness :
  match forward_all 4 (many 3) switch_init with
  | Some s => tx s = route_all 4 (many 3) ∅
  | None => False
  end.
Proof.
  pose proof (forward_all_learns 4 (many 3)) as H.
  destruct (forward_all 4 (many 3) switch_init) as [s|] eqn:E; [|vm_compute in E; discriminate E].
  apply H. repeat constructor; vm_compute; discriminate.
Defined.

(** Four ports over two cores, of which the second and the third are enabled. *)
Example cores1 :
  assign_lcores 4 (fun k => (1 <=? k)%nat && (k <=? 2)%nat) 2 4 = Some [[]; [0; 1]; [2; 3]; []].
Proof. vm_compute. reflexivity. Qed.

Example cores_none : assign_lcores 4 (fun _ => true) 0 1 = None.
Proof. vm_compute. reflexivity. Qed.
