(* ===== verification/L2arp.v ===== *)
(** * Answering ARP requests

    Models [l2fwd_arp_reply] and [port_ip_lookup] of [l2fwd_daniel/main.c].  The table of
    addresses is an array of triples and a counter that turns around.  The data room of
    a frame is longer than an ARP frame, so that every byte read is there.  The address
    of a port, and the buffer that the pool gives with the bytes that nothing writes, are
    arguments; queueing and freeing are recorded. *)

From stdpp Require Import gmap.
From S2P Require Import Prelude CArray L2fwd.

(** ** The frame *)

Definition byte_at (i : nat) (data : list Z) : Z := nth i data 0.

(** [(b0 << 8) | b1] and so on. *)
Fixpoint be_value (bs : list Z) : Z :=
  match bs with [] => 0 | b :: bs => Z.lor (Z.shiftl b (8 * Z.of_nat (length bs))) (be_value bs) end.

Definition field_bytes (i n : nat) (data : list Z) : list Z := map (fun k => byte_at (i + k) data) (seq 0 n).
Definition be_field (i n : nat) (data : list Z) : Z := be_value (field_bytes i n data).

Definition HW_TYPE_ETHERNET : Z := 1.
Definition ETHER_TYPE_IPv4 : Z := 2048.
Definition ARP_ENTRIES : nat := 100.
Definition ETHER_HDR_LEN : nat := 14.

(** A row: protocol type, protocol address, hardware address. *)
Definition arp_row : Type := Z * Z * Z.
Definition zero_row : arp_row := (0, 0, 0).

Inductive mbuf_call := TxBuffer (port : Z) (m : frame) | Free (m : frame).

Record arp_state := mkArp { arp_table : list arp_row; arp_counter : Z; calls : list mbuf_call }.

Definition arp_init : arp_state := mkArp (replicate ARP_ENTRIES zero_row) 0 [].

(** The third octet of the address is the number of the port, from one. *)
Definition port_ip_lookup (trg_ptcl_addr portid : Z) : Z :=
  if u32 (portid + 1) =? Z.shiftr (u32 (Z.shiftl trg_ptcl_addr 16)) 24 then 0 else 1.

(** The loop over the table: a known address gets the new hardware address. *)
Definition arp_row_step (ptcl_type addr hw : Z) (r : arp_row) : arp_row :=
  if (fst (fst r) =? ptcl_type) && (snd (fst r) =? addr) then (fst r, hw) else r.
Definition arp_known (ptcl_type addr : Z) (table : list arp_row) : bool :=
  existsb (fun r => (fst (fst r) =? ptcl_type) && (snd (fst r) =? addr)) table.

(** The reply, on a little-endian machine: the Ethernet header with the type 0x0608 as it
    is in memory, and the ARP data. *)
Definition arp_reply (d_addr s_addr : mac) (portid : Z) (rest : list Z) : frame :=
  d_addr ++ s_addr ++ [8; 6] ++ [0; 1; 8; 0; 6; 4; 0; 2] ++ s_addr ++ [192; 168; u8 (portid + 1); 254]
  ++ d_addr ++ [192; 168; u8 (portid + 1); 2] ++ rest.

Section arp.
Context (macaddr : Z -> mac).

(** [pool] is what [rte_pktmbuf_alloc] gives: no buffer, or one with the bytes that are not
    written.  The code does not look: without a buffer it writes at address zero. *)
Definition l2fwd_arp_reply (m : frame) (portid : Z) (pool : option (list Z)) (s : arp_state) : option arp_state :=
  let arp_data := drop 14 m in
  let trg_ptcl_addr := be_field 24 4 arp_data in
  if negb (port_ip_lookup trg_ptcl_addr portid =? 0) then Some s
  else
    let hw_type := be_field 0 2 arp_data in
    let ptcl_type := be_field 2 2 arp_data in
    let op_code := be_field 6 2 arp_data in
    let src_hw_addr := be_field 8 6 arp_data in
    let src_ptcl_addr := be_field 14 4 arp_data in
    let counter := if Z.of_nat ARP_ENTRIES <=? arp_counter s then 0 else arp_counter s in
    if negb (hw_type =? HW_TYPE_ETHERNET) then Some (mkArp (arp_table s) counter (calls s))
    else if negb (ptcl_type =? ETHER_TYPE_IPv4) then Some (mkArp (arp_table s) counter (calls s))
    else
      let found := arp_known ptcl_type src_ptcl_addr (arp_table s) in
      let table := map (arp_row_step ptcl_type src_ptcl_addr src_hw_addr) (arp_table s) in
      let stored :=
        if found then Some (table, counter)
        else option_map (fun t => (t, u32 (counter + 1))) (array_write counter (ptcl_type, src_ptcl_addr, src_hw_addr) table) in
      match stored with
      | None => None
      | Some (table, counter) =>
          if negb (op_code =? 1) then Some (mkArp table counter (calls s))
          else
            match pool with
            | Some rest =>
                let reply := arp_reply (field_bytes 8 6 arp_data) (macaddr portid) portid rest in
                Some (mkArp table counter (calls s ++ [TxBuffer portid reply; Free reply]))
            | None => None
            end
      end.

(** Frames in the order they are taken, each with its port and what the pool gives. *)
Definition arp_event : Type := frame * Z * option (list Z).

Definition arp_handle (e : arp_event) (s : arp_state) : option arp_state := l2fwd_arp_reply (fst (fst e)) (snd (fst e)) (snd e) s.

Definition arp_all (es : list arp_event) (s : arp_state) : option arp_state := foldM arp_handle es s.

(** ** What the table means *)

(** A frame that reaches the table. *)
Definition accepted (m : frame * Z) : bool :=
  let arp_data := drop 14 (fst m) in
  (port_ip_lookup (be_field 24 4 arp_data) (snd m) =? 0) && (be_field 0 2 arp_data =? HW_TYPE_ETHERNET)
  && (be_field 2 2 arp_data =? ETHER_TYPE_IPv4).

(** A request among them. *)
Definition wants_reply (m : frame * Z) : bool := accepted m && (be_field 6 2 (drop 14 (fst m)) =? 1).

Definition sender_ip (m : frame * Z) : Z := be_field 14 4 (drop 14 (fst m)).
Definition sender_hw (m : frame * Z) : Z := be_field 8 6 (drop 14 (fst m)).

(** The hardware address each sender last gave. *)
Definition hear (m : frame * Z) (H : gmap Z Z) : gmap Z Z :=
  if accepted m then <[sender_ip m := sender_hw m]> H else H.

Definition hear_all (ms : list (frame * Z)) (H : gmap Z Z) : gmap Z Z := fold_left (fun H m => hear m H) ms H.

Definition row_of (a : Z * Z) : arp_row := (ETHER_TYPE_IPv4, fst a, snd a).

(** Rows in use come first; there are as many as senders, until the table is full. *)
Record arp_ok (used : list (Z * Z)) (s : arp_state) (H : gmap Z Z) : Prop := mkArpOk {
  A_table : arp_table s = map row_of used ++ replicate (ARP_ENTRIES - length used) zero_row;
  A_length : length used = (size H `min` ARP_ENTRIES)%nat;
  A_nodup : NoDup (map fst used);
  A_last a : a ∈ used -> H !! fst a = Some (snd a);
  A_counter : 0 <= arp_counter s <= Z.of_nat ARP_ENTRIES;
  A_free : (length used < ARP_ENTRIES)%nat -> arp_counter s = Z.of_nat (length used)
}.

Lemma arp_init_ok : arp_ok [] arp_init ∅.
Proof. split; try done; [apply NoDup_nil_2|by intros a ?%not_elem_of_nil]. Qed.

(** While the table is not full it knows all senders. *)
Lemma arp_complete used s (H : gmap Z Z) a :
  arp_ok used s H -> (size H <= ARP_ENTRIES)%nat -> is_Some (H !! a) -> a ∈ map fst used.
Proof.
  intros HA Hsize Ha. apply elem_of_dom in Ha. pose proof (A_length _ _ _ HA) as Hlen.
  assert (Hsub : (list_to_set (map fst used) : gset Z) ⊆ dom H).
  { intros x. rewrite elem_of_list_to_set, list_elem_of_fmap. intros (y & -> & Hy). apply elem_of_dom.
    rewrite (A_last _ _ _ HA y Hy). by eexists. }
  assert (Heq : (list_to_set (map fst used) : gset Z) ≡ dom H).
  { apply set_subseteq_size_equiv; [done|]. rewrite size_dom, size_list_to_set by apply (A_nodup _ _ _ HA).
    rewrite length_map. lia. }
  rewrite <- Heq in Ha. by apply elem_of_list_to_set in Ha.
Qed.

Lemma row_step_same hw used n ip :
  ip ∉ map fst used -> map (arp_row_step ETHER_TYPE_IPv4 ip hw) (map row_of used ++ replicate n zero_row) = map row_of used ++ replicate n zero_row.
Proof.
  intros Hnot. rewrite map_app. f_equal.
  - induction used as [|[a h] used IH]; [done|]. cbn [map fst] in *. apply not_elem_of_cons in Hnot as [Hne Hnot].
    rewrite IH by done. unfold arp_row_step, row_of. cbn. by destruct (Z.eqb_spec a ip).
  - induction n as [|n IH]; [done|]. cbn [replicate map]. by rewrite IH.
Qed.

Definition renew (ip hw : Z) (a : Z * Z) : Z * Z := if fst a =? ip then (fst a, hw) else a.

Lemma renew_fst ip hw used : map fst (map (renew ip hw) used) = map fst used.
Proof. rewrite map_map. apply map_ext. intros [a h]. unfold renew. by destruct (_ =? _). Qed.

Lemma row_step_renew hw used n ip :
  map (arp_row_step ETHER_TYPE_IPv4 ip hw) (map row_of used ++ replicate n zero_row) = map row_of (map (renew ip hw) used) ++ replicate n zero_row.
Proof.
  rewrite map_app, !map_map. f_equal.
  - apply map_ext. intros [a h]. unfold arp_row_step, renew, row_of. cbn. by destruct (a =? ip).
  - induction n as [|n IH]; [done|]. cbn [replicate map]. by rewrite IH.
Qed.

Lemma arp_known_used used n ip :
  arp_known ETHER_TYPE_IPv4 ip (map row_of used ++ replicate n zero_row) = bool_decide (ip ∈ map fst used).
Proof.
  unfold arp_known. rewrite existsb_app. replace (existsb _ (replicate n zero_row)) with false by (by induction n).
  rewrite orb_false_r. induction used as [|[a h] used IH]; [done|]. cbn [map existsb row_of fst snd]. rewrite IH.
  change (ETHER_TYPE_IPv4 =? ETHER_TYPE_IPv4) with true. cbn [andb]. destruct (Z.eqb_spec a ip) as [->|Hne].
  - by rewrite (bool_decide_true (ip ∈ ip :: _)) by left.
  - apply bool_decide_ext. rewrite elem_of_cons. split; [by right|]. by intros [E|?]; [subst|].
Qed.

(** What a frame does to the table and the counter. *)
Definition arp_store (ip hw counter : Z) (table : list arp_row) : option (list arp_row * Z) :=
  if arp_known ETHER_TYPE_IPv4 ip table then Some (map (arp_row_step ETHER_TYPE_IPv4 ip hw) table, counter)
  else option_map (fun t => (t, u32 (counter + 1)))
    (array_write counter (ETHER_TYPE_IPv4, ip, hw) (map (arp_row_step ETHER_TYPE_IPv4 ip hw) table)).

Definition turned (counter : Z) : Z := if Z.of_nat ARP_ENTRIES <=? counter then 0 else counter.

Lemma turned_small counter : counter < Z.of_nat ARP_ENTRIES -> turned counter = counter.
Proof. intros H. unfold turned. destruct (Z.leb_spec (Z.of_nat ARP_ENTRIES) counter); lia. Qed.

Lemma turned_room used s (H : gmap Z Z) :
  arp_ok used s H -> exists c : nat, turned (arp_counter s) = Z.of_nat c /\ (c < ARP_ENTRIES)%nat.
Proof.
  intros HA. pose proof (A_counter _ _ _ HA). unfold turned.
  destruct (Z.leb_spec (Z.of_nat ARP_ENTRIES) (arp_counter s)); [exists 0%nat; split; [done|unfold ARP_ENTRIES; lia]|].
  exists (Z.to_nat (arp_counter s)). lia.
Qed.

(** The counter after a row is added. *)
Lemma counter_next (c : nat) : (c < ARP_ENTRIES)%nat -> u32 (Z.of_nat c + 1) = Z.of_nat (c + 1).
Proof. intros H. unfold u32. rewrite uint_small; unfold in_u, ARP_ENTRIES in *; lia. Qed.

Lemma heard_other used s (H : gmap Z Z) ip hw a :
  arp_ok used s H -> a ∈ used -> fst a <> ip -> <[ip := hw]> H !! fst a = Some (snd a).
Proof. intros HA Ha Hne. rewrite lookup_insert_ne by done. by apply (A_last _ _ _ HA). Qed.

Lemma not_key used (ip : Z) (a : Z * Z) : ip ∉ map fst used -> a ∈ used -> fst a <> ip.
Proof. intros Hnot Ha <-. destruct Hnot. apply list_elem_of_fmap. by exists a. Qed.

(** A sender that is known. *)
Lemma arp_renew_ok used s (H : gmap Z Z) ip hw cs :
  arp_ok used s H -> ip ∈ map fst used ->
  arp_ok (map (renew ip hw) used)
    (mkArp (map row_of (map (renew ip hw) used) ++ replicate (ARP_ENTRIES - length used) zero_row) (turned (arp_counter s)) cs)
    (<[ip := hw]> H).
Proof.
  intros HA Hin. pose proof (turned_room used s H HA) as (c & Hc & Hlt).
  assert (Hsome : is_Some (H !! ip)).
  { apply list_elem_of_fmap in Hin as (a & -> & Ha). rewrite (A_last _ _ _ HA a Ha). by eexists. }
  split; cbn [arp_table arp_counter]; rewrite ?length_map.
  - done.
  - rewrite map_size_insert_Some by done. apply (A_length _ _ _ HA).
  - rewrite renew_fst. apply (A_nodup _ _ _ HA).
  - intros a ([b h] & -> & Hb)%list_elem_of_fmap. unfold renew. cbn [fst]. destruct (Z.eqb_spec b ip) as [->|Hne].
    + cbn. by rewrite lookup_insert_eq.
    + by apply (heard_other used s H ip hw (b, h)).
  - lia.
  - intros Hu. pose proof (A_free _ _ _ HA Hu) as Hf. by rewrite Hf, turned_small by lia.
Qed.

(** A new sender, with room in the table. *)
Lemma arp_add_ok used s (H : gmap Z Z) ip hw cs :
  arp_ok used s H -> ip ∉ map fst used -> (length used < ARP_ENTRIES)%nat ->
  arp_ok (used ++ [(ip, hw)])
    (mkArp (<[length used := row_of (ip, hw)]> (map row_of used ++ replicate (ARP_ENTRIES - length used) zero_row))
      (Z.of_nat (length used + 1)) cs) (<[ip := hw]> H).
Proof.
  intros HA Hnot Hlt. pose proof (A_length _ _ _ HA) as Hlen. assert (Hnone : H !! ip = None).
  { destruct (H !! ip) eqn:E; [|done]. destruct Hnot. apply (arp_complete used s H ip HA); [lia|by eexists]. }
  split; cbn [arp_table arp_counter]; rewrite ?length_app; cbn [length].
  - rewrite map_app, <- app_assoc, insert_app_r_alt by (by rewrite length_map). rewrite length_map, Nat.sub_diag.
    destruct (ARP_ENTRIES - length used)%nat as [|n] eqn:En; [lia|].
    by replace (ARP_ENTRIES - (length used + 1))%nat with n by lia.
  - rewrite map_size_insert_None by done. lia.
  - rewrite map_app. apply NoDup_app. split_and!; [apply (A_nodup _ _ _ HA)| |apply NoDup_singleton].
    intros a Ha. by intros ->%list_elem_of_singleton.
  - intros a [Ha|Ha]%elem_of_app; [by apply (heard_other used s), (not_key used ip a)|].
    apply list_elem_of_singleton in Ha as ->. cbn. by rewrite lookup_insert_eq.
  - lia.
  - done.
Qed.

(** A new sender takes the row of another when the table is full. *)
Lemma arp_evict_ok used s (H : gmap Z Z) ip hw cs (c : nat) :
  arp_ok used s H -> ip ∉ map fst used -> length used = ARP_ENTRIES -> (c < ARP_ENTRIES)%nat ->
  arp_ok (<[c := (ip, hw)]> used) (mkArp (<[c := row_of (ip, hw)]> (map row_of used)) (Z.of_nat (c + 1)) cs) (<[ip := hw]> H).
Proof.
  intros HA Hnot Hfull Hc. pose proof (A_length _ _ _ HA) as Hlen.
  split; cbn [arp_table arp_counter]; rewrite ?length_insert.
  - rewrite Hfull, Nat.sub_diag. cbn [replicate]. rewrite app_nil_r. exact (eq_sym (list_fmap_insert row_of used c (ip, hw))).
  - destruct (H !! ip) eqn:E; [rewrite map_size_insert_Some by by eexists|rewrite map_size_insert_None by done]; lia.
  - change (NoDup (fst <$> <[c := (ip, hw)]> used)). rewrite list_fmap_insert. apply NoDup_insert; [apply (A_nodup _ _ _ HA)|done].
  - intros a (k & Hk)%list_elem_of_lookup. destruct (decide (k = c)) as [->|Hkc].
    + rewrite list_lookup_insert_eq in Hk by lia. injection Hk as <-. cbn. by rewrite lookup_insert_eq.
    + rewrite list_lookup_insert_ne in Hk by done. apply list_elem_of_lookup_2 in Hk.
      by apply (heard_other used s), (not_key used ip a).
  - lia.
  - lia.
Qed.

Lemma arp_store_ok used s (H : gmap Z Z) ip hw :
  arp_ok used s H ->
  exists used' table c, arp_store ip hw (turned (arp_counter s)) (arp_table s) = Some (table, c) /\
    (ip, hw) ∈ used' /\ forall cs, arp_ok used' (mkArp table c cs) (<[ip := hw]> H).
Proof.
  intros HA. pose proof (A_length _ _ _ HA) as Hlen. unfold arp_store. rewrite (A_table _ _ _ HA), arp_known_used.
  destruct (decide (ip ∈ map fst used)) as [Hin|Hnot].
  - rewrite bool_decide_true, row_step_renew by done. do 3 eexists. split; [reflexivity|].
    split; [|intros cs; by apply arp_renew_ok]. apply list_elem_of_fmap in Hin as ([a h] & -> & Ha).
    apply list_elem_of_fmap. exists (a, h). split; [|done]. unfold renew. cbn. by rewrite Z.eqb_refl.
  - rewrite bool_decide_false, row_step_same by done. destruct (decide (length used < ARP_ENTRIES)%nat) as [Hlt|Hge].
    + rewrite (A_free _ _ _ HA Hlt), turned_small by lia.
      rewrite array_write_nat by (rewrite length_app, length_map, length_replicate; lia). cbn [option_map].
      rewrite counter_next by done. do 3 eexists. split; [reflexivity|]. split; [|intros cs; by apply (arp_add_ok used s)].
      apply elem_of_app. right. by apply list_elem_of_singleton.
    + assert (Hfull : length used = ARP_ENTRIES) by lia. destruct (turned_room used s H HA) as (c & -> & Hc).
      rewrite Hfull, Nat.sub_diag. cbn [replicate]. rewrite app_nil_r, array_write_nat by (rewrite length_map; lia). cbn [option_map].
      rewrite counter_next by done. do 3 eexists. split; [reflexivity|]. split; [|intros cs; by apply (arp_evict_ok used s)].
      apply list_elem_of_lookup. exists c. by rewrite list_lookup_insert_eq by lia.
Qed.

(** ** A frame *)

(** What is sent for a frame. *)
Definition answer (e : arp_event) : list mbuf_call :=
  match wants_reply (fst e), snd e with
  | true, Some rest =>
      let (m, portid) := fst e in
      let reply := arp_reply (field_bytes 8 6 (drop 14 m)) (macaddr portid) portid rest in
      [TxBuffer portid reply; Free reply]
  | _, _ => []
  end.

Lemma arp_turned_ok used s (H : gmap Z Z) cs :
  arp_ok used s H -> arp_ok used (mkArp (arp_table s) (turned (arp_counter s)) cs) H.
Proof.
  intros HA. destruct (turned_room used s H HA) as (c & Hc & Hlt). pose proof HA as [Ht Hlen Hnd Hlast Hcr Hfree].
  split; cbn [arp_table arp_counter]; try done; [lia|]. intros Hu. rewrite (Hfree Hu). by rewrite turned_small by lia.
Qed.

Lemma arp_step used s (H : gmap Z Z) e :
  arp_ok used s H ->
  match arp_handle e s with
  | Some s' =>
      (exists used', arp_ok used' s' (hear (fst e) H) /\
         (accepted (fst e) = true -> (sender_ip (fst e), sender_hw (fst e)) ∈ used')) /\
      calls s' = calls s ++ answer e /\ (wants_reply (fst e) = true -> is_Some (snd e))
  | None => wants_reply (fst e) = true /\ snd e = None
  end.
Proof.
  destruct e as [[m portid] pool]. cbn [fst snd]. intros HA. unfold arp_handle, l2fwd_arp_reply, hear, answer, wants_reply, accepted, sender_ip, sender_hw.
  cbn [fst snd]. fold (turned (arp_counter s)).
  destruct (port_ip_lookup _ _ =? 0); cbn [negb andb]; [|split; [by exists used|by rewrite app_nil_r]].
  destruct (be_field 0 2 _ =? _); cbn [negb andb].
  2: { split; [exists used; split; [by apply arp_turned_ok|done]|]. cbn. by rewrite app_nil_r. }
  destruct (Z.eqb_spec (be_field 2 2 (drop 14 m)) ETHER_TYPE_IPv4) as [->|]; cbn [negb andb].
  2: { split; [exists used; split; [by apply arp_turned_ok|done]|]. cbn. by rewrite app_nil_r. }
  destruct (arp_store_ok used s H (be_field 14 4 (drop 14 m)) (be_field 8 6 (drop 14 m)) HA)
    as (used' & table & c & Hs & Hin & Hok).
  unfold arp_store in Hs. rewrite Hs. destruct (be_field 6 2 _ =? 1); cbn [negb andb].
  - destruct pool as [rest|]; [|done]. split; [exists used'; split; [apply Hok|done]|]. split; [done|by eexists].
  - split; [exists used'; split; [apply Hok|done]|]. cbn. by rewrite app_nil_r.
Qed.

(** Only a request that finds no buffer ends the program. *)
Lemma arp_all_steps es used s (H : gmap Z Z) :
  arp_ok used s H ->
  match arp_all es s with
  | Some s' => (exists used', arp_ok used' s' (hear_all (map fst es) H)) /\ calls s' = calls s ++ concat (map answer es) /\
      Forall (fun e => wants_reply (fst e) = true -> is_Some (snd e)) es
  | None => exists before m after, es = before ++ (m, None) :: after /\ wants_reply m = true /\ is_Some (arp_all before s)
  end.
Proof.
  revert used s H. induction es as [|e es IH]; intros used s H HA.
  - cbn. rewrite app_nil_r. split; [by exists used|by split].
  - pose proof (arp_step used s H e HA) as Hstep. unfold arp_all in *. cbn [foldM map].
    destruct (arp_handle e s) as [s1|] eqn:E.
    + destruct Hstep as ((used1 & HA1 & _) & Hc1 & Hp). specialize (IH used1 s1 _ HA1). destruct (foldM arp_handle es s1) as [s2|].
      * destruct IH as (HA2 & Hc2 & Hall). split; [exact HA2|]. split; [by rewrite Hc2, Hc1, <- app_assoc|by constructor].
      * destruct IH as (before & m & after & -> & Hm & Hb). exists (e :: before), m, after. split_and!; [done|done|]. cbn [foldM]. by rewrite E.
    + destruct Hstep as [Hw Hn]. destruct e as [m pool]. cbn [fst snd] in *. subst pool. exists [], m, es. split_and!; [done|done|by eexists].
Qed.

Lemma row_of_used used n ip hw :
  (ETHER_TYPE_IPv4, ip, hw) ∈ map row_of used ++ replicate n zero_row <-> (ip, hw) ∈ used.
Proof.
  rewrite elem_of_app. split.
  - intros [H|H]; [|by apply elem_of_replicate in H as [[=] _]]. apply list_elem_of_fmap in H as ([a h] & [= -> ->] & Ha). done.
  - intros H. left. apply list_elem_of_fmap. by exists (ip, hw).
Qed.

Lemma row_lookup used n i ip hw :
  (map row_of used ++ replicate n zero_row) !! i = Some (ETHER_TYPE_IPv4, ip, hw) -> used !! i = Some (ip, hw).
Proof.
  intros H. destruct (decide (i < length used)%nat) as [Hlt|Hge].
  - rewrite lookup_app_l in H by (by rewrite length_map). change (map row_of used) with (row_of <$> used) in H.
    rewrite list_lookup_fmap in H. destruct (used !! i) as [[a h]|]; [|done]. by injection H as -> ->.
  - rewrite lookup_app_r in H by (rewrite length_map; lia). by apply lookup_replicate in H as [[=] _].
Qed.

Lemma last_accepted es e s :
  arp_all (es ++ [e]) arp_init = Some s -> accepted (fst e) = true ->
  (ETHER_TYPE_IPv4, sender_ip (fst e), sender_hw (fst e)) ∈ arp_table s.
Proof.
  intros Hs Ha. pose proof (arp_all_steps es [] arp_init ∅ arp_init_ok) as H1. unfold arp_all in *. rewrite foldM_app in Hs.
  destruct (foldM arp_handle es arp_init) as [s1|]; [|done]. destruct H1 as ((used1 & HA1) & _).
  pose proof (arp_step used1 s1 _ e HA1) as H2. cbn [foldM] in Hs. destruct (arp_handle e s1) as [s2|]; [|done].
  injection Hs as <-. destruct H2 as ((used2 & HA2 & Hin) & _). rewrite (A_table _ _ _ HA2). apply row_of_used. by apply Hin.
Qed.

(** C12: The table is right and never overrun. Whatever frames arrive, on whatever ports: every
    access is in the table, and only a request to answer that finds no buffer in the pool
    ends the program. Until then a row gives the hardware address that its sender gave
    last, no sender has two rows, and the table has all senders while there are at most a
    hundred; the sender of the frame handled last is always there. *)
Theorem arp_all_right es :
  match arp_all es arp_init with
  | Some s => length (arp_table s) = ARP_ENTRIES /\
      (forall ip hw, (ETHER_TYPE_IPv4, ip, hw) ∈ arp_table s -> hear_all (map fst es) ∅ !! ip = Some hw) /\
      (forall i j ip h1 h2, arp_table s !! i = Some (ETHER_TYPE_IPv4, ip, h1) ->
         arp_table s !! j = Some (ETHER_TYPE_IPv4, ip, h2) -> i = j) /\
      ((size (hear_all (map fst es) ∅) <= ARP_ENTRIES)%nat ->
         forall ip hw, hear_all (map fst es) ∅ !! ip = Some hw -> (ETHER_TYPE_IPv4, ip, hw) ∈ arp_table s) /\
      (forall es0 e, es = es0 ++ [e] -> accepted (fst e) = true ->
         (ETHER_TYPE_IPv4, sender_ip (fst e), sender_hw (fst e)) ∈ arp_table s) /\
      (forall e, e ∈ es -> wants_reply (fst e) = true -> is_Some (snd e))
  | None => exists before m after, es = before ++ (m, None) :: after /\ wants_reply m = true /\ is_Some (arp_all before arp_init)
  end.
Proof.
  pose proof (arp_all_steps es [] arp_init ∅ arp_init_ok) as H. destruct (arp_all es arp_init) as [s|] eqn:Hs; [|done].
  destruct H as ((used & HA) & _ & Hpool). pose proof HA as [Ht Hlen Hnd Hlast _ _]. rewrite Ht. split_and!.
  - rewrite length_app, length_map, length_replicate. lia.
  - intros ip hw Hin. apply row_of_used in Hin. by apply (Hlast (ip, hw)).
  - intros i j ip h1 h2 Hi%row_lookup Hj%row_lookup. apply (proj1 (NoDup_alt (map fst used)) Hnd i j ip).
    + change (map fst used) with (fst <$> used). by rewrite list_lookup_fmap, Hi.
    + change (map fst used) with (fst <$> used). by rewrite list_lookup_fmap, Hj.
  - intros Hsize ip hw Hip. apply row_of_used.
    assert (Hin : ip ∈ map fst used) by (apply (arp_complete used s _ ip HA Hsize); by eexists).
    apply list_elem_of_fmap in Hin as ([a h] & -> & Ha). pose proof (Hlast (a, h) Ha) as Hl.
    cbn [fst snd] in *. rewrite Hl in Hip. by injection Hip as <-.
  - intros es0 e -> Ha. rewrite <- Ht. by apply (last_accepted es0).
  - exact (proj1 (Forall_forall _ _) Hpool).
Qed.

(** What is sent: for each accepted request one reply, on the port the request came from,
    in order, and nothing else; the buffer is freed although the queue still holds it. *)
Theorem arp_answers es s : arp_all es arp_init = Some s -> calls s = concat (map answer es).
Proof. intros Hs. pose proof (arp_all_steps es [] arp_init ∅ arp_init_ok) as H. rewrite Hs in H. by destruct H as (_ & Hc & _). Qed.
End arp.

(** The reply read back, byte by byte: to the sender, from the port, an ARP reply over
    Ethernet and IPv4 that gives the address of the port for 192.168.p.254, and names
    192.168.p.2 as the receiver whoever asked. *)
Lemma arp_reply_reads d_addr s_addr portid rest :
  length d_addr = 6%nat -> length s_addr = 6%nat ->
  let r := arp_reply d_addr s_addr portid rest in
  let a := drop 14 r in
  dst_of r = d_addr /\ src_of r = s_addr /\ field_bytes 12 2 r = [8; 6] /\
  be_field 0 2 a = HW_TYPE_ETHERNET /\ be_field 2 2 a = ETHER_TYPE_IPv4 /\ field_bytes 4 2 a = [6; 4] /\ be_field 6 2 a = 2 /\
  field_bytes 8 6 a = s_addr /\ field_bytes 14 4 a = [192; 168; u8 (portid + 1); 254] /\
  field_bytes 18 6 a = d_addr /\ field_bytes 24 4 a = [192; 168; u8 (portid + 1); 2].
Proof.
  intros Hd Hs. destruct d_addr as [|d0 [|d1 [|d2 [|d3 [|d4 [|d5 [|]]]]]]]; try discriminate Hd.
  destruct s_addr as [|s0 [|s1 [|s2 [|s3 [|s4 [|s5 [|]]]]]]]; try discriminate Hs.
  split_and!; reflexivity.
Qed.

(** ** Examples and witnesses *)

(** A request of 192.168.1.2 for 192.168.1.254, from the station [n]. *)
Definition request_ex (n : Z) (ip : list Z) : frame :=
  station 255 ++ station n ++ [8; 6] ++ [0; 1; 8; 0; 6; 4; 0; 1] ++ station n ++ ip ++ [0; 0; 0; 0; 0; 0] ++ [192; 168; 1; 254].

Definition port_mac (p : Z) : mac := [2; 0; 0; 0; 0; p].

Example answers1 :
  option_map (fun s => (take 2 (arp_table s), arp_counter s, calls s))
    (arp_all port_mac [(request_ex 1 [192; 168; 1; 2], 0, Some [0; 0])] arp_init)
  = let r := arp_reply (station 1) (port_mac 0) 0 [0; 0] in
    Some ([(2048, 3232235778, 244837814042625); zero_row], 1, [TxBuffer 0 r; Free r]).
Proof. vm_compute. reflexivity. Qed.

(** The reply to a station that is not 192.168.1.2 still names that address. *)
Example wrong_target :
  option_map (fun s => match calls s with TxBuffer _ r :: _ => field_bytes 38 4 r | _ => [] end)
    (arp_all port_mac [(request_ex 7 [192; 168; 1; 7], 0, Some [0; 0])] arp_init) = Some [192; 168; 1; 2].
Proof. vm_compute. reflexivity. Qed.

(** Only the third octet of the address asked for matters. *)
Example other_network : port_ip_lookup (be_value [10; 0; 1; 9]) 0 = 0.
Proof. reflexivity. Qed.

(** Without a buffer the reply is written at address zero. *)
Example no_buffer : arp_all port_mac [(request_ex 1 [192; 168; 1; 2], 0, None)] arp_init = None.
Proof. vm_compute. reflexivity. Qed.

Definition requests_from (n : nat) : list arp_event :=
  map (fun k => (request_ex (Z.of_nat k) [192; 168; 1; Z.of_nat k], 0, Some [])) (seq 1 n).

(** The hundred and first sender takes the first row. *)
Example turns_around :
  option_map (fun s => (map (fun r => snd (fst r)) (take 2 (arp_table s)), arp_counter s))
    (arp_all port_mac (requests_from 101) arp_init)
  = Some ([be_value [192; 168; 1; 101]; be_value [192; 168; 1; 2]], 1).
Proof. vm_compute. reflexivity. Qed.
