(* ===== verification/L2args.v ===== *)
(** * The arguments and the start of the learning switch

    Models, of [l2fwd_daniel/main.c], the parsers of arguments, on [strtoul] and [strtol]
    of the C library with 64-bit [long]; the options, as [getopt_long] gives them; the
    initialisation of the ports, on the results of DPDK's calls; and the check of the
    links. *)

From S2P Require Import Prelude GoStrings GoConv L2fwd.

(** ** [strtoul] and [strtol] *)

Definition isspace (c : ascii) : bool := (code c =? 32) || ((9 <=? code c) && (code c <=? 13)).

Fixpoint skip_spaces (s : string) : string :=
  match s with String c r => if isspace c then skip_spaces r else s | "" => "" end.

Definition is_sign (c : ascii) : bool := (code c =? 45) || (code c =? 43).

(** The sign, and the text behind it. *)
Definition take_sign (s : string) : bool * string :=
  match s with String c r => if is_sign c then (code c =? 45, r) else (false, s) | "" => (false, "") end.

Definition digit_in (base : Z) (c : ascii) : option Z :=
  match digit_of c with Some d => if d <? base then Some d else None | None => None end.

(** The prefix of base 16 counts only before a digit. *)
Definition skip_0x (base : Z) (s : string) : string :=
  match s with
  | String z (String x (String c r)) =>
      if (base =? 16) && (code z =? 48) && ((code x =? 120) || (code x =? 88)) && bool_decide (is_Some (digit_in 16 c))
      then String c r else s
  | _ => s
  end.

(** The digits: their value, however large, and what follows them. *)
Fixpoint c_digits (base n : Z) (s : string) : Z * string :=
  match s with
  | String c r => match digit_in base c with Some d => c_digits base (n * base + d) r | None => (n, s) end
  | "" => (n, "")
  end.

(** Without a digit the end is the whole text. *)
Definition strtonum (base : Z) (s : string) : option (bool * Z * string) :=
  let (neg, t) := take_sign (skip_spaces s) in
  let t := skip_0x base t in
  match t with
  | String c _ => if bool_decide (is_Some (digit_in base c)) then let (n, r) := c_digits base 0 t in Some (neg, n, r) else None
  | "" => None
  end.

Definition ULONG_MAX : Z := 2 ^ 64 - 1.

Definition strtoul (base : Z) (s : string) : Z * string :=
  match strtonum base s with
  | None => (0, s)
  | Some (neg, n, r) => (if ULONG_MAX <? n then ULONG_MAX else if neg then u64 (- n) else n, r)
  end.

Definition strtol (base : Z) (s : string) : Z * string :=
  match strtonum base s with
  | None => (0, s)
  | Some (neg, n, r) => (if neg then Z.max (- 2 ^ 63) (- n) else Z.min (2 ^ 63 - 1) n, r)
  end.

(** The conversion to [int]. *)
Definition int32 (x : Z) : Z := (x + 2 ^ 31) mod 2 ^ 32 - 2 ^ 31.

(** ** Arguments *)

Definition whole (arg rest : string) : bool := negb (arg =? "")%string && (rest =? "")%string.

Definition l2fwd_parse_portmask (portmask : string) : Z :=
  let (pm, rest) := strtoul 16 portmask in
  if negb (whole portmask rest) then -1 else if pm =? 0 then -1 else int32 pm.

Definition l2fwd_parse_nqueue (q_arg : string) : Z :=
  let (n, rest) := strtoul 10 q_arg in
  if negb (whole q_arg rest) then 0
  else if n =? 0 then 0
  else if Z.of_nat MAX_RX_QUEUE_PER_LCORE <=? n then 0 else n.

Definition MAX_TIMER_PERIOD : Z := 86400.

Definition l2fwd_parse_timer_period (q_arg : string) : Z :=
  let (n, rest) := strtol 10 q_arg in
  let n := int32 n in
  if negb (whole q_arg rest) then -1 else if MAX_TIMER_PERIOD <=? n then -1 else n.

(** What [getopt_long] gives: an option with its argument, a long option that set
    [mac_updating], or anything else. *)
Inductive l2fwd_opt := OptPortmask (arg : string) | OptNqueue (arg : string) | OptTimer (arg : string) | OptMac (v : Z) | OptOther.

Record l2fwd_config := mkConfig { enabled_port_mask : Z; rx_queue_per_lcore : Z; timer_period : Z; mac_updating : Z }.

Definition config_init : l2fwd_config := mkConfig 0 1 10 0.

(** The options up to the first that is not known; [None] is the result -1. *)
Fixpoint l2fwd_parse_args (opts : list l2fwd_opt) (c : l2fwd_config) : l2fwd_config * option unit :=
  match opts with
  | [] => (c, Some tt)
  | OptPortmask a :: opts =>
      l2fwd_parse_args opts (mkConfig (u32 (l2fwd_parse_portmask a)) (rx_queue_per_lcore c) (timer_period c) (mac_updating c))
  | OptNqueue a :: opts =>
      l2fwd_parse_args opts (mkConfig (enabled_port_mask c) (u32 (l2fwd_parse_nqueue a)) (timer_period c) (mac_updating c))
  | OptTimer a :: opts =>
      l2fwd_parse_args opts (mkConfig (enabled_port_mask c) (rx_queue_per_lcore c) (u64 (l2fwd_parse_timer_period a)) (mac_updating c))
  | OptMac v :: opts => l2fwd_parse_args opts (mkConfig (enabled_port_mask c) (rx_queue_per_lcore c) (timer_period c) v)
  | OptOther :: _ => (c, None)
  end.

(** ** The ports *)

(** DPDK's calls for a port, in order, each with the message of its failure. *)
Inductive port_call :=
| DevConfigure | AdjustDesc | MacaddrGet | RxQueueSetup | TxQueueSetup | TxBufferAlloc | TxBufferInit | SetErrCallback
| DevStart | PromiscuousEnable.

Definition port_calls : list port_call :=
  [DevConfigure; AdjustDesc; MacaddrGet; RxQueueSetup; TxQueueSetup; TxBufferAlloc; TxBufferInit; SetErrCallback; DevStart;
   PromiscuousEnable].

(** The calls that return a status or a pointer. *)
Definition has_status (c : port_call) : bool :=
  match c with MacaddrGet | TxBufferInit | PromiscuousEnable => false | _ => true end.

(** The calls made, and the call that failed: [rte_exit] ends the program. *)
Fixpoint init_calls (fails : Z -> port_call -> bool) (p : Z) (cs : list port_call) : list (Z * port_call) * option (Z * port_call) :=
  match cs with
  | [] => ([], None)
  | c :: cs =>
      if has_status c && fails p c then ([(p, c)], Some (p, c)) else let (done, e) := init_calls fails p cs in ((p, c) :: done, e)
  end.

Fixpoint init_ports (fails : Z -> port_call -> bool) (ports : list Z) : list (Z * port_call) * option (Z * port_call) :=
  match ports with
  | [] => ([], None)
  | p :: ports =>
      match init_calls fails p port_calls with
      | (done, Some e) => (done, Some e)
      | (done, None) => let (more, e) := init_ports fails ports in (done ++ more, e)
      end
  end.

(** ** The check of the links *)

Definition CHECK_INTERVAL : Z := 100.
Definition MAX_CHECK_TIME : nat := 90.

Inductive link_event := LinkUp (p : Z) | LinkDown (p : Z) | Dot | Delay (ms : Z) | DonePrinted.

(** Ports that are checked: those of the mask. [1 << portid] is an [int]: a port is below 31. *)
Definition in_mask (mask p : Z) : bool := negb (Z.land mask (Z.shiftl 1 p) =? 0).

Section link.
Context (port_num mask : Z).

(** [up r p] is the link of [p] in round [r]; nobody quits. *)
Definition print_links (up : Z -> bool) : list link_event :=
  map (fun p => if up p then LinkUp p else LinkDown p) (List.filter (in_mask mask) (seqZ 0 port_num)).

Definition all_up (up : Z -> bool) : bool := forallb up (List.filter (in_mask mask) (seqZ 0 port_num)).

(** The rounds from [count] on; [n] of them are left, [count <= MAX_CHECK_TIME]. *)
Fixpoint check_links (up : nat -> Z -> bool) (n count : nat) (print_flag : bool) : list link_event :=
  match n with
  | O => []
  | S n =>
      if print_flag then print_links (up count)
      else
        let all_ports_up := all_up (up count) in
        (if all_ports_up then [] else [Dot; Delay CHECK_INTERVAL])
        ++ (if all_ports_up || (count =? MAX_CHECK_TIME - 1)%nat then DonePrinted :: check_links up n (S count) true
            else check_links up n (S count) false)
  end.

Definition check_all_ports_link_status (up : nat -> Z -> bool) : list link_event := check_links up (S MAX_CHECK_TIME) 0 false.
End link.

(** ** Numbers are read back *)

Lemma c_digits_pos base n s : 0 <= base -> 0 <= n -> 0 <= fst (c_digits base n s).
Proof.
  intros Hb. revert n. induction s as [|c s IH]; intros n Hn; cbn; [done|]. unfold digit_in.
  destruct (digit_of c) as [d|] eqn:Hd; [|done]. destruct (d <? base); [|done]. apply IH. pose proof (digit_of_nonneg c d Hd). nia.
Qed.

Lemma strtonum_pos base s neg n r : 0 <= base -> strtonum base s = Some (neg, n, r) -> 0 <= n.
Proof.
  intros Hb. unfold strtonum. destruct (take_sign _) as [ng t]. destruct (skip_0x base t) as [|c u] eqn:E; [done|].
  destruct (bool_decide _); [|done]. pose proof (c_digits_pos base 0 (String c u) Hb ltac:(lia)) as H.
  destruct (c_digits base 0 (String c u)) as [v w]. by intros [= _ <- _].
Qed.

Lemma strtoul_range base s : 0 <= base -> 0 <= fst (strtoul base s) < 2 ^ 64.
Proof.
  intros Hb. unfold strtoul. destruct (strtonum base s) as [[[neg n] r]|] eqn:E; [|cbn; lia].
  pose proof (strtonum_pos base s neg n r Hb E). unfold ULONG_MAX. cbn [fst].
  destruct (Z.ltb_spec (2 ^ 64 - 1) n); [lia|]. destruct neg; [|lia]. apply (uint_range 64). lia.
Qed.

(** The digits that [strconv] reads, [strtoul] reads. *)
Lemma c_digits_parse base m n s v : parse_digits base m n s = inr v -> c_digits base n s = (v, "").
Proof.
  revert n. induction s as [|c s IH]; intros n; cbn; [by intros [= ->]|]. unfold digit_in.
  destruct (digit_of c) as [d|]; [|done]. destruct (Z.leb_spec base d); [done|].
  rewrite (proj2 (Z.ltb_lt d base)) by done.  destruct (m <? n * base + d); [done|]. apply IH.
Qed.

Lemma c_digits_format base n : 2 <= base <= 16 -> 0 <= n < 2 ^ 64 -> c_digits base 0 (FormatUint n base) = (n, "").
Proof.
  intros Hb Hn. apply (c_digits_parse base (maxUint 64)). unfold FormatUint.
  rewrite parse_format; [done|done|unfold maxUint; cbn; lia|lia].
Qed.

(** A printed number begins with a digit, and has no other characters. *)
Lemma FormatUint_first base n :
  2 <= base <= 16 -> 0 <= n -> exists d s, FormatUint n base = String (hexdigit d) s /\ 0 <= d < base.
Proof.
  intros Hb Hn. unfold FormatUint.
  assert (Hgo : forall fuel n acc, 0 <= n -> (0 < fuel)%nat ->
    exists d s, format_go fuel base n acc = String (hexdigit d) s /\ 0 <= d < base).
  { clear n Hn. induction fuel as [|fuel IH]; intros n acc Hn Hf; [lia|]. cbn [format_go].
    destruct (n / base =? 0); [do 2 eexists; split; [done|]; apply Z.mod_pos_bound; lia|].
    destruct fuel as [|fuel]; [|apply IH; [apply Z.div_pos; lia|lia]].
    cbn. do 2 eexists. split; [done|]. apply Z.mod_pos_bound. lia. }
  apply Hgo; [done|lia].
Qed.

Definition no_0x (c : ascii) : bool := negb ((code c =? 120) || (code c =? 88)).

Lemma skip_0x_none base s : all_chars no_0x s = true -> skip_0x base s = s.
Proof.
  destruct s as [|z [|x [|c r]]]; try done. cbn [all_chars skip_0x]. intros H. rewrite !andb_true_iff in H.
  destruct H as (_ & Hx & _). unfold no_0x in Hx. apply negb_true_iff in Hx. rewrite Hx. by rewrite andb_false_r.
Qed.

Lemma hexdigit_plain d : 0 <= d < 16 -> isspace (hexdigit d) = false /\ is_sign (hexdigit d) = false /\ no_0x (hexdigit d) = true.
Proof.
  intros Hd. assert (H : isspace (hexdigit d) || is_sign (hexdigit d) || negb (no_0x (hexdigit d)) = false).
  { pose proof (forall_below 16 (fun d => negb (isspace (hexdigit d) || is_sign (hexdigit d) || negb (no_0x (hexdigit d)))) eq_refl d Hd) as H.
    by apply negb_true_iff in H. }
  apply orb_false_iff in H as [[H1 H2]%orb_false_iff H3%negb_false_iff]. done.
Qed.

Lemma strtonum_format base n :
  2 <= base <= 16 -> 0 <= n < 2 ^ 64 -> strtonum base (FormatUint n base) = Some (false, n, "").
Proof.
  intros Hb Hn. pose proof (c_digits_format base n Hb Hn) as Hc.
  assert (H0x : all_chars no_0x (FormatUint n base) = true).
  { apply format_go_chars; [lia|lia| |done]. intros d Hd. apply hexdigit_plain. lia. }
  destruct (FormatUint_first base n Hb ltac:(lia)) as (d & s & E & Hd). rewrite E in *.
  destruct (hexdigit_plain d ltac:(lia)) as (H1 & H2 & _). unfold strtonum. cbn [skip_spaces]. rewrite H1. cbn [take_sign].
  rewrite H2, skip_0x_none, Hc by done. unfold digit_in. rewrite digit_of_hexdigit by lia.
  by rewrite (proj2 (Z.ltb_lt d base)), bool_decide_true by (lia || by eexists).
Qed.

Lemma strtoul_format base n : 2 <= base <= 16 -> 0 <= n < 2 ^ 64 -> strtoul base (FormatUint n base) = (n, "").
Proof.
  intros Hb Hn. unfold strtoul. rewrite strtonum_format by done. unfold ULONG_MAX.
  by destruct (Z.ltb_spec (2 ^ 64 - 1) n); [lia|].
Qed.

Lemma strtol_format base n : 2 <= base <= 16 -> 0 <= n < 2 ^ 63 -> strtol base (FormatUint n base) = (n, "").
Proof. intros Hb Hn. unfold strtol. rewrite strtonum_format by lia. by rewrite Z.min_r by lia. Qed.

Lemma whole_format n base : whole (FormatUint n base) "" = true.
Proof. unfold whole. destruct (FormatUint_head n base) as (c & s & ->). done. Qed.

Lemma int32_small x : - 2 ^ 31 <= x < 2 ^ 31 -> int32 x = x.
Proof. intros H. unfold int32. rewrite Z.mod_small; lia. Qed.

(** ** What the arguments may be *)

(** A number of queues is below the size of the list of a core. *)
Lemma nqueue_range s : 0 <= l2fwd_parse_nqueue s < Z.of_nat MAX_RX_QUEUE_PER_LCORE.
Proof.
  unfold l2fwd_parse_nqueue. pose proof (strtoul_range 10 s ltac:(lia)) as Hr. destruct (strtoul 10 s) as [n rest]. cbn [fst] in Hr.
  unfold MAX_RX_QUEUE_PER_LCORE. destruct (negb _); [lia|]. destruct (Z.eqb_spec n 0); [lia|]. destruct (Z.leb_spec (Z.of_nat 16) n); lia.
Qed.

(** Whatever the text: the number of queues of a core is below the size of its list, and
    a timer period is below a day. A printed number is accepted as itself when it is in
    range; a port mask is cut to 32 bits, and an error is the mask of all ports. *)
Theorem arguments_bounds :
  (forall s, 0 <= l2fwd_parse_nqueue s < Z.of_nat MAX_RX_QUEUE_PER_LCORE) /\
  (forall s, l2fwd_parse_timer_period s < MAX_TIMER_PERIOD) /\
  (forall n, 0 <= n < 2 ^ 64 -> l2fwd_parse_nqueue (FormatUint n 10) = if (1 <=? n) && (n <? 16) then n else 0) /\
  (forall n, 0 <= n < 2 ^ 31 -> l2fwd_parse_timer_period (FormatUint n 10) = if n <? 86400 then n else -1) /\
  (forall n, 0 <= n < 2 ^ 64 -> u32 (l2fwd_parse_portmask (FormatUint n 16)) = if n =? 0 then 2 ^ 32 - 1 else u32 n).
Proof.
  split; [exact nqueue_range|].
  unfold l2fwd_parse_nqueue, l2fwd_parse_timer_period, l2fwd_parse_portmask, MAX_TIMER_PERIOD, MAX_RX_QUEUE_PER_LCORE.
  change (Z.of_nat 16) with 16. split_and!.
  - intros s. destruct (strtol 10 s) as [n rest]. destruct (negb _); [lia|]. destruct (Z.leb_spec 86400 (int32 n)); lia.
  - intros n Hn. rewrite strtoul_format, whole_format by lia. cbn [negb].
    destruct (Z.eqb_spec n 0), (Z.leb_spec 16 n), (Z.leb_spec 1 n), (Z.ltb_spec n 16); cbn; lia.
  - intros n Hn. rewrite strtol_format, whole_format, int32_small by lia. cbn [negb].
    destruct (Z.leb_spec 86400 n), (Z.ltb_spec n 86400); lia.
  - intros n Hn. rewrite strtoul_format, whole_format by lia. cbn [negb]. destruct (Z.eqb_spec n 0); [done|].
    unfold u32, uint, int32. rewrite Zminus_mod, Zmod_mod, <- Zminus_mod. f_equal. lia.
Qed.

(** ** The check of the links ends *)

Definition is_delay (e : link_event) : bool := match e with Delay _ => true | _ => false end.

Lemma check_links_spec port_num mask up (n count : nat) :
  (n + count = MAX_CHECK_TIME)%nat -> (0 < n)%nat ->
  exists r : nat, (count <= r < MAX_CHECK_TIME)%nat /\
    (forall j, (count <= j < r)%nat -> all_up port_num mask (up j) = false) /\
    (all_up port_num mask (up r) = true \/ r = (MAX_CHECK_TIME - 1)%nat) /\
    check_links port_num mask up (S n) count false =
      concat (replicate (r - count) [Dot; Delay CHECK_INTERVAL])
      ++ (if all_up port_num mask (up r) then [] else [Dot; Delay CHECK_INTERVAL])
      ++ DonePrinted :: print_links port_num mask (up (S r)).
Proof.
  revert count. induction n as [|n IH]; intros count Hn Hpos; [lia|].
  remember (S n) as k. cbn [check_links].
  destruct (all_up port_num mask (up count) || (count =? MAX_CHECK_TIME - 1)%nat) eqn:E.
  - exists count. rewrite Nat.sub_diag. cbn [replicate concat app]. split_and!; [lia|lia|intros j Hj; lia| |].
    + apply orb_true_iff in E as [E|E]; [by left|right; by apply Nat.eqb_eq].
    + subst k. cbn [check_links]. done.
  - apply orb_false_iff in E as [E1 E2]. apply Nat.eqb_neq in E2. subst k. destruct (IH (S count)) as (r & Hr & Hdown & Hup & Heq).
    + lia.
    + unfold MAX_CHECK_TIME in *. lia.
    + exists r. split_and!; [lia|lia| |done|].
      * intros j Hj. destruct (decide (j = count)) as [->|Hne]; [done|]. apply Hdown. lia.
      * rewrite E1, Heq. replace (r - count)%nat with (S (r - S count)) by lia. cbn [replicate concat]. by rewrite <- !app_assoc.
Qed.

(** The check of the links ends: within ninety rounds of 100 ms it waits until the links
    of all ports in the mask are up, and then it prints every port of the mask once, with
    its link. *)
Theorem link_check_ends port_num mask up :
  exists r : nat, (r < MAX_CHECK_TIME)%nat /\ (forall j, (j < r)%nat -> all_up port_num mask (up j) = false) /\
    (all_up port_num mask (up r) = true \/ r = (MAX_CHECK_TIME - 1)%nat) /\
    (exists waits, check_all_ports_link_status port_num mask up = waits ++ DonePrinted :: print_links port_num mask (up (S r)) /\
       (length (List.filter is_delay waits) <= MAX_CHECK_TIME)%nat /\ forall e, e ∈ waits -> e = Dot \/ e = Delay CHECK_INTERVAL).
Proof.
  destruct (check_links_spec port_num mask up MAX_CHECK_TIME 0) as (r & Hr & Hdown & Hup & Heq); [lia|unfold MAX_CHECK_TIME; lia|].
  exists r. split_and!; [lia|intros j Hj; apply Hdown; lia|done|]. rewrite Nat.sub_0_r in Heq.
  exists (concat (replicate r [Dot; Delay CHECK_INTERVAL]) ++ (if all_up port_num mask (up r) then [] else [Dot; Delay CHECK_INTERVAL])).
  split_and!.
  - rewrite <- app_assoc. exact Heq.
  - rewrite List.filter_app, length_app.
    assert (Hlen : length (List.filter is_delay (concat (replicate r [Dot; Delay CHECK_INTERVAL]))) = r).
    { clear. induction r as [|r IH]; [done|]. cbn. by rewrite IH. }
    rewrite Hlen. destruct (all_up _ _ _); cbn; lia.
  - intros e [He|He]%elem_of_app.
    + clear -He. induction r as [|r IH]; [by apply not_elem_of_nil in He|]. cbn in He. rewrite !elem_of_cons in He. tauto.
    + destruct (all_up _ _ _); [by apply not_elem_of_nil in He|]. rewrite !elem_of_cons, elem_of_nil in He. tauto.
Qed.

(** ** Examples *)

Example portmask1 : l2fwd_parse_portmask "0xff" = 255 /\ l2fwd_parse_portmask "ff zz" = -1 /\ l2fwd_parse_portmask "0x" = -1.
Proof. vm_compute. done. Qed.

(** A mask that is zero in its low 32 bits passes the check for zero. *)
Example portmask_cut : l2fwd_parse_portmask "100000000" = 0.
Proof. vm_compute. reflexivity. Qed.

(** A negative period is accepted, and becomes one close to the largest. *)
Example timer_negative :
  l2fwd_parse_timer_period "-5" = -5 /\
  timer_period (fst (l2fwd_parse_args [OptTimer "-5"] config_init)) = 2 ^ 64 - 5.
Proof. vm_compute. done. Qed.

(** A wrong number of queues becomes zero, with which no port gets a core ([L2fwd.cores_none]). *)
Example nqueue_wrong : rx_queue_per_lcore (fst (l2fwd_parse_args [OptNqueue "many"] config_init)) = 0.
Proof. vm_compute. reflexivity. Qed.

Example init_stops :
  init_ports (fun p c => (p =? 1) && match c with RxQueueSetup => true | _ => false end) [0; 1; 2]
  = (map (fun c => (0, c)) port_calls ++ [(1, DevConfigure); (1, AdjustDesc); (1, MacaddrGet); (1, RxQueueSetup)], Some (1, RxQueueSetup)).
Proof. vm_compute. reflexivity. Qed.
