(* ===== verification/L2main.v ===== *)
(** * The learning switch: its main program

    Models [main] of [l2fwd_daniel/main.c]: the arguments, the pairs of ports, their cores,
    the start of the ports, the check of their links, and the end.  What DPDK decides is
    an argument: the number of ports, which cores are enabled, which of its calls fail,
    the links, and how the cores end. *)

From S2P Require Import Prelude CArray L2fwd L2args.

(** What is set up, and done at the end: the cycles between two printouts, the globals
    [l2fwd_dst_ports] and [lcore_queue_conf], the calls for the ports, the check of the
    links, the ports stopped and closed, and the exit status. *)
Record l2fwd_run := mkRun {
  timer_cycles : Z; dst_ports : list Z; queue_conf : list (list Z); dpdk_calls : list (Z * port_call);
  link_check : list link_event; closed : list Z; status : Z
}.

(** The array of ports is too short; a port waits for a core for ever; a call failed; or
    the program ran and was ended. *)
Inductive main_result :=
| OutOfPorts | NoLcore | Exit (calls : list (Z * port_call)) (failed : Z * port_call) | Returned (r : l2fwd_run).

Section main.
Context (max_ports max_lcore : nat) (lcore_enabled : nat -> bool) (hz nb_ports : Z).
Context (fails : Z -> port_call -> bool) (up : nat -> Z -> bool) (waited : list Z).

(** The arguments as they are left, whatever [l2fwd_parse_args] returned. *)
Definition main_config (opts : list l2fwd_opt) : l2fwd_config := fst (l2fwd_parse_args opts config_init).

(** A core that ended with an error makes the status -1. *)
Definition main_status : Z := if existsb (fun r => r <? 0) waited then -1 else 0.

Definition l2fwd_main (opts : list l2fwd_opt) : main_result :=
  let c := main_config opts in
  match pair_ports max_ports nb_ports with
  | None => OutOfPorts
  | Some dst =>
      match assign_lcores max_lcore lcore_enabled (Z.to_nat (rx_queue_per_lcore c)) nb_ports with
      | None => NoLcore
      | Some conf =>
          match init_ports fails (seqZ 0 nb_ports) with
          | (calls, Some e) => Exit calls e
          | (calls, None) =>
              Returned (mkRun (u64 (timer_period c * hz)) dst conf calls
                (check_all_ports_link_status nb_ports (enabled_port_mask c) up)
                (List.filter (in_mask (enabled_port_mask c)) (seqZ 0 nb_ports)) main_status)
          end
      end
  end.

(** ** The arguments *)

(** Any arguments leave fewer queues per core than the list of a core holds. *)
Lemma parse_args_queues opts c :
  0 <= rx_queue_per_lcore c < Z.of_nat MAX_RX_QUEUE_PER_LCORE ->
  0 <= rx_queue_per_lcore (fst (l2fwd_parse_args opts c)) < Z.of_nat MAX_RX_QUEUE_PER_LCORE.
Proof.
  revert c. induction opts as [|o opts IH]; intros c Hc; [done|]. destruct o; cbn [l2fwd_parse_args]; try done; apply IH; try done.
  cbn [rx_queue_per_lcore]. pose proof (nqueue_range arg) as Hq. unfold u32. rewrite uint_small; [done|].
  unfold in_u, MAX_RX_QUEUE_PER_LCORE in *. lia.
Qed.

Lemma main_queues opts : (Z.to_nat (rx_queue_per_lcore (main_config opts)) < MAX_RX_QUEUE_PER_LCORE)%nat.
Proof. pose proof (parse_args_queues opts config_init ltac:(unfold MAX_RX_QUEUE_PER_LCORE; cbn; lia)). unfold main_config. lia. Qed.

(** ** The calls for the ports *)

Definition calls_of (p : Z) : list (Z * port_call) := map (fun c => (p, c)) port_calls.

Lemma init_calls_spec p cs :
  match init_calls fails p cs with
  | (done, None) => done = map (fun c => (p, c)) cs /\ forall c, c ∈ cs -> has_status c && fails p c = false
  | (done, Some e) => exists before c after, cs = before ++ c :: after /\ e = (p, c) /\ has_status c && fails p c = true /\
      (forall b, b ∈ before -> has_status b && fails p b = false) /\ done = map (fun c => (p, c)) (before ++ [c])
  end.
Proof.
  induction cs as [|c cs IH]; cbn [init_calls]; [split; [done|by intros c ?%not_elem_of_nil]|].
  destruct (has_status c && fails p c) eqn:E.
  - exists [], c, cs. split_and!; try done. by intros b ?%not_elem_of_nil.
  - destruct (init_calls fails p cs) as [more [e|]].
    + destruct IH as (before & d & after & -> & -> & Hd & Hb & ->). exists (c :: before), d, after. split_and!; try done.
      intros b [->|Hin]%elem_of_cons; [done|by apply Hb].
    + destruct IH as [-> Hall]. split; [done|]. intros d [->|Hin]%elem_of_cons; [done|by apply Hall].
Qed.

(** The calls whose result is not looked at. *)
Lemma has_status_spec c : has_status c = true <-> c ∉ [MacaddrGet; TxBufferInit; PromiscuousEnable].
Proof. destruct c; cbn; (split; [done || set_solver|done || set_solver]). Qed.

(** Either every call of every port is made and none fails, or the first that fails is
    the last that is made. *)
Lemma init_ports_spec ports :
  match init_ports fails ports with
  | (done, None) => done = concat (map calls_of ports) /\ forall p c, p ∈ ports -> has_status c && fails p c = false
  | (done, Some (p, c)) => p ∈ ports /\ has_status c && fails p c = true /\
      exists before rest, done = before ++ [(p, c)] /\ concat (map calls_of ports) = done ++ rest /\
        forall p' c', (p', c') ∈ before -> has_status c' && fails p' c' = false
  end.
Proof.
  induction ports as [|p ports IH]; cbn [init_ports map concat]; [split; [done|by intros p c ?%not_elem_of_nil]|].
  pose proof (init_calls_spec p port_calls) as Hp. destruct (init_calls fails p port_calls) as [done [e|]].
  - destruct Hp as (before & c & after & Hcs & -> & Hc & Hb & ->). split_and!; [by left|done|].
    exists (map (fun c => (p, c)) before), (map (fun c => (p, c)) after ++ concat (map calls_of ports)).
    unfold calls_of at 1. rewrite Hcs, !map_app. cbn [map]. split_and!; [done|by rewrite <- !app_assoc|].
    intros p' c' (b & [= -> ->] & Hin)%list_elem_of_fmap. by apply Hb.
  - destruct Hp as [-> Hall]. assert (Hp : forall c, has_status c && fails p c = false).
    { intros c. apply Hall. destruct c; unfold port_calls; set_solver. }
    destruct (init_ports fails ports) as [more [[q c]|]].
    + destruct IH as (Hq & Hc & before & rest & -> & Hrest & Hb). split_and!; [by right|done|].
      exists (calls_of p ++ before), rest. rewrite Hrest. split_and!; [by rewrite app_assoc|by rewrite app_assoc|].
      intros p' c' [Hin|Hin]%elem_of_app; [|by apply Hb]. by apply list_elem_of_fmap in Hin as (b & [= -> ->] & _).
    + destruct IH as [-> IH]. split; [done|]. intros q c [->|Hq]%elem_of_cons; [done|by apply IH].
Qed.

(** ** The program *)

End main.

(** ** Examples and witnesses *)

Definition no_failure (p : Z) (c : port_call) : bool := false.
Definition two_cores (k : nat) : bool := (k <? 2)%nat.

(** Two cores with two queues each take the four ports; those of the mask are closed. *)
Definition main_ex (q : string) : main_result :=
  l2fwd_main 32 128 two_cores 1000 4 no_failure (fun _ _ => true) [0] [OptPortmask "3"; OptNqueue q; OptTimer "5"].

Example main_runs :
  match main_ex "2" with
  | Returned r => (timer_cycles r, take 4 (dst_ports r), take 3 (queue_conf r), link_check r, closed r, status r)
      = (5000, [1; 0; 3; 2], [[0; 1]; [2; 3]; []], [DonePrinted; LinkUp 0; LinkUp 1], [0; 1], 0)
  | _ => False
  end.
Proof. vm_compute. reflexivity. Qed.

(** The default of one queue is not enough for four ports, nor is a number in error: the
    program does not get past the search for a core. *)
Example main_waits : (main_ex "1", main_ex "two", main_ex "16") = (NoLcore, NoLcore, NoLcore).
Proof. vm_compute. reflexivity. Qed.

(** An unknown option ends the reading of arguments, and the program goes on. *)
Example main_unknown_option :
  match l2fwd_main 32 128 two_cores 1000 2 no_failure (fun _ _ => true) [0; -1] [OptOther; OptPortmask "3"] with
  | Returned r => (closed r, status r) = ([], -1)
  | _ => False
  end.
Proof. vm_compute. reflexivity. Qed.

(** A call of the second port fails, and the program exits there; that of a call without a status does not count. *)
Example main_exits :
  l2fwd_main 32 128 two_cores 1000 2 (fun p c => match c with RxQueueSetup => p =? 1 | MacaddrGet => true | _ => false end)
    (fun _ _ => true) [0] [OptPortmask "3"; OptNqueue "2"] =
  Exit (calls_of 0 ++ [(1, DevConfigure); (1, AdjustDesc); (1, MacaddrGet); (1, RxQueueSetup)]) (1, RxQueueSetup).
Proof. vm_compute. reflexivity. Qed.

