(* ===== verification/Basicfwd.v ===== *)
(** * The forwarding skeleton

    Models [skeleton1/basicfwd.c]: what happens to a burst of frames, the block that is
    filled for the encoder, and the checks at the start.  DPDK's sending is an argument,
    the number of frames it takes; sending and freeing are recorded.  The encoding and
    decoding between filling the block and forwarding are calls of the Kodo library, print
    whether the block came back, and change nothing here. *)

From S2P Require Import Prelude CArray L2fwd L2args.

(** ** The block for the encoder *)

(** [data] is a pointer, of eight bytes; [block_size] is the encoder's. *)
Definition sizeof_pointer : nat := 8.

Definition fill_block (block_size : nat) (data : frame) : list Z :=
  map (fun j => if (j <? sizeof_pointer)%nat then nth (j + 14) data 0 else 0) (seq 0 block_size).

(** ** Forwarding *)

Definition dst_macs : list Z := [6; 7; 8; 9].

(** [sizeof dst_macs] counts bytes, two for each number. *)
Definition sizeof_dst_macs : nat := 2 * length dst_macs.

(** The search for the last octet, with [n] rounds left from [i] on; [Some None] when the
    loop ends without it. *)
Fixpoint find_port (n : nat) (i octet : Z) : option (option Z) :=
  match n with
  | O => Some None
  | S n =>
      match array_read i dst_macs with
      | None => None
      | Some m => if m =? octet then Some (Some i) else find_port n (i + 1) octet
      end
  end.

Inductive burst_call := TxBurst (port : Z) (bufs : list frame) | FreeBuf (m : frame).

Section lcore_main.
Context (tx_burst : Z -> list frame -> nat).

(** A burst of one port; the first frame decides for all of it. *)
Definition forward_burst (bufs : list frame) : option (list burst_call) :=
  match bufs with
  | [] => Some []
  | data :: _ =>
      if nth 0 data 0 =? 255 then Some []
      else
        match find_port sizeof_dst_macs 0 (nth 5 data 0) with
        | None => None
        | Some None => Some []
        | Some (Some out_port) =>
            let nb_tx := tx_burst out_port bufs in
            Some (TxBurst out_port bufs :: map FreeBuf (drop nb_tx bufs))
        end
  end.

(** The ports of one round. *)
Fixpoint forward_round (rx : Z -> list frame) (ports : list Z) : option (list burst_call) :=
  match ports with
  | [] => Some []
  | p :: ports =>
      match forward_burst (rx p), forward_round rx ports with Some a, Some b => Some (a ++ b) | _, _ => None end
  end.
End lcore_main.

(** ** The start *)

Inductive skel_call := SkConfigure | SkAdjustDesc | SkRxQueue | SkTxQueue | SkStart | SkMacaddrGet.

(** The status of a call; the set-up of queues and the start fail below zero, the others
    when it is not zero. *)
Definition skel_failed (c : skel_call) (status : Z) : bool :=
  match c with
  | SkConfigure | SkAdjustDesc => negb (status =? 0)
  | SkRxQueue | SkTxQueue | SkStart => status <? 0
  | SkMacaddrGet => false
  end.

Fixpoint skel_calls (status : skel_call -> Z) (cs : list skel_call) : Z :=
  match cs with
  | [] => 0
  | c :: cs => if skel_failed c (status c) then status c else skel_calls status cs
  end.

Definition port_init (nb_ports port : Z) (status : skel_call -> Z) : Z :=
  if nb_ports <=? port then -1 else skel_calls status [SkConfigure; SkAdjustDesc; SkRxQueue; SkTxQueue; SkStart; SkMacaddrGet].

(** [main] up to the loop: the ports it starts, or its message. *)
Definition basicfwd_main (nb_ports : Z) (pool : bool) (status : Z -> skel_call -> Z) : string + list Z :=
  if (nb_ports <? 2) || negb (Z.land nb_ports 1 =? 0) then inl "Error: number of ports must be even"
  else if negb pool then inl "Cannot create mbuf pool"
  else if forallb (fun p => port_init nb_ports p (status p) =? 0) (seqZ 0 nb_ports) then inr (seqZ 0 nb_ports)
  else inl "Cannot init port".

(** ** Properties *)

Lemma find_port_spec octet :
  find_port sizeof_dst_macs 0 octet = if (6 <=? octet) && (octet <=? 9) then Some (Some (octet - 6)) else None.
Proof.
  change (find_port sizeof_dst_macs 0 octet) with
    (if 6 =? octet then Some (Some 0) else if 7 =? octet then Some (Some 1) else if 8 =? octet then Some (Some 2)
     else if 9 =? octet then Some (Some 3) else None).
  destruct (Z.eqb_spec 6 octet) as [<-|]; [done|]. destruct (Z.eqb_spec 7 octet) as [<-|]; [done|].
  destruct (Z.eqb_spec 8 octet) as [<-|]; [done|]. destruct (Z.eqb_spec 9 octet) as [<-|]; [done|].
  destruct (Z.leb_spec 6 octet), (Z.leb_spec octet 9); cbn; done || lia.
Qed.

(** What becomes of a burst: it is sent whole to the port of its first frame, whatever
    the others are, and what is not taken is freed, so that every frame is handed over
    once; a burst that begins with an address of first octet 255 is neither sent nor
    freed; with any other last octet than 6 to 9 the search reads behind its array. *)
Theorem forward_burst_cases tx_burst data bufs :
  forward_burst tx_burst (data :: bufs) =
    if nth 0 data 0 =? 255 then Some []
    else if (6 <=? nth 5 data 0) && (nth 5 data 0 <=? 9) then
      let out := nth 5 data 0 - 6 in
      Some (TxBurst out (data :: bufs) :: map FreeBuf (drop (tx_burst out (data :: bufs)) (data :: bufs)))
    else None.
Proof.
  unfold forward_burst. destruct (_ =? 255); [done|]. rewrite find_port_spec. by destruct (_ && _).
Qed.

(** Only eight bytes of the payload get into the block. *)
Lemma fill_block_eight block_size data j :
  (j < block_size)%nat -> fill_block block_size data !! j = Some (if (j <? 8)%nat then nth (j + 14) data 0 else 0).
Proof.
  intros Hj. unfold fill_block. change (map ?f ?l) with (f <$> l). rewrite list_lookup_fmap, lookup_seq_lt by done. done.
Qed.

(** A program that starts has an even number of ports, two at least. *)
Lemma main_even nb_ports pool status ports :
  0 <= nb_ports -> basicfwd_main nb_ports pool status = inr ports -> 2 <= nb_ports /\ Z.even nb_ports = true /\ ports = seqZ 0 nb_ports.
Proof.
  intros Hnb. unfold basicfwd_main. destruct (_ || _) eqn:E; [done|]. destruct (negb pool); [done|]. destruct (forallb _ _); [|done].
  intros [= <-]. apply orb_false_iff in E as [E1 E2%negb_false_iff]. bools. split_and!; [lia| |done].
  change 1 with (Z.ones 1) in E2. rewrite Z.land_ones in E2 by lia. rewrite Zeven_mod. by apply Z.eqb_eq.
Qed.

(** ** Examples *)

Definition to_mac (octet : Z) : frame := [222; 173; 190; 239; 0; octet] ++ [222; 173; 190; 239; 0; 6] ++ [8; 0] ++ seqZ 1 12.

(** The second frame of the burst goes where the first does; what is not taken is freed. *)
Example burst1 :
  forward_burst (fun _ _ => 1%nat) [to_mac 7; to_mac 9] = Some [TxBurst 1 [to_mac 7; to_mac 9]; FreeBuf (to_mac 9)].
Proof. vm_compute. reflexivity. Qed.

Example burst_behind_array : forward_burst (fun _ _ => 1%nat) [to_mac 10] = None.
Proof. vm_compute. reflexivity. Qed.

(** A broadcast takes the frames behind it along: none is sent or freed. *)
Example burst_lost : forward_burst (fun _ _ => 2%nat) [repeat 255 6 ++ [0]; to_mac 7] = Some [].
Proof. vm_compute. reflexivity. Qed.

Example block1 : fill_block 10 (to_mac 7) = [1; 2; 3; 4; 5; 6; 7; 8; 0; 0].
Proof. vm_compute. reflexivity. Qed.

Example three_ports : basicfwd_main 3 true (fun _ _ => 0) = inl "Error: number of ports must be even".
Proof. vm_compute. reflexivity. Qed.
