(* ===== verification/CodingSwitch.v ===== *)
(** * The controller with coding rules

    Models [pox/pox/misc/coding_switch.py]: the table of a controller, and the message it
    sends for each frame that the switch hands to it.  An address is what POX makes of it
    and can be a key; the exact match of a frame is an argument. *)

From stdpp Require Import gmap.
From S2P Require Import Prelude.

Inductive of_port := OfPort (n : Z) | OFPP_IN_PORT | OFPP_ALL.

Inductive of_action := ActOutput (p : of_port) | ActTpDst (port : Z) | ActVlanVid (vid : Z).

Section controller.
Context {A M : Type} `{Countable A} {D : Type} (from_packet : D -> M).

(** What is used of a frame. *)
Record packet := mkPacket { parsed : bool; src : A; dst : A; ethertype : Z; body : D }.

Inductive message := FlowMod (m : M) (data : D) (actions : list of_action) | PacketOut (data : D) (actions : list of_action).

Definition check_vlan (p : packet) : bool := ethertype p =? 33024.

(** [coding_switch]: the new table and the message that is sent. *)
Definition coding_switch (p : packet) (in_port : Z) (fwd_table : gmap A Z) : gmap A Z * message :=
  let table := <[src p := in_port]> fwd_table in
  (table,
   match table !! dst p with
   | Some port =>
       FlowMod (from_packet (body p)) (body p)
         ((if check_vlan p then [ActOutput OFPP_IN_PORT; ActTpDst 666] else [ActOutput (OfPort port)]) ++ [ActVlanVid 2135])
   | None => PacketOut (body p) ([ActOutput OFPP_ALL] ++ [ActVlanVid 2135])
   end).

Definition handle_PacketIn (p : packet) (in_port : Z) (fwd_table : gmap A Z) : gmap A Z * option message :=
  if parsed p then let (t, m) := coding_switch p in_port fwd_table in (t, Some m) else (fwd_table, None).

(** The frames of a connection, in order, from the empty table of [__init__]. *)
Fixpoint controller (ps : list (packet * Z)) (t : gmap A Z) : gmap A Z * list (option message) :=
  match ps with
  | [] => (t, [])
  | (p, i) :: ps => let (t, m) := handle_PacketIn p i t in let (t, ms) := controller ps t in (t, m :: ms)
  end.

(** ** Properties *)

(** The port of the last frame of a station. *)
Fixpoint last_port (a : A) (ps : list (packet * Z)) : option Z :=
  match ps with
  | [] => None
  | (p, i) :: ps =>
      match last_port a ps with
      | Some j => Some j
      | None => if parsed p && bool_decide (src p = a) then Some i else None
      end
  end.

Lemma controller_table ps t a :
  fst (controller ps t) !! a = match last_port a ps with Some i => Some i | None => t !! a end.
Proof.
  revert t. induction ps as [|[p i] ps IH]; intros t; [done|]. cbn [controller last_port].
  unfold handle_PacketIn, coding_switch. specialize (IH (if parsed p then <[src p := i]> t else t)).
  destruct (parsed p); destruct (controller ps _) as [t' ms]; cbn [fst andb] in *; rewrite IH; [|by destruct (last_port a ps)].
  destruct (last_port a ps); [done|]. destruct (decide (src p = a)) as [<-|Hne].
  - by rewrite lookup_insert_eq, bool_decide_true.
  - by rewrite lookup_insert_ne, bool_decide_false.
Qed.

Lemma controller_app ps qs t :
  controller (ps ++ qs) t =
    (fst (controller qs (fst (controller ps t))), snd (controller ps t) ++ snd (controller qs (fst (controller ps t)))).
Proof.
  revert t. induction ps as [|[p i] ps IH]; intros t; cbn [app controller]; [cbn [fst snd app]; by destruct (controller qs t)|].
  destruct (handle_PacketIn p i t) as [t1 m]. rewrite IH. by destruct (controller ps t1).
Qed.

(** C20: What the controller sends for a frame, after any frames: where its destination was
    seen last, itself included, a flow to that port, or for a frame with a VLAN tag back
    to where it came from with the port 666; else the frame to all ports. The tag 2135
    comes after the output, where it no longer changes the frame that is sent. *)
Theorem controller_sends ps p i :
  parsed p = true ->
  last (snd (controller (ps ++ [(p, i)]) ∅)) =
    Some (Some (match last_port (dst p) (ps ++ [(p, i)]) with
                | Some port =>
                    FlowMod (from_packet (body p)) (body p)
                      ((if check_vlan p then [ActOutput OFPP_IN_PORT; ActTpDst 666] else [ActOutput (OfPort port)]) ++ [ActVlanVid 2135])
                | None => PacketOut (body p) [ActOutput OFPP_ALL; ActVlanVid 2135]
                end)).
Proof.
  intros Hp. rewrite controller_app. cbn [snd controller].
  pose proof (controller_table (ps ++ [(p, i)]) ∅ (dst p)) as Ht. rewrite controller_app, lookup_empty in Ht. cbn [fst controller] in Ht.
  unfold handle_PacketIn, coding_switch in *. rewrite Hp in *. cbn [fst snd] in *. rewrite last_snoc, Ht.
  by destruct (last_port (dst p) (ps ++ [(p, i)])).
Qed.
End controller.

(** ** Examples and witnesses *)

Definition packet_ex (s d typ : Z) : packet := mkPacket true s d typ tt.

(** The first frame goes to all ports, the answer to the port of the first; a station
    that moves is found at its new port. *)
Example controller1 :
  snd (controller (fun _ => tt) [(packet_ex 1 2 2048, 1); (packet_ex 2 1 2048, 2); (packet_ex 1 9 2048, 3); (packet_ex 2 1 2048, 2)] ∅)
  = [Some (PacketOut tt [ActOutput OFPP_ALL; ActVlanVid 2135]);
     Some (FlowMod tt tt [ActOutput (OfPort 1); ActVlanVid 2135]);
     Some (PacketOut tt [ActOutput OFPP_ALL; ActVlanVid 2135]);
     Some (FlowMod tt tt [ActOutput (OfPort 3); ActVlanVid 2135])].
Proof. vm_compute. reflexivity. Qed.

Lemma controller_sends_witness :
  last (snd (controller (fun _ => tt) ([(packet_ex 1 2 2048, 1)] ++ [(packet_ex 2 1 33024, 2)]) ∅)) =
    Some (Some (FlowMod tt tt [ActOutput OFPP_IN_PORT; ActTpDst 666; ActVlanVid 2135])).
Proof.
  exact (controller_sends (fun _ => tt) [(packet_ex 1 2 2048, 1)] (packet_ex 2 1 33024) 2 eq_refl).
Defined.
