(* ===== verification/Topology.v ===== *)
(** * The networks of the switches

    Models the topologies of [mininet/custom]: [butterfly.py], with the butterfly itself
    and the one with a single switch, and [topo-2sw-2host.py]; and what becomes of a frame
    in such a network when a controller of [CodingSwitch] is behind every switch.  Which
    port leads where is Mininet's choice, and what a switch does with a list of actions
    is OpenFlow's: both are arguments. *)

From stdpp Require Import gmap.
From S2P Require Import Prelude CodingSwitch.

(** ** Topologies *)

Inductive node := Host (n : Z) | Switch (n : Z).

#[global] Instance node_eq_dec : EqDecision node.
Proof. solve_decision. Defined.

(** The links, in the order they are added. *)
Definition ButterflyTopo : list (node * node) :=
  [(Host 1, Switch 1); (Host 2, Switch 2); (Switch 1, Switch 3); (Switch 3, Switch 2); (Switch 1, Switch 5);
   (Switch 3, Switch 4); (Switch 2, Switch 6); (Switch 5, Switch 4); (Switch 4, Switch 6); (Switch 5, Host 3); (Switch 6, Host 4)].

Definition ButterflyTopo_s1 : list (node * node) :=
  [(Host 1, Switch 1); (Host 2, Switch 1); (Switch 1, Host 3); (Switch 1, Host 4)].

Definition MyTopo : list (node * node) := [(Host 1, Switch 3); (Switch 3, Switch 4); (Switch 4, Host 2)].

Definition neighbours (links : list (node * node)) (v : node) : list node :=
  omap (fun l => if decide (fst l = v) then Some (snd l) else if decide (snd l = v) then Some (fst l) else None) links.

Definition is_switch (v : node) : bool := match v with Switch _ => true | Host _ => false end.

(** ** A frame in the network *)

(** The table of each controller, the copies under way with the nodes they go between,
    and those that have arrived. *)
Record net (A : Type) `{Countable A} := mkNet { tables : node -> gmap A Z; flights : list (node * node); arrived : list (node * node) }.
Arguments mkNet {A _ _}.
Arguments tables {A _ _}.
Arguments flights {A _ _}.
Arguments arrived {A _ _}.

Section network.
Context {A M D : Type} `{Countable A} (from_packet : D -> M).
Context (port_of : node -> node -> Z) (emit : node -> node -> list of_action -> list node).
Context (links : list (node * node)) (p : @packet A D).

Definition set_table (v : node) (t : gmap A Z) (ts : node -> gmap A Z) : node -> gmap A Z :=
  fun w => if decide (w = v) then t else ts w.

(** The copy at [k] arrives. A host keeps it, a switch asks its controller; [None] where
    there is no copy, and where the controller makes a flow, which this does not follow. *)
Definition net_next (k : nat) (s : net A) : option (net A) :=
  match flights s !! k with
  | None => None
  | Some (u, v) =>
      let rest := take k (flights s) ++ drop (S k) (flights s) in
      let came := arrived s ++ [(u, v)] in
      match v with
      | Host _ => Some (mkNet (tables s) rest came)
      | Switch _ =>
          let (t, m) := handle_PacketIn from_packet p (port_of v u) (tables s v) in
          match m with
          | None => Some (mkNet (set_table v t (tables s)) rest came)
          | Some (PacketOut _ actions) => Some (mkNet (set_table v t (tables s)) (rest ++ map (pair v) (emit v u actions)) came)
          | Some (FlowMod _ _ _) => None
          end
      end
  end.

Definition net_run (ks : list nat) (s : net A) : option (net A) := foldl (fun s k => s ≫= net_next k) (Some s) ks.

(** Copies that are on the way to a switch. *)
Definition to_switch (f : node * node) : bool := is_switch (snd f).
Definition copies (fs : list (node * node)) : nat := length (List.filter to_switch fs).

(** How many copies go on to switches when one arrives. *)
Definition onward (f : node * node) : nat := copies (map (pair (snd f)) (List.filter (fun w => negb (bool_decide (w = fst f))) (neighbours links (snd f)))).

(** *** Frames for a station that never sends *)

(** A switch sends to all ports by sending to every neighbour but the one the frame came
    from; a tag set after that does not count. *)
Hypothesis emit_all : forall v u,
  emit v u [ActOutput OFPP_ALL; ActVlanVid 2135] = List.filter (fun w => negb (bool_decide (w = u))) (neighbours links v).
Hypothesis p_parsed : parsed p = true.
Hypothesis p_other : src p <> dst p.

Definition unknown (s : net A) : Prop := forall v, tables s v !! dst p = None.

Lemma copies_app fs gs : copies (fs ++ gs) = (copies fs + copies gs)%nat.
Proof. unfold copies. by rewrite List.filter_app, length_app. Qed.

Lemma copies_middle fs k f :
  fs !! k = Some f -> (copies (take k fs ++ drop (S k) fs) + if to_switch f then 1 else 0)%nat = copies fs.
Proof.
  intros Hk. rewrite <- (take_drop_middle fs k f Hk) at 3. rewrite !copies_app. change (f :: ?l) with ([f] ++ l).
  rewrite copies_app. unfold copies at 4. cbn. destruct (to_switch f); cbn; lia.
Qed.

(** A copy that arrives is followed by as many as there are other neighbours. *)
Lemma net_next_unknown k s f :
  unknown s -> flights s !! k = Some f ->
  exists s', net_next k s = Some s' /\ unknown s' /\ arrived s' = arrived s ++ [f] /\
    (copies (flights s') + if to_switch f then 1 else 0)%nat = (copies (flights s) + if to_switch f then onward f else 0)%nat.
Proof.
  destruct f as [u v]. intros Hun Hk. unfold net_next. rewrite Hk. pose proof (copies_middle _ _ _ Hk) as Hc.
  unfold to_switch in *. cbn [snd] in *. destruct v as [n|n]; cbn [is_switch] in *.
  - eexists. split; [reflexivity|]. split_and!; [exact Hun|done|]. cbn [flights]. lia.
  - unfold handle_PacketIn, coding_switch. rewrite p_parsed.
    assert (Hnone : <[src p := port_of (Switch n) u]> (tables s (Switch n)) !! dst p = None) by (by rewrite lookup_insert_ne).
    rewrite Hnone. cbn [app]. rewrite emit_all. eexists. split; [reflexivity|]. split_and!; [|done|].
    + intros w. cbn [tables]. unfold set_table. by destruct (decide (w = Switch n)).
    + cbn [flights]. rewrite copies_app. unfold onward. cbn [fst snd]. lia.
Qed.

(** Over a run, copies on the way are those at the start and what every arrival added. *)
Definition gain (f : node * node) : Z := if to_switch f then Z.of_nat (onward f) - 1 else 0.
Definition gains (fs : list (node * node)) : Z := foldr (fun f n => gain f + n) 0 fs.

Lemma gains_snoc fs f : gains (fs ++ [f]) = gains fs + gain f.
Proof. induction fs as [|g fs IH]; [unfold gains; cbn; lia|]. unfold gains in *. cbn. rewrite IH. lia. Qed.

Lemma net_run_spec ks s s' :
  unknown s -> net_run ks s = Some s' ->
  unknown s' /\ Z.of_nat (copies (flights s')) - gains (arrived s') = Z.of_nat (copies (flights s)) - gains (arrived s).
Proof.
  intros Hun. revert s'. induction ks as [|k ks IH] using rev_ind; intros s'; unfold net_run; [by intros [= <-]|].
  rewrite foldl_app. cbn [foldl]. destruct (foldl _ _ ks) as [s1|] eqn:E; [|done]. cbn. intros Hk.
  destruct (IH s1 E) as [Hun1 H1]. destruct (flights s1 !! k) as [f|] eqn:Hf; [|by unfold net_next in Hk; rewrite Hf in Hk].
  destruct (net_next_unknown k s1 f Hun1 Hf) as (s2 & H2 & Hun2 & Ha & Hc). rewrite Hk in H2. injection H2 as <-.
  split; [done|]. rewrite Ha, gains_snoc, <- H1. unfold gain. destruct (to_switch f); lia.
Qed.

(** Where no switch is a dead end, there is always a copy under way. *)
Lemma net_goes_on s : unknown s -> (0 < copies (flights s))%nat -> exists k s', net_next k s = Some s'.
Proof.
  intros Hun Hc. destruct (flights s) as [|f fs] eqn:Hf; [cbn in Hc; lia|].
  destruct (net_next_unknown 0 s f Hun) as (s' & Hs' & _); [by rewrite Hf|]. by exists 0%nat, s'.
Qed.

(** *** Copies go along links *)

Definition on_link (f : node * node) : bool := bool_decide (f ∈ links ++ map (fun l => (snd l, fst l)) links).

Lemma neighbours_on_link v w : w ∈ neighbours links v -> on_link (v, w) = true.
Proof.
  unfold neighbours, on_link. rewrite list_elem_of_omap. intros ([a b] & Hl & Hw). apply bool_decide_eq_true.
  rewrite elem_of_app, list_elem_of_fmap. cbn [fst snd] in Hw. destruct (decide (a = v)) as [->|]; [injection Hw as ->; by left|].
  destruct (decide (b = v)) as [->|]; [|done]. injection Hw as ->. right. by exists (w, v).
Qed.

Definition along (s : net A) : Prop := (forall f, f ∈ flights s -> on_link f = true) /\ (forall f, f ∈ arrived s -> on_link f = true).

Lemma net_next_along k s s' : along s -> net_next k s = Some s' -> along s'.
Proof.
  intros [Hf Ha]. unfold net_next. destruct (flights s !! k) as [[u v]|] eqn:Hk; [|done].
  assert (Hrest : forall f, f ∈ take k (flights s) ++ drop (S k) (flights s) -> on_link f = true).
  { intros f Hin. apply Hf. rewrite <- (take_drop_middle _ _ _ Hk). rewrite elem_of_app, elem_of_cons in *. tauto. }
  assert (Hcame : forall f, f ∈ arrived s ++ [(u, v)] -> on_link f = true).
  { intros f [Hin| ->%list_elem_of_singleton]%elem_of_app; [by apply Ha|]. apply Hf. by apply list_elem_of_lookup_2 in Hk. }
  destruct v as [n|n]; [by intros [= <-]|]. unfold handle_PacketIn, coding_switch. rewrite p_parsed.
  destruct (<[src p := port_of (Switch n) u]> (tables s (Switch n)) !! dst p); [done|]. cbn [app]. rewrite emit_all. intros [= <-].
  split; cbn [flights arrived]; [|done]. intros f [Hin|Hin]%elem_of_app; [by apply Hrest|].
  apply list_elem_of_fmap in Hin as (w & -> & Hw). apply neighbours_on_link. apply list_elem_of_In, filter_In in Hw as [Hw _].
  by apply list_elem_of_In.
Qed.

Lemma net_run_along ks s s' : along s -> net_run ks s = Some s' -> along s'.
Proof.
  intros Hs. revert s'. induction ks as [|k ks IH] using rev_ind; intros s'; unfold net_run; [by intros [= <-]|].
  rewrite foldl_app. cbn [foldl]. destruct (foldl _ _ ks) as [s1|] eqn:E; [|done]. cbn. apply net_next_along. by apply IH.
Qed.
End network.

(** ** A storm in the butterfly *)

(** Where a copy becomes two that go on to switches: at the two switches in the middle,
    and at the first switch. *)
Definition splits (f : node * node) : bool :=
  match f with
  | (_, Host _) => false
  | (Host _, Switch _) => true
  | (Switch _, Switch n) => (n =? 3) || (n =? 4)
  end.

Lemma butterfly_gain f : on_link ButterflyTopo f = true -> gain ButterflyTopo f = if splits f then 1 else 0.
Proof.
  unfold on_link. rewrite bool_decide_eq_true. intros Hf.
  assert (Hall : forallb (fun f => gain ButterflyTopo f =? if splits f then 1 else 0)
    (ButterflyTopo ++ map (fun l => (snd l, fst l)) ButterflyTopo) = true) by (vm_compute; reflexivity).
  rewrite forallb_forall in Hall. by apply Z.eqb_eq, Hall, list_elem_of_In.
Qed.

Lemma butterfly_gains fs :
  (forall f, f ∈ fs -> on_link ButterflyTopo f = true) -> gains ButterflyTopo fs = Z.of_nat (length (List.filter splits fs)).
Proof.
  induction fs as [|f fs IH]; intros Hf; [done|]. unfold gains in *. cbn [foldr List.filter].
  rewrite IH by (intros g Hg; apply Hf; by right). rewrite butterfly_gain by (apply Hf; by left). destruct (splits f); cbn [length]; lia.
Qed.

Definition start {A : Type} `{Countable A} (n : Z) (ts : node -> gmap A Z) : net A := mkNet ts [(Host n, Switch n)] [].

(** C16: A frame from a sender of the butterfly, [h1] or [h2], to a station that never sent
    stays in the network for ever. In whatever order the copies are handled, the copies on the way to
    a switch are one more than the copies split so far: they never become fewer, each of
    the two middle switches adds one whenever it gets one, and there is always one to
    handle next. *)
Theorem butterfly_storm {A M D : Type} `{Countable A} (from_packet : D -> M) port_of emit (p : @packet A D) n ts ks s :
  (forall v u, emit v u [ActOutput OFPP_ALL; ActVlanVid 2135] =
    List.filter (fun w => negb (bool_decide (w = u))) (neighbours ButterflyTopo v)) ->
  parsed p = true -> src p <> dst p -> (forall v, ts v !! dst p = None) -> n = 1 \/ n = 2 ->
  net_run from_packet port_of emit p ks (start n ts) = Some s ->
  copies (flights s) = (1 + length (List.filter splits (arrived s)))%nat /\
  exists k s', net_next from_packet port_of emit p k s = Some s'.
Proof.
  intros Hemit Hp Hne Hts Hn Hrun.
  destruct (net_run_spec from_packet port_of emit ButterflyTopo p Hemit Hp Hne ks (start n ts) s Hts Hrun) as [Hun Hc].
  assert (Halong : along ButterflyTopo (start n ts)).
  { split; cbn; [|by intros f ?%not_elem_of_nil]. intros f ->%list_elem_of_singleton. by destruct Hn as [-> | ->]. }
  pose proof (net_run_along from_packet port_of emit ButterflyTopo p Hemit Hp ks (start n ts) s Halong Hrun) as [_ Harr].
  rewrite (butterfly_gains _ Harr) in Hc. change (copies (flights (start n ts))) with 1%nat in Hc.
  change (gains ButterflyTopo (arrived (start n ts))) with 0 in Hc.
  assert (Hcopies : copies (flights s) = (1 + length (List.filter splits (arrived s)))%nat) by lia.
  split; [done|]. apply (net_goes_on from_packet port_of emit ButterflyTopo p Hemit Hp Hne s Hun). lia.
Qed.

(** ** Examples and witnesses *)

(** A switch that sends to all neighbours but one. *)
Definition emit_ex (links : list (node * node)) (v u : node) (acts : list of_action) : list node :=
  match acts with
  | ActOutput OFPP_ALL :: _ => List.filter (fun w => negb (bool_decide (w = u))) (neighbours links v)
  | _ => []
  end.

Definition run_ex (links : list (node * node)) (s d : Z) (v : node) (ks : list nat) : option (net Z) :=
  net_run (fun _ => tt) (fun _ _ => 1) (emit_ex links) (packet_ex s d 2048) ks (mkNet (fun _ => ∅) [(Host 1, v)] []).

(** With one switch the frame reaches every other host once, and that is all. *)
Example star_ends :
  option_map (fun s => (flights s, arrived s)) (run_ex ButterflyTopo_s1 1 9 (Switch 1) (repeat 0%nat 4)) =
  Some ([], [(Host 1, Switch 1); (Switch 1, Host 2); (Switch 1, Host 3); (Switch 1, Host 4)]).
Proof. vm_compute. reflexivity. Qed.

(** Between two switches too. *)
Example line_ends :
  option_map (fun s => (flights s, arrived s)) (run_ex MyTopo 1 9 (Switch 3) (repeat 0%nat 3)) =
  Some ([], [(Host 1, Switch 3); (Switch 3, Switch 4); (Switch 4, Host 2)]).
Proof. vm_compute. reflexivity. Qed.

(** After a hundred copies were handled in the order they came, 25 are on their way to switches. *)
Example storm_grows : option_map (fun s => copies (flights s)) (run_ex ButterflyTopo 1 9 (Switch 1) (repeat 0%nat 100)) = Some 25%nat.
Proof. vm_compute. reflexivity. Qed.

Lemma butterfly_storm_witness :
  match run_ex ButterflyTopo 1 9 (Switch 1) (repeat 0%nat 5) with
  | Some s => exists k s', net_next (fun _ => tt) (fun _ _ => 1) (emit_ex ButterflyTopo) (packet_ex 1 9 2048) k s = Some s'
  | None => False
  end.
Proof.
  destruct (run_ex ButterflyTopo 1 9 (Switch 1) (repeat 0%nat 5)) as [s|] eqn:E; [|vm_compute in E; discriminate E].
  apply (butterfly_storm (fun _ => tt) (fun _ _ => 1) (emit_ex ButterflyTopo) (packet_ex 1 9 2048) 1 (fun _ => ∅) (repeat 0%nat 5) s);
    [reflexivity|reflexivity|discriminate|intros v; apply lookup_empty|left; reflexivity|exact E].
Defined.
